(* ===== verification/_CoqProject ===== *)
-Q . S2P
Prelude.v
Binary.v
Fmt.v
IO.v
Vars.v
Cursor.v
Json.v
Config.v
Database.v
Server.v
Net.v
Sha.v
Session.v
PgWire.v
PgAuth.v
PgServer.v
MysqlWire.v
MysqlHandshake.v
MysqlAuth.v
MysqlServer.v
Bson.v
MongoWire.v
MongoHandshake.v
MongoAuth.v
MongoServer.v
Probe.v
Protocol.v
Control.v
Pipe.v
Failing.v
Handler.v
Race.v
Fair.v
System.v
Once.v
Life.v
Isolation.v
Cli.v
