(* ===== verification/Prelude.v ===== *)
(** * dbpivot: a verification development

    dbpivot is a local proxy for PostgreSQL, MySQL and MongoDB.  An application
    connects to it under a logical database name; a command line switches all
    databases at once between targets (local, staging, ...), closing the
    connections to the old ones.  The program has four layers, and the files
    below follow them:

    - configuration and templates (src/internal/config);
    - the proxy core: routing state, connection registry, the all-databases
      switch, per-protocol client handlers, upstream logins, the raw pipe and the
      health probes (src/internal/proxy);
    - the control socket: JSON requests and responses (src/internal/control);
    - the command line (src/cmd/dbpivot/main.go).

    ** How the code is modelled

    A Go function is a Rocq function of the same name.  Its outcome is a [res]: a
    value, an error value ([error] keeps formats and arguments, [Fmt.Error]
    renders them), [Panic] for a run-time panic, or [NoFuel] for a loop that ran
    out of fuel.  Stateful code is in the monad [M S]: it returns the outcome and
    the state it leaves, also when it fails.  Integers are [Z] with the
    conversions of their width written out ([uint], [sint]); strings and slices
    are lists of bytes; an index or slice expression out of range is [Panic].
    Go maps are [gmap]s; where the code ranges over one, the visiting order is an
    argument, and the theorems hold for every order.

    A connection ([IO.conn]) is what its holder sees of it: the bytes the peer
    will have sent and how the stream ends, the bytes written so far, when writes
    start to fail, and whether it was closed.  A sequential exchange with any peer
    is a run on the bytes that peer ends up sending, so theorems quantify over all
    of them.  Deadlines show as one of the ways a stream ends.

    Loops run on fuel that is a function of the input ([S (length rx)] where each
    round consumes a message, the length of the text for parsers, the nesting for
    BSON and JSON); that it is never exhausted is part of the totality statements
    ([safe], [<> NoFuel]).

    Concurrent code is a step relation whose steps are the accesses to shared state
    that a mutex, an atomic pointer, a channel or the network makes atomic, with
    the program counter of each goroutine in the state.  An execution is a function
    from time to states; liveness theorems assume that each goroutine is scheduled
    fairly (if it can act, it later acts or can no longer act).

    Code that is not in the repository is a class argument: [Unicode] (which runes
    are printable), [Dialer] and [UnixSocket] (dialing), [TLS], [Scram] (the
    xdg-go/scram library), [RSA], [Rand], [Target_arch] (GOOS and GOARCH),
    [ClientEnv] (clock and remote address), [JsonText] (wording of the JSON
    errors); the YAML decoder and file reads are arguments of [Load].  Each has a
    concrete instance in the witnesses.  The parts of Go's standard library the
    code relies on are modelled: fmt, strconv, unicode/utf8, strings, bufio, io,
    encoding/binary, encoding/json, SHA-1 and SHA-256.

    ** Files

    - Prelude (this file), Binary, Fmt, IO, Cursor, Net, Sha, Json: bytes, machine
      integers, results, the monad, and the standard-library parts above.
    - Vars: config/variables.go.  Config: config/config.go.
    - Database: proxy/database.go, a store of [Database] records and [Conn] objects
      shared by all handlers.  Server: the control side of proxy/server.go ([New],
      [SwitchAll], [Shutdown], listener binding).
    - Session: one client connection as its handler sees it.  PgWire, PgAuth,
      PgServer: pgwire.go, auth.go and the PostgreSQL handler of server.go.
      MysqlWire, MysqlHandshake, MysqlAuth, MysqlServer: mysqlwire.go, mysqlauth.go,
      mysqlclient.go, mysqlserver.go.  Bson, MongoWire, MongoHandshake, MongoAuth,
      MongoServer: bson.go, mongowire.go, mongohandshake.go with mongoadmin.go,
      mongoauth.go, mongoserver.go.
    - Probe: probe.go.  Pipe: [pipeBidi] as a step relation over its two goroutines.
      Handler: [handleConn], [acceptLoop], the end of [Start] as functions.
    - Protocol, Control: control/protocol.go, server.go and client.go, with the
      daemon behind the class [Daemon] and its laws.  Cli: main.go.
    - The concurrent program, in layers.  Race: switches and handlers interleaved at
      their atomic actions on the shared state.  Fair: executions, fair scheduling
      and the rule for liveness.  System: Race with a Pipe for every registered
      connection.  Life: System with the main goroutine in [Start], the accept
      loops, the control server's goroutines and the signal goroutine in
      [Shutdown], up to the end of the process, also by the panic of a handler.
      Isolation: which client may reach which upstream, over all of Life.

    ** What the theorems show

    The switch (Server, Race, System): [SwitchAll] fails exactly when some database
    cannot follow and then changes nothing; otherwise every database moves, every
    registered connection is closed.  The map orders decide only the order of the
    report and which failing database an error names.  The contract is [next_target], what a switch makes of one database.  In every
    interleaving the registry invariant holds and the connections registered when
    a switch stored its target are closed; run alone, the atomic steps are
    [SwitchAll].  With fair scheduling every switch finishes and the connections it
    found end, their handlers included, whatever the peers do.  Two theorems
    exhibit the races the code has: a connection dialed before a switch and
    registered after it survives, and two concurrent switches can mix.

    The process (Life, Isolation): it serves until a signal, a failing listener or
    the panic of a MySQL handler ends it, and with fair scheduling a signal always
    does; after [Shutdown] closed the server no request passes its check, but the
    switch of one that passed before can still begin; run alone, the signal
    goroutine's steps are [Shutdown].  Through all of it a client of a
    listener is only ever connected to a declared target of a database of that
    listener's adapter.  Two theorems show what goes wrong: the process does not
    wait for its own shutdown, it can end as soon as the listeners are closed; and
    one malformed MySQL login packet ends it at once.

    Connections (PgServer, MysqlServer, MongoServer, Handler, Pipe): a client is
    routed, refused or connected as its first messages, the routing state and the
    upstream demand, no byte of it is lost, nothing is registered before the
    upstream accepted the target's credentials; the raw pipe delivers prefixes of
    what was sent and returns once its connections are closed; no handler leaves
    its connection registered or open.

    Logins (PgAuth, MysqlAuth, MongoAuth): the exchange succeeds exactly on the
    transcripts of the protocol; the MySQL password is never sent in clear
    without TLS.

    Codecs (PgWire, MysqlWire, Bson, MongoWire, Protocol): what is written is read
    back, on every reader and chunking, what is read is well typed, and the decoders
    are total, with one exception: the parser of the MySQL login packet panics when
    a length in it overflows a signed sum.

    Control and command line (Control, Cli, Probe): the control handler survives
    any input and only a successful [use] changes the daemon; [dbpivot use] exits
    with 0 exactly when the switch was possible and made, with an accurate answer;
    [status] and the ping of a second daemon report the state; the health lines of
    PostgreSQL and MySQL targets are accurate, while those of MongoDB targets say
    whether a PostgreSQL server answers there; start-up never touches a running
    daemon, and binds its control socket after the health check and before the
    listeners, so that a listener that cannot be opened leaves the socket behind.
    A run of two daemons shows how one that is shutting down can remove the socket
    of its successor.

    Configuration (Config, Vars): [Validate] accepts exactly the configurations that
    satisfy the rules; [Resolve] is substitution on templates; a target with a lone
    dollar sign in its database name validates and can never be activated.

    ** Not modelled

    Logging; flag parsing (cobra); the YAML decoder; time, except as the end of a
    stream or of a wait (the five-second grace period may end at any moment);
    Go's memory and stack limits, so neither a huge message nor a deeply nested BSON
    document exhausts anything here; the TLS, SCRAM, RSA and random libraries, which
    are parameters; src/e2e and the tests. *)
From Stdlib Require Export ZArith Lia.
From Stdlib Require Import Strings.Byte Strings.String.
From stdpp Require Export base tactics list gmap sets option.
From stdpp Require Import strings.
Export String.StringSyntax.
Export list_relations.list.

(** * Bytes *)

Notation byte := Byte.byte.
Notation bytes := (list Byte.byte).

Declare Scope go_scope.
Delimit Scope go_scope with go.
Open Scope Z_scope.

(** Go string literals: a Go string is a sequence of bytes. *)
Definition str (s : String.string) : bytes := String.list_byte_of_string s.
Arguments str s%_string_scope : simpl never.

(** The unsigned value of a byte and Go's [byte(x)] conversion. *)
Definition bval (b : byte) : Z := Z.of_N (Byte.to_N b).
Definition tobyte (z : Z) : byte :=
  match Byte.of_N (Z.to_N (z mod 256)) with Some b => b | None => Byte.x00 end.

#[export] Instance byte_eq_decision : EqDecision byte := Byte.byte_eq_dec.

Lemma bval_range b : 0 <= bval b < 256.
Proof. unfold bval. pose proof (Byte.to_N_bounded b). lia. Qed.

Lemma tobyte_bval b : tobyte (bval b) = b.
Proof.
  unfold tobyte. rewrite Z.mod_small by apply bval_range.
  unfold bval. rewrite N2Z.id, Byte.of_to_N. done.
Qed.

Lemma bval_tobyte z : bval (tobyte z) = z mod 256.
Proof.
  unfold tobyte. pose proof (Z.mod_pos_bound z 256 ltac:(lia)).
  destruct (Byte.of_N (Z.to_N (z mod 256))) eqn:E.
  - unfold bval. erewrite Byte.to_of_N by exact E. lia.
  - apply Byte.of_N_None_iff in E. lia.
Qed.

Lemma bval_inj b1 b2 : bval b1 = bval b2 -> b1 = b2.
Proof. intros H. by rewrite <- (tobyte_bval b1), H, tobyte_bval. Qed.

#[export] Instance byte_countable : Countable byte.
Proof.
  refine (inj_countable' bval tobyte _). exact tobyte_bval.
Defined.

(** * Machine integers *)

(** Conversions to the fixed-width types of Go: unsigned types wrap modulo
    [2^w], signed types are the two's complement reading of the same bits. *)
Definition uint (w : Z) (z : Z) : Z := z mod 2 ^ w.
Definition sint (w : Z) (z : Z) : Z :=
  let m := z mod 2 ^ w in if m <? 2 ^ (w - 1) then m else m - 2 ^ w.
Notation uint8 := (uint 8).
Notation uint16 := (uint 16).
Notation uint32 := (uint 32).
Notation uint64 := (uint 64).
Notation int32 := (sint 32).
Notation int64 := (sint 64).

Lemma uint_small w z : 0 <= z < 2 ^ w -> uint w z = z.
Proof. apply Z.mod_small. Qed.

Lemma sint_small w z : 0 < w -> - 2 ^ (w - 1) <= z < 2 ^ (w - 1) -> sint w z = z.
Proof.
  intros Hw H. unfold sint.
  assert (2 ^ w = 2 * 2 ^ (w - 1)) as E.
  { replace w with (Z.succ (w - 1)) at 1 by lia. rewrite Z.pow_succ_r by lia. done. }
  assert (0 < 2 ^ (w - 1)) by (apply Z.pow_pos_nonneg; lia).
  destruct (decide (0 <= z)).
  - rewrite Z.mod_small by lia. destruct (Z.ltb_spec z (2 ^ (w - 1))); lia.
  - assert (z mod 2 ^ w = z + 2 ^ w) as ->.
    { rewrite <- (Z.mod_add z 1) by lia. rewrite Z.mod_small; lia. }
    destruct (Z.ltb_spec (z + 2 ^ w) (2 ^ (w - 1))); lia.
Qed.

Lemma sint_range w z : 0 < w -> - 2 ^ (w - 1) <= sint w z < 2 ^ (w - 1).
Proof.
  intros Hw. unfold sint.
  assert (2 ^ w = 2 * 2 ^ (w - 1)) as E.
  { replace w with (Z.succ (w - 1)) at 1 by lia. rewrite Z.pow_succ_r by lia. done. }
  assert (0 < 2 ^ (w - 1)) by (apply Z.pow_pos_nonneg; lia).
  pose proof (Z.mod_pos_bound z (2 ^ w) ltac:(lia)).
  destruct (Z.ltb_spec (z mod 2 ^ w) (2 ^ (w - 1))); lia.
Qed.

Lemma sint_uint w z : sint w (uint w z) = sint w z.
Proof.
  unfold sint, uint. rewrite Zmod_mod. done.
Qed.

Lemma sint_mod w z : 0 <= w -> sint w z mod 2 ^ w = z mod 2 ^ w.
Proof.
  intros Hw. unfold sint.
  assert (0 < 2 ^ w) by (apply Z.pow_pos_nonneg; lia).
  destruct (_ <? _); [by rewrite Zmod_mod|].
  replace (z mod 2 ^ w - 2 ^ w) with (z mod 2 ^ w + (-1) * 2 ^ w) by lia.
  rewrite Z.mod_add by lia. by rewrite Zmod_mod.
Qed.

(** * Results: Go's (value, error) pairs and run-time panics *)

(** An [error] value. [Errorf] keeps the format string and its arguments;
    [Fmt.Error] renders it. [ESys] is an error made by the operating system
    or a library the program calls; [ESwitchPlan] is [proxy.SwitchPlanError]. *)
Inductive error : Type :=
  | EOF
  | ErrUnexpectedEOF
  | ErrClosed
  | ESys (msg : bytes)
  | Errorf (format : bytes) (args : list farg)
  | ESwitchPlan (virtualName : bytes) (missing : list bytes) (err : error)
with farg : Type :=
  | FInt (z : Z)
  | FStr (s : bytes)
  | FByte (b : byte)
  | FStrs (l : list bytes)
  | FErr (e : error).

(** The outcome of a call: a value, a Go error, a run-time panic (index or
    slice bounds out of range, explicit [panic]), or, for loops run with a
    fuel argument, exhaustion of the fuel (never reached: each loop has a
    theorem saying so). *)
Inductive res (A : Type) : Type :=
  | Ok (a : A)
  | Err (e : error)
  | Panic
  | NoFuel.
Arguments Ok {A} a.
Arguments Err {A} e.
Arguments Panic {A}.
Arguments NoFuel {A}.

#[export] Instance res_ret : MRet res := fun A a => Ok a.
#[export] Instance res_bind : MBind res := fun A B k r =>
  match r with Ok a => k a | Err e => Err e | Panic => Panic | NoFuel => NoFuel end.

Definition is_ok {A} (r : res A) : bool := match r with Ok _ => true | _ => false end.
Definition is_err {A} (r : res A) : bool := match r with Err _ => true | _ => false end.
Definition is_panic {A} (r : res A) : bool := match r with Panic => true | _ => false end.
Definition map_err {A} (f : error -> error) (r : res A) : res A :=
  match r with Err e => Err (f e) | r => r end.
(** [fmt.Errorf("<ctx>: %w", err)]. *)
Definition wrap_err (ctx : bytes) (e : error) : error := Errorf (ctx ++ str ": %w") [FErr e].

(** State-passing computations: every call returns its outcome and the state
    it leaves behind, also when it fails. *)
Definition M (S A : Type) : Type := S -> res A * S.

#[export] Instance M_ret S : MRet (M S) := fun A a s => (Ok a, s).
#[export] Instance M_bind S : MBind (M S) := fun A B k m s =>
  match m s with
  | (Ok a, s') => k a s'
  | (Err e, s') => (Err e, s')
  | (Panic, s') => (Panic, s')
  | (NoFuel, s') => (NoFuel, s')
  end.

Definition fail {S A} (e : error) : M S A := fun s => (Err e, s).
Definition lift {S A} (r : res A) : M S A := fun s => (r, s).
(** Run [m] and hand its Go error to the caller as a value; panics propagate. *)
Definition try_ {S A} (m : M S A) : M S (error + A) := fun s =>
  match m s with
  | (Ok a, s') => (Ok (inr a), s')
  | (Err e, s') => (Ok (inl e), s')
  | (Panic, s') => (Panic, s')
  | (NoFuel, s') => (NoFuel, s')
  end.
(** [_ = m]: the error is dropped. *)
Definition ignore {S A} (m : M S A) : M S unit := _ ← try_ m; mret tt.
Definition with_err {S A} (f : error -> error) (m : M S A) : M S A :=
  fun s => let '(r, s') := m s in (map_err f r, s').
(** Run [m] on a component of a larger state. *)
Definition zoom {S T A} (get : S -> T) (put : T -> S -> S) (m : M T A) : M S A :=
  fun s => let '(r, t) := m (get s) in (r, put t s).
Definition gets {S A} (f : S -> A) : M S A := fun s => (Ok (f s), s).
Definition modify {S} (f : S -> S) : M S unit := fun s => (Ok tt, f s).

Lemma M_bind_ok {S A B} (m : M S A) (k : A -> M S B) s a s' : m s = (Ok a, s') -> (m ≫= k) s = k a s'.
Proof. intros E. unfold mbind, M_bind. by rewrite E. Qed.
Lemma M_bind_err {S A B} (m : M S A) (k : A -> M S B) s e s' : m s = (Err e, s') -> (m ≫= k) s = (Err e, s').
Proof. intros E. unfold mbind, M_bind. by rewrite E. Qed.
Lemma M_bind_panic {S A B} (m : M S A) (k : A -> M S B) s s' : m s = (Panic, s') -> (m ≫= k) s = (Panic, s').
Proof. intros E. unfold mbind, M_bind. by rewrite E. Qed.
Lemma M_bind_gets {S A B} (f : S -> A) (k : A -> M S B) s : (gets f ≫= k) s = k (f s) s.
Proof. done. Qed.
Lemma M_bind_modify {S B} (f : S -> S) (k : unit -> M S B) s : (modify f ≫= k) s = k tt (f s).
Proof. done. Qed.
Lemma lift_eq {S A} (r : res A) (s : S) : lift r s = (r, s).
Proof. done. Qed.
Lemma M_bind_lift_ok {S A B} (r : res A) (k : A -> M S B) s a : r = Ok a -> (lift r ≫= k) s = k a s.
Proof. by intros ->. Qed.
Lemma M_bind_lift_err {S A B} (r : res A) (k : A -> M S B) s e : r = Err e -> (lift r ≫= k) s = (Err e, s).
Proof. by intros ->. Qed.
Lemma try_ok {S A} (m : M S A) s a s' : m s = (Ok a, s') -> try_ m s = (Ok (inr a), s').
Proof. intros E. unfold try_. by rewrite E. Qed.
Lemma try_err {S A} (m : M S A) s e s' : m s = (Err e, s') -> try_ m s = (Ok (inl e), s').
Proof. intros E. unfold try_. by rewrite E. Qed.
Lemma ignore_ok {S A} (m : M S A) s a s' : m s = (Ok a, s') -> ignore m s = (Ok tt, s').
Proof. intros E. unfold ignore. by rewrite (M_bind_ok _ _ _ _ _ (try_ok _ _ _ _ E)). Qed.
Lemma ignore_err {S A} (m : M S A) s e s' : m s = (Err e, s') -> ignore m s = (Ok tt, s').
Proof. intros E. unfold ignore. by rewrite (M_bind_ok _ _ _ _ _ (try_err _ _ _ _ E)). Qed.
Lemma with_err_ok {S A} f (m : M S A) s a s' : m s = (Ok a, s') -> with_err f m s = (Ok a, s').
Proof. intros E. unfold with_err. by rewrite E. Qed.
Lemma with_err_err {S A} f (m : M S A) s e s' : m s = (Err e, s') -> with_err f m s = (Err (f e), s').
Proof. intros E. unfold with_err. by rewrite E. Qed.
Lemma zoom_eq {S T A} (get : S -> T) put (m : M T A) s r t : m (get s) = (r, t) -> zoom get put m s = (r, put t s).
Proof. intros E. unfold zoom. by rewrite E. Qed.

(** Run the first step of a computation whose outcome [E] gives. *)
Ltac mrun E :=
  first [ erewrite (M_bind_ok _ _ _ _ _ E) | erewrite (M_bind_err _ _ _ _ _ E)
        | erewrite (M_bind_panic _ _ _ _ E) ]; cbv beta iota.
(** Its [lift] of a pure result, computed by [E]. *)
Ltac mlift E :=
  first [ erewrite (M_bind_lift_ok _ _ _ _ E) | erewrite (M_bind_lift_err _ _ _ _ E) ]; cbv beta iota.

(** * Slices *)

Definition len {A} (l : list A) : Z := Z.of_nat (length l).

(** [b[i]] and [b[i:j]]; out of range they panic. *)
Definition index {A} (l : list A) (i : Z) : res A :=
  if decide (0 <= i) then
    match l !! Z.to_nat i with Some a => Ok a | None => Panic end
  else Panic.
Definition slice {A} (l : list A) (i j : Z) : res (list A) :=
  if decide (0 <= i <= j /\ j <= len l)
  then Ok (take (Z.to_nat (j - i)) (drop (Z.to_nat i) l)) else Panic.
Definition slice_from {A} (l : list A) (i : Z) : res (list A) := slice l i (len l).

Lemma len_nonneg {A} (l : list A) : 0 <= len l.
Proof. unfold len. lia. Qed.

Lemma len_app {A} (l1 l2 : list A) : len (l1 ++ l2) = len l1 + len l2.
Proof. unfold len. rewrite length_app. lia. Qed.

Lemma len_cons {A} (a : A) l : len (a :: l) = 1 + len l.
Proof. unfold len. simpl. lia. Qed.

Lemma len_nil {A} : len (@nil A) = 0.
Proof. done. Qed.

Lemma cons_inv {A} (x y : A) l k : x :: l = y :: k -> x = y /\ l = k.
Proof. by intros [= -> ->]. Qed.

#[export] Hint Rewrite @len_app @len_cons @len_nil : len.

(** Linear arithmetic over lengths. *)
Ltac pose_len :=
  repeat match goal with
  | |- context [len ?l] =>
      lazymatch goal with _ : 0 <= len l |- _ => fail | _ => pose proof (len_nonneg l) end
  | H : context [len ?l] |- _ =>
      lazymatch goal with _ : 0 <= len l |- _ => fail | _ => pose proof (len_nonneg l) end
  end.
Ltac len_lia := autorewrite with len in *; pose_len; lia.

Lemma index_app_r {A} (l1 : list A) a l2 i : i = len l1 -> index (l1 ++ a :: l2) i = Ok a.
Proof.
  intros ->. unfold index, len. rewrite decide_True by lia.
  rewrite Nat2Z.id, list_lookup_middle; done.
Qed.

Lemma index_app_lt {A} (l1 l2 : list A) i : i < len l1 -> index (l1 ++ l2) i = index l1 i.
Proof.
  intros H. unfold index, len in *. destruct (decide (0 <= i)); [|done].
  rewrite lookup_app_l by lia. done.
Qed.

Lemma index_some {A} (l : list A) i : 0 <= i < len l -> exists a, index l i = Ok a.
Proof.
  intros H. unfold index, len in *. rewrite decide_True by lia.
  destruct (l !! Z.to_nat i) eqn:E; [eauto|]. apply lookup_ge_None in E. lia.
Qed.

Lemma slice_mid {A} (l1 l2 l3 : list A) i j :
  i = len l1 -> j = len l1 + len l2 -> slice (l1 ++ l2 ++ l3) i j = Ok l2.
Proof.
  intros -> ->. unfold slice. rewrite decide_True.
  - replace (Z.to_nat (len l1 + len l2 - len l1)) with (length l2) by (unfold len; lia).
    unfold len. rewrite Nat2Z.id, drop_app_length, take_app_length. done.
  - rewrite !len_app. pose proof (len_nonneg l1). pose proof (len_nonneg l2).
    pose proof (len_nonneg l3). lia.
Qed.

Lemma slice_ok {A} (l : list A) i j :
  0 <= i <= j -> j <= len l -> exists l1 l2 l3,
  l = l1 ++ l2 ++ l3 /\ len l1 = i /\ len l2 = j - i /\ slice l i j = Ok l2.
Proof.
  intros Hi Hj. unfold slice. rewrite decide_True by lia. unfold len in *.
  exists (take (Z.to_nat i) l), (take (Z.to_nat (j - i)) (drop (Z.to_nat i) l)),
    (drop (Z.to_nat (j - i)) (drop (Z.to_nat i) l)).
  rewrite take_drop, take_drop, !length_take, length_drop. split_and!; [done|lia|lia|done].
Qed.

(** [copy(out[pos:], src)] and [out[pos] = b] on a buffer of fixed size: the
    slice expression and the store panic out of range, the copy truncates. *)
Definition copy_at (out : bytes) (pos : Z) (src : bytes) : res bytes :=
  if decide (0 <= pos <= len out) then
    let p := Z.to_nat pos in
    let src := take (length out - p) src in
    Ok (take p out ++ src ++ drop (p + length src) out)
  else Panic.
Definition set_at (out : bytes) (pos : Z) (b : byte) : res bytes :=
  if decide (0 <= pos < len out) then Ok (<[Z.to_nat pos := b]> out) else Panic.
(** [make([]byte, n)]. *)
Definition zeros (n : Z) : bytes := repeat Byte.x00 (Z.to_nat n).

(** Filling a fresh buffer from the left: [done] is written, [k] zeros remain. *)
Lemma copy_at_fill (written src : bytes) k pos :
  pos = len written -> len src <= k ->
  copy_at (written ++ zeros k) pos src = Ok ((written ++ src) ++ zeros (k - len src)).
Proof.
  intros -> Hk. pose proof (len_nonneg src) as Hs. unfold copy_at, zeros.
  rewrite decide_True by (rewrite len_app; unfold len; lia).
  unfold len in *. rewrite Nat2Z.id, length_app, repeat_length.
  rewrite take_app_length, take_ge by lia.
  rewrite drop_app_ge, <- app_assoc by lia. do 3 f_equal.
  replace (length written + length src - length written)%nat with (length src) by lia.
  apply (list_eq_same_length _ _ (Z.to_nat k - length src)).
  - rewrite repeat_length. lia.
  - rewrite length_drop, repeat_length. lia.
  - intros i x y _ Hx Hy. rewrite lookup_drop in Hx.
    apply list_elem_of_lookup_2, list_elem_of_In, repeat_spec in Hx.
    apply list_elem_of_lookup_2, list_elem_of_In, repeat_spec in Hy. congruence.
Qed.

Lemma set_at_fill (written : bytes) k pos b :
  pos = len written -> 1 <= k ->
  set_at (written ++ zeros k) pos b = Ok ((written ++ [b]) ++ zeros (k - 1)).
Proof.
  intros -> Hk. unfold set_at, zeros.
  rewrite decide_True by (rewrite len_app; unfold len; rewrite repeat_length; lia).
  unfold len. rewrite Nat2Z.id.
  replace (Z.to_nat k) with (S (Z.to_nat (k - 1))) by lia. cbn [repeat].
  by rewrite insert_app_r_alt, Nat.sub_diag, <- app_assoc by lia.
Qed.

(** * Cursors: [rest] is what follows position [pos] of [b] *)

Definition at_pos {A} (b : list A) (pos : Z) (rest : list A) : Prop :=
  exists pre, b = pre ++ rest /\ len pre = pos.

Lemma at_start {A} (b : list A) : at_pos b 0 b.
Proof. by exists []. Qed.

Lemma at_some {A} (b : list A) pos : 0 <= pos <= len b -> exists rest, at_pos b pos rest.
Proof.
  intros Hp. exists (drop (Z.to_nat pos) b), (take (Z.to_nat pos) b). rewrite take_drop.
  split; [done|]. unfold len in *. rewrite length_take. lia.
Qed.

Lemma at_len {A} (b : list A) pos rest : at_pos b pos rest -> len b = pos + len rest /\ 0 <= pos.
Proof. intros (pre & -> & <-). split; len_lia. Qed.

Lemma at_app {A} (b : list A) pos f rest : at_pos b pos (f ++ rest) -> at_pos b (pos + len f) rest.
Proof. intros (pre & -> & <-). exists (pre ++ f). rewrite app_assoc. split; [done|len_lia]. Qed.

Lemma at_cons {A} (b : list A) pos x rest : at_pos b pos (x :: rest) -> at_pos b (pos + 1) rest.
Proof. intros H. by apply (at_app b pos [x] rest). Qed.

Lemma at_slice {A} (b : list A) pos f rest stop :
  at_pos b pos (f ++ rest) -> stop = pos + len f -> slice b pos stop = Ok f.
Proof. intros (pre & -> & <-) ->. by apply slice_mid. Qed.

Lemma at_slice_from {A} (b : list A) pos rest : at_pos b pos rest -> slice_from b pos = Ok rest.
Proof.
  intros H. unfold slice_from. apply (at_slice b pos rest []).
  - by rewrite app_nil_r.
  - apply at_len in H. lia.
Qed.

Lemma at_index {A} (b : list A) pos x rest : at_pos b pos (x :: rest) -> index b pos = Ok x.
Proof. intros (pre & -> & <-). by apply index_app_r. Qed.

Lemma at_eq {A} (b : list A) pos pos' rest : at_pos b pos rest -> pos = pos' -> at_pos b pos' rest.
Proof. by intros H <-. Qed.

(** * Outcomes without a panic *)

Definition safe {A} (r : res A) : Prop := match r with Ok _ | Err _ => True | _ => False end.

Lemma safe_spec {A} (r : res A) : safe r -> r <> Panic /\ r <> NoFuel.
Proof. by destruct r. Qed.
Lemma safe_bind {A B} (r : res A) (k : A -> res B) :
  safe r -> (forall a, r = Ok a -> safe (k a)) -> safe (r ≫= k).
Proof. destruct r; cbn; auto. Qed.
Lemma safe_map_err {A} f (r : res A) : safe r -> safe (map_err f r).
Proof. by destruct r. Qed.
Lemma map_err_ok {A} f (r : res A) a : map_err f r = Ok a -> r = Ok a.
Proof. by destruct r. Qed.
Lemma safe_index {A} (b : list A) i : 0 <= i < len b -> safe (index b i).
Proof. intros H. by destruct (index_some b i H) as [x ->]. Qed.
Lemma safe_slice {A} (b : list A) i j : 0 <= i <= j -> j <= len b -> safe (slice b i j).
Proof. intros H1 H2. by destruct (slice_ok b i j H1 H2) as (? & ? & ? & _ & _ & _ & ->). Qed.
Lemma slice_len {A} (b : list A) i j s : slice b i j = Ok s -> len s = j - i.
Proof.
  unfold slice. case_decide as H; [|done]. intros [= <-]. unfold len in *. rewrite length_take, length_drop. lia.
Qed.
