(* ===== verification/Binary.v ===== *)
(** Go's [encoding/binary]: fixed-width little- and big-endian integers as
    byte strings, with the round-trip lemmas the wire codecs use. *)
From S2P Require Import Prelude.

(** [n] bytes of [z], least significant first, and the value of such a string. *)
Fixpoint le_bytes (n : nat) (z : Z) : bytes :=
  match n with
  | O => []
  | S n => tobyte z :: le_bytes n (z / 256)
  end.
Fixpoint le_val (b : bytes) : Z :=
  match b with
  | [] => 0
  | h :: t => bval h + 256 * le_val t
  end.
Definition be_bytes (n : nat) (z : Z) : bytes := rev (le_bytes n z).
Definition be_val (b : bytes) : Z := le_val (rev b).

Lemma length_le_bytes n z : length (le_bytes n z) = n.
Proof. revert z. induction n; intros; simpl; auto. Qed.

Lemma len_le_bytes n z : len (le_bytes n z) = Z.of_nat n.
Proof. unfold len. by rewrite length_le_bytes. Qed.

Lemma length_be_bytes n z : length (be_bytes n z) = n.
Proof. unfold be_bytes. by rewrite length_rev, length_le_bytes. Qed.

Lemma len_be_bytes n z : len (be_bytes n z) = Z.of_nat n.
Proof. unfold len. by rewrite length_be_bytes. Qed.

#[export] Hint Rewrite len_le_bytes len_be_bytes : len.

Lemma pow_256_succ n : 2 ^ (8 * Z.of_nat (S n)) = 256 * 2 ^ (8 * Z.of_nat n).
Proof.
  replace (8 * Z.of_nat (S n)) with (8 + 8 * Z.of_nat n) by lia.
  rewrite Z.pow_add_r by lia. done.
Qed.

Lemma le_val_le_bytes n z : le_val (le_bytes n z) = z mod 2 ^ (8 * Z.of_nat n).
Proof.
  revert z. induction n as [|n IH]; intros z; [by rewrite Z.mod_1_r|].
  cbn [le_bytes le_val]. rewrite IH, bval_tobyte, pow_256_succ.
  assert (0 < 2 ^ (8 * Z.of_nat n)) by (apply Z.pow_pos_nonneg; lia).
  rewrite Z.rem_mul_r by lia. lia.
Qed.

Lemma be_val_be_bytes n z : be_val (be_bytes n z) = z mod 2 ^ (8 * Z.of_nat n).
Proof. unfold be_val, be_bytes. by rewrite rev_involutive, le_val_le_bytes. Qed.

Lemma le_val_range b : 0 <= le_val b < 2 ^ (8 * len b).
Proof.
  unfold len. induction b as [|h t IH]; [simpl; lia|].
  cbn [le_val length]. rewrite pow_256_succ. pose proof (bval_range h). lia.
Qed.

Lemma be_val_range b : 0 <= be_val b < 2 ^ (8 * len b).
Proof.
  unfold be_val. replace (len b) with (len (rev b)); [apply le_val_range|].
  unfold len. by rewrite length_rev.
Qed.

Lemma le_bytes_le_val b n : length b = n -> le_bytes n (le_val b) = b.
Proof.
  intros <-. induction b as [|h t IH]; [done|].
  cbn [le_val length le_bytes]. pose proof (bval_range h). f_equal.
  - apply bval_inj. rewrite bval_tobyte, (Z.mul_comm 256), Z.mod_add by lia.
    by apply Z.mod_small.
  - rewrite (Z.mul_comm 256), Z.div_add by lia.
    by rewrite (Z.div_small (bval h)) by lia.
Qed.

Lemma be_bytes_be_val b n : length b = n -> be_bytes n (be_val b) = b.
Proof.
  intros H. unfold be_bytes, be_val.
  rewrite le_bytes_le_val by (by rewrite length_rev). apply rev_involutive.
Qed.

Lemma le_bytes_mod n z w : w = 8 * Z.of_nat n -> le_bytes n (z mod 2 ^ w) = le_bytes n z.
Proof.
  intros ->. rewrite <- (le_bytes_le_val (le_bytes n z) n) by apply length_le_bytes.
  by rewrite le_val_le_bytes.
Qed.

Lemma le_val_uint n z w : w = 8 * Z.of_nat n -> le_val (le_bytes n z) = uint w z.
Proof. intros ->. apply le_val_le_bytes. Qed.

Lemma be_val_uint n z w : w = 8 * Z.of_nat n -> be_val (be_bytes n z) = uint w z.
Proof. intros ->. apply be_val_be_bytes. Qed.

(** The accessors of the two byte orders. [Uint32] and the like index their
    argument, so a slice that is too short panics. *)
Module LittleEndian.
Definition Uint16 (b : bytes) : res Z := x ← slice b 0 2; mret (le_val x).
Definition Uint32 (b : bytes) : res Z := x ← slice b 0 4; mret (le_val x).
Definition Uint64 (b : bytes) : res Z := x ← slice b 0 8; mret (le_val x).
Definition AppendUint16 (b : bytes) (v : Z) : bytes := b ++ le_bytes 2 v.
Definition AppendUint32 (b : bytes) (v : Z) : bytes := b ++ le_bytes 4 v.
Definition AppendUint64 (b : bytes) (v : Z) : bytes := b ++ le_bytes 8 v.
End LittleEndian.

Module BigEndian.
Definition Uint32 (b : bytes) : res Z := x ← slice b 0 4; mret (be_val x).
(** The four bytes [PutUint32] stores. *)
Definition PutUint32 (v : Z) : bytes := be_bytes 4 v.
End BigEndian.

(** The bit-level spelling [b0 | b1<<8 | b2<<16] is the little-endian value. *)
Lemma lor_shift_add a b k : 0 <= k -> 0 <= a < 2 ^ k -> 0 <= b ->
  Z.lor a (Z.shiftl b k) = a + b * 2 ^ k.
Proof.
  intros Hk Ha Hb. rewrite Z.shiftl_mul_pow2 by lia.
  assert (Z.land a (b * 2 ^ k) = 0) as E.
  { apply Z.bits_inj'. intros i Hi. rewrite Z.land_spec, Z.bits_0.
    destruct (Z.ltb_spec i k).
    - rewrite Z.mul_pow2_bits_low by lia. apply andb_false_r.
    - destruct (decide (a = 0)) as [->|]; [by rewrite Z.bits_0|].
      rewrite (Z.bits_above_log2 a); [done|lia|].
      apply Z.log2_lt_pow2; [lia|]. eapply Z.lt_le_trans; [apply Ha|].
      apply Z.pow_le_mono_r; lia. }
  by rewrite Z.add_nocarry_lxor, Z.lxor_lor by done.
Qed.

Lemma be_bytes_uint n z w : w = 8 * Z.of_nat n -> be_bytes n (uint w z) = be_bytes n z.
Proof. intros H. unfold be_bytes. f_equal. by apply le_bytes_mod. Qed.

Lemma le_bytes_uint n z w : w = 8 * Z.of_nat n -> le_bytes n (uint w z) = le_bytes n z.
Proof. apply le_bytes_mod. Qed.

(** Reading back a field of a given value. *)
Lemma BigEndian_Uint32_be z r : 0 <= z < 2 ^ 32 -> BigEndian.Uint32 (be_bytes 4 z ++ r) = Ok z.
Proof.
  intros Hz. unfold BigEndian.Uint32. rewrite (slice_mid [] (be_bytes 4 z) r) by (rewrite ?len_be_bytes; done).
  cbn [mbind res_bind mret res_ret]. by rewrite be_val_be_bytes, Z.mod_small.
Qed.

Lemma BigEndian_Uint32_ok b : 4 <= len b -> exists z, BigEndian.Uint32 b = Ok z /\ 0 <= z < 2 ^ 32 /\
  exists r, b = be_bytes 4 z ++ r.
Proof.
  intros H. unfold BigEndian.Uint32. destruct (slice_ok b 0 4) as (l1 & l2 & l3 & -> & H1 & H2 & E); [lia..|].
  rewrite E. cbn [mbind res_bind mret res_ret]. assert (l1 = []) as -> by (destruct l1; [done|unfold len in H1; cbn in H1; lia]).
  pose proof (be_val_range l2) as Hr. rewrite H2 in Hr.
  eexists. split; [done|]. split; [exact Hr|]. exists l3. rewrite be_bytes_be_val; [done|unfold len in H2; lia].
Qed.
