(* ===== verification/Fmt.v ===== *)
(** The parts of Go's [strconv], [unicode/utf8] and [fmt] that the
    program uses: decimal and hexadecimal numbers, [strconv.Quote],
    [fmt.Sprintf] for the verbs that occur, and the text of an [error].

    The table behind [strconv.IsPrint] for runes outside ASCII is data of the
    Go release and a parameter, the class [Unicode]. *)
From Stdlib Require Import Strings.Byte.
From S2P Require Import Prelude.

Class Unicode := { IsPrint : Z -> bool }.

Definition digit (d : Z) : byte := tobyte (if d <? 10 then 48 + d else 87 + d).

(** Digits of [z >= 0] in base [base], most significant first. *)
Fixpoint digits (fuel : nat) (base z : Z) (acc : bytes) : bytes :=
  match fuel with
  | O => acc
  | S fuel =>
      let acc := digit (z mod base) :: acc in
      if z / base =? 0 then acc else digits fuel base (z / base) acc
  end.
Definition to_base (base z : Z) : bytes := digits (S (Z.to_nat (Z.log2 z))) base z [].

(** [strconv.Itoa]. *)
Definition Itoa (z : Z) : bytes :=
  if z <? 0 then str "-" ++ to_base 10 (- z) else to_base 10 z.

(** [%0<w>x]. *)
Definition hex_pad (w : nat) (z : Z) : bytes :=
  let d := to_base 16 z in repeat "0"%byte (w - length d) ++ d.

(** [utf8.DecodeRuneInString]: the first rune and its width. *)
Definition cont (b : byte) : Z := bval b mod 64.
Definition in_range (lo hi : Z) (b : byte) : bool := bool_decide (lo <= bval b <= hi).
Definition decode_rune (s : bytes) : Z * nat :=
  match s with
  | [] => (0xFFFD, 0%nat)
  | b0 :: r =>
      let v0 := bval b0 in
      if v0 <? 0x80 then (v0, 1%nat) else
      match r with
      | b1 :: r1 =>
          if in_range 0xC2 0xDF b0 && in_range 0x80 0xBF b1
          then ((v0 - 0xC0) * 64 + cont b1, 2%nat) else
          match r1 with
          | b2 :: r2 =>
              if in_range 0xE0 0xEF b0
                 && in_range (if v0 =? 0xE0 then 0xA0 else 0x80)
                             (if v0 =? 0xED then 0x9F else 0xBF) b1
                 && in_range 0x80 0xBF b2
              then ((v0 - 0xE0) * 4096 + cont b1 * 64 + cont b2, 3%nat) else
              match r2 with
              | b3 :: _ =>
                  if in_range 0xF0 0xF4 b0
                     && in_range (if v0 =? 0xF0 then 0x90 else 0x80)
                                 (if v0 =? 0xF4 then 0x8F else 0xBF) b1
                     && in_range 0x80 0xBF b2 && in_range 0x80 0xBF b3
                  then ((v0 - 0xF0) * 262144 + cont b1 * 4096 + cont b2 * 64 + cont b3, 4%nat)
                  else (0xFFFD, 1%nat)
              | [] => (0xFFFD, 1%nat)
              end
          | [] => (0xFFFD, 1%nat)
          end
      | [] => (0xFFFD, 1%nat)
      end
  end.

(** [utf8.AppendRune] for a rune below U+0800 (the program prints bytes). *)
Definition encode_rune_byte (b : byte) : bytes :=
  if bval b <? 0x80 then [b]
  else [tobyte (0xC0 + bval b / 64); tobyte (0x80 + bval b mod 64)].

Section Quote.
Context {U : Unicode}.

(** [appendEscapedRune]; [enc] is the rune's own encoding. *)
Definition escape_rune (q : byte) (r : Z) (enc : bytes) : bytes :=
  if (r =? bval q) || (r =? 92) then "\"%byte :: enc else
  if (32 <=? r) && (r <? 127) then enc else
  if (128 <=? r) && IsPrint r then enc else
  if r =? 7 then str "\a" else if r =? 8 then str "\b" else
  if r =? 12 then str "\f" else if r =? 10 then str "\n" else
  if r =? 13 then str "\r" else if r =? 9 then str "\t" else
  if r =? 11 then str "\v" else
  if (r <? 32) || (r =? 127) then str "\x" ++ hex_pad 2 r else
  if r <? 65536 then str "\u" ++ hex_pad 4 r else str "\U" ++ hex_pad 8 r.

Fixpoint quote_with (fuel : nat) (q : byte) (s : bytes) : bytes :=
  match fuel, s with
  | O, _ | _, [] => []
  | S fuel, b :: _ =>
      let '(r, w) := decode_rune s in
      (if (Nat.eqb w 1) && (r =? 0xFFFD) then str "\x" ++ hex_pad 2 (bval b)
       else escape_rune q r (take w s))
      ++ quote_with fuel q (drop w s)
  end.
(** [strconv.Quote] and [strconv.QuoteRune] (for a byte value). *)
Definition dquote : byte := Byte.x22.
Definition Quote (s : bytes) : bytes := [dquote] ++ quote_with (length s) dquote s ++ [dquote].
Definition QuoteRune (b : byte) : bytes :=
  [Byte.x27] ++ escape_rune Byte.x27 (bval b) (encode_rune_byte b) ++ [Byte.x27].

(** An argument of [Sprintf] once nested errors are rendered. *)
Inductive rarg : Type := RInt (z : Z) | RText (s : bytes) | RByte (b : byte) | RList (l : list bytes).

Fixpoint join (sep : bytes) (l : list bytes) : bytes :=
  match l with
  | [] => []
  | [s] => s
  | s :: l => s ++ sep ++ join sep l
  end.

(** One verb applied to one argument ([%d %s %v %w %q %c]). *)
Definition verb (v : byte) (a : rarg) : bytes :=
  match a with
  | RInt z => Itoa z
  | RText s => if decide (v = "q"%byte) then Quote s else s
  | RByte b => if decide (v = "q"%byte) then QuoteRune b else
               if decide (v = "c"%byte) then encode_rune_byte b else Itoa (bval b)
  | RList l => str "[" ++ join (str " ") l ++ str "]"
  end.
Definition hex_verb (w : byte) (a : rarg) : bytes :=
  let width := Z.to_nat (bval w - 48) in
  match a with
  | RInt z => hex_pad width z
  | RByte b => hex_pad width (bval b)
  | _ => []
  end.

(** [fmt.Sprintf]: [%0<w>x], or a single-letter verb. *)
Fixpoint Sprintf (f : bytes) (args : list rarg) {struct f} : bytes :=
  match f with
  | [] => []
  | c :: f =>
      if decide (c = "%"%byte) then
        match f, args with
        | v :: f1, a :: args =>
            match f1 with
            | w :: _ :: f2 => if decide (v = "0"%byte) then hex_verb w a ++ Sprintf f2 args
                              else verb v a ++ Sprintf f1 args
            | _ => verb v a ++ Sprintf f1 args
            end
        | _, _ => []
        end
      else c :: Sprintf f args
  end.

(** The text of an error, [err.Error()]. *)
Fixpoint Error (e : error) : bytes :=
  match e with
  | EOF => str "EOF"
  | ErrUnexpectedEOF => str "unexpected EOF"
  | ErrClosed => str "use of closed network connection"
  | ESys msg => msg
  | Errorf f args => Sprintf f (map render args)
  | ESwitchPlan name _ err => Sprintf (str "database %q: %v") [RText name; RText (Error err)]
  end
with render (a : farg) : rarg :=
  match a with
  | FInt z => RInt z
  | FStr s => RText s
  | FByte b => RByte b
  | FStrs l => RList l
  | FErr e => RText (Error e)
  end.
End Quote.

(** ** Numbers never contain a NUL byte *)

Lemma digit_nonzero d : 0 <= d < 16 -> digit d <> Byte.x00.
Proof.
  intros Hd E. apply (f_equal bval) in E. unfold digit in E. rewrite bval_tobyte in E.
  change (bval Byte.x00) with 0 in E.
  destruct (Z.ltb_spec d 10); rewrite Z.mod_small in E; lia.
Qed.

Lemma digits_no_nul fuel base z acc :
  0 < base <= 16 -> Byte.x00 ∉ acc -> Byte.x00 ∉ digits fuel base z acc.
Proof.
  intros Hb. revert z acc. induction fuel as [|fuel IH]; intros z acc Hacc; simpl; [done|].
  pose proof (Z.mod_pos_bound z base ltac:(lia)).
  pose proof (digit_nonzero (z mod base) ltac:(lia)).
  destruct (z / base =? 0); [set_solver|]. apply IH. set_solver.
Qed.

Lemma Itoa_no_nul z : Byte.x00 ∉ Itoa z.
Proof.
  unfold Itoa, to_base. destruct (z <? 0).
  - rewrite not_elem_of_app. split; [vm_compute; set_solver|].
    apply digits_no_nul; [lia|set_solver].
  - apply digits_no_nul; [lia|set_solver].
Qed.

(** ** Evaluation on concrete inputs *)

Example Itoa_examples :
  (Itoa 0, Itoa 65536, Itoa (-17)) = (str "0", str "65536", str "-17").
Proof. vm_compute. reflexivity. Qed.

Example Error_example :
  let _ := Build_Unicode (fun _ => true) in
  Error (Errorf (str "opcode 0x%08x at %d: %w") [FInt 0x4D2162F; FInt 3; FErr EOF])
  = str "opcode 0x04d2162f at 3: EOF".
Proof. vm_compute. reflexivity. Qed.
