(* ===== verification/IO.v ===== *)
(** Connections, [io.ReadFull], [io.Writer] and [bufio.Reader].

    A [conn] is one [net.Conn] as the code that holds it sees it: the bytes
    its peer sends before the stream ends ([rx]) and how it ends ([rend]),
    the bytes written to it so far ([tx]), how many further writes succeed
    ([wleft], [None] for "all of them"), and whether [Close] was called.  A run
    of sequential code against a peer, interactive or not, is a run on the
    bytes the peer ends up sending, so theorems quantify over all [rx].

    The [Reader] class is Go's [io.Reader] as the wire code uses it: only
    through [io.ReadFull].  Both a [conn] and a [bufio.Reader] implement it. *)
From S2P Require Import Prelude.

Record conn := mkconn {
  rx : bytes;
  rend : error;
  tx : bytes;
  wleft : option nat;
  shut : bool;
}.

Definition set_rx (b : bytes) (c : conn) : conn := mkconn b (rend c) (tx c) (wleft c) (shut c).
Definition set_tx (b : bytes) (c : conn) : conn := mkconn (rx c) (rend c) b (wleft c) (shut c).

(** The error [io.ReadFull] reports when the stream ends after [n] bytes of the
    requested ones were read. *)
Definition short_read_error (n : nat) (e : error) : error :=
  match e with
  | EOF => if decide (n = 0%nat) then EOF else ErrUnexpectedEOF
  | e => e
  end.

(** [io.ReadFull(c, buf)] with [len(buf) = n]. *)
Definition conn_read_full (n : nat) : M conn bytes := fun c =>
  if decide (n = 0%nat) then (Ok [], c) else
  if shut c then (Err ErrClosed, c) else
  if decide (n <= length (rx c))%nat
  then (Ok (take n (rx c)), set_rx (drop n (rx c)) c)
  else (Err (short_read_error (length (rx c)) (rend c)), set_rx [] c).

(** [c.Write(b)]: on failure nothing is transmitted. *)
Definition Write (b : bytes) : M conn unit := fun c =>
  if shut c then (Err ErrClosed, c) else
  match wleft c with
  | None => (Ok tt, set_tx (tx c ++ b) c)
  | Some (S k) => (Ok tt, mkconn (rx c) (rend c) (tx c ++ b) (Some k) (shut c))
  | Some O => (Err (ESys (str "write: broken pipe")), c)
  end.

(** [c.Close()]. *)
Definition Close : M conn unit := fun c =>
  (Ok tt, mkconn (rx c) (rend c) (tx c) (wleft c) true).

(** A connection on which every write succeeds and no [Close] happened yet. *)
Definition healthy (c : conn) : Prop := shut c = false /\ wleft c = None.

(** ** Readers *)

Class Reader (R : Type) := {
  ReadFull : nat -> M R bytes;
  pending : R -> bytes; (* what the reader will still deliver *)
  under : R -> conn; (* the connection it reads from *)
}.

(** Reading leaves the sending side of a connection alone. *)
Definition same_out (c c' : conn) : Prop :=
  tx c' = tx c /\ wleft c' = wleft c /\ shut c' = shut c /\ rend c' = rend c.

#[export] Instance same_out_preorder : PreOrder same_out.
Proof. unfold same_out. split; [done|]. intros c1 c2 c3. naive_solver congruence. Qed.

(** What a reader promises: it delivers its pending bytes in order, and fails
    with an error, having consumed everything, when too few are left. *)
Class ReaderLaws (R : Type) `{Reader R} := {
  ReadFull_enough : forall n r, shut (under r) = false -> (n <= length (pending r))%nat ->
    exists r', ReadFull n r = (Ok (take n (pending r)), r') /\
               pending r' = drop n (pending r) /\ same_out (under r) (under r');
  ReadFull_short : forall n r, shut (under r) = false -> (length (pending r) < n)%nat ->
    exists r', ReadFull n r = (Err (short_read_error (length (pending r)) (rend (under r))), r') /\
               pending r' = [] /\ same_out (under r) (under r');
}.

#[export] Instance conn_Reader : Reader conn :=
  { ReadFull := conn_read_full; pending := rx; under := id }.

#[export] Program Instance conn_ReaderLaws : ReaderLaws conn.
Next Obligation.
  intros n c Hs Hn. cbn in *. unfold conn_read_full, same_out.
  destruct (decide (n = 0%nat)) as [->|].
  - exists c. by rewrite take_0, drop_0.
  - rewrite Hs, decide_True by lia. eexists. split_and!; done.
Qed.
Next Obligation.
  intros n c Hs Hn. cbn in *. unfold conn_read_full, same_out.
  rewrite decide_False by lia. rewrite Hs, decide_False by lia.
  eexists. split_and!; done.
Qed.

(** ** bufio.Reader

    [br_chunks] are the sizes of the pieces in which the network hands over
    the peer's bytes: the n-th [Read] of the connection returns at most that
    many bytes (and at least one, unless the stream has ended). *)
Record bufr := Bufr {
  br_buf : bytes;
  br_chunks : list nat;
  br_conn : conn;
}.
Definition set_br_conn (c : conn) (r : bufr) : bufr := Bufr (br_buf r) (br_chunks r) c.
Definition NewReader (c : conn) (chunks : list nat) : bufr := Bufr [] chunks c.
Definition bufsize : nat := 4096.

(** One [Read] of the connection, of at most [limit] bytes. *)
Definition raw_read (limit : nat) (r : bufr) : bytes * bufr :=
  let k := Nat.min (Nat.max 1 (hd limit (br_chunks r))) limit in
  (take k (rx (br_conn r)),
   Bufr (br_buf r) (tl (br_chunks r)) (set_rx (drop k (rx (br_conn r))) (br_conn r))).

(** [io.ReadFull(br, buf)]: [acc] has been copied, [n] bytes are still wanted.
    A non-empty buffer is served first; an empty one is bypassed by large
    reads and refilled once otherwise. *)
Fixpoint br_read_loop (fuel n : nat) (acc : bytes) (r : bufr) : res bytes * bufr :=
  if decide (n = 0%nat) then (Ok acc, r) else
  match fuel with
  | O => (NoFuel, r)
  | S fuel =>
      match br_buf r with
      | _ :: _ =>
          let got := take n (br_buf r) in
          br_read_loop fuel (n - length got) (acc ++ got)
            (Bufr (drop n (br_buf r)) (br_chunks r) (br_conn r))
      | [] =>
          if shut (br_conn r) then (Err ErrClosed, r) else
          if decide (rx (br_conn r) = [])
          then (Err (short_read_error (length acc) (rend (br_conn r))), r) else
          let '(data, r1) := raw_read (Nat.max n bufsize) r in
          let got := take n data in
          br_read_loop fuel (n - length got) (acc ++ got)
            (Bufr (drop n data) (br_chunks r1) (br_conn r1))
      end
  end.
Definition br_read_full (n : nat) : M bufr bytes := fun r => br_read_loop n n [] r.

#[export] Instance bufr_Reader : Reader bufr :=
  { ReadFull := br_read_full; pending r := br_buf r ++ rx (br_conn r); under := br_conn }.

Lemma raw_read_split limit r data r1 : (0 < limit)%nat -> raw_read limit r = (data, r1) ->
  rx (br_conn r) = data ++ rx (br_conn r1) /\ br_buf r1 = br_buf r /\
  same_out (br_conn r) (br_conn r1) /\ (rx (br_conn r) <> [] -> data <> []).
Proof.
  unfold raw_read, same_out. intros Hl E. inversion E; subst; clear E. cbn.
  rewrite take_drop. split_and!; try done.
  destruct (rx (br_conn r)); [done|]. intros _.
  destruct (Nat.min _ _) eqn:E; [lia|done].
Qed.

(** Serving [n] bytes first from a prefix [p] of the stream, then from the rest. *)
Lemma take_step {A} n (p q : list A) :
  take n (p ++ q) = take n p ++ take (n - length (take n p)) (drop n p ++ q).
Proof.
  rewrite length_take, take_app. f_equal. destruct (decide (n <= length p)%nat).
  - rewrite (Nat.min_l n), Nat.sub_diag, take_0 by lia. replace (n - length p)%nat with 0%nat by lia. done.
  - rewrite Nat.min_r, drop_ge by lia. done.
Qed.

Lemma drop_step {A} n (p q : list A) :
  drop n (p ++ q) = drop (n - length (take n p)) (drop n p ++ q).
Proof.
  rewrite length_take, drop_app. destruct (decide (n <= length p)%nat).
  - rewrite (Nat.min_l n), Nat.sub_diag, drop_0 by lia. replace (n - length p)%nat with 0%nat by lia. done.
  - rewrite Nat.min_r, drop_ge by lia. done.
Qed.

Lemma br_read_loop_zero fuel acc r : br_read_loop fuel 0 acc r = (Ok acc, r).
Proof. by destruct fuel. Qed.

(** What one iteration of the loop does to a reader with pending bytes. *)
Lemma br_read_loop_step fuel n acc r :
  shut (br_conn r) = false -> n <> 0%nat -> pending r <> [] ->
  exists p q r1, pending r = p ++ q /\ p <> [] /\ pending r1 = drop n p ++ q /\
    same_out (br_conn r) (br_conn r1) /\
    br_read_loop (S fuel) n acc r = br_read_loop fuel (n - length (take n p)) (acc ++ take n p) r1.
Proof.
  intros Hs Hn Hp. cbn [br_read_loop]. rewrite decide_False by done. cbn [pending bufr_Reader] in *.
  destruct (br_buf r) as [|x buf] eqn:Eb.
  - cbn in Hp. rewrite Hs, decide_False by done.
    destruct (raw_read (n `max` bufsize) r) as [data r1] eqn:Er.
    apply raw_read_split in Er as (Hsp & Hb & Hso & Hd); [|unfold bufsize; lia].
    exists data, (rx (br_conn r1)). eexists. split_and!; [..|reflexivity]; cbn; auto.
  - exists (x :: buf), (rx (br_conn r)). eexists. split_and!; [..|reflexivity]; done.
Qed.

Lemma br_read_loop_enough fuel n acc r :
  shut (br_conn r) = false -> (n <= fuel)%nat -> (n <= length (pending r))%nat ->
  exists r', br_read_loop fuel n acc r = (Ok (acc ++ take n (pending r)), r') /\
             pending r' = drop n (pending r) /\ same_out (br_conn r) (br_conn r').
Proof.
  revert n acc r. induction fuel as [|fuel IH]; intros n acc r Hs Hf Hn.
  { assert (n = 0%nat) as -> by lia. exists r. by rewrite br_read_loop_zero, app_nil_r. }
  destruct (decide (n = 0%nat)) as [->|].
  { exists r. by rewrite br_read_loop_zero, app_nil_r. }
  destruct (br_read_loop_step fuel n acc r) as (p & q & r1 & Hr & Hpne & Hr1 & Hso & ->);
    [done..|intros E; rewrite E in Hn; cbn in Hn; lia|].
  assert (0 < length p)%nat by (destruct p; [done|cbn; lia]).
  rewrite Hr, length_app in Hn.
  destruct (IH (n - length (take n p))%nat (acc ++ take n p) r1) as (r' & E & Hp & Ho).
  - destruct Hso as (_ & _ & -> & _). done.
  - rewrite length_take. lia.
  - rewrite Hr1, length_take, length_app, length_drop. lia.
  - exists r'. rewrite E, Hp, Hr1, Hr, <- drop_step, <- app_assoc, <- take_step.
    split_and!; [done..|by etrans].
Qed.

Lemma br_read_loop_short fuel n acc r :
  shut (br_conn r) = false -> (length (pending r) < n <= fuel)%nat ->
  exists r', br_read_loop fuel n acc r =
    (Err (short_read_error (length acc + length (pending r)) (rend (br_conn r))), r') /\
    pending r' = [] /\ same_out (br_conn r) (br_conn r').
Proof.
  revert n acc r. induction fuel as [|fuel IH]; intros n acc r Hs Hn; [lia|].
  destruct (decide (pending r = [])) as [E|].
  { exists r. rewrite E, Nat.add_0_r. cbn in E. apply app_nil in E as [Eb Ex].
    cbn [br_read_loop]. rewrite decide_False by lia. rewrite Eb, Hs, decide_True by done. done. }
  destruct (br_read_loop_step fuel n acc r) as (p & q & r1 & Hr & Hpne & Hr1 & Hso & ->);
    [done|lia|done|].
  assert (0 < length p)%nat by (destruct p; [done|cbn; lia]).
  rewrite Hr, length_app in Hn.
  rewrite (take_ge p), (drop_ge p) in * by lia. rewrite app_nil_l in Hr1.
  destruct (IH (n - length p)%nat (acc ++ p) r1) as (r' & E & Hp & Ho).
  - destruct Hso as (_ & _ & -> & _). done.
  - rewrite Hr1. lia.
  - exists r'. rewrite E, Hr1, Hr, !length_app, Nat.add_assoc.
    destruct Hso as (H1 & H2 & H3 & H4). rewrite H4. split_and!; [done..|].
    unfold same_out in *. intuition congruence.
Qed.

#[export] Program Instance bufr_ReaderLaws : ReaderLaws bufr.
Next Obligation.
  intros n r Hs Hn. cbn -[pending br_read_loop] in *. unfold br_read_full.
  apply (br_read_loop_enough n n []); [done|lia|done].
Qed.
Next Obligation.
  intros n r Hs Hn. cbn -[pending br_read_loop] in *. unfold br_read_full.
  apply (br_read_loop_short n n []); [done|lia].
Qed.

(** [br.Buffered()] and [br.Peek]/[br.Discard] of everything buffered. *)
Definition Buffered (r : bufr) : Z := len (br_buf r).
Definition Peek_all (r : bufr) : bytes := br_buf r.
Definition Discard_all (r : bufr) : bufr := Bufr [] (br_chunks r) (br_conn r).

(** ** Writers *)

Lemma Write_healthy b c : healthy c -> Write b c = (Ok tt, set_tx (tx c ++ b) c).
Proof. intros [Hs Hw]. unfold Write. by rewrite Hs, Hw. Qed.

Lemma Write_cases b c :
  (exists c', Write b c = (Ok tt, c') /\ tx c' = tx c ++ b /\ rx c' = rx c /\
              shut c' = shut c /\ rend c' = rend c) \/
  (exists e, Write b c = (Err e, c)).
Proof.
  unfold Write. destruct (shut c) eqn:E; [right; eauto|].
  destruct (wleft c) as [[|k]|]; [right; eauto|left..]; eexists; split_and!; done.
Qed.

Lemma healthy_set_tx b c : healthy c -> healthy (set_tx b c).
Proof. done. Qed.
Lemma healthy_same_out c c' : same_out c c' -> healthy c -> healthy c'.
Proof. unfold same_out, healthy. intuition congruence. Qed.
#[export] Hint Resolve healthy_set_tx : core.

Section reader_lemmas.
Context {R} `{ReaderLaws R}.

Lemma ReadFull_cases n (r : R) : shut (under r) = false ->
  (exists b r', ReadFull n r = (Ok b, r') /\ length b = n /\ pending r = b ++ pending r' /\
     same_out (under r) (under r')) \/
  (exists r', ReadFull n r = (Err (short_read_error (length (pending r)) (rend (under r))), r') /\
     (length (pending r) < n)%nat /\ pending r' = [] /\ same_out (under r) (under r')).
Proof.
  intros Hs. destruct (decide (n <= length (pending r))%nat) as [Hn|Hn].
  - left. destruct (ReadFull_enough n r Hs Hn) as (r' & E & Hp & Ho). exists (take n (pending r)), r'.
    split_and!; [done|by rewrite length_take_le|by rewrite Hp, take_drop|done].
  - right. destruct (ReadFull_short n r Hs) as (r' & E & Hp & Ho); [lia|]. exists r'. split_and!; [done|lia|done..].
Qed.

Lemma ReadFull_app n (r : R) b rest : shut (under r) = false -> length b = n -> pending r = b ++ rest ->
  exists r', ReadFull n r = (Ok b, r') /\ pending r' = rest /\ same_out (under r) (under r').
Proof.
  intros Hs Hn Hp. destruct (ReadFull_enough n r Hs) as (r' & E & Hr & Ho); [rewrite Hp, length_app; lia|].
  exists r'. rewrite E, Hr, Hp, <- Hn, take_app_length, drop_app_length. done.
Qed.
End reader_lemmas.

Lemma same_out_shut c c' : same_out c c' -> shut c = false -> shut c' = false.
Proof. unfold same_out. intuition congruence. Qed.

(** [io.CopyN(io.Discard, r, n)]: unlike [io.ReadFull] a short stream is [EOF]. *)
Definition CopyN_discard {R} `{Reader R} (n : nat) : M R unit :=
  with_err (fun e => match e with ErrUnexpectedEOF => EOF | e => e end) (_ ← ReadFull n; mret tt).
