(* ===== verification/Vars.v ===== *)
(** internal/config/variables.go: the [${VAR}] templates of a target's
    database name.

    [RequiredVars] and [Resolve] are the two loops of the source; the loop
    index [i] is kept as the pair (index, rest of the string from it).  The
    abstract view is a list of tokens ([tok]) with a printer: the theorems
    relate both loops to substitution on tokens. *)
From Stdlib Require Import Strings.Byte.
From S2P Require Import Prelude Fmt.

(** [strings.IndexByte]; [None] is the result -1. *)
Fixpoint IndexByte (s : bytes) (c : byte) : option nat :=
  match s with
  | [] => None
  | x :: s => if decide (x = c) then Some 0%nat else S <$> IndexByte s c
  end.

(** ** The source's loops *)

Fixpoint RequiredVars_loop (fuel : nat) (rest : bytes) (seen : gset bytes) (out : list bytes) : res (list bytes) :=
  match rest with
  | [] => Ok out
  | c :: rest1 =>
      match fuel with
      | O => NoFuel
      | S fuel =>
          if decide (c <> "$"%byte) then RequiredVars_loop fuel rest1 seen out else
          match rest1 with
          | c1 :: rest2 =>
              if decide (c1 = "$"%byte) then RequiredVars_loop fuel rest2 seen out else
              if decide (c1 = "{"%byte) then
                match IndexByte rest2 "}"%byte with
                | None => Ok out
                | Some e =>
                    let name := take e rest2 in
                    let rest3 := drop (S e) rest2 in
                    if decide (name ∈ seen) then RequiredVars_loop fuel rest3 seen out
                    else RequiredVars_loop fuel rest3 ({[name]} ∪ seen) (out ++ [name])
                end
              else RequiredVars_loop fuel rest1 seen out
          | [] => RequiredVars_loop fuel rest1 seen out
          end
      end
  end.
Definition RequiredVars (s : bytes) : list bytes :=
  match RequiredVars_loop (length s) s ∅ [] with Ok out => out | _ => [] end.

(** The three results of [Resolve]: the string, the missing variables, the error. *)
Definition resolved : Type := bytes * list bytes * option error.

Fixpoint Resolve_loop (fuel : nat) (s : bytes) (vars : gmap bytes bytes)
    (i : Z) (rest : bytes) (b : bytes) (seenMissing : gset bytes) (missing : list bytes) : res resolved :=
  match rest with
  | [] =>
      if decide (missing <> []) then
        Ok ([], missing, Some (Errorf (str "missing variables: %s") [FStr (join (str ", ") missing)]))
      else Ok (b, [], None)
  | c :: rest1 =>
      match fuel with
      | O => NoFuel
      | S fuel =>
          if decide (c <> "$"%byte) then
            Resolve_loop fuel s vars (i + 1) rest1 (b ++ [c]) seenMissing missing
          else
          match rest1 with
          | c1 :: rest2 =>
              if decide (c1 = "$"%byte) then
                Resolve_loop fuel s vars (i + 2) rest2 (b ++ ["$"%byte]) seenMissing missing else
              if decide (c1 = "{"%byte) then
                match IndexByte rest2 "}"%byte with
                | None => Ok ([], [], Some (Errorf (str "unclosed variable reference in %q") [FStr s]))
                | Some e =>
                    let name := take e rest2 in
                    let rest3 := drop (S e) rest2 in
                    let i3 := i + 2 + Z.of_nat e + 1 in
                    match vars !! name with
                    | None =>
                        if decide (name ∈ seenMissing)
                        then Resolve_loop fuel s vars i3 rest3 b seenMissing missing
                        else Resolve_loop fuel s vars i3 rest3 b ({[name]} ∪ seenMissing) (missing ++ [name])
                    | Some val => Resolve_loop fuel s vars i3 rest3 (b ++ val) seenMissing missing
                    end
                end
              else Ok ([], [], Some (Errorf (str "bare $ without ${...} in %q at index %d") [FStr s; FInt i]))
          | [] => Ok ([], [], Some (Errorf (str "bare $ without ${...} in %q at index %d") [FStr s; FInt i]))
          end
      end
  end.
Definition Resolve (s : bytes) (vars : gmap bytes bytes) : res resolved :=
  Resolve_loop (length s) s vars 0 s [] ∅ [].

(** ** Templates *)

Inductive tok : Type := TByte (c : byte) | TDollar | TVar (name : bytes).

Definition tok_ok (t : tok) : Prop :=
  match t with
  | TByte c => c <> "$"%byte
  | TDollar => True
  | TVar name => "}"%byte ∉ name
  end.
Definition print_tok (t : tok) : bytes :=
  match t with
  | TByte c => [c]
  | TDollar => ["$"%byte; "$"%byte]
  | TVar name => ["$"%byte; "{"%byte] ++ name ++ ["}"%byte]
  end.
Definition print (ts : list tok) : bytes := concat (map print_tok ts).

Definition tok_var (t : tok) : list bytes := match t with TVar name => [name] | _ => [] end.
Definition subst_tok (vars : gmap bytes bytes) (t : tok) : bytes :=
  match t with
  | TByte c => [c]
  | TDollar => ["$"%byte]
  | TVar name => default [] (vars !! name)
  end.
Definition subst (vars : gmap bytes bytes) (ts : list tok) : bytes :=
  concat (map (subst_tok vars) ts).

(** First occurrences, in order. *)
Fixpoint dedup (seen : gset bytes) (l : list bytes) : list bytes :=
  match l with
  | [] => []
  | x :: l => if decide (x ∈ seen) then dedup seen l else x :: dedup ({[x]} ∪ seen) l
  end.
Definition vars_of (ts : list tok) : list bytes := concat (map tok_var ts).
Definition unbound (vars : gmap bytes bytes) (l : list bytes) : list bytes :=
  filter (fun x => vars !! x = None) l.

(** What [Resolve] promises for the template [ts]. *)
Definition resolve_spec (vars : gmap bytes bytes) (ts : list tok) : resolved :=
  let missing := dedup ∅ (unbound vars (vars_of ts)) in
  if decide (missing = []) then (subst vars ts, [], None)
  else ([], missing, Some (Errorf (str "missing variables: %s") [FStr (join (str ", ") missing)])).

(** The text of a syntax error of [Resolve], as opposed to missing variables. *)
Definition syntax_error (r : resolved) : bool :=
  match r with (_, [], Some _) => true | _ => false end.

(** ** Lemmas *)

Lemma IndexByte_app c name rest : c ∉ name -> IndexByte (name ++ c :: rest) c = Some (length name).
Proof.
  induction name as [|x name IH]; intros H; simpl.
  - by rewrite decide_True.
  - rewrite decide_False by set_solver. by rewrite IH by set_solver.
Qed.

Lemma IndexByte_Some c s e : IndexByte s c = Some e ->
  s = take e s ++ c :: drop (S e) s /\ c ∉ take e s /\ length (take e s) = e.
Proof.
  revert e. induction s as [|x s IH]; intros e; simpl; [done|].
  destruct (decide (x = c)) as [->|]; [intros [= <-]; cbn; set_solver|].
  intros (e' & He & ->)%fmap_Some. destruct (IH e' He) as (H1 & H2 & H3). cbn.
  split_and!; [by f_equal|set_solver|by rewrite H3].
Qed.

Lemma print_cons t ts : print (t :: ts) = print_tok t ++ print ts.
Proof. done. Qed.

(** Cutting a printed [${name}] at its closing brace. *)
Lemma IndexByte_None c s : IndexByte s c = None -> c ∉ s.
Proof.
  induction s as [|x s IH]; cbn; [set_solver|]. case_decide; [done|].
  destruct (IndexByte s c); [done|]. intros _. specialize (IH eq_refl). set_solver.
Qed.

Lemma IndexByte_var name rest : "}"%byte ∉ name ->
  IndexByte (name ++ "}"%byte :: rest) "}"%byte = Some (length name) /\
  take (length name) (name ++ "}"%byte :: rest) = name /\
  drop (S (length name)) (name ++ "}"%byte :: rest) = rest.
Proof.
  intros H. rewrite IndexByte_app by done. split_and!; [done|apply take_app_length|].
  rewrite drop_app, drop_ge by lia. by replace (S (length name) - length name)%nat with 1%nat by lia.
Qed.

Definition finish (vars : gmap bytes bytes) (b : bytes) (missing : list bytes) : resolved :=
  if decide (missing = []) then (b, [], None)
  else ([], missing, Some (Errorf (str "missing variables: %s") [FStr (join (str ", ") missing)])).

Lemma Resolve_loop_var vars s fuel i b seen missing name rest : "}"%byte ∉ name ->
  Resolve_loop (S fuel) s vars i (print_tok (TVar name) ++ rest) b seen missing =
  let i3 := i + 2 + Z.of_nat (length name) + 1 in
  match vars !! name with
  | None => if decide (name ∈ seen) then Resolve_loop fuel s vars i3 rest b seen missing
            else Resolve_loop fuel s vars i3 rest b ({[name]} ∪ seen) (missing ++ [name])
  | Some val => Resolve_loop fuel s vars i3 rest (b ++ val) seen missing
  end.
Proof.
  intros Hn. cbn [print_tok]. rewrite <- !app_assoc. cbn [app Resolve_loop].
  rewrite decide_False by (intros H; by apply H).
  rewrite decide_False by done. rewrite decide_True by done.
  destruct (IndexByte_var name rest Hn) as (-> & -> & ->). done.
Qed.

Lemma Resolve_loop_print vars s ts fuel i b seen missing :
  Forall tok_ok ts -> (length (print ts) <= fuel)%nat ->
  Resolve_loop fuel s vars i (print ts) b seen missing =
  Ok (finish vars (b ++ subst vars ts) (missing ++ dedup seen (unbound vars (vars_of ts)))).
Proof.
  intros Hts. revert fuel i b seen missing.
  induction Hts as [|t ts Ht Hts IH]; intros fuel i b seen missing Hf.
  { destruct fuel; cbn; unfold finish; rewrite !app_nil_r; by repeat case_decide. }
  rewrite print_cons, length_app in *.
  destruct fuel as [|fuel]; [destruct t; cbn in Hf; lia|].
  destruct t as [c| |name].
  - cbn in Hf, Ht. cbn [print_tok app Resolve_loop]. rewrite decide_True by done.
    rewrite IH by lia. by rewrite <- app_assoc.
  - cbn in Hf. cbn [print_tok app Resolve_loop]. rewrite decide_False by (intros H; by apply H).
    rewrite decide_True by done. rewrite IH by lia. by rewrite <- app_assoc.
  - rewrite Resolve_loop_var by done. unfold print_tok in Hf. rewrite !length_app in Hf. cbn in Hf.
    change (vars_of (TVar name :: ts)) with (name :: vars_of ts).
    change (subst vars (TVar name :: ts)) with (default [] (vars !! name) ++ subst vars ts).
    unfold unbound. destruct (vars !! name) as [v|] eqn:E; cbn zeta.
    + rewrite filter_cons_False by (by rewrite E). rewrite IH by lia. by rewrite <- app_assoc.
    + rewrite filter_cons_True by done. cbn [dedup default app].
      destruct (decide (name ∈ seen)); rewrite IH by lia; [done|by rewrite <- app_assoc].
Qed.

Lemma template_or_syntax_error vars s fuel rest : (length rest <= fuel)%nat ->
  (exists ts, Forall tok_ok ts /\ rest = print ts) \/
  (forall i b seen missing, exists e, Resolve_loop fuel s vars i rest b seen missing = Ok ([], [], Some e)).
Proof.
  revert rest. induction fuel as [|fuel IH]; intros rest Hf.
  { left. exists []. destruct rest; [done|cbn in Hf; lia]. }
  destruct rest as [|c rest1]; [left; by exists []|]. cbn in Hf.
  cbn [Resolve_loop]. destruct (decide (c <> "$"%byte)) as [Hc|Hc].
  { destruct (IH rest1 ltac:(lia)) as [(ts & Hts & ->)|H]; [left|right; intros; apply H].
    exists (TByte c :: ts). by split; [constructor|]. }
  apply dec_stable in Hc as ->. destruct rest1 as [|c1 rest2]; [right; eauto|]. cbn in Hf.
  destruct (decide (c1 = "$"%byte)) as [->|].
  { destruct (IH rest2 ltac:(lia)) as [(ts & Hts & ->)|H]; [left|right; intros; apply H].
    exists (TDollar :: ts). by split; [constructor|]. }
  destruct (decide (c1 = "{"%byte)) as [->|]; [|right; eauto].
  destruct (IndexByte rest2 "}"%byte) as [e|] eqn:E; [|right; eauto].
  apply IndexByte_Some in E as (E1 & E2 & E3).
  destruct (IH (drop (S e) rest2)) as [(ts & Hts & Hr)|H]; [rewrite length_drop; lia| |].
  - left. exists (TVar (take e rest2) :: ts). split; [by constructor|].
    rewrite print_cons. cbn. rewrite <- Hr, <- app_assoc. cbn. by rewrite <- E1.
  - right. intros. destruct (vars !! take e rest2); [apply H|].
    destruct (decide (take e rest2 ∈ seen)); apply H.
Qed.

Lemma RequiredVars_loop_print ts fuel seen out :
  Forall tok_ok ts -> (length (print ts) <= fuel)%nat ->
  RequiredVars_loop fuel (print ts) seen out = Ok (out ++ dedup seen (vars_of ts)).
Proof.
  intros Hts. revert fuel seen out.
  induction Hts as [|t ts Ht Hts IH]; intros fuel seen out Hf.
  { destruct fuel; cbn; by rewrite app_nil_r. }
  rewrite print_cons, length_app in *.
  destruct fuel as [|fuel]; [destruct t; cbn in Hf; lia|].
  destruct t as [c| |name].
  - cbn in Hf, Ht. cbn [print_tok app RequiredVars_loop]. rewrite decide_True by done. by rewrite IH by lia.
  - cbn in Hf. cbn [print_tok app RequiredVars_loop]. rewrite decide_False by (intros H; by apply H).
    rewrite decide_True by done. by rewrite IH by lia.
  - cbn in Ht. unfold print_tok in *. rewrite !length_app in Hf. cbn in Hf.
    rewrite <- !app_assoc. cbn [app RequiredVars_loop].
    rewrite decide_False by (intros H; by apply H).
    rewrite decide_False by done. rewrite decide_True by done.
    destruct (IndexByte_var name (print ts) Ht) as (-> & -> & ->).
    change (vars_of (TVar name :: ts)) with (name :: vars_of ts). cbn [dedup].
    destruct (decide (name ∈ seen)); rewrite IH by lia; [done|by rewrite <- app_assoc].
Qed.

Lemma RequiredVars_print ts : Forall tok_ok ts -> RequiredVars (print ts) = dedup ∅ (vars_of ts).
Proof. intros H. unfold RequiredVars. by rewrite RequiredVars_loop_print. Qed.

Lemma Resolve_print vars ts : Forall tok_ok ts -> Resolve (print ts) vars = Ok (resolve_spec vars ts).
Proof. intros H. unfold Resolve. by rewrite Resolve_loop_print. Qed.

Lemma dedup_ext s1 s2 l : (forall y, y ∈ l -> y ∈ s1 <-> y ∈ s2) -> dedup s1 l = dedup s2 l.
Proof.
  revert s1 s2. induction l as [|x l IH]; intros s1 s2 H; [done|]. cbn.
  pose proof (H x ltac:(set_solver)). repeat case_decide; try tauto.
  - apply IH. set_solver.
  - f_equal. apply IH. set_solver.
Qed.

Lemma dedup_filter (P : bytes -> Prop) `{forall x, Decision (P x)} seen l :
  dedup seen (filter P l) = filter P (dedup seen l).
Proof.
  revert seen. induction l as [|x l IH]; intros seen; [done|].
  destruct (decide (P x)).
  - rewrite filter_cons_True by done. cbn. case_decide; [done|].
    rewrite filter_cons_True by done. by rewrite IH.
  - rewrite filter_cons_False by done. cbn. case_decide; [done|].
    rewrite filter_cons_False, <- IH by done. apply dedup_ext.
    intros y (HP & _)%list_elem_of_filter. set_solver.
Qed.

Lemma unbound_RequiredVars vars ts : Forall tok_ok ts ->
  dedup ∅ (unbound vars (vars_of ts)) = unbound vars (RequiredVars (print ts)).
Proof. intros H. unfold unbound. by rewrite RequiredVars_print, dedup_filter. Qed.

Lemma Resolve_correct_aux s vars :
  (exists ts, Forall tok_ok ts /\ s = print ts /\ Resolve s vars = Ok (resolve_spec vars ts)) \/
  (~ (exists ts, Forall tok_ok ts /\ s = print ts) /\
   exists e, Resolve s vars = Ok ([], [], Some e)).
Proof.
  destruct (template_or_syntax_error vars s (length s) s ltac:(lia)) as [(ts & Hts & E)|H].
  - left. exists ts. subst. by rewrite Resolve_print.
  - right. split; [|apply H]. intros (ts & Hts & ->).
    destruct (H 0 [] ∅ []) as [e He]. rewrite Resolve_loop_print in He by done.
    unfold finish in He. case_decide; [done|]. injection He as E _. done.
Qed.

(** ** Properties *)

(** C15: [Resolve] is exactly template substitution.  Every string is either the
    text of a (unique reading as a) token list, in which case [Resolve]
    returns the substituted text, or the missing variables in order of first
    occurrence when some are unbound; or it is no template at all (an unclosed
    [${] or a bare [$]) and [Resolve] reports a syntax error with no missing
    variables. It never panics and always terminates. *)
Theorem Resolve_correct s vars :
  (exists ts, Forall tok_ok ts /\ s = print ts /\ Resolve s vars = Ok (resolve_spec vars ts)) \/
  (~ (exists ts, Forall tok_ok ts /\ s = print ts) /\
   exists e, Resolve s vars = Ok ([], [], Some e)).
Proof. apply Resolve_correct_aux. Qed.

(** The variables [Resolve] reports as missing are exactly the unbound
    ones among those [RequiredVars] extracts, in the same order; when all are
    bound it succeeds. *)
Theorem Resolve_missing s vars r missing err :
  Resolve s vars = Ok (r, missing, err) -> syntax_error (r, missing, err) = false ->
  missing = unbound vars (RequiredVars s) /\ (err = None <-> missing = []).
Proof.
  intros H Hs. destruct (Resolve_correct_aux s vars) as [(ts & Hts & -> & E)|[_ [e E]]].
  - rewrite E in H. unfold resolve_spec in H. rewrite <- unbound_RequiredVars by done.
    case_decide as Hd; injection H as <- <- <-; split; done.
  - rewrite E in H. injection H as <- <- <-. done.
Qed.

(** The README's staging target, with its variable bound and unbound. *)
Definition sample_template : bytes := str "app_${BRANCH}_staging".

Example Resolve_staging :
  Resolve sample_template {[str "BRANCH" := str "main"]} = Ok (str "app_main_staging", [], None).
Proof. vm_compute. reflexivity. Qed.

Lemma Resolve_missing_witness :
  Resolve sample_template ∅ = Ok ([], [str "BRANCH"], Some (Errorf (str "missing variables: %s") [FStr (str "BRANCH")]))
  /\ [str "BRANCH"] = unbound ∅ (RequiredVars sample_template).
Proof.
  split; [vm_compute; reflexivity|].
  refine (proj1 (Resolve_missing sample_template ∅ [] [str "BRANCH"]
    (Some (Errorf (str "missing variables: %s") [FStr (str "BRANCH")])) _ _));
    vm_compute; reflexivity.
Defined.
