(* ===== verification/Cursor.v ===== *)
(** Fixed-width fields at a position of a byte slice, and the search for a NUL
    terminator: what the MySQL and BSON decoders are made of. *)
From S2P Require Import Prelude Binary Vars.

(** The loop [for i := pos; i < len(b); i++ { if b[i] == 0 ... }]: [rest] is
    [b[i:]]. *)
Fixpoint find_nul (rest : bytes) (i : Z) : option Z :=
  match rest with
  | [] => None
  | x :: rest => if decide (x = Byte.x00) then Some i else find_nul rest (i + 1)
  end.
Definition Uint16_at (b : bytes) (pos : Z) : res Z := s ← slice b pos (pos + 2); LittleEndian.Uint16 s.
Definition Uint32_at (b : bytes) (pos : Z) : res Z := s ← slice b pos (pos + 4); LittleEndian.Uint32 s.

Definition Uint64_at (b : bytes) (pos : Z) : res Z := s ← slice b pos (pos + 8); LittleEndian.Uint64 s.
Definition Int32_at (b : bytes) (pos : Z) : res Z := z ← Uint32_at b pos; Ok (int32 z).

Lemma slice_prefix {A} (l : list A) n : 0 <= n <= len l -> slice l 0 n = Ok (take (Z.to_nat n) l).
Proof. intros Hn. unfold slice. rewrite decide_True by lia. by rewrite Z.sub_0_r. Qed.
Lemma slice_suffix {A} (l : list A) n : 0 <= n <= len l -> slice_from l n = Ok (drop (Z.to_nat n) l).
Proof.
  intros Hn. unfold slice_from, slice. rewrite decide_True by lia. rewrite take_ge; [done|].
  rewrite length_drop. unfold len in *. lia.
Qed.

Lemma find_nul_eq rest i : find_nul rest i = (fun e : nat => i + Z.of_nat e) <$> IndexByte rest Byte.x00.
Proof.
  revert i. induction rest as [|x rest IH]; intros i; cbn; [done|]. case_decide; cbn; [f_equal; lia|].
  rewrite IH. destruct (IndexByte rest Byte.x00); cbn; [f_equal; lia|done].
Qed.

Lemma len_zeros n : 0 <= n -> len (zeros n) = n.
Proof. intros Hn. unfold len, zeros. rewrite repeat_length. lia. Qed.

Lemma uint_range w z : 0 <= w -> 0 <= uint w z < 2 ^ w.
Proof. intros Hw. apply Z.mod_pos_bound. by apply Z.pow_pos_nonneg. Qed.

#[export] Hint Rewrite len_zeros using lia : len.

(** The bounds check passes: more bytes than needed follow the cursor [A]. *)
Ltac in_range A := rewrite decide_False by (pose proof (at_len _ _ _ A); len_lia).

Lemma at_Uint16 b pos z rest : at_pos b pos (le_bytes 2 z ++ rest) -> 0 <= z < 2 ^ 16 -> Uint16_at b pos = Ok z.
Proof.
  intros H Hz. unfold Uint16_at. erewrite at_slice by (exact H || len_lia). cbn [mbind res_bind].
  unfold LittleEndian.Uint16. rewrite slice_prefix by len_lia. rewrite take_ge by (by rewrite length_le_bytes).
  cbn [mbind res_bind mret res_ret]. by rewrite le_val_le_bytes, Z.mod_small.
Qed.
Lemma at_Uint32 b pos z rest : at_pos b pos (le_bytes 4 z ++ rest) -> 0 <= z < 2 ^ 32 -> Uint32_at b pos = Ok z.
Proof.
  intros H Hz. unfold Uint32_at. erewrite at_slice by (exact H || len_lia). cbn [mbind res_bind].
  unfold LittleEndian.Uint32. rewrite slice_prefix by len_lia. rewrite take_ge by (by rewrite length_le_bytes).
  cbn [mbind res_bind mret res_ret]. by rewrite le_val_le_bytes, Z.mod_small.
Qed.
(** In-range reads never panic. *)
Lemma Uint16_at_total b pos : 0 <= pos -> pos + 2 <= len b -> exists z, Uint16_at b pos = Ok z /\ 0 <= z < 2 ^ 16.
Proof.
  intros H1 H2. unfold Uint16_at. destruct (slice_ok b pos (pos + 2)) as (? & s & ? & _ & _ & Hl & ->); [lia..|].
  cbn [mbind res_bind]. unfold LittleEndian.Uint16. rewrite slice_prefix by lia. eexists. split; [done|].
  pose proof (le_val_range (take (Z.to_nat 2) s)) as Hr.
  replace (len (take (Z.to_nat 2) s)) with 2 in Hr by (unfold len in *; rewrite length_take; lia). done.
Qed.
Lemma Uint32_at_total b pos : 0 <= pos -> pos + 4 <= len b -> exists z, Uint32_at b pos = Ok z /\ 0 <= z < 2 ^ 32.
Proof.
  intros H1 H2. unfold Uint32_at. destruct (slice_ok b pos (pos + 4)) as (? & s & ? & _ & _ & Hl & ->); [lia..|].
  cbn [mbind res_bind]. unfold LittleEndian.Uint32. rewrite slice_prefix by lia. eexists. split; [done|].
  pose proof (le_val_range (take (Z.to_nat 4) s)) as Hr.
  replace (len (take (Z.to_nat 4) s)) with 4 in Hr by (unfold len in *; rewrite length_take; lia). done.
Qed.
Lemma safe_Uint16_at b pos : 0 <= pos -> pos + 2 <= len b -> safe (Uint16_at b pos).
Proof. intros H1 H2. by destruct (Uint16_at_total b pos H1 H2) as (z & -> & _). Qed.
Lemma safe_Uint32_at b pos : 0 <= pos -> pos + 4 <= len b -> safe (Uint32_at b pos).
Proof. intros H1 H2. by destruct (Uint32_at_total b pos H1 H2) as (z & -> & _). Qed.
