(* ===== verification/Json.v ===== *)
(** The part of Go's [encoding/json] the control protocol uses: [Marshal] of
    strings, booleans, integers, arrays and objects, and [Unmarshal] into
    structs with string, boolean, integer, slice and map fields.

    The wording of the package's errors is a parameter, the class [JsonText];
    which inputs are rejected is not. *)
From Stdlib Require Import Strings.Byte.
From S2P Require Import Prelude Fmt Vars.

Inductive json : Type :=
  | JNull
  | JBool (b : bool)
  | JNum (literal : bytes)
  | JStr (s : bytes)
  | JArr (l : list json)
  | JObj (l : list (bytes * json)).

Definition quote_byte : byte := Byte.x22.
Definition backslash : byte := "\"%byte.

(** ** Marshal *)

(** The ASCII bytes written as they are (the HTML-safe set). *)
Definition plain_byte (b : byte) : bool :=
  (32 <=? bval b) && negb (bool_decide (b ∈ [quote_byte; backslash; "&"%byte; "<"%byte; ">"%byte])).
Definition escape_ascii (b : byte) : bytes :=
  if plain_byte b then [b]
  else if bool_decide (b ∈ [quote_byte; backslash]) then [backslash; b]
  else if decide (b = Byte.x08) then [backslash; "b"%byte]
  else if decide (b = Byte.x0c) then [backslash; "f"%byte]
  else if decide (b = Byte.x0a) then [backslash; "n"%byte]
  else if decide (b = Byte.x0d) then [backslash; "r"%byte]
  else if decide (b = Byte.x09) then [backslash; "t"%byte]
  else [backslash; "u"%byte; "0"%byte; "0"%byte; digit (bval b / 16); digit (bval b mod 16)].
Definition invalid_rune (rw : Z * nat) : bool := (rw.1 =? 0xFFFD) && Nat.eqb rw.2 1.
Fixpoint escape (fuel : nat) (s : bytes) : bytes :=
  match fuel, s with
  | O, _ | _, [] => []
  | S fuel, b :: t =>
      if bval b <? 0x80 then escape_ascii b ++ escape fuel t else
      let rw := decode_rune s in
      if invalid_rune rw then [backslash] ++ str "ufffd" ++ escape fuel t
      else if bool_decide (rw.1 = 0x2028 \/ rw.1 = 0x2029)
      then [backslash] ++ str "u202" ++ [digit (rw.1 mod 16)] ++ escape fuel (drop rw.2 s)
      else take rw.2 s ++ escape fuel (drop rw.2 s)
  end.
Definition quoted (s : bytes) : bytes := [quote_byte] ++ escape (length s) s ++ [quote_byte].

Fixpoint Marshal (j : json) : bytes :=
  match j with
  | JNull => str "null"
  | JBool b => if b then str "true" else str "false"
  | JNum lit => lit
  | JStr s => quoted s
  | JArr l => str "[" ++ join (str ",") (map Marshal l) ++ str "]"
  | JObj l => str "{" ++ join (str ",") (map (fun kv => quoted kv.1 ++ str ":" ++ Marshal kv.2) l) ++ str "}"
  end.

(** ** The parser *)

Definition bad {A} : res A := Err (ESys []).

Definition is_ws (b : byte) : bool := bool_decide (b ∈ [" "%byte; Byte.x09; Byte.x0a; Byte.x0d]).
Fixpoint skip_ws (b : bytes) : bytes :=
  match b with
  | c :: r => if is_ws c then skip_ws r else b
  | [] => []
  end.

(** [utf8.AppendRune]. *)
Definition encode_rune (r : Z) : bytes :=
  if r <? 0x80 then [tobyte r]
  else if r <? 0x800 then [tobyte (0xC0 + r / 64); tobyte (0x80 + r mod 64)]
  else if r <? 0x10000 then [tobyte (0xE0 + r / 4096); tobyte (0x80 + r / 64 mod 64); tobyte (0x80 + r mod 64)]
  else [tobyte (0xF0 + r / 262144); tobyte (0x80 + r / 4096 mod 64); tobyte (0x80 + r / 64 mod 64); tobyte (0x80 + r mod 64)].
Definition replacement : bytes := [Byte.xef; Byte.xbf; Byte.xbd].

Definition hex_val (b : byte) : option Z :=
  let v := bval b in
  if (48 <=? v) && (v <=? 57) then Some (v - 48)
  else if (97 <=? v) && (v <=? 102) then Some (v - 87)
  else if (65 <=? v) && (v <=? 70) then Some (v - 55)
  else None.
Definition hex4 (b : bytes) : option (Z * bytes) :=
  match b with
  | b1 :: b2 :: b3 :: b4 :: r =>
      v1 ← hex_val b1; v2 ← hex_val b2; v3 ← hex_val b3; v4 ← hex_val b4;
      Some (v1 * 4096 + v2 * 256 + v3 * 16 + v4, r)
  | _ => None
  end.
(** The low half of a surrogate pair. *)
Definition low_surrogate (b : bytes) : option (Z * bytes) :=
  match b with
  | b1 :: b2 :: r =>
      if decide (b1 = backslash /\ b2 = "u"%byte) then
        '(v, r) ← hex4 r; if (0xDC00 <=? v) && (v <=? 0xDFFF) then Some (v, r) else None
      else None
  | _ => None
  end.
Definition unescape (e : byte) : option byte :=
  if bool_decide (e ∈ [quote_byte; backslash; "/"%byte]) then Some e
  else if decide (e = "b"%byte) then Some Byte.x08
  else if decide (e = "f"%byte) then Some Byte.x0c
  else if decide (e = "n"%byte) then Some Byte.x0a
  else if decide (e = "r"%byte) then Some Byte.x0d
  else if decide (e = "t"%byte) then Some Byte.x09
  else None.

Definition emit (s : bytes) (r : res (bytes * bytes)) : res (bytes * bytes) := '(t, rest) ← r; Ok (s ++ t, rest).
(** What follows the opening quote of a string. *)
Fixpoint parse_string (fuel : nat) (b : bytes) : res (bytes * bytes) :=
  match fuel with
  | O => NoFuel
  | S fuel =>
      match b with
      | [] => bad
      | c :: r =>
          if decide (c = quote_byte) then Ok ([], r)
          else if decide (c = backslash) then
            match r with
            | [] => bad
            | e :: r =>
                if decide (e = "u"%byte) then
                  match hex4 r with
                  | None => bad
                  | Some (v, r) =>
                      if (0xD800 <=? v) && (v <=? 0xDFFF) then
                        match (if v <=? 0xDBFF then low_surrogate r else None) with
                        | Some (v2, r2) => emit (encode_rune ((v - 0xD800) * 1024 + (v2 - 0xDC00) + 0x10000)) (parse_string fuel r2)
                        | None => emit replacement (parse_string fuel r)
                        end
                      else emit (encode_rune v) (parse_string fuel r)
                  end
                else match unescape e with
                     | Some x => emit [x] (parse_string fuel r)
                     | None => bad
                     end
            end
          else if bval c <? 0x20 then bad
          else if bval c <? 0x80 then emit [c] (parse_string fuel r)
          else
            let rw := decode_rune b in
            if invalid_rune rw then emit replacement (parse_string fuel r)
            else emit (take rw.2 b) (parse_string fuel (drop rw.2 b))
      end
  end.
Definition read_string (b : bytes) : res (bytes * bytes) := parse_string (S (length b)) b.

Definition is_digit (b : byte) : bool := (48 <=? bval b) && (bval b <=? 57).
Fixpoint span_digits (b : bytes) : bytes * bytes :=
  match b with
  | c :: r => if is_digit c then let '(ds, rest) := span_digits r in (c :: ds, rest) else ([], b)
  | [] => ([], [])
  end.
(** At least one digit. *)
Definition digits1 (b : bytes) : res (bytes * bytes) :=
  match span_digits b with ([], _) => bad | x => Ok x end.
Definition opt_fraction (b : bytes) : res (bytes * bytes) :=
  match b with
  | c :: r => if decide (c = "."%byte) then '(ds, rest) ← digits1 r; Ok (c :: ds, rest) else Ok ([], b)
  | [] => Ok ([], [])
  end.
Definition opt_exponent (b : bytes) : res (bytes * bytes) :=
  match b with
  | c :: r =>
      if decide (c = "e"%byte \/ c = "E"%byte) then
        match r with
        | sg :: r2 =>
            if decide (sg = "+"%byte \/ sg = "-"%byte) then '(ds, rest) ← digits1 r2; Ok (c :: sg :: ds, rest)
            else '(ds, rest) ← digits1 r; Ok (c :: ds, rest)
        | [] => bad
        end
      else Ok ([], b)
  | [] => Ok ([], [])
  end.
(** The integer part: 0, or digits that do not start with 0. *)
Definition int_part (b : bytes) : res (bytes * bytes) :=
  match b with
  | c :: r => if decide (c = "0"%byte) then Ok ([c], r) else digits1 b
  | [] => bad
  end.
Definition read_number (b : bytes) : res (bytes * bytes) :=
  let '(sign, b) := match b with c :: r => if decide (c = "-"%byte) then ([c], r) else ([], b) | [] => ([], b) end in
  '(i, b) ← int_part b; '(f, b) ← opt_fraction b; '(e, b) ← opt_exponent b;
  Ok (sign ++ i ++ f ++ e, b).

Definition maxNestingDepth : Z := 10000.
Definition expect_literal (lit : bytes) (v : json) (b : bytes) : res (json * bytes) :=
  if decide (take (length lit) b = lit) then Ok (v, drop (length lit) b) else bad.

(** The elements of an array and the members of an object, after the opening
    bracket; [rec] reads one value. *)
Fixpoint json_elements (rec : bytes -> res (json * bytes)) (fuel : nat) (b : bytes) (acc : list json) : res (list json * bytes) :=
  match fuel with
  | O => NoFuel
  | S fuel =>
      '(v, r) ← rec b;
      match skip_ws r with
      | c :: r => if decide (c = ","%byte) then json_elements rec fuel r (acc ++ [v])
                  else if decide (c = "]"%byte) then Ok (acc ++ [v], r) else bad
      | [] => bad
      end
  end.
Fixpoint json_members (rec : bytes -> res (json * bytes)) (fuel : nat) (b : bytes) (acc : list (bytes * json))
    : res (list (bytes * json) * bytes) :=
  match fuel with
  | O => NoFuel
  | S fuel =>
      match skip_ws b with
      | q :: r =>
          if decide (q = quote_byte) then
            '(k, r) ← read_string r;
            match skip_ws r with
            | c :: r =>
                if decide (c = ":"%byte) then
                  '(v, r) ← rec r;
                  match skip_ws r with
                  | c :: r => if decide (c = ","%byte) then json_members rec fuel r (acc ++ [(k, v)])
                              else if decide (c = "}"%byte) then Ok (acc ++ [(k, v)], r) else bad
                  | [] => bad
                  end
                else bad
            | [] => bad
            end
          else bad
      | [] => bad
      end
  end.
(** [depth] counts the open brackets. *)
Fixpoint json_value (fuel : nat) (depth : Z) (b : bytes) : res (json * bytes) :=
  match fuel with
  | O => NoFuel
  | S fuel =>
      match skip_ws b with
      | [] => bad
      | c :: r =>
          if decide (c = quote_byte) then '(s, r) ← read_string r; Ok (JStr s, r)
          else if decide (c = "{"%byte) then
            if depth >=? maxNestingDepth then bad else
            match skip_ws r with
            | c2 :: r2 =>
                if decide (c2 = "}"%byte) then Ok (JObj [], r2)
                else '(l, r) ← json_members (json_value fuel (depth + 1)) (S (length r)) r []; Ok (JObj l, r)
            | [] => bad
            end
          else if decide (c = "["%byte) then
            if depth >=? maxNestingDepth then bad else
            match skip_ws r with
            | c2 :: r2 =>
                if decide (c2 = "]"%byte) then Ok (JArr [], r2)
                else '(l, r) ← json_elements (json_value fuel (depth + 1)) (S (length r)) r []; Ok (JArr l, r)
            | [] => bad
            end
          else if decide (c = "t"%byte) then expect_literal (str "true") (JBool true) (c :: r)
          else if decide (c = "f"%byte) then expect_literal (str "false") (JBool false) (c :: r)
          else if decide (c = "n"%byte) then expect_literal (str "null") JNull (c :: r)
          else if is_digit c || bool_decide (c = "-"%byte) then '(lit, r) ← read_number (c :: r); Ok (JNum lit, r)
          else bad
      end
  end.
(** A whole text: one value and white space. *)
Definition parse (b : bytes) : res json :=
  '(v, r) ← json_value (S (length b)) 0 b;
  match skip_ws r with [] => Ok v | _ => bad end.

(** ** Unmarshal *)

Class JsonText := { syntax_error : bytes -> error; type_error : bytes -> error }.

(** Decode a value into a variable of type [T] that holds an old value; [None]
    is a type mismatch. *)
Definition decoder (T : Type) : Type := json -> T -> option T.
Definition dec_string : decoder bytes := fun j old => match j with JNull => Some old | JStr s => Some s | _ => None end.
Definition dec_bool : decoder bool := fun j old => match j with JNull => Some old | JBool b => Some b | _ => None end.

(** [strconv.ParseInt(lit, 10, 64)] on a JSON number. *)
Definition digits_value (ds : bytes) : Z := fold_left (fun a d => a * 10 + (bval d - 48)) ds 0.
Definition parse_int (lit : bytes) : option Z :=
  let '(sign, ds) := match lit with c :: r => if decide (c = "-"%byte) then (-1, r) else (1, lit) | [] => (1, []) end in
  let z := sign * digits_value ds in
  if forallb is_digit ds && bool_decide (ds <> []) && (- 2 ^ 63 <=? z) && (z <? 2 ^ 63) then Some z else None.
Definition dec_int : decoder Z := fun j old => match j with JNull => Some old | JNum lit => parse_int lit | _ => None end.
(** The elements are decoded into fresh variables (Go reuses the elements of an
    earlier array when a text repeats the field). *)
Definition dec_list {T} (zero : T) (dec : decoder T) : decoder (list T) := fun j _ =>
  match j with JNull => Some [] | JArr l => mapM (fun e => dec e zero) l | _ => None end.
(** A nil map is [None]; an existing one is extended. *)
Definition dec_map {T} (zero : T) (dec : decoder T) : decoder (option (gmap bytes T)) := fun j old =>
  match j with
  | JNull => Some None
  | JObj l => Some <$> foldr (fun kv k m => x ← dec kv.2 zero; k (<[kv.1 := x]> m)) Some l (default ∅ old)
  | _ => None
  end.

(** Field names match exactly or, failing that, up to case folding; as in
    [MongoHandshake.ToLower], two letters beyond ASCII fold to ASCII ones. *)
Definition upper_byte (b : byte) : byte := if (97 <=? bval b) && (bval b <=? 122) then tobyte (bval b - 32) else b.
Fixpoint fold_name (s : bytes) : bytes :=
  match s with
  | Byte.xc5 :: Byte.xbf :: s => "S"%byte :: fold_name s
  | Byte.xe2 :: Byte.x84 :: Byte.xaa :: s => "K"%byte :: fold_name s
  | b :: s => upper_byte b :: fold_name s
  | [] => []
  end.
Definition find_field {T} (fields : list (bytes * decoder T)) (key : bytes) : option (decoder T) :=
  match List.find (fun f => bool_decide (f.1 = key)) fields with
  | Some f => Some f.2
  | None => snd <$> List.find (fun f => bool_decide (fold_name f.1 = fold_name key)) fields
  end.
(** Unknown fields are ignored, a repeated one is decoded again. *)
Fixpoint dec_fields {T} (fields : list (bytes * decoder T)) (l : list (bytes * json)) (t : T) : option T :=
  match l with
  | [] => Some t
  | (k, v) :: l =>
      match find_field fields k with
      | Some dec => t ← dec v t; dec_fields fields l t
      | None => dec_fields fields l t
      end
  end.
Definition dec_struct {T} (fields : list (bytes * decoder T)) : decoder T := fun j t =>
  match j with JNull => Some t | JObj l => dec_fields fields l t | _ => None end.

Definition Unmarshal `{JsonText} {T} (dec : decoder T) (zero : T) (b : bytes) : res T :=
  match parse b with
  | Ok j => match dec j zero with Some t => Ok t | None => Err (type_error b) end
  | Err _ => Err (syntax_error b)
  | Panic => Panic
  | NoFuel => NoFuel
  end.

(** ** Strings round trip *)

(** Invalid UTF-8 comes back as the replacement rune. *)
Fixpoint to_valid (fuel : nat) (s : bytes) : bytes :=
  match fuel, s with
  | O, _ | _, [] => []
  | S fuel, b :: t =>
      if bval b <? 0x80 then b :: to_valid fuel t else
      if invalid_rune (decode_rune s) then replacement ++ to_valid fuel t
      else take (decode_rune s).2 s ++ to_valid fuel (drop (decode_rune s).2 s)
  end.
Definition ToValidUTF8 (s : bytes) : bytes := to_valid (length s) s.

Lemma parse_ascii b t fuel : bval b <? 0x80 = true -> parse_string (S fuel) (escape_ascii b ++ t) = emit [b] (parse_string fuel t).
Proof. destruct b; intros H; first [discriminate H|reflexivity]. Qed.

(** A valid multi-byte rune: it is within the string, and reading it looks at
    nothing after it. *)
Lemma decode_rune_local b0 r : bval b0 <? 0x80 = false -> invalid_rune (decode_rune (b0 :: r)) = false ->
  let w := (decode_rune (b0 :: r)).2 in
  (2 <= w <= S (length r))%nat /\ forall t, decode_rune (take w (b0 :: r) ++ t) = decode_rune (b0 :: r).
Proof.
  intros Hb. cbv zeta. unfold decode_rune. rewrite Hb.
  destruct r as [|b1 [|b2 [|b3 r3]]]; cbn [length];
    repeat match goal with
    | |- invalid_rune (0xFFFD, 1%nat) = false -> _ => intros H; discriminate H
    | |- context [if ?c then _ else _] => lazymatch c with true => fail | false => fail | _ => destruct c eqn:? end
    end; intros _; cbn [fst snd take app]; (split; [lia|]); intros t; rewrite ?Hb;
    repeat match goal with H : ?c = _ |- context [if ?c then _ else _] => rewrite H end; try done.
Qed.

Lemma in_range_spec lo hi b : in_range lo hi b = true -> lo <= bval b <= hi.
Proof. apply bool_decide_eq_true. Qed.
Lemma separator_rune s : (decode_rune s).1 = 0x2028 \/ (decode_rune s).1 = 0x2029 -> take (decode_rune s).2 s = encode_rune (decode_rune s).1.
Proof.
  unfold decode_rune. destruct s as [|b0 r]; [cbn; lia|]. pose proof (bval_range b0).
  destruct (Z.ltb_spec (bval b0) 0x80); [cbn; lia|].
  assert (Hcont : forall b, 0x80 <= bval b <= 0xBF -> cont b = bval b - 128).
  { intros b Hbb. unfold cont. replace (bval b) with ((bval b - 128) + 2 * 64) at 1 by lia. rewrite Z.mod_add by lia. apply Z.mod_small. lia. }
  destruct r as [|b1 [|b2 r2]]; [cbn; lia| |].
  - destruct (in_range 0xC2 0xDF b0 && in_range 0x80 0xBF b1) eqn:E; [|cbn; lia].
    apply andb_true_iff in E as [?%in_range_spec E1%in_range_spec]. cbn. rewrite (Hcont b1) by lia. lia.
  - destruct (in_range 0xC2 0xDF b0 && in_range 0x80 0xBF b1) eqn:E.
    { apply andb_true_iff in E as [?%in_range_spec E1%in_range_spec]. cbn. rewrite (Hcont b1) by lia. lia. }
    clear E. destruct (_ && _ && _) eqn:E in |- *.
    + rewrite !andb_true_iff in E. destruct E as [[E0%in_range_spec E1%in_range_spec] E2%in_range_spec]. cbn [fst snd].
      rewrite (Hcont b2) by lia. rewrite (Hcont b1) by (destruct (_ =? _) in E1; destruct (_ =? _) in E1; lia).
      intros Hr. assert (bval b0 = 0xE2 /\ bval b1 = 0x80 /\ (bval b2 = 0xA8 \/ bval b2 = 0xA9)) as (B0 & B1 & B2).
      { destruct (_ =? _) in E1; destruct (_ =? _) in E1; lia. }
      apply (bval_inj _ Byte.xe2) in B0. apply (bval_inj _ Byte.x80) in B1. subst b0 b1.
      destruct B2 as [B2|B2]; [apply (bval_inj _ Byte.xa8) in B2|apply (bval_inj _ Byte.xa9) in B2]; subst b2; reflexivity.
    + clear E. destruct r2 as [|b3 r3]; [cbn; lia|]. destruct (_ && _ && _ && _) eqn:E in |- *; [|cbn; lia].
      rewrite !andb_true_iff in E. destruct E as [[[E0%in_range_spec E1%in_range_spec] E2%in_range_spec] E3%in_range_spec]. cbn [fst snd].
      rewrite (Hcont b2), (Hcont b3) by lia. rewrite (Hcont b1) by (destruct (_ =? _) in E1; destruct (_ =? _) in E1; lia).
      intros Hr. exfalso. destruct (Z.eqb_spec (bval b0) 0xF0); destruct (_ =? _) in E1; lia.
Qed.

(** Reading one escaped unit. *)
Lemma parse_replacement n t : parse_string (S n) ([backslash] ++ str "ufffd" ++ t) = emit replacement (parse_string n t).
Proof. reflexivity. Qed.
Lemma parse_separator n r t : r = 0x2028 \/ r = 0x2029 ->
  parse_string (S n) ([backslash] ++ str "u202" ++ [digit (r mod 16)] ++ t) = emit (encode_rune r) (parse_string n t).
Proof. intros [-> | ->]; reflexivity. Qed.
Lemma parse_multi n b r t : bval b <? 0x80 = false -> invalid_rune (decode_rune (b :: r)) = false ->
  let w := (decode_rune (b :: r)).2 in
  parse_string (S n) (take w (b :: r) ++ t) = emit (take w (b :: r)) (parse_string n t).
Proof.
  intros Hb Hi w. destruct (decode_rune_local b r Hb Hi) as [Hw Hloc]. fold w in Hw, Hloc. specialize (Hloc t).
  destruct w as [|w'] eqn:Ew; [lia|]. cbn [take app] in *. cbn [parse_string].
  rewrite (decide_False (P := b = quote_byte)) by (intros ->; discriminate Hb).
  rewrite (decide_False (P := b = backslash)) by (intros ->; discriminate Hb).
  rewrite (proj2 (Z.ltb_ge (bval b) 0x20)) by (apply Z.ltb_ge in Hb; lia). rewrite Hb, Hloc, Hi. cbv zeta. fold w. rewrite Ew.
  assert (length (b :: take w' r) = S w') as Hl by (cbn [length]; rewrite length_take; lia).
  change (b :: take w' r ++ t) with ((b :: take w' r) ++ t). rewrite <- Hl, take_app_length, drop_app_length. done.
Qed.

Lemma escape_ascii_length b : (1 <= length (escape_ascii b))%nat.
Proof. apply Nat.leb_le. destruct b; reflexivity. Qed.

(** Written and read back, a string is itself up to invalid UTF-8. *)
Lemma parse_escape fuel s rest n : (length s <= fuel)%nat -> (length (escape fuel s) < n)%nat ->
  parse_string n (escape fuel s ++ quote_byte :: rest) = Ok (to_valid fuel s, rest).
Proof.
  revert s n. induction fuel as [|fuel IH]; intros s n Hf Hn; (destruct n as [|n]; [lia|]).
  { by destruct s. }
  destruct s as [|b t]; [done|]. cbn [length] in Hf. cbn [escape to_valid] in *. destruct (bval b <? 0x80) eqn:Hb.
  { pose proof (escape_ascii_length b).
    rewrite length_app in Hn. rewrite <- app_assoc, parse_ascii, IH by (done || lia). done. }
  cbv zeta in *. destruct (invalid_rune (decode_rune (b :: t))) eqn:Hi.
  { rewrite !length_app in Hn. cbn [length str] in Hn. rewrite <- !app_assoc, parse_replacement, IH by lia. done. }
  destruct (decode_rune_local b t Hb Hi) as [Hw _]. set (w := (decode_rune (b :: t)).2) in *.
  assert (length (drop w (b :: t)) <= fuel)%nat as Hd by (rewrite length_drop; cbn [length]; lia).
  destruct (bool_decide _) eqn:Hs.
  - apply bool_decide_eq_true in Hs. pose proof (separator_rune (b :: t) Hs) as Hsep. fold w in Hsep. rewrite Hsep. rewrite !length_app in Hn. cbn [length str] in Hn.
    rewrite <- !app_assoc, parse_separator, IH by (done || lia). done.
  - rewrite length_app, length_take in Hn. cbn [length] in Hn. rewrite <- app_assoc. pose proof (parse_multi n b t (escape fuel (drop w (b :: t)) ++ quote_byte :: rest) Hb Hi) as Hm. cbv zeta in Hm. fold w in Hm.
    rewrite Hm, IH by lia. done.
Qed.
Lemma read_quoted s rest : read_string (escape (length s) s ++ quote_byte :: rest) = Ok (ToValidUTF8 s, rest).
Proof. apply parse_escape; [lia|]. rewrite length_app. cbn. lia. Qed.

(** ** The parser is total *)

(** An error, or a value and a rest shorter than the input. *)
Definition consumes {A} (b : bytes) (r : res (A * bytes)) : Prop :=
  match r with Ok (_, rest) => (length rest < length b)%nat | Err _ => True | _ => False end.
Lemma consumes_weaken {A} b b' (r : res (A * bytes)) : consumes b r -> (length b <= length b')%nat -> consumes b' r.
Proof. destruct r as [[a rest]| | |]; cbn; [lia|done..]. Qed.
Lemma consumes_bind {A B} b0 b (r : res (A * bytes)) (k : A * bytes -> res (B * bytes)) :
  consumes b0 r -> (length b0 <= length b)%nat ->
  (forall a rest, (length rest < length b0)%nat -> (length rest < length b)%nat -> consumes b (k (a, rest))) -> consumes b (r ≫= k).
Proof. destruct r as [[a rest]| | |]; cbn; auto with lia. Qed.
Lemma consumes_emit s b b' (r : res (bytes * bytes)) : consumes b r -> (length b <= length b')%nat -> consumes b' (emit s r).
Proof. destruct r as [[t rest]| | |]; cbn; [lia|done..]. Qed.

Lemma skip_ws_length b : (length (skip_ws b) <= length b)%nat.
Proof. induction b as [|c r IH]; cbn; [lia|]. destruct (is_ws c); cbn; lia. Qed.
Lemma hex4_length b v r : hex4 b = Some (v, r) -> (length r < length b)%nat.
Proof.
  destruct b as [|b1 [|b2 [|b3 [|b4 r']]]]; cbn; [done..|]. destruct (hex_val b1), (hex_val b2), (hex_val b3), (hex_val b4); cbn; try done.
  intros [= _ <-]. lia.
Qed.
Lemma low_surrogate_length b v r : low_surrogate b = Some (v, r) -> (length r < length b)%nat.
Proof.
  destruct b as [|b1 [|b2 r']]; cbn; [done..|]. case_decide; [|done]. destruct (hex4 r') as [[v' r2]|] eqn:E; cbn; [|done].
  apply hex4_length in E. destruct (_ && _); [|done]. intros [= _ <-]. lia.
Qed.
Lemma decode_rune_pos b r : (1 <= (decode_rune (b :: r)).2)%nat.
Proof.
  unfold decode_rune. repeat match goal with
  | |- context [match ?x with [] => _ | _ => _ end] => destruct x
  | |- context [if ?c then _ else _] => destruct c
  end; cbn; lia.
Qed.

Lemma parse_string_consumes fuel b : (length b < fuel)%nat -> consumes b (parse_string fuel b).
Proof.
  revert b. induction fuel as [|fuel IH]; intros b Hf; [lia|]. cbn [parse_string]. destruct b as [|c r]; [done|]. cbn [length] in Hf.
  case_decide; [cbn; lia|]. case_decide.
  - destruct r as [|e r]; [done|]. cbn [length] in *. case_decide.
    + destruct (hex4 r) as [[v r2]|] eqn:Eh; [|done]. apply hex4_length in Eh. destruct (_ && _).
      * destruct (if v <=? 0xDBFF then low_surrogate r2 else None) as [[v2 r3]|] eqn:El.
        -- destruct (v <=? 0xDBFF); [|done]. apply low_surrogate_length in El. eapply consumes_emit; [apply IH; lia|cbn; lia].
        -- eapply consumes_emit; [apply IH; lia|cbn; lia].
      * eapply consumes_emit; [apply IH; lia|cbn; lia].
    + destruct (unescape e); [|done]. eapply consumes_emit; [apply IH; lia|cbn; lia].
  - destruct (_ <? 0x20); [done|]. destruct (_ <? 0x80); [eapply consumes_emit; [apply IH; lia|cbn; lia]|].
    cbv zeta. destruct (invalid_rune _); [eapply consumes_emit; [apply IH; lia|cbn; lia]|].
    pose proof (decode_rune_pos c r). eapply consumes_emit; [apply IH; rewrite length_drop; cbn [length]; lia|rewrite length_drop; cbn [length]; lia].
Qed.
Lemma read_string_consumes b : consumes b (read_string b).
Proof. apply parse_string_consumes. lia. Qed.

Lemma span_digits_eq b : b = (span_digits b).1 ++ (span_digits b).2.
Proof. induction b as [|c r IH]; cbn; [done|]. destruct (is_digit c); [|done]. destruct (span_digits r). cbn in *. by rewrite IH. Qed.
Lemma digits1_consumes b : consumes b (digits1 b).
Proof.
  unfold digits1. pose proof (span_digits_eq b) as E. destruct (span_digits b) as [[|d ds] rest]; [done|]. cbn in *.
  rewrite E. cbn. rewrite length_app. lia.
Qed.
(** As [consumes], but possibly nothing is consumed. *)
Definition keeps {A} (b : bytes) (r : res (A * bytes)) : Prop :=
  match r with Ok (_, rest) => (length rest <= length b)%nat | Err _ => True | _ => False end.
Lemma keeps_consumes {A} b b' (r : res (A * bytes)) : keeps b r -> (length b < length b')%nat -> consumes b' r.
Proof. destruct r as [[a rest]| | |]; cbn; [lia|done..]. Qed.
Lemma keeps_bind {A B} b0 b (r : res (A * bytes)) (k : A * bytes -> res (B * bytes)) :
  keeps b0 r -> (length b0 <= length b)%nat -> (forall a rest, (length rest <= length b0)%nat -> keeps b (k (a, rest))) -> keeps b (r ≫= k).
Proof. destruct r as [[a rest]| | |]; cbn; auto with lia. Qed.
Lemma consumes_keeps {A} b b' (r : res (A * bytes)) : consumes b r -> (length b <= length b')%nat -> keeps b' r.
Proof. destruct r as [[a rest]| | |]; cbn; [lia|done..]. Qed.
Lemma digits1_keeps {A} c b b' (k : bytes -> A) : (length b <= length b')%nat -> keeps (c :: b') ('(ds, rest) ← digits1 b; Ok (k ds, rest)).
Proof. intros Hl. eapply keeps_bind; [by eapply consumes_keeps; [apply digits1_consumes|]|cbn; lia|]. intros ds rest Hr. cbn. lia. Qed.

Lemma opt_fraction_keeps b : keeps b (opt_fraction b).
Proof. destruct b as [|c r]; cbn; [lia|]. case_decide; [|cbn; lia]. by apply (digits1_keeps c r r (fun ds => c :: ds)). Qed.
Lemma opt_exponent_keeps b : keeps b (opt_exponent b).
Proof.
  destruct b as [|c r]; cbn; [lia|]. case_decide; [|cbn; lia]. destruct r as [|sg r2]; [done|].
  case_decide; [apply (digits1_keeps c r2 (sg :: r2) (fun ds => c :: sg :: ds)); cbn; lia|by apply (digits1_keeps c (sg :: r2) _ (fun ds => c :: ds))].
Qed.
Lemma int_part_consumes b : consumes b (int_part b).
Proof. destruct b as [|c r]; cbn; [done|]. case_decide; [cbn; lia|apply digits1_consumes]. Qed.
Lemma read_number_consumes b : consumes b (read_number b).
Proof.
  unfold read_number. destruct (match b with [] => _ | _ => _ end) as [sign b1] eqn:Es.
  assert (length b1 <= length b)%nat as Hl by (destruct b; [|destruct (decide _)]; injection Es as <- <-; cbn; lia). clear Es.
  eapply (consumes_bind b1); [apply int_part_consumes|done|]. intros i r1 H1 _.
  apply (keeps_consumes r1); [|lia]. eapply (keeps_bind r1); [apply opt_fraction_keeps|lia|]. intros f r2 H2.
  eapply (keeps_bind r2); [apply opt_exponent_keeps|lia|]. intros e r3 H3. cbn. lia.
Qed.

Lemma json_elements_consumes rec fuel b acc : (length b < fuel)%nat ->
  (forall b', (length b' <= length b)%nat -> consumes b' (rec b')) -> consumes b (json_elements rec fuel b acc).
Proof.
  revert b acc. induction fuel as [|fuel IH]; intros b acc Hf Hrec; [lia|]. cbn [json_elements].
  eapply consumes_bind; [by apply Hrec|done|]. intros v r Hr _. pose proof (skip_ws_length r) as Hs.
  destruct (skip_ws r) as [|c r2]; [done|]. cbn [length] in Hs. case_decide; [|case_decide; [cbn; lia|done]].
  eapply consumes_weaken; [apply IH; [lia|]|lia]. intros b' Hb'. apply Hrec. lia.
Qed.
Lemma json_members_consumes rec fuel b acc : (length b < fuel)%nat ->
  (forall b', (length b' <= length b)%nat -> consumes b' (rec b')) -> consumes b (json_members rec fuel b acc).
Proof.
  revert b acc. induction fuel as [|fuel IH]; intros b acc Hf Hrec; [lia|]. cbn [json_members].
  pose proof (skip_ws_length b) as L0. destruct (skip_ws b) as [|q r]; [done|]. cbn [length] in L0. case_decide; [|done].
  eapply consumes_bind; [apply read_string_consumes|lia|]. intros k r1 L1 _. pose proof (skip_ws_length r1) as L2.
  destruct (skip_ws r1) as [|c r2]; [done|]. cbn [length] in L2. case_decide; [|done].
  eapply consumes_bind; [apply Hrec; lia|lia|]. intros v r3 L3 _. pose proof (skip_ws_length r3) as L4.
  destruct (skip_ws r3) as [|c3 r4]; [done|]. cbn [length] in L4. case_decide; [|case_decide; [cbn; lia|done]].
  eapply consumes_weaken; [apply IH; [lia|]|lia]. intros b' Hb'. apply Hrec. lia.
Qed.
Lemma expect_literal_consumes lit v b : lit <> [] -> consumes b (expect_literal lit v b).
Proof.
  intros Hl. unfold expect_literal. case_decide as H; [|done]. cbn. rewrite length_drop.
  assert (b <> []) by (intros ->; rewrite take_nil in H; by subst). destruct lit, b; cbn; [done..|lia].
Qed.
Lemma json_value_consumes fuel depth b : (length b < fuel)%nat -> consumes b (json_value fuel depth b).
Proof.
  revert depth b. induction fuel as [|fuel IH]; intros depth b Hf; [lia|]. cbn [json_value].
  pose proof (skip_ws_length b) as H0. destruct (skip_ws b) as [|c r]; [done|]. apply (consumes_weaken (c :: r)); [|done].
  cbn [length] in H0. assert (Hrec : forall d b', (length b' <= length r)%nat -> consumes b' (json_value fuel d b')) by (intros; apply IH; lia).
  assert (Hnest : forall A (m : res (A * bytes)) (f : A -> json), consumes r m -> consumes (c :: r) ('(l, r) ← m; Ok (f l, r))).
  { intros A m f Hm. eapply consumes_bind; [exact Hm|cbn; lia|]. intros l r2 ? ?. done. }
  case_decide; [by apply Hnest, read_string_consumes|]. pose proof (skip_ws_length r) as H1.
  case_decide.
  { destruct (_ >=? _); [done|]. destruct (skip_ws r) as [|c2 r2]; [done|]. cbn [length] in H1.
    case_decide; [cbn; lia|]. apply Hnest, json_members_consumes; [lia|]. intros; by apply Hrec. }
  case_decide.
  { destruct (_ >=? _); [done|]. destruct (skip_ws r) as [|c2 r2]; [done|]. cbn [length] in H1.
    case_decide; [cbn; lia|]. apply Hnest, json_elements_consumes; [lia|]. intros; by apply Hrec. }
  do 3 (case_decide; [by apply expect_literal_consumes|]).
  destruct (_ || _); [|done]. eapply consumes_bind; [apply read_number_consumes|done|]. done.
Qed.
(** On any text: a value or a syntax error. *)
Lemma parse_safe b : safe (parse b).
Proof.
  unfold parse. pose proof (json_value_consumes (S (length b)) 0 b ltac:(lia)) as H.
  destruct (json_value _ _ _) as [[v r]| | |]; [|done..]. cbn. by destruct (skip_ws r).
Qed.
Lemma Unmarshal_safe `{JsonText} {T} (dec : decoder T) zero b : safe (Unmarshal dec zero b).
Proof. unfold Unmarshal. pose proof (parse_safe b). destruct (parse b) as [j| | |]; [|done..]. by destruct (dec j zero). Qed.

(** ** Integers round trip *)

Lemma digits_acc fuel base z acc : digits fuel base z acc = digits fuel base z [] ++ acc.
Proof.
  revert z acc. induction fuel as [|fuel IH]; intros z acc; cbn; [done|]. destruct (_ =? 0); [done|].
  rewrite IH, (IH _ [_]), <- app_assoc. done.
Qed.
Lemma digits_value_snoc l d : digits_value (l ++ [d]) = digits_value l * 10 + (bval d - 48).
Proof. unfold digits_value. by rewrite fold_left_app. Qed.
Lemma digit_decimal d : 0 <= d < 10 -> bval (digit d) = 48 + d.
Proof. intros Hd. unfold digit. rewrite bval_tobyte. destruct (Z.ltb_spec d 10); [|lia]. apply Z.mod_small. lia. Qed.

(** Digits that denote [z], without a leading zero. *)
Definition decimal (z : Z) (ds : bytes) : Prop :=
  forallb is_digit ds = true /\ digits_value ds = z /\ exists d r, ds = d :: r /\ (d = "0"%byte -> z = 0 /\ r = []).
Lemma decimal_digit z : 0 <= z < 10 -> decimal z [digit z].
Proof.
  intros Hz. pose proof (digit_decimal z Hz) as Hd. unfold decimal, digits_value. cbn. unfold is_digit. rewrite Hd. split_and!.
  - rewrite andb_true_r. apply andb_true_iff. rewrite !Z.leb_le. lia.
  - lia.
  - eexists _, _. split; [done|]. intros E. rewrite E in Hd. change (bval "0") with 48 in Hd. split; [lia|done].
Qed.
Lemma decimal_snoc z ds d : 0 < z -> 0 <= d < 10 -> decimal z ds -> decimal (z * 10 + d) (ds ++ [digit d]).
Proof.
  intros Hz Hd (Hall & Hv & x & r & -> & Hx). destruct (decimal_digit d Hd) as (Ha & Hv' & _). unfold decimal. split_and!.
  - rewrite forallb_app, Hall. done.
  - rewrite digits_value_snoc, Hv, digit_decimal by done. lia.
  - eexists _, _. split; [done|]. intros E. destruct (Hx E). lia.
Qed.
Lemma digits_decimal fuel z : 0 <= z < 2 ^ Z.of_nat fuel -> (0 < fuel)%nat -> decimal z (digits fuel 10 z []).
Proof.
  revert z. induction fuel as [|fuel IH]; intros z Hz Hf; [lia|]. cbn [digits].
  pose proof (Z.div_mod z 10 ltac:(lia)) as Hdm. pose proof (Z.mod_pos_bound z 10 ltac:(lia)).
  destruct (Z.eqb_spec (z / 10) 0) as [E|E].
  - rewrite Z.mod_small by lia. apply decimal_digit. lia.
  - rewrite digits_acc. replace z with (z / 10 * 10 + z mod 10) at 1 by lia.
    assert (0 < z / 10) by (pose proof (Z.div_pos z 10); lia).
    assert (z / 10 < 2 ^ Z.of_nat fuel) by (rewrite Nat2Z.inj_succ, Z.pow_succ_r in Hz by lia; lia).
    apply decimal_snoc; [done|lia|]. apply IH; [lia|]. destruct fuel; [|lia]. change (2 ^ Z.of_nat 0) with 1 in *. lia.
Qed.
Lemma to_base_decimal z : 0 <= z -> decimal z (to_base 10 z).
Proof.
  intros Hz. apply digits_decimal; [|lia]. split; [done|]. destruct (Z.eq_dec z 0) as [->|]; [done|].
  pose proof (Z.log2_spec z ltac:(lia)). pose proof (Z.log2_nonneg z). rewrite Nat2Z.inj_succ, Z2Nat.id by lia. lia.
Qed.

(** What may follow a number. *)
Definition delim (t : bytes) : Prop :=
  match t with [] => True | c :: _ => is_digit c = false /\ c <> "."%byte /\ c <> "e"%byte /\ c <> "E"%byte end.
Lemma span_decimal ds t : forallb is_digit ds = true -> delim t -> span_digits (ds ++ t) = (ds, t).
Proof.
  intros Hd Ht. induction ds as [|d ds IH]; cbn in *.
  - destruct t as [|c r]; [done|]. destruct Ht as (Hc & _). cbn. by rewrite Hc.
  - apply andb_true_iff in Hd as [-> Hd]. by rewrite IH.
Qed.
Lemma int_part_decimal z ds t : decimal z ds -> delim t -> int_part (ds ++ t) = Ok (ds, t).
Proof.
  intros (Hall & _ & d & r & -> & Hz) Ht. cbn [app int_part]. case_decide as E; [destruct (Hz E) as [_ ->]; done|].
  unfold digits1. change (d :: r ++ t) with ((d :: r) ++ t). by rewrite span_decimal.
Qed.
Lemma read_integer z t : delim t -> read_number (Itoa z ++ t) = Ok (Itoa z, t).
Proof.
  intros Ht. assert (Htail : forall sign ds, ('(i, b) ← Ok (ds, t); '(f, b) ← opt_fraction b; '(e, b) ← opt_exponent b; Ok (sign ++ i ++ f ++ e, b))
    = Ok (sign ++ ds, t) :> res (bytes * bytes)).
  { intros sign ds. cbn [mbind res_bind]. destruct t as [|c r]; cbn; [by rewrite app_nil_r|]. destruct Ht as (_ & H1 & H2 & H3).
    rewrite decide_False by done. cbn. rewrite decide_False by tauto. cbn. by rewrite app_nil_r. }
  unfold read_number, Itoa. destruct (Z.ltb_spec z 0).
  - pose proof (to_base_decimal (- z) ltac:(lia)) as Hd. cbn [str app]. change (str "-" ++ to_base 10 (- z)) with ("-"%byte :: to_base 10 (- z)).
    cbn [app]. rewrite decide_True by done. rewrite (int_part_decimal _ _ _ Hd Ht). apply (Htail [ "-"%byte ]).
  - pose proof (to_base_decimal z ltac:(lia)) as Hd. pose proof Hd as (Hall & _ & d & r & Ed & _).
    rewrite Ed at 1. cbn [app]. rewrite decide_False.
    2: { intros ->. rewrite Ed in Hall. discriminate Hall. }
    rewrite (int_part_decimal _ _ _ Hd Ht). apply (Htail []).
Qed.
Lemma parse_int_Itoa z : - 2 ^ 63 <= z < 2 ^ 63 -> parse_int (Itoa z) = Some z.
Proof.
  intros Hz. unfold parse_int, Itoa. destruct (Z.ltb_spec z 0).
  - destruct (to_base_decimal (- z) ltac:(lia)) as (Hall & Hv & d & r & Ed & _). change (str "-" ++ to_base 10 (- z)) with ("-"%byte :: to_base 10 (- z)).
    cbv iota beta. rewrite decide_True by done. rewrite Hall, Hv, (bool_decide_eq_true_2 (_ <> [])) by (by rewrite Ed).
    replace (-1 * - z) with z by lia. rewrite (proj2 (Z.leb_le _ _)), (proj2 (Z.ltb_lt z _)) by lia. done.
  - destruct (to_base_decimal z ltac:(lia)) as (Hall & Hv & d & r & Ed & _). rewrite Ed in *. cbv iota beta. rewrite decide_False.
    2: { intros ->. discriminate Hall. }
    rewrite Hall, Hv, (bool_decide_eq_true_2 (_ <> [])) by done.
    replace (1 * z) with z by lia. rewrite (proj2 (Z.leb_le _ _)), (proj2 (Z.ltb_lt z _)) by lia. done.
Qed.

(** ** Values round trip *)

Section json_ind.
Variable P : json -> Prop.
Hypothesis (Hnull : P JNull) (Hbool : forall b, P (JBool b)) (Hnum : forall l, P (JNum l)) (Hstr : forall s, P (JStr s))
  (Harr : forall l, Forall P l -> P (JArr l)) (Hobj : forall l, Forall (fun kv => P kv.2) l -> P (JObj l)).
Fixpoint json_ind' (j : json) : P j :=
  match j with
  | JNull => Hnull | JBool b => Hbool b | JNum l => Hnum l | JStr s => Hstr s
  | JArr l => Harr l ((fix go (l : list json) : Forall P l :=
      match l with [] => List.Forall_nil _ | x :: l => List.Forall_cons _ _ _ (json_ind' x) (go l) end) l)
  | JObj l => Hobj l ((fix go (l : list (bytes * json)) : Forall (fun kv => P kv.2) l :=
      match l with [] => List.Forall_nil _ | x :: l => List.Forall_cons _ _ _ (json_ind' x.2) (go l) end) l)
  end.
End json_ind.

(** The values the program writes: its numbers are integers. *)
Fixpoint json_ok (j : json) : Prop :=
  match j with
  | JNum lit => exists z, lit = Itoa z
  | JArr l => foldr (fun x P => json_ok x /\ P) True l
  | JObj l => foldr (fun kv P => json_ok kv.2 /\ P) True l
  | _ => True
  end.
(** The nesting of brackets. *)
Fixpoint height (j : json) : Z :=
  match j with
  | JArr l => 1 + foldr (fun x h => Z.max (height x) h) 0 l
  | JObj l => 1 + foldr (fun kv h => Z.max (height kv.2) h) 0 l
  | _ => 0
  end.
(** What is read back. *)
Fixpoint valid_json (j : json) : json :=
  match j with
  | JStr s => JStr (ToValidUTF8 s)
  | JArr l => JArr (map valid_json l)
  | JObj l => JObj (map (fun kv => (ToValidUTF8 kv.1, valid_json kv.2)) l)
  | j => j
  end.

Lemma Marshal_head j : json_ok j ->
  exists c r, Marshal j = c :: r /\ is_ws c = false /\ c <> "]"%byte /\ c <> "}"%byte.
Proof.
  destruct j as [|[]|lit|s|l|l]; cbn [Marshal json_ok]; intros Hok; try (eexists _, _; split_and!; [reflexivity|reflexivity|discriminate..]).
  destruct Hok as [z ->]. unfold Itoa. destruct (z <? 0) eqn:E; [eexists _, _; split_and!; [reflexivity|reflexivity|discriminate..]|].
  apply Z.ltb_ge in E. destruct (to_base_decimal z E) as (Hall & _ & d & r & Ed & _). rewrite Ed in *. exists d, r. split; [done|].
  cbn in Hall. apply andb_true_iff in Hall as [Hd _]. destruct d; try discriminate Hd; split_and!; (reflexivity || discriminate).
Qed.
Lemma skip_Marshal j t : json_ok j -> skip_ws (Marshal j ++ t) = Marshal j ++ t.
Proof. intros Hok. destruct (Marshal_head j Hok) as (c & r & -> & Hc & _). cbn. by rewrite Hc. Qed.

Definition reads_back (rec : bytes -> res (json * bytes)) (j : json) : Prop :=
  forall t, delim t -> rec (Marshal j ++ t) = Ok (valid_json j, t).

Lemma join_cons sep x y (l : list bytes) : join sep (x :: y :: l) = x ++ sep ++ join sep (y :: l).
Proof. done. Qed.
Lemma length_join sep (l : list bytes) : Forall (fun x => x <> []) l -> (length l <= length (join sep l))%nat.
Proof.
  intros H. induction H as [|x l Hx _ IH]; [done|]. destruct x; [done|]. destruct l as [|y l]; [cbn; lia|].
  rewrite join_cons, !length_app. cbn [length] in *. lia.
Qed.

Lemma skip_comma x : skip_ws (str "," ++ x) = ","%byte :: x.
Proof. done. Qed.

Lemma json_elements_read rec l fuel acc t : l <> [] -> Forall (fun j => json_ok j /\ reads_back rec j) l -> (length l <= fuel)%nat ->
  json_elements rec fuel (join (str ",") (map Marshal l) ++ "]"%byte :: t) acc = Ok (acc ++ map valid_json l, t).
Proof.
  intros Hne H. revert fuel acc Hne. induction H as [|j l [Hok Hr] _ IH]; intros fuel acc Hne Hf; [done|].
  destruct fuel as [|fuel]; [cbn in Hf; lia|]. cbn [json_elements]. destruct l as [|j2 l].
  - cbn [map join]. rewrite Hr by done. cbn. done.
  - cbn [map]. rewrite join_cons, <- !app_assoc, Hr by done. cbn [mbind res_bind]. rewrite skip_comma, decide_True by done.
    rewrite (IH fuel) by (done || (cbn in *; lia)). by rewrite <- app_assoc.
Qed.
Definition member (kv : bytes * json) : bytes := quoted kv.1 ++ str ":" ++ Marshal kv.2.
Lemma member_head kv t : skip_ws (member kv ++ t) = quote_byte :: escape (length kv.1) kv.1 ++ quote_byte :: ":"%byte :: Marshal kv.2 ++ t.
Proof. unfold member, quoted. rewrite <- !app_assoc. done. Qed.
Lemma json_members_read rec (l : list (bytes * json)) fuel acc t : l <> [] -> Forall (fun kv => json_ok kv.2 /\ reads_back rec kv.2) l -> (length l <= fuel)%nat ->
  json_members rec fuel (join (str ",") (map member l) ++ "}"%byte :: t) acc
  = Ok (acc ++ map (fun kv => (ToValidUTF8 kv.1, valid_json kv.2)) l, t).
Proof.
  intros Hne H. revert fuel acc Hne. induction H as [|kv l [Hok Hr] _ IH]; intros fuel acc Hne Hf; [done|].
  destruct fuel as [|fuel]; [cbn in Hf; lia|]. cbn [json_members]. destruct l as [|kv2 l].
  - cbn [map join]. rewrite member_head. rewrite decide_True by done. rewrite read_quoted. cbn [mbind res_bind]. cbn [skip_ws].
    change (is_ws ":") with false. cbv iota. rewrite decide_True by done. rewrite Hr by done. done.
  - cbn [map]. rewrite join_cons, <- !app_assoc. rewrite member_head. rewrite decide_True by done. rewrite read_quoted. cbn [mbind res_bind]. cbn [skip_ws].
    change (is_ws ":") with false. cbv iota. rewrite decide_True, Hr by done. cbn [mbind res_bind]. rewrite skip_comma, decide_True by done.
    rewrite (IH fuel) by (done || (cbn in *; lia)). by rewrite <- app_assoc.
Qed.

Lemma json_ok_all (l : list json) : foldr (fun x P => json_ok x /\ P) True l -> Forall json_ok l.
Proof. induction l as [|x l IH]; cbn; [done|]. intros [H1 H2]. constructor; auto. Qed.
Lemma json_ok_members (l : list (bytes * json)) : foldr (fun kv P => json_ok kv.2 /\ P) True l -> Forall (fun kv => json_ok kv.2) l.
Proof. induction l as [|x l IH]; cbn; [done|]. intros [H1 H2]. constructor; auto. Qed.
Lemma max_bound {A} (f : A -> Z) l n : foldr (fun x h => Z.max (f x) h) 0 l <= n -> Forall (fun x => f x <= n) l.
Proof. induction l as [|x l IH]; cbn; [done|]. intros H. constructor; [lia|]. apply IH. lia. Qed.
Lemma join_part sep (l : list bytes) x : x ∈ l -> (length x <= length (join sep l))%nat.
Proof.
  induction l as [|y l IH]; intros Hx; [set_solver|]. destruct l as [|z l]; [by apply list_elem_of_singleton in Hx as ->|].
  rewrite join_cons, !length_app. apply elem_of_cons in Hx as [->|Hx]; [lia|]. specialize (IH Hx). lia.
Qed.
Lemma Marshal_nonempty j : json_ok j -> Marshal j <> [].
Proof. intros H. by destruct (Marshal_head j H) as (c & r & -> & _). Qed.

Lemma Marshal_arr l : Marshal (JArr l) = "["%byte :: join (str ",") (map Marshal l) ++ [ "]"%byte ].
Proof. done. Qed.
Lemma Marshal_obj l : Marshal (JObj l) = "{"%byte :: join (str ",") (map member l) ++ [ "}"%byte ].
Proof. done. Qed.
(** The first byte inside the brackets. *)
Lemma join_head c0 (x : bytes) l t : (exists c r, x = c :: r /\ is_ws c = false /\ c <> c0) ->
  exists c r, skip_ws (join (str ",") (x :: l) ++ t) = c :: r /\ c <> c0.
Proof. intros (c & r & -> & Hw & Hc). destruct l as [|y l]; [cbn [join]|rewrite join_cons]; cbn; rewrite Hw; eauto. Qed.
Lemma heights_pos {A} (f : A -> Z) l : 0 <= foldr (fun x h => Z.max (f x) h) 0 l.
Proof. induction l; cbn; lia. Qed.

Definition value_reads_back (j : json) : Prop := json_ok j -> forall fuel depth, (length (Marshal j) <= fuel)%nat ->
  depth + height j <= maxNestingDepth -> reads_back (json_value fuel depth) j.

Lemma array_reads l : Forall value_reads_back l -> value_reads_back (JArr l).
Proof.
  intros IH Hok fuel depth Hf Hh t Ht. rewrite Marshal_arr in *. cbn [json_ok height valid_json] in *. apply json_ok_all in Hok.
  rewrite List.Forall_forall in Hok, IH. cbn [length] in Hf. rewrite length_app in Hf. cbn [length] in Hf.
  destruct fuel as [|fuel]; [lia|]. cbn [app json_value skip_ws]. change (is_ws "[") with false. cbv iota. rewrite <- app_assoc.
  rewrite decide_False, decide_False, decide_True by done. pose proof (heights_pos height l).
  destruct (Z.geb_spec depth maxNestingDepth) as [?|_]; [lia|]. destruct l as [|j l]; [done|]. cbn [app].
  destruct (join_head "]"%byte (Marshal j) (map Marshal l) ("]"%byte :: t)) as (c & r & E & Hc).
  { destruct (Marshal_head j) as (c & r & ? & ? & ? & _); [apply Hok; by left|eauto]. }
  change (Marshal j :: map Marshal l) with (map Marshal (j :: l)) in E. rewrite E, decide_False by done.
  rewrite (json_elements_read _ (j :: l)); [done|done| |].
  - apply List.Forall_forall. intros x Hx. split; [by apply Hok|]. apply IH; [done|by apply Hok| |].
    + pose proof (join_part (str ",") _ _ (proj2 (list_elem_of_In _ _) (in_map Marshal _ _ Hx))). lia.
    + pose proof (max_bound height (j :: l) _ (Z.le_refl _)) as Hm. rewrite List.Forall_forall in Hm. specialize (Hm x Hx). lia.
  - rewrite length_app. pose proof (length_join (str ",") (map Marshal (j :: l))) as Hl. rewrite length_map in Hl. 
    assert (Forall (fun x => x <> []) (map Marshal (j :: l))) as Hn; [|specialize (Hl Hn); lia].
    apply List.Forall_forall. intros x (y & <- & Hy)%in_map_iff. by apply Marshal_nonempty, Hok.
Qed.
Lemma object_reads (l : list (bytes * json)) : Forall (fun kv => value_reads_back kv.2) l -> value_reads_back (JObj l).
Proof.
  intros IH Hok fuel depth Hf Hh t Ht. rewrite Marshal_obj in *. cbn [json_ok height valid_json] in *. apply json_ok_members in Hok.
  rewrite List.Forall_forall in Hok, IH. cbn [length] in Hf. rewrite length_app in Hf. cbn [length] in Hf.
  destruct fuel as [|fuel]; [lia|]. cbn [app json_value skip_ws]. change (is_ws "{") with false. cbv iota. rewrite <- app_assoc.
  rewrite decide_False, decide_True by done. pose proof (heights_pos (fun kv : bytes * json => height kv.2) l).
  destruct (Z.geb_spec depth maxNestingDepth) as [?|_]; [lia|]. destruct l as [|kv l]; [done|]. cbn [app].
  destruct (join_head "}"%byte (member kv) (map member l) ("}"%byte :: t)) as (c & r & E & Hc); [by eexists quote_byte, _|].
  change (member kv :: map member l) with (map member (kv :: l)) in E. rewrite E, decide_False by done.
  rewrite (json_members_read _ (kv :: l)); [done|done| |].
  - apply List.Forall_forall. intros x Hx. split; [by apply Hok|]. apply IH; [done|by apply Hok| |].
    + pose proof (join_part (str ",") _ _ (proj2 (list_elem_of_In _ _) (in_map member _ _ Hx))) as Hp. unfold member at 1 in Hp.
      rewrite !length_app in Hp. lia.
    + pose proof (max_bound (fun kv : bytes * json => height kv.2) (kv :: l) _ (Z.le_refl _)) as Hm. rewrite List.Forall_forall in Hm.
      specialize (Hm x Hx). cbv beta in Hm. lia.
  - rewrite length_app. pose proof (length_join (str ",") (map member (kv :: l))) as Hl. rewrite length_map in Hl. 
    assert (Forall (fun x => x <> []) (map member (kv :: l))) as Hn; [|specialize (Hl Hn); lia].
    apply List.Forall_forall. by intros x (y & <- & Hy)%in_map_iff.
Qed.

Lemma json_value_reads j : value_reads_back j.
Proof.
  induction j as [|b|lit|s|l IH|l IH] using json_ind'; [| | | |by apply array_reads|by apply object_reads];
    intros Hok fuel depth Hf Hh t Ht; (destruct fuel as [|fuel]; [destruct (Marshal_head _ Hok) as (? & ? & E & _); rewrite E in Hf; cbn in Hf; lia|]).
  - reflexivity.
  - by destruct b.
  - destruct Hok as [z ->]. cbn [Marshal valid_json]. destruct (Marshal_head (JNum (Itoa z))) as (c & r & E & Hw & _); [by exists z|]. cbn [Marshal] in E.
    cbn [json_value]. pose proof (read_integer z t Ht) as Hn. rewrite E in *. cbn [app skip_ws] in *. rewrite Hw.
    assert (is_digit c || bool_decide (c = "-"%byte) = true) as Hc.
    { clear -E. revert E. unfold Itoa. destruct (z <? 0) eqn:Ez; [intros [= <- _]; done|]. apply Z.ltb_ge in Ez.
      destruct (to_base_decimal z Ez) as (Hall & _ & d & r' & Ed & _). rewrite Ed in *. intros [= -> _]. cbn in Hall.
      apply andb_true_iff in Hall as [-> _]. done. }
    do 6 (rewrite decide_False by (intros ->; discriminate Hc)). rewrite Hc, Hn. done.
  - cbn [Marshal valid_json]. unfold quoted. rewrite <- !app_assoc. cbn [app json_value skip_ws]. change (is_ws quote_byte) with false. cbv iota.
    rewrite decide_True by done. rewrite read_quoted. done.
Qed.

(** Written and read back, a document is itself, up to invalid UTF-8 in its
    strings; trailing white space is allowed. *)
Lemma parse_Marshal j w : json_ok j -> height j <= maxNestingDepth -> forallb is_ws w = true -> parse (Marshal j ++ w) = Ok (valid_json j).
Proof.
  intros Hok Hh Hw. unfold parse. assert (delim w) as Hd by (destruct w as [|c w]; [done|]; cbn in Hw; destruct c; try discriminate Hw; done).
  rewrite (json_value_reads j Hok); [|rewrite length_app; lia|lia|done]. cbn [mbind res_bind].
  assert (skip_ws w = []) as ->; [|done]. clear -Hw. induction w as [|c w IH]; [done|]. cbn in *. apply andb_true_iff in Hw as [-> Hw]. by apply IH.
Qed.

(** ** One document is one line *)

Lemma multi_high b0 r : bval b0 <? 0x80 = false -> invalid_rune (decode_rune (b0 :: r)) = false ->
  Forall (fun b => 0x80 <= bval b) (take (decode_rune (b0 :: r)).2 (b0 :: r)).
Proof.
  intros Hb. unfold decode_rune. rewrite Hb. apply Z.ltb_ge in Hb.
  destruct r as [|b1 [|b2 [|b3 r3]]];
    repeat match goal with
    | |- invalid_rune (0xFFFD, 1%nat) = false -> _ => intros H; discriminate H
    | |- context [if ?c then (_, _) else _] => destruct c eqn:?
    end; intros _; cbn [fst snd take];
    repeat match goal with H : _ && _ = true |- _ => apply andb_true_iff in H as [? ?] end;
    repeat match goal with H : in_range _ _ _ = true |- _ => apply in_range_spec in H end;
    repeat constructor; try lia; repeat destruct (_ =? _); lia.
Qed.
(** By evaluation. *)
Ltac absent := apply (bool_decide_eq_true_1 (_ ∉ _)); reflexivity.
Lemma escape_ascii_line b : Byte.x0a ∉ escape_ascii b.
Proof. destruct b; absent. Qed.
Lemma escape_line fuel s : Byte.x0a ∉ escape fuel s.
Proof.
  revert s. induction fuel as [|fuel IH]; intros s; [destruct s; set_solver|]. destruct s as [|b t]; [set_solver|]. cbn [escape].
  destruct (bval b <? 0x80) eqn:Hb; [rewrite elem_of_app; intros [H|H]; [by eapply escape_ascii_line|by eapply IH]|]. cbv zeta.
  destruct (invalid_rune _) eqn:Hi.
  { rewrite !elem_of_app. intros [H|[H|H]]; [set_solver| |by eapply IH]. revert H. absent. }
  case_bool_decide as Hr.
  - rewrite !elem_of_app. intros [H|[H|[H|H]]]; [set_solver| | |by eapply IH]; revert H; [absent|].
    destruct Hr as [-> | ->]; absent.
  - rewrite elem_of_app. intros [H|H]; [|by eapply IH]. pose proof (multi_high b t Hb Hi) as Hm. rewrite Forall_forall in Hm.
    specialize (Hm _ H). cbn in Hm. lia.
Qed.
Lemma Itoa_line z : Byte.x0a ∉ Itoa z.
Proof.
  assert (forall z, 0 <= z -> Byte.x0a ∉ to_base 10 z) as Hd.
  { intros x Hx. destruct (to_base_decimal x Hx) as (Hall & _). intros H. rewrite forallb_forall in Hall.
    apply list_elem_of_In, Hall in H. discriminate H. }
  unfold Itoa. destruct (z <? 0) eqn:E; [apply Z.ltb_lt in E|apply Z.ltb_ge in E; by apply Hd].
  intros H. rewrite elem_of_app in H. destruct H as [H|H]; [revert H; absent|]. revert H. apply Hd. lia.
Qed.
Lemma join_line sep (l : list bytes) : Byte.x0a ∉ sep -> Forall (fun x => Byte.x0a ∉ x) l -> Byte.x0a ∉ join sep l.
Proof.
  intros Hs Hl. induction Hl as [|x l Hx Hl IH]; [set_solver|]. destruct l as [|y l]; [done|]. rewrite join_cons, !elem_of_app. naive_solver.
Qed.
Lemma Marshal_line j : json_ok j -> Byte.x0a ∉ Marshal j.
Proof.
  induction j as [|b|lit|s|l IH|l IH] using json_ind'; intros Hok.
  - absent.
  - destruct b; absent.
  - destruct Hok as [z ->]. apply Itoa_line.
  - cbn. rewrite !elem_of_cons, elem_of_app. pose proof (escape_line (length s) s). set_solver.
  - rewrite Marshal_arr, elem_of_cons, elem_of_app. apply json_ok_all in Hok. 
    assert (Byte.x0a ∉ join (str ",") (map Marshal l)) as Hj; [|set_solver]. apply join_line; [absent|].
    apply Forall_map. rewrite Forall_forall in *. auto.
  - rewrite Marshal_obj, elem_of_cons, elem_of_app. apply json_ok_members in Hok.
    assert (Byte.x0a ∉ join (str ",") (map member l)) as Hj; [|set_solver]. apply join_line; [absent|].
    apply Forall_map. rewrite Forall_forall in *. intros kv Hin. unfold member, quoted. cbn. rewrite !elem_of_cons, !elem_of_app.
    specialize (IH kv Hin (Hok kv Hin)). pose proof (escape_line (length kv.1) kv.1). set_solver.
Qed.
