(* ===== verification/Config.v ===== *)
(** internal/config/config.go: the configuration records, their validation and
    the derived views (used adapters, listen ports, endpoint resolution).

    Go maps are [gmap]s.  The source ranges over them in an unspecified order,
    so [Validate] takes the orders as arguments; the theorems hold for every
    order that lists the map.  Warnings are the log the function appends to.
    The YAML decoding and file access of [Load]/[LoadSocketPath] are a
    third-party parser and the file system: parameters. *)
From Stdlib Require Import Strings.Byte.
From stdpp Require Import sorting.
From S2P Require Import Prelude Fmt Vars.

(** ** Identifiers *)

Definition is_alnum_ (b : byte) : bool :=
  let v := bval b in
  ((65 <=? v) && (v <=? 90)) || ((97 <=? v) && (v <=? 122)) || ((48 <=? v) && (v <=? 57)) || (v =? 95).
Definition is_ident_rest (b : byte) : bool := is_alnum_ b || (bval b =? 36) || (bval b =? 45).

(** [identRE]: [^[A-Za-z0-9_][A-Za-z0-9_$-]{0,62}$]. *)
Definition ValidIdentifier (s : bytes) : bool :=
  match s with
  | [] => false
  | c :: r => is_alnum_ c && forallb is_ident_rest r && (len r <=? 62)
  end.

(** ** Data *)

Record ForwardTarget := mkForwardTarget { ft_Host : bytes; ft_Port : Z }.

Record Target := mkTarget {
  t_Name : bytes;
  t_Host : bytes;
  t_Port : Z;
  t_ForwardTo : bytes;
  t_User : bytes;
  t_Password : bytes;
  t_Database : bytes;
  t_AuthSource : bytes;
  t_SSLMode : bytes;
}.

Record Database := mkDatabase {
  d_Adapter : bytes;
  d_VirtualName : bytes;
  d_Targets : list Target;
}.

Record Config := mkConfig {
  ListenHost : bytes;
  ListenPorts : gmap bytes Z;
  ControlSocket : bytes;
  ForwardTargets : gmap bytes ForwardTarget;
  Databases : list Database;
}.

Definition AdapterPostgres : bytes := str "postgres".
Definition AdapterMySQL : bytes := str "mysql".
Definition AdapterMongo : bytes := str "mongodb".
Definition SSLModeDisable : bytes := str "disable".
Definition SSLModeRequire : bytes := str "require".
Definition SupportedSSLModes : list bytes := [SSLModeDisable; SSLModeRequire].
Definition SupportedAdapters : list bytes := [AdapterMongo; AdapterMySQL; AdapterPostgres].
Definition DefaultListenHost : bytes := str "127.0.0.1".
Definition DefaultControlSocket : bytes := str "/tmp/dbpivot.sock".

Fixpoint mem_str (s : bytes) (l : list bytes) : bool :=
  match l with [] => false | a :: l => if decide (a = s) then true else mem_str s l end.
Definition isSupportedAdapter (s : bytes) : bool := mem_str s SupportedAdapters.
Definition isSupportedSSLMode (s : bytes) : bool := mem_str s SupportedSSLModes.

(** [sort.Strings]: byte-wise lexicographic order. *)
Fixpoint str_leb (a b : bytes) : bool :=
  match a, b with
  | [], _ => true
  | _ :: _, [] => false
  | x :: a, y :: b => (bval x <? bval y) || ((bval x =? bval y) && str_leb a b)
  end.
Definition str_le (a b : bytes) : Prop := str_leb a b = true.
#[export] Instance str_le_dec a b : Decision (str_le a b) := decide (str_leb a b = true).
Definition sort_Strings (l : list bytes) : list bytes := merge_sort str_le l.

(** ** Views *)

Definition ListenHostOrDefault (cfg : Config) : bytes :=
  if decide (ListenHost cfg = []) then DefaultListenHost else ListenHost cfg.
Definition ListenPort (cfg : Config) (adapter : bytes) : option Z := ListenPorts cfg !! adapter.
Definition UsedAdapters (cfg : Config) : list bytes :=
  let seen : gset bytes :=
    foldr (fun d seen => if decide (d_Adapter d = []) then seen else {[d_Adapter d]} ∪ seen) ∅ (Databases cfg) in
  sort_Strings (elements seen).
Definition sortedTargetNames (targets : list Target) : list bytes := sort_Strings (map t_Name targets).
Definition equalStringSlices (a b : list bytes) : bool := bool_decide (a = b).
Definition TargetNames (cfg : Config) : list bytes :=
  match Databases cfg with [] => [] | d :: _ => sortedTargetNames (d_Targets d) end.
(** [cfg.HasTarget]: indexes [cfg.Databases[0]] without a length check. *)
Definition Config_HasTarget (cfg : Config) (name : bytes) : res bool :=
  d ← index (Databases cfg) 0; mret (mem_str name (map t_Name (d_Targets d))).
Definition ResolveEndpoint (t : Target) (fwd : gmap bytes ForwardTarget) : bytes * Z :=
  if decide (t_Host t <> []) then (t_Host t, t_Port t)
  else match fwd !! t_ForwardTo t with
       | Some ft => (ft_Host ft, ft_Port ft)
       | None => ([], 0)
       end.

(** ** Validation *)

Inductive warning : Type :=
  | WListenHost (host : bytes)
  | WAuthSource (virtual_name target adapter : bytes)
  | WEmptyDatabase (virtual_name target : bytes)
  | WTargetSet (virtual_name : bytes) (targets first : list bytes)
  | WUnusedPort (adapter : bytes) (port : Z).

Notation V := (M (list warning)).
Definition warn (w : warning) : V unit := modify (fun l => l ++ [w]).
(** [if cond { return fmt.Errorf(...) }] *)
Definition reject_if (c : bool) (f : bytes) (args : list farg) : V unit :=
  if c then fail (Errorf f args) else mret tt.

Definition port_ok (p : Z) : bool := (1 <=? p) && (p <=? 65535).

Fixpoint validate_ports (l : list (bytes * Z)) (seenPorts : gmap Z bytes) : V unit :=
  match l with
  | [] => mret tt
  | (adapter, port) :: l =>
      reject_if (negb (isSupportedAdapter adapter))
        (str "listen_ports has unsupported adapter %q (supported: %v)") [FStr adapter; FStrs SupportedAdapters];;
      reject_if (negb (port_ok port))
        (str "listen_ports[%q] must be in [1, 65535], got %d") [FStr adapter; FInt port];;
      match seenPorts !! port with
      | Some other => fail (Errorf (str "listen_ports[%q] and listen_ports[%q] both use port %d")
                              [FStr other; FStr adapter; FInt port])
      | None => validate_ports l (<[port := adapter]> seenPorts)
      end
  end.

Fixpoint validate_forwards (l : list (bytes * ForwardTarget)) : V unit :=
  match l with
  | [] => mret tt
  | (name, ft) :: l =>
      reject_if (bool_decide (name = [])) (str "forward_targets has an empty key") [];;
      reject_if (bool_decide (ft_Host ft = [])) (str "forward_targets[%q].host is empty") [FStr name];;
      reject_if (negb (port_ok (ft_Port ft)))
        (str "forward_targets[%q].port out of range: %d") [FStr name; FInt (ft_Port ft)];;
      validate_forwards l
  end.

Definition validate_target (cfg : Config) (logger : bool) (d : Database) (j : Z)
    (seenTargets : gset bytes) (t : Target) : V (gset bytes) :=
  let vn := FStr (d_VirtualName d) in
  let tn := FStr (t_Name t) in
  reject_if (bool_decide (t_Name t = [])) (str "database %q targets[%d].name is empty") [vn; FInt j];;
  reject_if (bool_decide (t_Name t ∈ seenTargets)) (str "database %q has duplicate target name %q") [vn; tn];;
  let inline := bool_decide (t_Host t <> []) || bool_decide (t_Port t <> 0) in
  let forward := bool_decide (t_ForwardTo t <> []) in
  reject_if (inline && forward)
    (str "database %q target %q: host/port and forward_to are mutually exclusive") [vn; tn];;
  reject_if (negb inline && negb forward)
    (str "database %q target %q: either host+port or forward_to is required") [vn; tn];;
  (if inline then
     reject_if (bool_decide (t_Host t = []))
       (str "database %q target %q: host is required when using inline endpoint") [vn; tn];;
     reject_if (negb (port_ok (t_Port t)))
       (str "database %q target %q: port out of range: %d") [vn; tn; FInt (t_Port t)]
   else
     reject_if (bool_decide (ForwardTargets cfg !! t_ForwardTo t = None))
       (str "database %q target %q: forward_to %q not defined in forward_targets") [vn; tn; FStr (t_ForwardTo t)]);;
  reject_if (bool_decide (t_User t = [])) (str "database %q target %q: user is required") [vn; tn];;
  reject_if (bool_decide (t_Password t = [])) (str "database %q target %q: password is required") [vn; tn];;
  reject_if (bool_decide (t_SSLMode t <> []) && negb (isSupportedSSLMode (t_SSLMode t)))
    (str "database %q target %q: unsupported sslmode %q (supported: %v)")
    [vn; tn; FStr (t_SSLMode t); FStrs SupportedSSLModes];;
  (if decide (t_AuthSource t <> []) then
     reject_if (negb (ValidIdentifier (t_AuthSource t)))
       (str "database %q target %q: auth_source %q is not a valid identifier") [vn; tn; FStr (t_AuthSource t)];;
     (if bool_decide (d_Adapter d <> AdapterMongo) && logger
      then warn (WAuthSource (d_VirtualName d) (t_Name t) (d_Adapter d)) else mret tt)
   else mret tt);;
  reject_if (bool_decide (t_Database t <> []) && bool_decide (RequiredVars (t_Database t) = [])
             && negb (ValidIdentifier (t_Database t)))
    (str "database %q target %q: database %q is not a valid identifier") [vn; tn; FStr (t_Database t)];;
  (if bool_decide (t_Database t = []) && logger
   then warn (WEmptyDatabase (d_VirtualName d) (t_Name t)) else mret tt);;
  mret ({[t_Name t]} ∪ seenTargets).

Fixpoint validate_targets (cfg : Config) (logger : bool) (d : Database) (j : Z)
    (seenTargets : gset bytes) (l : list Target) : V unit :=
  match l with
  | [] => mret tt
  | t :: l =>
      seen' ← validate_target cfg logger d j seenTargets t;
      validate_targets cfg logger d (j + 1) seen' l
  end.

Definition validate_database (cfg : Config) (logger : bool) (i : Z)
    (seenDatabases : gset bytes) (d : Database) : V (gset bytes) :=
  let vn := FStr (d_VirtualName d) in
  reject_if (bool_decide (d_VirtualName d = [])) (str "databases[%d].virtual_name is empty") [FInt i];;
  reject_if (negb (ValidIdentifier (d_VirtualName d))) (str "virtual_name %q is not a valid identifier") [vn];;
  reject_if (bool_decide (d_VirtualName d ∈ seenDatabases)) (str "duplicate virtual_name %q") [vn];;
  reject_if (bool_decide (d_Adapter d = []))
    (str "database %q: adapter is required (supported: %v)") [vn; FStrs SupportedAdapters];;
  reject_if (negb (isSupportedAdapter (d_Adapter d)))
    (str "database %q: unsupported adapter %q (supported: %v)") [vn; FStr (d_Adapter d); FStrs SupportedAdapters];;
  reject_if (bool_decide (ListenPorts cfg !! d_Adapter d = None))
    (str "database %q: adapter %q has no listen_ports entry") [vn; FStr (d_Adapter d)];;
  reject_if (bool_decide (d_Targets d = [])) (str "database %q has no targets") [vn];;
  validate_targets cfg logger d 0 ∅ (d_Targets d);;
  mret ({[d_VirtualName d]} ∪ seenDatabases).

Fixpoint validate_databases (cfg : Config) (logger : bool) (i : Z) (seenDatabases : gset bytes)
    (canonicalTargets : list bytes) (l : list Database) : V unit :=
  match l with
  | [] => mret tt
  | d :: l =>
      seen' ← validate_database cfg logger i seenDatabases d;
      let names := sortedTargetNames (d_Targets d) in
      if decide (i = 0) then validate_databases cfg logger (i + 1) seen' names l else
      (if negb (equalStringSlices names canonicalTargets) && logger
       then warn (WTargetSet (d_VirtualName d) names canonicalTargets) else mret tt);;
      validate_databases cfg logger (i + 1) seen' canonicalTargets l
  end.

Fixpoint warn_unused (used : list bytes) (l : list (bytes * Z)) : V unit :=
  match l with
  | [] => mret tt
  | (adapter, port) :: l =>
      (if mem_str adapter used then mret tt else warn (WUnusedPort adapter port));;
      warn_unused used l
  end.

(** [Validate]; [ports], [fwds] and [ports2] are the orders in which its three
    map loops visit [cfg.ListenPorts], [cfg.ForwardTargets] and
    [cfg.ListenPorts] again; [logger] says whether a logger was given. *)
Definition Validate (ports : list (bytes * Z)) (fwds : list (bytes * ForwardTarget))
    (ports2 : list (bytes * Z)) (logger : bool) (cfg : Config) : V unit :=
  reject_if (bool_decide (size (ListenPorts cfg) = 0%nat))
    (str "listen_ports must define at least one adapter port") [];;
  (if logger && bool_decide (ListenHost cfg <> []) && bool_decide (ListenHost cfg <> DefaultListenHost)
      && bool_decide (ListenHost cfg <> str "localhost")
   then warn (WListenHost (ListenHost cfg)) else mret tt);;
  validate_ports ports ∅;;
  validate_forwards fwds;;
  reject_if (bool_decide (Databases cfg = [])) (str "at least one database must be defined") [];;
  validate_databases cfg logger 0 ∅ [] (Databases cfg);;
  (if logger then warn_unused (UsedAdapters cfg) ports2 else mret tt).

(** [Load] and [LoadSocketPath]: [file] is what [os.ReadFile] returned,
    [unmarshal] the YAML decoder. *)
Section Load.
Context (unmarshal : bytes -> error + Config) (unmarshal_socket : bytes -> error + bytes).

Definition LoadSocketPath (file : error + bytes) : bytes :=
  match file with
  | inl _ => DefaultControlSocket
  | inr data =>
      match unmarshal_socket data with
      | inl _ => DefaultControlSocket
      | inr s => if decide (s = []) then DefaultControlSocket else s
      end
  end.

Definition Load ports fwds ports2 (path : bytes) (logger : bool) (file : error + bytes) : V Config :=
  match file with
  | inl e => fail e
  | inr data =>
      match unmarshal data with
      | inl e => fail (Errorf (str "parse %s: %w") [FStr path; FErr e])
      | inr cfg =>
          let cfg := if decide (ControlSocket cfg = [])
            then mkConfig (ListenHost cfg) (ListenPorts cfg) DefaultControlSocket (ForwardTargets cfg) (Databases cfg)
            else cfg in
          Validate ports fwds ports2 logger cfg;; mret cfg
      end
  end.
End Load.

(** ** What a valid configuration is *)

Definition port_valid (p : Z) : Prop := 1 <= p <= 65535.

(** Exactly one of an inline endpoint and a known forward target. *)
Definition endpoint_valid (cfg : Config) (t : Target) : Prop :=
  (t_Host t <> [] /\ port_valid (t_Port t) /\ t_ForwardTo t = []) \/
  (t_Host t = [] /\ t_Port t = 0 /\ t_ForwardTo t <> [] /\ is_Some (ForwardTargets cfg !! t_ForwardTo t)).

Record target_valid (cfg : Config) (t : Target) : Prop := {
  tv_name : t_Name t <> [];
  tv_endpoint : endpoint_valid cfg t;
  tv_user : t_User t <> [];
  tv_password : t_Password t <> [];
  tv_sslmode : t_SSLMode t = [] \/ t_SSLMode t ∈ SupportedSSLModes;
  tv_auth : t_AuthSource t = [] \/ ValidIdentifier (t_AuthSource t) = true;
  tv_database : t_Database t = [] \/ RequiredVars (t_Database t) <> [] \/
                ValidIdentifier (t_Database t) = true;
}.

Record database_valid (cfg : Config) (d : Database) : Prop := {
  dv_name : ValidIdentifier (d_VirtualName d) = true;
  dv_adapter : d_Adapter d ∈ SupportedAdapters;
  dv_port : is_Some (ListenPorts cfg !! d_Adapter d);
  dv_targets : d_Targets d <> [];
  dv_nodup : NoDup (map t_Name (d_Targets d));
  dv_each : Forall (target_valid cfg) (d_Targets d);
}.

Record config_valid (cfg : Config) : Prop := {
  cv_ports : ListenPorts cfg <> ∅;
  cv_port : forall a p, ListenPorts cfg !! a = Some p -> a ∈ SupportedAdapters /\ port_valid p;
  cv_port_inj : forall a1 a2 p, ListenPorts cfg !! a1 = Some p -> ListenPorts cfg !! a2 = Some p -> a1 = a2;
  cv_forward : forall n ft, ForwardTargets cfg !! n = Some ft -> n <> [] /\ ft_Host ft <> [] /\ port_valid (ft_Port ft);
  cv_databases : Databases cfg <> [];
  cv_nodup : NoDup (map d_VirtualName (Databases cfg));
  cv_each : Forall (database_valid cfg) (Databases cfg);
}.

(** ** Deciding by rejection *)

(** [checks m P a]: whatever was logged before, [m] returns [a] when [P] holds
    and an error when it does not. *)
Definition checks {A} (m : V A) (P : Prop) (a : A) : Prop := forall w,
  (P /\ exists w', m w = (Ok a, w')) \/ (~ P /\ exists e w', m w = (Err e, w')).

Lemma checks_ret {A} (a : A) : checks (mret a) True a.
Proof. intros w. left. split; [done|]. by eexists. Qed.

Lemma checks_warn w : checks (warn w) True tt.
Proof. intros l. left. split; [done|]. by eexists. Qed.

Lemma checks_reject c f args : checks (reject_if c f args) (c = false) tt.
Proof. intros w. destruct c; [right|left]; split; try done; repeat eexists. Qed.

Lemma checks_fail {A} (a : A) e : checks (fail e) False a.
Proof. intros w. right. split; [tauto|]. repeat eexists. Qed.

Lemma checks_bind {A B} (m : V A) (k : A -> V B) P Q a b :
  checks m P a -> checks (k a) Q b -> checks (m ≫= k) (P /\ Q) b.
Proof.
  intros Hm Hk w. unfold mbind, M_bind. destruct (Hm w) as [[HP [w' ->]]|[HP (e & w' & ->)]].
  - destruct (Hk w') as [[HQ H]|[HQ H]]; [left|right]; tauto.
  - right. split; [tauto|]. eauto.
Qed.

Lemma checks_if {A} (c : bool) (m1 m2 : V A) P a :
  checks m1 P a -> checks m2 P a -> checks (if c then m1 else m2) P a.
Proof. by destruct c. Qed.

Lemma checks_iff {A} (m : V A) P Q a : checks m P a -> (P <-> Q) -> checks m Q a.
Proof. intros Hm E w. destruct (Hm w); [left|right]; naive_solver. Qed.

Create HintDb checks discriminated.
#[export] Hint Resolve checks_ret checks_warn checks_reject checks_fail checks_if : checks.
#[export] Hint Resolve checks_bind | 2 : checks.

(** Builds the condition a straight-line validator checks, then proves it
    equivalent to the stated one. *)
Ltac checks := eapply checks_iff; [repeat first [eapply checks_bind|eapply checks_if]; auto with checks|].

Lemma mem_str_spec s l : mem_str s l = true <-> s ∈ l.
Proof. induction l as [|a l IH]; cbn; [set_solver|]. case_decide; set_solver. Qed.

Lemma negb_mem_str s l : negb (mem_str s l) = false <-> s ∈ l.
Proof. rewrite negb_false_iff. apply mem_str_spec. Qed.

Lemma negb_port_ok p : negb (port_ok p) = false <-> port_valid p.
Proof. unfold port_ok, port_valid. rewrite negb_false_iff, andb_true_iff, !Z.leb_le. done. Qed.

Lemma checks_ports l seen :
  checks (validate_ports l seen)
    (Forall (fun ap => ap.1 ∈ SupportedAdapters /\ port_valid ap.2 /\ seen !! ap.2 = None) l /\
     NoDup (map snd l)) tt.
Proof.
  revert seen. induction l as [|[a p] l IH]; intros seen.
  { eapply checks_iff; [apply checks_ret|]. split; [by repeat constructor|done]. }
  cbn [validate_ports map]. eapply checks_iff.
  - eapply checks_bind; [apply checks_reject|]. eapply checks_bind; [apply checks_reject|].
    instantiate (1 := seen !! p = None /\
      (Forall (fun ap => ap.1 ∈ SupportedAdapters /\ port_valid ap.2 /\ seen !! ap.2 = None) l /\
       Forall (fun ap => ap.2 <> p) l /\ NoDup (map snd l))).
    destruct (seen !! p) eqn:E; [eapply checks_iff; [apply checks_fail|naive_solver]|].
    eapply checks_iff; [apply IH|]. rewrite !Forall_forall. split.
    + intros [H1 H2]. split_and!; try done.
      * intros x Hx. destruct (H1 x Hx) as (? & ? & H). rewrite lookup_insert in H. by case_decide.
      * intros x Hx. destruct (H1 x Hx) as (? & ? & H). rewrite lookup_insert in H. case_decide; congruence.
    + intros (_ & H1 & H2 & H3). split; [|done]. intros x Hx. destruct (H1 x Hx) as (? & ? & H).
      split_and!; try done. rewrite lookup_insert_ne; [done|]. intros ->. by apply (H2 x Hx).
  - rewrite Forall_cons, NoDup_cons. unfold isSupportedAdapter. rewrite negb_mem_str, negb_port_ok.
    cbn. change (map snd l) with (snd <$> l). rewrite list_elem_of_fmap, !Forall_forall. split.
    + intros (H1 & H2 & H3 & H4 & H5 & H6). split_and!; try done.
      intros ([b q] & -> & Hx). by apply (H5 _ Hx).
    + intros [[(? & ? & ?) ?] [Hn ?]]. split_and!; try done.
      intros x Hx <-. apply Hn. by exists x.
Qed.

Lemma checks_forwards l :
  checks (validate_forwards l)
    (Forall (fun nf => nf.1 <> [] /\ ft_Host nf.2 <> [] /\ port_valid (ft_Port nf.2)) l) tt.
Proof.
  induction l as [|[n ft] l IH].
  { eapply checks_iff; [apply checks_ret|]. split; [constructor|done]. }
  cbn [validate_forwards]. eapply checks_iff.
  - do 3 (eapply checks_bind; [apply checks_reject|]). apply IH.
  - rewrite Forall_cons, negb_port_ok, !bool_decide_eq_false. cbn. tauto.
Qed.

(** The endpoint part of [validate_target], before whatever follows it. *)
Lemma checks_endpoint {A} cfg t f1 a1 f2 a2 f3 a3 f4 a4 f5 a5 (k : V A) Q x :
  checks k Q x ->
  let inline := bool_decide (t_Host t <> []) || bool_decide (t_Port t <> 0) in
  let forward := bool_decide (t_ForwardTo t <> []) in
  checks (reject_if (inline && forward) f1 a1;;
          reject_if (negb inline && negb forward) f2 a2;;
          (if inline then
             reject_if (bool_decide (t_Host t = [])) f3 a3;;
             reject_if (negb (port_ok (t_Port t))) f4 a4
           else reject_if (bool_decide (ForwardTargets cfg !! t_ForwardTo t = None)) f5 a5);;
          k)
    (endpoint_valid cfg t /\ Q) x.
Proof.
  intros Hk inline forward. eapply checks_iff.
  - do 2 (eapply checks_bind; [apply checks_reject|]). 
    eapply (checks_bind _ _ (if inline then t_Host t <> [] /\ port_valid (t_Port t)
                            else is_Some (ForwardTargets cfg !! t_ForwardTo t)) Q tt); [|apply Hk].
    destruct inline.
    + eapply checks_iff; [eapply checks_bind; apply checks_reject|].
      by rewrite negb_port_ok, bool_decide_eq_false.
    + eapply checks_iff; [apply checks_reject|]. by rewrite bool_decide_eq_false, not_eq_None_Some.
  - unfold inline, forward, endpoint_valid, port_valid.
    destruct (decide (t_Host t = [])) as [E1|]; destruct (decide (t_Port t = 0)) as [E2|];
      destruct (decide (t_ForwardTo t = [])) as [E3|];
      rewrite ?(bool_decide_false (t_Host t <> [])), ?(bool_decide_true (t_Host t <> [])),
        ?(bool_decide_false (t_Port t <> 0)), ?(bool_decide_true (t_Port t <> 0)),
        ?(bool_decide_false (t_ForwardTo t <> [])), ?(bool_decide_true (t_ForwardTo t <> [])) by tauto;
      cbn; naive_solver lia.
Qed.

Lemma reject_and_false (P : Prop) `{Decision P} b : bool_decide P && b = false <-> ~ P \/ b = false.
Proof. rewrite andb_false_iff, bool_decide_eq_false. done. Qed.

Lemma checks_auth d t logger f a :
  checks (if decide (t_AuthSource t <> []) then
            reject_if (negb (ValidIdentifier (t_AuthSource t))) f a;;
            (if bool_decide (d_Adapter d <> AdapterMongo) && logger
             then warn (WAuthSource (d_VirtualName d) (t_Name t) (d_Adapter d)) else mret tt)
          else mret tt)
    (t_AuthSource t = [] \/ ValidIdentifier (t_AuthSource t) = true) tt.
Proof.
  destruct (decide (t_AuthSource t <> [])) as [H|H].
  - eapply checks_iff; [eapply checks_bind; [apply checks_reject|apply checks_if; auto with checks]|].
    rewrite negb_false_iff. naive_solver.
  - eapply checks_iff; [apply checks_ret|]. apply dec_stable in H. tauto.
Qed.

Lemma checks_target cfg logger d j seen t :
  checks (validate_target cfg logger d j seen t) (target_valid cfg t /\ t_Name t ∉ seen)
    ({[t_Name t]} ∪ seen).
Proof.
  unfold validate_target. eapply checks_iff.
  - do 2 (eapply checks_bind; [apply checks_reject|]). apply checks_endpoint.
    do 3 (eapply checks_bind; [apply checks_reject|]).
    eapply checks_bind; [apply checks_auth|].
    eapply checks_bind; [apply checks_reject|].
    eapply checks_bind; [apply checks_if; auto with checks|apply checks_ret].
  - unfold isSupportedSSLMode.
    rewrite <- andb_assoc, !reject_and_false, !bool_decide_eq_false, negb_mem_str, negb_false_iff.
    split.
    + intros (H1 & H2 & H3 & H4 & H5 & H6 & H7 & H8 & _). split; [|done].
      split; try done; destruct (decide (t_SSLMode t = [])); destruct (decide (t_Database t = [])); tauto.
    + intros [[] ?]. split_and!; try done; tauto.
Qed.

Lemma checks_targets cfg logger d j seen l :
  checks (validate_targets cfg logger d j seen l)
    (Forall (target_valid cfg) l /\ NoDup (map t_Name l) /\ Forall (fun t => t_Name t ∉ seen) l) tt.
Proof.
  revert j seen. induction l as [|t l IH]; intros j seen.
  { eapply checks_iff; [apply checks_ret|]. split; [repeat constructor|done]. }
  cbn [validate_targets]. eapply checks_iff; [eapply checks_bind; [apply checks_target|apply IH]|].
  cbn [map]. rewrite NoDup_cons, !Forall_cons, !Forall_forall.
  change (map t_Name l) with (t_Name <$> l). rewrite list_elem_of_fmap. set_solver.
Qed.

Lemma checks_database cfg logger i seen d :
  checks (validate_database cfg logger i seen d) (database_valid cfg d /\ d_VirtualName d ∉ seen)
    ({[d_VirtualName d]} ∪ seen).
Proof.
  unfold validate_database. eapply checks_iff.
  - do 7 (eapply checks_bind; [apply checks_reject|]).
    eapply checks_bind; [apply checks_targets|apply checks_ret].
  - unfold isSupportedAdapter. rewrite !bool_decide_eq_false, negb_mem_str, negb_false_iff, not_eq_None_Some.
    split.
    + intros (H1 & H2 & H3 & H4 & H5 & H6 & H7 & (H8 & H9 & _) & _). by split.
    + intros [[H1 H2 H3 H4 H5 H6] H7]. split_and!; try done.
      * intros E. by rewrite E in H1.
      * intros E. rewrite E in H2. vm_compute in H2. set_solver.
      * rewrite Forall_forall. set_solver.
Qed.

Lemma checks_databases cfg logger i seen canon l :
  checks (validate_databases cfg logger i seen canon l)
    (Forall (database_valid cfg) l /\ NoDup (map d_VirtualName l) /\
     Forall (fun d => d_VirtualName d ∉ seen) l) tt.
Proof.
  revert i seen canon. induction l as [|d l IH]; intros i seen canon.
  { eapply checks_iff; [apply checks_ret|]. split; [repeat constructor|done]. }
  cbn [validate_databases].
  assert (Hrest : forall canon' : list bytes, checks (validate_databases cfg logger (i + 1) ({[d_VirtualName d]} ∪ seen) canon' l)
    (Forall (database_valid cfg) l /\ NoDup (map d_VirtualName l) /\
     Forall (fun d' => d_VirtualName d' ∉ {[d_VirtualName d]} ∪ seen) l) tt) by (intros; apply IH).
  eapply checks_iff; [eapply checks_bind; [apply checks_database|]|].
  - case_decide; [apply Hrest|]. eapply checks_iff.
    + eapply checks_bind; [apply checks_if; auto with checks|apply Hrest].
    + split; [intros [_ H0]; exact H0|done].
  - cbn [map]. rewrite NoDup_cons, !Forall_cons, !Forall_forall.
    change (map d_VirtualName l) with (d_VirtualName <$> l). rewrite list_elem_of_fmap. set_solver.
Qed.

Lemma checks_unused used l : checks (warn_unused used l) True tt.
Proof.
  induction l as [|[a p] l IH]; cbn [warn_unused]; [apply checks_ret|].
  eapply checks_iff; [eapply checks_bind; [apply checks_if; auto with checks|apply IH]|tauto].
Qed.

Section Orders.
Context (cfg : Config) (ports ports2 : list (bytes * Z)) (fwds : list (bytes * ForwardTarget)).
Context (Hports : ports ≡ₚ map_to_list (ListenPorts cfg)) (Hfwds : fwds ≡ₚ map_to_list (ForwardTargets cfg)).

Lemma ports_valid_iff :
  (Forall (fun ap => ap.1 ∈ SupportedAdapters /\ port_valid ap.2 /\ (∅ : gmap Z bytes) !! ap.2 = None) ports /\
   NoDup (map snd ports)) <->
  (forall a p, ListenPorts cfg !! a = Some p -> a ∈ SupportedAdapters /\ port_valid p) /\
  (forall a1 a2 p, ListenPorts cfg !! a1 = Some p -> ListenPorts cfg !! a2 = Some p -> a1 = a2).
Proof using Hports.
  change (map snd ports) with (snd <$> ports). rewrite Hports, Forall_forall. split.
  - intros [H1 H2]. split.
    + intros a p H. destruct (H1 (a, p)) as (? & ? & _); [by apply elem_of_map_to_list|done].
    + intros a1 a2 p E1%elem_of_map_to_list E2%elem_of_map_to_list.
      apply list_elem_of_lookup in E1 as [i1 E1]. apply list_elem_of_lookup in E2 as [i2 E2].
      assert (i1 = i2) as <-; [|congruence].
      eapply (proj1 (NoDup_alt _) H2 i1 i2 p); by rewrite list_lookup_fmap, ?E1, ?E2.
  - intros [H1 H2]. split.
    + intros [a p] Hx%elem_of_map_to_list. cbn [fst snd]. destruct (H1 _ _ Hx). split_and!; done.
    + apply NoDup_alt. intros i1 i2 p.
      rewrite !list_lookup_fmap, !fmap_Some. intros ([a1 p1] & E1 & ->) ([a2 p2] & E2 & Ep). cbn in Ep. subst p2.
      assert (a1 = a2) as <-.
      { eapply H2; apply elem_of_map_to_list; by eapply list_elem_of_lookup_2. }
      eapply (proj1 (NoDup_alt _) (NoDup_map_to_list (ListenPorts cfg))); done.
Qed.

Lemma forwards_valid_iff :
  Forall (fun nf => nf.1 <> [] /\ ft_Host nf.2 <> [] /\ port_valid (ft_Port nf.2)) fwds <->
  (forall n ft, ForwardTargets cfg !! n = Some ft -> n <> [] /\ ft_Host ft <> [] /\ port_valid (ft_Port ft)).
Proof using Hfwds.
  rewrite Hfwds, Forall_forall. split.
  - intros H n ft E. by apply (H (n, ft)), elem_of_map_to_list.
  - intros H [n ft] E%elem_of_map_to_list. by apply H.
Qed.

Lemma checks_Validate logger : checks (Validate ports fwds ports2 logger cfg) (config_valid cfg) tt.
Proof using Hports Hfwds.
  unfold Validate. eapply checks_iff.
  - eapply checks_bind; [apply checks_reject|].
    eapply checks_bind; [apply checks_if; auto with checks|].
    eapply checks_bind; [apply checks_ports|]. eapply checks_bind; [apply checks_forwards|].
    eapply checks_bind; [apply checks_reject|]. eapply checks_bind; [apply checks_databases|].
    apply checks_if; [apply checks_unused|apply checks_ret].
  - rewrite ports_valid_iff, forwards_valid_iff, !bool_decide_eq_false, map_size_empty_iff. split.
    + intros (H1 & _ & [H2 H3] & H4 & H5 & (H6 & H7 & _) & _). by split.
    + intros [H1 H2 H3 H4 H5 H6 H7]. split_and!; try done. rewrite Forall_forall. set_solver.
Qed.
End Orders.

(** ** Sorted adapter lists *)

Lemma str_leb_refl a : str_leb a a = true.
Proof. induction a as [|x a IH]; cbn; [done|]. by rewrite Z.eqb_refl, IH, orb_true_r. Qed.

Lemma str_leb_spec x a y b :
  str_leb (x :: a) (y :: b) = true <-> bval x < bval y \/ (bval x = bval y /\ str_leb a b = true).
Proof. cbn. rewrite orb_true_iff, andb_true_iff, Z.ltb_lt, Z.eqb_eq. done. Qed.

#[export] Instance str_le_total : Total str_le.
Proof.
  unfold str_le. intros a. induction a as [|x a IH]; intros [|y b]; [by left..|by right|].
  rewrite !str_leb_spec. destruct (Z.lt_trichotomy (bval x) (bval y)) as [?|[?|?]]; [tauto| |tauto].
  destruct (IH b); [left|right]; right; by split.
Qed.

#[export] Instance str_le_trans : Transitive str_le.
Proof.
  unfold str_le. intros a b c. revert b c. induction a as [|x a IH]; intros [|y b] [|z c]; try done.
  rewrite !str_leb_spec. intros [H1|[H1 H1']] [H2|[H2 H2']]; try (left; lia).
  right. split; [lia|]. by eapply IH.
Qed.

Lemma seen_adapters ds a :
  a ∈ foldr (fun d seen => if decide (d_Adapter d = []) then seen else {[d_Adapter d]} ∪ seen)
        (∅ : gset bytes) ds <-> a <> [] /\ exists d, d ∈ ds /\ d_Adapter d = a.
Proof.
  induction ds as [|d ds IH]; cbn [foldr]; [set_solver|].
  case_decide; set_solver.
Qed.

Lemma UsedAdapters_elem cfg a :
  a ∈ UsedAdapters cfg <-> a <> [] /\ exists d, d ∈ Databases cfg /\ d_Adapter d = a.
Proof.
  unfold UsedAdapters, sort_Strings. rewrite (merge_sort_Permutation str_le), elem_of_elements.
  apply seen_adapters.
Qed.

Lemma ResolveEndpoint_ok cfg t (fwd_ok : bytes -> Z -> Prop) :
  (forall n ft, ForwardTargets cfg !! n = Some ft -> fwd_ok (ft_Host ft) (ft_Port ft)) ->
  (t_Host t <> [] -> fwd_ok (t_Host t) (t_Port t)) ->
  endpoint_valid cfg t ->
  uncurry fwd_ok (ResolveEndpoint t (ForwardTargets cfg)).
Proof.
  intros Hf Hi [(Hh & _)|(Hh & _ & _ & [ft E])]; unfold ResolveEndpoint.
  - rewrite decide_True by done. by apply Hi.
  - rewrite decide_False by tauto. rewrite E. by eapply Hf.
Qed.

(** ** Properties *)

(** C14: [Validate] accepts exactly the valid configurations, whatever the
    iteration order of the maps and with or without a logger: it returns [nil]
    when the configuration satisfies every documented rule and an error when
    it breaks one; it never panics. *)
Theorem Validate_correct cfg ports ports2 fwds logger w :
  ports ≡ₚ map_to_list (ListenPorts cfg) -> fwds ≡ₚ map_to_list (ForwardTargets cfg) ->
  (config_valid cfg /\ exists w', Validate ports fwds ports2 logger cfg w = (Ok tt, w')) \/
  (~ config_valid cfg /\ exists e w', Validate ports fwds ports2 logger cfg w = (Err e, w')).
Proof. intros Hp Hf. by apply checks_Validate. Qed.

(** In a validated configuration every target of every database resolves to
    a usable endpoint: a non-empty host and a port in [1, 65535], whether the
    endpoint is inline or a named forward target. *)
Theorem ResolveEndpoint_valid cfg d t :
  config_valid cfg -> d ∈ Databases cfg -> t ∈ d_Targets d ->
  let '(host, port) := ResolveEndpoint t (ForwardTargets cfg) in host <> [] /\ port_valid port.
Proof.
  intros Hc Hd Ht. pose proof (proj1 (Forall_forall _ _) (cv_each _ Hc) d Hd) as Hdv.
  pose proof (tv_endpoint _ _ (proj1 (Forall_forall _ _) (dv_each _ _ Hdv) t Ht)) as He.
  apply (ResolveEndpoint_ok cfg t (fun h p => h <> [] /\ port_valid p)); [|destruct He; tauto|done].
  intros n ft E. apply (cv_forward _ Hc) in E. tauto.
Qed.

(** C30: [UsedAdapters] lists each adapter some database uses exactly once, in
    sorted order, and nothing else. *)
Theorem UsedAdapters_correct cfg :
  Sorted str_le (UsedAdapters cfg) /\ NoDup (UsedAdapters cfg) /\
  forall a, a ∈ UsedAdapters cfg <-> a <> [] /\ exists d, d ∈ Databases cfg /\ d_Adapter d = a.
Proof.
  split_and!.
  - apply Sorted_merge_sort, _.
  - unfold UsedAdapters, sort_Strings. rewrite (merge_sort_Permutation str_le). apply NoDup_elements.
  - apply UsedAdapters_elem.
Qed.

(** ** A sample configuration *)

Definition sample_target (name host database : bytes) : Target :=
  mkTarget name host 5432 [] (str "postgres") (str "localpass") database [] [].
Definition sample_staging : Target :=
  mkTarget (str "staging") [] 0 (str "ssm") (str "stg") (str "pw") (str "app_${BRANCH}_staging") [] (str "require").
Definition sample_config : Config :=
  mkConfig [] {[str "postgres" := 6432]} (str "/tmp/dbpivot.sock")
    {[str "ssm" := mkForwardTarget (str "127.0.0.1") 15432]}
    [mkDatabase (str "postgres") (str "appdb")
       [sample_target (str "local") (str "127.0.0.1") (str "app_dev"); sample_staging];
     mkDatabase (str "postgres") (str "analytics")
       [sample_target (str "local") (str "127.0.0.1") (str "analytics_dev")]].

Lemma sample_config_valid : config_valid sample_config.
Proof.
  destruct (checks_Validate sample_config [(str "postgres", 6432)] []
    [(str "ssm", mkForwardTarget (str "127.0.0.1") 15432)]
    ltac:(vm_compute; reflexivity) ltac:(vm_compute; reflexivity) true []) as [[H _]|[_ (e & w & H)]]; [done|].
  vm_compute in H. done.
Qed.

Lemma Validate_correct_witness :
  config_valid sample_config /\ exists w',
    Validate [(str "postgres", 6432)] [(str "ssm", mkForwardTarget (str "127.0.0.1") 15432)] [] true sample_config []
    = (Ok tt, w').
Proof.
  destruct (Validate_correct sample_config [(str "postgres", 6432)] []
    [(str "ssm", mkForwardTarget (str "127.0.0.1") 15432)] true []
    ltac:(vm_compute; reflexivity) ltac:(vm_compute; reflexivity)) as [H|[_ (e & w & H)]];
    [exact H|vm_compute in H; discriminate H].
Defined.

Lemma ResolveEndpoint_valid_witness :
  ResolveEndpoint sample_staging (ForwardTargets sample_config) = (str "127.0.0.1", 15432) /\
  str "127.0.0.1" <> [] /\ port_valid 15432.
Proof.
  split; [vm_compute; reflexivity|].
  apply (ResolveEndpoint_valid sample_config
    (mkDatabase (str "postgres") (str "appdb")
       [sample_target (str "local") (str "127.0.0.1") (str "app_dev"); sample_staging]) sample_staging).
  - exact sample_config_valid.
  - left.
  - right. left.
Defined.
