(* ===== verification/Database.v ===== *)
(** internal/proxy/database.go: the routing state of one logical database and
    the registry of its live connections.

    The program shares [*Conn] objects between a database's registry and the
    goroutine that serves the connection, and [*Database] objects between the
    server, the handlers and every [Conn].  The model keeps them in a [store]:
    databases by virtual name, connection objects and network sockets by
    identity (a number); pointers are those keys. *)
From S2P Require Import Prelude Fmt Vars Config.

Record ResolvedTarget := mkResolvedTarget {
  rt_Name : bytes;
  rt_Host : bytes;
  rt_Port : Z;
  rt_User : bytes;
  rt_Password : bytes;
  rt_Database : bytes;
  rt_SSLMode : bytes;
  rt_AuthSource : bytes;
}.
#[export] Instance ResolvedTarget_eq_dec : EqDecision ResolvedTarget.
Proof. solve_decision. Defined.
Definition zeroResolvedTarget : ResolvedTarget := mkResolvedTarget [] [] 0 [] [] [] [] [].

(** [Conn]: [c_once] is the state of [closeOnce]. *)
Record Conn := mkConn {
  c_Client : option nat;
  c_Upstream : option nat;
  c_Resolved : ResolvedTarget;
  c_once : bool;
  c_database : option bytes;
}.
Definition set_c_once (o : Conn) : Conn :=
  mkConn (c_Client o) (c_Upstream o) (c_Resolved o) true (c_database o).
Definition set_c_database (n : bytes) (o : Conn) : Conn :=
  mkConn (c_Client o) (c_Upstream o) (c_Resolved o) (c_once o) (Some n).

Record Database := mkDb {
  virtualName : bytes;
  adapter : bytes;
  targets : list Target;
  byName : gmap bytes Target;
  fwd : gmap bytes ForwardTarget;
  current : option ResolvedTarget;
  conns : gset nat;
}.
Definition set_current (c : option ResolvedTarget) (d : Database) : Database :=
  mkDb (virtualName d) (adapter d) (targets d) (byName d) (fwd d) c (conns d).
Definition set_conns (f : gset nat -> gset nat) (d : Database) : Database :=
  mkDb (virtualName d) (adapter d) (targets d) (byName d) (fwd d) (current d) (f (conns d)).

Record store := mkStore {
  dbs : gmap bytes Database;
  heap : gmap nat Conn;
  closed_socks : gset nat;
}.
Definition on_dbs (f : gmap bytes Database -> gmap bytes Database) (st : store) : store :=
  mkStore (f (dbs st)) (heap st) (closed_socks st).

(** ** Operations *)

(** [NewDatabase]: a later target of the same name replaces an earlier one in [byName]. *)
Definition index_targets (ts : list Target) : gmap bytes Target :=
  fold_left (fun m t => <[t_Name t := t]> m) ts ∅.
Definition NewDatabase (c : Config.Database) (fw : gmap bytes ForwardTarget) : Database :=
  mkDb (d_VirtualName c) (d_Adapter c) (d_Targets c) (index_targets (d_Targets c)) fw None ∅.

Definition Current (d : Database) : option ResolvedTarget := current d.
Definition HasTarget (d : Database) (name : bytes) : bool := bool_decide (is_Some (byName d !! name)).
Definition ActiveConns (d : Database) : Z := Z.of_nat (size (conns d)).

(** The (target, missing, error) triple of [ResolveTarget]. *)
Definition resolution : Type := ResolvedTarget * list bytes * option error.

Definition ResolveTarget (d : Database) (name : bytes) (vars : gmap bytes bytes) : res resolution :=
  match byName d !! name with
  | None => Ok (zeroResolvedTarget, [],
                Some (Errorf (str "unknown target %q for database %q") [FStr name; FStr (virtualName d)]))
  | Some t =>
      '(resolvedDB, missing, err) ← Resolve (t_Database t) vars;
      match err with
      | Some e =>
          if decide (missing <> [])
          then Ok (zeroResolvedTarget, missing,
                   Some (Errorf (str "target %q requires variables: %v") [FStr name; FStrs missing]))
          else Ok (zeroResolvedTarget, [], Some e)
      | None =>
          if bool_decide (resolvedDB <> []) && negb (ValidIdentifier resolvedDB)
          then Ok (zeroResolvedTarget, [],
                   Some (Errorf (str "resolved database %q contains invalid characters") [FStr resolvedDB]))
          else
            let '(host, port) := ResolveEndpoint t (fwd d) in
            Ok (mkResolvedTarget (t_Name t) host port (t_User t) (t_Password t) resolvedDB
                  (t_SSLMode t) (t_AuthSource t), [], None)
      end
  end.

(** [c.database.deregister(c)] and [database.Register(conn)]. *)
Definition deregister (n : bytes) (c : nat) (st : store) : store :=
  on_dbs (alter (set_conns (fun s => s ∖ {[c]})) n) st.
Definition Register (n : bytes) (c : nat) (st : store) : store :=
  mkStore (alter (set_conns (fun s => {[c]} ∪ s)) n (dbs st))
          (alter (set_c_database n) c (heap st)) (closed_socks st).

(** [c.Close()]: the body of [closeOnce.Do] runs once. *)
Definition close_sock (s : option nat) (cs : gset nat) : gset nat :=
  match s with Some s => {[s]} ∪ cs | None => cs end.
Definition Conn_Close (c : nat) (st : store) : store :=
  match heap st !! c with
  | None => st
  | Some o =>
      if c_once o then st else
      let st1 := mkStore (dbs st) (<[c := set_c_once o]> (heap st))
                   (close_sock (c_Upstream o) (close_sock (c_Client o) (closed_socks st))) in
      match c_database o with
      | Some n => deregister n c st1
      | None => st1
      end
  end.

(** [dropAll] snapshots the registry in some order ([elements] stands for it;
    [close_all_any_order] shows that the order does not matter) and closes each
    connection. *)
Definition close_all (l : list nat) (st : store) : store := fold_left (fun st c => Conn_Close c st) l st.
Definition snapshot (n : bytes) (st : store) : list nat :=
  match dbs st !! n with Some d => elements (conns d) | None => [] end.
Definition dropAll (n : bytes) (st : store) : Z * store :=
  let l := snapshot n st in (len l, close_all l st).

Definition current_of (n : bytes) (st : store) : option ResolvedTarget := dbs st !! n ≫= current.

Definition Apply (n : bytes) (rt : ResolvedTarget) (st : store) : (option ResolvedTarget * Z) * store :=
  let prev := current_of n st in
  let st1 := on_dbs (alter (set_current (Some rt)) n) st in
  let '(closed, st2) := dropAll n st1 in
  ((prev, closed), st2).
Definition Clear (n : bytes) (st : store) : (option ResolvedTarget * Z) * store :=
  let prev := current_of n st in
  let st1 := on_dbs (alter (set_current None) n) st in
  let '(closed, st2) := dropAll n st1 in
  ((prev, closed), st2).

(** [conn := &Conn{Client: client, Upstream: up, Resolved: rt}; database.Register(conn)]. *)
Definition register_new (n : bytes) (c cl up : nat) (rt : ResolvedTarget) (st : store) : store :=
  Register n c (mkStore (dbs st) (<[c := mkConn (Some cl) (Some up) rt false None]> (heap st)) (closed_socks st)).

Arguments register_new : simpl never.
(** ** The registry invariant *)

Definition conn_sock (o : Conn) (s : nat) : Prop := c_Client o = Some s \/ c_Upstream o = Some s.

(** Registered connections are live and point back to their database; a
    connection whose [Close] ran has both its sockets closed. *)
Record store_wf (st : store) : Prop := {
  wf_registered : forall n d c, dbs st !! n = Some d -> c ∈ conns d ->
    exists o, heap st !! c = Some o /\ c_once o = false /\ c_database o = Some n;
  wf_closed : forall c o s, heap st !! c = Some o -> c_once o = true -> conn_sock o s -> s ∈ closed_socks st;
}.

Lemma elem_of_close_sock s k cs : s ∈ close_sock k cs <-> s ∈ cs \/ k = Some s.
Proof. destruct k; cbn; set_solver. Qed.

Lemma set_conns_id d f : f (conns d) = conns d -> set_conns f d = d.
Proof. destruct d. unfold set_conns. cbn. by intros ->. Qed.

(** What [Close] does, stated without its case analysis. *)
Record closes (l : list nat) (st st' : store) : Prop := {
  cl_dbs : dbs st' = set_conns (fun s => s ∖ list_to_set l) <$> dbs st;
  cl_heap : forall c, heap st' !! c = (if decide (c ∈ l) then set_c_once else id) <$> heap st !! c;
  cl_socks : forall s, s ∈ closed_socks st' <->
    s ∈ closed_socks st \/ exists c o, c ∈ l /\ heap st !! c = Some o /\ conn_sock o s;
}.

Lemma register_new_dbs n c cl up rt st :
  dbs (register_new n c cl up rt st) = alter (set_conns (fun s => {[c]} ∪ s)) n (dbs st).
Proof. done. Qed.

Lemma register_new_heap n c cl up rt st c' : heap (register_new n c cl up rt st) !! c' =
  if decide (c = c') then Some (mkConn (Some cl) (Some up) rt false (Some n)) else heap st !! c'.
Proof. unfold register_new. cbn [Register heap]. rewrite lookup_alter. case_decide; [subst; by rewrite lookup_insert_eq|by rewrite lookup_insert_ne]. Qed.

Lemma register_new_wf n c cl up rt st : heap st !! c = None -> store_wf st -> store_wf (register_new n c cl up rt st).
Proof.
  intros Hc [W1 W2]. split.
  - intros n' d' c'. rewrite register_new_dbs, register_new_heap, lookup_alter_Some.
    intros [(<- & d & Hd & ->)|[Hne Hd]] Hin.
    + cbn in Hin. case_decide as Hcc; [by eexists|]. eapply W1; [done|set_solver].
    + destruct (W1 n' d' c' Hd Hin) as (o & Ho & ?). rewrite decide_False by congruence. eauto.
  - intros c' o s. rewrite register_new_heap. case_decide; [by intros [= <-]|]. apply W2.
Qed.

Lemma closes_unique l1 l2 st st1 st2 : (forall c, c ∈ l1 <-> c ∈ l2) ->
  closes l1 st st1 -> closes l2 st st2 -> st1 = st2.
Proof.
  intros Hl [H1 H2 H3] [G1 G2 G3]. destruct st1 as [d1 h1 s1], st2 as [d2 h2 s2]. cbn in *. f_equal.
  - rewrite H1, G1. apply map_fmap_ext. intros n d _. unfold set_conns. f_equal. set_solver.
  - apply map_eq. intros c. rewrite H2, G2. repeat case_decide; naive_solver.
  - apply set_eq. intros s. rewrite H3, G3. naive_solver.
Qed.

Lemma closes_wf l st st' : store_wf st -> closes l st st' -> store_wf st'.
Proof.
  intros [W1 W2] [H1 H2 H3]. split.
  - intros n d' c. rewrite H1, lookup_fmap. intros (d & Hd & ->)%fmap_Some. cbn.
    rewrite elem_of_difference, elem_of_list_to_set. intros [Hc Hl].
    rewrite H2, decide_False, option_fmap_id by done. by eapply W1.
  - intros c o' s. rewrite H2, H3. intros (o & Ho & ->)%fmap_Some.
    case_decide; cbn; intros Honce Hs.
    + right. by exists c, o.
    + left. by eapply W2.
Qed.

Lemma closes_trans l1 l2 st st1 st2 : closes l1 st st1 -> closes l2 st1 st2 -> closes (l1 ++ l2) st st2.
Proof.
  intros [H1 H2 H3] [G1 G2 G3]. split.
  - rewrite G1, H1, <- map_fmap_compose. apply map_fmap_ext. intros n d _.
    unfold set_conns, compose. cbn. f_equal. set_solver.
  - intros c. rewrite G2, H2, <- option_fmap_compose. apply option_fmap_ext. intros o.
    destruct (decide (c ∈ l1)), (decide (c ∈ l2)), (decide (c ∈ l1 ++ l2)); set_solver.
  - intros s. rewrite G3, H3. setoid_rewrite elem_of_app. split.
    + intros [[?|(c & o & ? & ? & ?)]|(c & o' & Hc & Ho & Hs)]; [tauto|right; exists c, o; tauto|].
      rewrite H2 in Ho. apply fmap_Some in Ho as (o & Ho & ->). right. exists c, o.
      split_and!; [tauto|done|]. by case_decide.
    + intros [?|(c & o & [?|?] & Ho & ?)]; [tauto|left; right; by exists c, o|].
      right. exists c. eexists. rewrite H2, Ho. split_and!; [done|done|]. by case_decide.
Qed.

Lemma set_conns_noop (c : nat) (m : gmap bytes Database) :
  (forall n d, m !! n = Some d -> c ∉ conns d) ->
  m = set_conns (fun s => s ∖ list_to_set [c]) <$> m.
Proof.
  intros H. apply map_eq. intros n. rewrite lookup_fmap. destruct (m !! n) as [d|] eqn:E; [|done].
  cbn. f_equal. symmetry. apply set_conns_id. specialize (H n d E). set_solver.
Qed.

(** A connection whose [Close] already ran, or that does not exist. *)
Lemma closes_noop (c : nat) st : store_wf st -> (forall o, heap st !! c = Some o -> c_once o = true) ->
  closes [c] st st.
Proof.
  intros W H. split.
  - apply set_conns_noop. intros n d Hd Hc.
    destruct (wf_registered _ W n d c Hd Hc) as (o & Ho & Hf & _). specialize (H o Ho). congruence.
  - intros c'. case_decide; [|by destruct (heap st !! c')].
    assert (c' = c) as -> by set_solver. destruct (heap st !! c) as [o|]; [|done].
    specialize (H o eq_refl). cbn. f_equal. destruct o; cbn in *. by subst.
  - intros s. split; [tauto|]. intros [?|(c' & o' & ? & ? & ?)]; [done|].
    assert (c' = c) as -> by set_solver. eapply wf_closed; eauto.
Qed.

Lemma Conn_Close_closes c st : store_wf st -> closes [c] st (Conn_Close c st).
Proof.
  intros W. unfold Conn_Close.
  destruct (heap st !! c) as [o|] eqn:Eo; [|apply closes_noop; [done|congruence]].
  destruct (c_once o) eqn:Eonce; [apply closes_noop; [done|congruence]|].
  assert (Hheap : forall c', <[c := set_c_once o]> (heap st) !! c' =
    (if decide (c' ∈ [c]) then set_c_once else id) <$> heap st !! c').
  { intros c'. rewrite lookup_insert. destruct (decide (c = c')) as [<-|].
    - rewrite decide_True by set_solver. by rewrite Eo.
    - rewrite decide_False by set_solver. by destruct (heap st !! c'). }
  assert (Hsock : forall s, s ∈ close_sock (c_Upstream o) (close_sock (c_Client o) (closed_socks st)) <->
    s ∈ closed_socks st \/ exists c' o', c' ∈ [c] /\ heap st !! c' = Some o' /\ conn_sock o' s).
  { intros s. rewrite !elem_of_close_sock. unfold conn_sock. split.
    - intros [[?|?]|?]; [tauto|right; exists c, o; set_solver..].
    - intros [?|(c' & o' & ->%list_elem_of_singleton & Ho & ?)]; [tauto|].
      rewrite Eo in Ho. injection Ho as <-. tauto. }
  destruct (c_database o) as [n|] eqn:En; split; cbn; try done.
  - apply map_eq. intros n'. rewrite lookup_alter, lookup_fmap. destruct (decide (n = n')) as [<-|].
    + destruct (dbs st !! n); [|done]. cbn. f_equal. unfold set_conns. f_equal. set_solver.
    + destruct (dbs st !! n') as [d|] eqn:Ed; [|done]. cbn. f_equal. symmetry. apply set_conns_id.
      enough (c ∉ conns d) by set_solver. intros Hc.
      destruct (wf_registered _ W n' d c Ed Hc) as (o' & Ho' & _ & ?). congruence.
  - apply set_conns_noop. intros n' d Ed Hc.
    destruct (wf_registered _ W n' d c Ed Hc) as (o' & Ho' & _ & ?). congruence.
Qed.

Lemma close_all_closes l st : store_wf st -> closes l st (close_all l st).
Proof.
  revert st. induction l as [|c l IH]; intros st W.
  - split; cbn.
    + symmetry. rewrite <- (map_fmap_id (dbs st)) at 2. apply map_fmap_ext.
      intros n d _. apply set_conns_id. set_solver.
    + intros c. by destruct (heap st !! c).
    + set_solver.
  - cbn. pose proof (Conn_Close_closes c st W) as Hc.
    apply (closes_trans [c] l _ _ _ Hc). apply IH. by eapply closes_wf.
Qed.

(** The order in which a registry is drained is irrelevant. *)
Lemma close_all_any_order l1 l2 st : store_wf st -> l1 ≡ₚ l2 -> close_all l1 st = close_all l2 st.
Proof.
  intros W Hl. eapply closes_unique; [|by apply close_all_closes..]. intros c. by rewrite Hl.
Qed.

(** ** Switching one database *)

Definition live (n : bytes) (st : store) : gset nat :=
  match dbs st !! n with Some d => conns d | None => ∅ end.

(** The common effect of [Apply] ([cur = Some rt]) and [Clear] ([cur = None]). *)
Record switched (n : bytes) (cur : option ResolvedTarget) (st st' : store) : Prop := {
  sw_dbs : dbs st' = alter (fun d => set_conns (fun _ => ∅) (set_current cur d)) n (dbs st);
  sw_heap : forall c, heap st' !! c = (if decide (c ∈ live n st) then set_c_once else id) <$> heap st !! c;
  sw_socks : forall s, s ∈ closed_socks st' <->
    s ∈ closed_socks st \/ exists c o, c ∈ live n st /\ heap st !! c = Some o /\ conn_sock o s;
}.

Lemma set_current_wf n cur st : store_wf st -> store_wf (on_dbs (alter (set_current cur) n) st).
Proof.
  intros [W1 W2]. split; [|done]. intros n' d' c. cbn. rewrite lookup_alter_Some.
  intros [(<- & d & Hd & ->)|[_ Hd]] Hc; by eapply W1.
Qed.

Lemma snapshot_live n st c : c ∈ snapshot n st <-> c ∈ live n st.
Proof. unfold snapshot, live. destruct (dbs st !! n); [apply elem_of_elements|set_solver]. Qed.

Lemma live_unique n n' d c st : store_wf st -> c ∈ live n st -> dbs st !! n' = Some d -> c ∈ conns d -> n' = n.
Proof.
  intros W Hc Hd Hc'. unfold live in Hc. destruct (dbs st !! n) as [d0|] eqn:E; [|set_solver].
  destruct (wf_registered _ W n d0 c E Hc) as (o & Ho & _ & H1).
  destruct (wf_registered _ W n' d c Hd Hc') as (o' & Ho' & _ & H2). congruence.
Qed.

Lemma difference_list_empty (s : gset nat) l : (forall c, c ∈ s -> c ∈ l) -> s ∖ list_to_set l = ∅.
Proof.
  intros H. apply set_eq. intros c. rewrite elem_of_difference, elem_of_list_to_set.
  split; [naive_solver|set_solver].
Qed.

Lemma difference_list_disjoint (s : gset nat) l : (forall c, c ∈ l -> c ∉ s) -> s ∖ list_to_set l = s.
Proof.
  intros H. apply set_eq. intros c. rewrite elem_of_difference, elem_of_list_to_set. naive_solver.
Qed.

Lemma drop_switched n cur st : store_wf st ->
  let st1 := on_dbs (alter (set_current cur) n) st in
  len (snapshot n st1) = Z.of_nat (size (live n st)) /\ switched n cur st (close_all (snapshot n st1) st1).
Proof.
  intros W st1. assert (Hlive : live n st1 = live n st).
  { unfold live, st1. cbn. rewrite lookup_alter_eq. by destruct (dbs st !! n). }
  split. { rewrite <- Hlive. unfold len, snapshot, live. by destruct (dbs st1 !! n). }
  pose proof (set_current_wf n cur st W) as W1.
  destruct (close_all_closes (snapshot n st1) st1 W1) as [H1 H2 H3].
  split.
  - rewrite H1. apply map_eq. intros n'. unfold st1. cbn. rewrite lookup_fmap, !lookup_alter.
    destruct (decide (n = n')) as [<-|Hne].
    + destruct (dbs st !! n) as [d|] eqn:E; [|done]. cbn. f_equal.
      unfold set_conns. f_equal. cbn.
      assert (forall c, c ∈ conns d -> c ∈ snapshot n st1).
      { intros c Hc. rewrite snapshot_live, Hlive. unfold live. by rewrite E. }
      by apply difference_list_empty.
    + destruct (dbs st !! n') as [d|] eqn:E; [|done]. cbn. f_equal. apply set_conns_id.
      assert (forall c, c ∈ snapshot n st1 -> c ∉ conns d).
      { intros c. rewrite snapshot_live, Hlive. intros Hc Hc'. by pose proof (live_unique n n' d c st W Hc E Hc'). }
      by apply difference_list_disjoint.
  - intros c. rewrite H2. cbn. rewrite <- Hlive.
    by destruct (decide (c ∈ snapshot n st1)) as [G|G], (decide (c ∈ live n st1)) as [G'|G']; rewrite snapshot_live in G.
  - intros s. rewrite H3. cbn. setoid_rewrite snapshot_live. by rewrite Hlive.
Qed.

Lemma Apply_switched n rt st : store_wf st ->
  exists st', Apply n rt st = ((current_of n st, Z.of_nat (size (live n st))), st') /\ switched n (Some rt) st st'.
Proof.
  intros W. destruct (drop_switched n (Some rt) st W) as [H1 H2]. unfold Apply, dropAll.
  rewrite H1. eauto.
Qed.

Lemma Clear_switched n st : store_wf st ->
  exists st', Clear n st = ((current_of n st, Z.of_nat (size (live n st))), st') /\ switched n None st st'.
Proof.
  intros W. destruct (drop_switched n None st W) as [H1 H2]. unfold Clear, dropAll.
  rewrite H1. eauto.
Qed.

Lemma switched_wf n cur st st' : store_wf st -> switched n cur st st' -> store_wf st'.
Proof.
  intros W [H1 H2 H3]. split.
  - intros n' d' c. rewrite H1, lookup_alter_Some. intros [(<- & d & Hd & ->)|[Hne Hd]] Hc; [cbn in Hc; set_solver|].
    rewrite H2, decide_False; [|intros Hl; by pose proof (live_unique n n' d' c st W Hl Hd Hc)].
    destruct (wf_registered _ W n' d' c Hd Hc) as (o & -> & Ho). by exists o.
  - intros c o' s. rewrite H2, H3. intros (o & Ho & ->)%fmap_Some. case_decide as Hd; cbn; intros Honce Hs.
    + right. by exists c, o.
    + left. by eapply (wf_closed _ W).
Qed.

Lemma switched_unique n cur st st1 st2 : switched n cur st st1 -> switched n cur st st2 -> st1 = st2.
Proof.
  intros [H1 H2 H3] [G1 G2 G3]. destruct st1 as [d1 h1 s1], st2 as [d2 h2 s2]. cbn in *. f_equal.
  - congruence.
  - apply map_eq. intros c. by rewrite H2, G2.
  - apply set_eq. intros s. by rewrite H3, G3.
Qed.

Lemma switched_live_other n n' cur st st' : n <> n' -> switched n cur st st' -> dbs st' !! n' = dbs st !! n'.
Proof. intros Hne [H1 _ _]. by rewrite H1, lookup_alter_ne. Qed.

(** ** Target lookup and resolution *)

Lemma index_targets_from (ts : list Target) (m : gmap bytes Target) (n : bytes) : NoDup (map t_Name ts) ->
  fold_left (fun m t => <[t_Name t := t]> m) ts m !! n =
  match list_find (fun t => t_Name t = n) ts with Some (_, t) => Some t | None => m !! n end.
Proof.
  revert m. induction ts as [|t ts IH]; intros m; [done|]. cbn [map fold_left].
  intros [Hni Hnd]%NoDup_cons. rewrite IH by done. cbn [list_find].
  destruct (decide (t_Name t = n)) as [<-|Hne].
  - destruct (list_find _ ts) as [[i t']|] eqn:E; [|by rewrite lookup_insert_eq].
    apply list_find_Some in E as (Hl & Hn & _). exfalso. apply Hni. rewrite <- Hn.
    apply (list_elem_of_fmap_2 t_Name). by eapply list_elem_of_lookup_2.
  - rewrite lookup_insert_ne by done. by destruct (list_find _ ts) as [[i t']|].
Qed.

Lemma index_targets_lookup (ts : list Target) (n : bytes) (t : Target) : NoDup (map t_Name ts) ->
  index_targets ts !! n = Some t <-> t ∈ ts /\ t_Name t = n.
Proof.
  intros Hnd. unfold index_targets. rewrite index_targets_from by done. split.
  - destruct (list_find _ ts) as [[i t']|] eqn:E; [|by rewrite lookup_empty].
    intros [= <-]. apply list_find_Some in E as (Hl & Hn & _). split; [by eapply list_elem_of_lookup_2|done].
  - intros [Ht Hn]. destruct (list_find (fun t0 => t_Name t0 = n) ts) as [[i t']|] eqn:E.
    + apply list_find_Some in E as (Hl & Hn' & _). f_equal.
      apply list_elem_of_lookup in Ht as [j Hj].
      assert (i = j) as ->; [|congruence].
      eapply (proj1 (NoDup_alt _) Hnd i j n);
        change (map t_Name ts) with (t_Name <$> ts); rewrite list_lookup_fmap, ?Hl, ?Hj; cbn; congruence.
    + apply list_find_None in E. rewrite Forall_forall in E. by destruct (E t Ht).
Qed.

(** What a successful resolution of [t] under [vars] is. *)
Definition resolves_to (d : Database) (t : Target) (vars : gmap bytes bytes) (rt : ResolvedTarget) : Prop :=
  Resolve (t_Database t) vars = Ok (rt_Database rt, [], None) /\
  (rt_Database rt = [] \/ ValidIdentifier (rt_Database rt) = true) /\
  ResolveEndpoint t (fwd d) = (rt_Host rt, rt_Port rt) /\
  rt_Name rt = t_Name t /\ rt_User rt = t_User t /\ rt_Password rt = t_Password t /\
  rt_SSLMode rt = t_SSLMode t /\ rt_AuthSource rt = t_AuthSource t.

Lemma Resolve_total s vars : exists r m e, Resolve s vars = Ok (r, m, e) /\ (e = None -> m = []) /\ (e <> None -> r = []).
Proof.
  destruct (Resolve_correct_aux s vars) as [(ts & _ & _ & ->)|[_ [e ->]]]; [|naive_solver].
  unfold resolve_spec. case_decide; do 3 eexists; split_and!; naive_solver.
Qed.

Lemma ResolveTarget_cases d name vars :
  (byName d !! name = None /\ exists e, ResolveTarget d name vars = Ok (zeroResolvedTarget, [], Some e)) \/
  exists t, byName d !! name = Some t /\
   ((exists rt, ResolveTarget d name vars = Ok (rt, [], None) /\ resolves_to d t vars rt) \/
    (exists m e, ResolveTarget d name vars = Ok (zeroResolvedTarget, m, Some e) /\
       (forall rt, ~ resolves_to d t vars rt) /\
       (m <> [] -> m = unbound vars (RequiredVars (t_Database t))))).
Proof.
  unfold ResolveTarget. destruct (byName d !! name) as [t|]; [right; exists t; split; [done|]|left; eauto].
  destruct (Resolve_correct_aux (t_Database t) vars) as [(ts & Hts & E & Hr)|[_ [e Hr]]]; rewrite Hr; cbn.
  - unfold resolves_to. rewrite Hr. unfold resolve_spec. rewrite E, <- unbound_RequiredVars by done.
    case_decide as Hd.
    + destruct (bool_decide (subst vars ts <> []) && negb (ValidIdentifier (subst vars ts))) eqn:Eb.
      * right. do 2 eexists. split_and!; [done| |done].
        intros rt ([= <-] & Hv & _). apply andb_true_iff in Eb as [E1%bool_decide_eq_true E2%negb_true_iff].
        destruct Hv; congruence.
      * left. destruct (ResolveEndpoint t (fwd d)) as [h p]. eexists. split; [done|]. cbn.
        split_and!; try done. apply andb_false_iff in Eb as [E1%bool_decide_eq_false|E2%negb_false_iff]; [left|by right].
        by apply dec_stable in E1.
    + right. rewrite decide_True by done. do 2 eexists. split_and!; [done| |done]. intros rt [H _]. done.
  - right. rewrite decide_False by tauto. do 2 eexists. split_and!; [done| |done].
    unfold resolves_to. rewrite Hr. intros rt [H _]. done.
Qed.

(** ** Properties *)

(** C34: [Apply] swaps in the new target and empties the registry: it returns the
    previous target and the number of registered connections, afterwards the
    database's current target is [rt] and nothing is registered, every
    connection that was registered has been closed on both sides, every other
    database is untouched, and the registry invariant still holds. *)
Theorem Apply_correct n d rt st :
  store_wf st -> dbs st !! n = Some d ->
  exists st', Apply n rt st = ((current d, ActiveConns d), st') /\ store_wf st' /\
    dbs st' = <[n := set_conns (fun _ => ∅) (set_current (Some rt) d)]> (dbs st) /\
    forall c o, c ∈ conns d -> heap st !! c = Some o ->
      heap st' !! c = Some (set_c_once o) /\ forall s, conn_sock o s -> s ∈ closed_socks st'.
Proof.
  intros W Hd. destruct (Apply_switched n rt st W) as (st' & E & Hs). exists st'.
  assert (live n st = conns d) as Hl by (unfold live; by rewrite Hd). destruct Hs as [H1 H2 H3].
  split_and!.
  - rewrite E, Hl. unfold current_of. by rewrite Hd.
  - by eapply switched_wf.
  - rewrite H1. apply map_eq. intros n'. rewrite lookup_alter, lookup_insert.
    case_decide; [subst; by rewrite Hd|done].
  - intros c o Hc Ho. split; [rewrite H2, decide_True, Ho by by rewrite Hl|]; [done|].
    intros s Hs. apply H3. right. exists c, o. by rewrite Hl.
Qed.

(** Closing is once-only and order-independent: a second [Close] of the same
    connection changes nothing, and draining a registry in any two orders
    leaves the same state. *)
Theorem Close_once c l1 l2 st :
  Conn_Close c (Conn_Close c st) = Conn_Close c st /\
  (store_wf st -> l1 ≡ₚ l2 -> close_all l1 st = close_all l2 st).
Proof.
  split; [|apply close_all_any_order]. unfold Conn_Close at 2 3.
  destruct (heap st !! c) as [o|] eqn:E; [|unfold Conn_Close; by rewrite E].
  destruct (c_once o) eqn:Eo; [unfold Conn_Close; by rewrite E, Eo|].
  destruct (c_database o); unfold Conn_Close; cbn; by rewrite lookup_insert_eq.
Qed.

(** C34: [ResolveTarget] is total and faithful to the configuration: for a declared
    target it either returns a snapshot carrying that target's credentials and
    endpoint with the fully substituted database name, which is empty or a
    valid identifier, or returns an error, and then no such snapshot exists;
    reported missing variables are the template's unbound ones. For an
    undeclared target it returns an error. *)
Theorem ResolveTarget_correct d name vars :
  (byName d !! name = None /\ exists e, ResolveTarget d name vars = Ok (zeroResolvedTarget, [], Some e)) \/
  exists t, byName d !! name = Some t /\
   ((exists rt, ResolveTarget d name vars = Ok (rt, [], None) /\ resolves_to d t vars rt) \/
    (exists m e, ResolveTarget d name vars = Ok (zeroResolvedTarget, m, Some e) /\
       (forall rt, ~ resolves_to d t vars rt) /\
       (m <> [] -> m = unbound vars (RequiredVars (t_Database t))))).
Proof. apply ResolveTarget_cases. Qed.

(** ** A database with one live connection *)

Definition sample_rt (name : bytes) : ResolvedTarget :=
  mkResolvedTarget name (str "127.0.0.1") 5432 (str "u") (str "p") (str "app_dev") [] [].
Definition sample_conn : Conn := mkConn (Some 7%nat) (Some 8%nat) (sample_rt (str "local")) false (Some (str "appdb")).
Definition sample_db : Database :=
  mkDb (str "appdb") AdapterPostgres [] ∅ ∅ (Some (sample_rt (str "local"))) {[1%nat]}.
Definition sample_store : store := mkStore {[str "appdb" := sample_db]} {[1%nat := sample_conn]} ∅.

Lemma sample_store_wf : store_wf sample_store.
Proof.
  split; cbn.
  - intros n d c [<- <-]%lookup_singleton_Some. cbn. intros ->%elem_of_singleton.
    exists sample_conn. by rewrite lookup_singleton_eq.
  - intros c o s [<- <-]%lookup_singleton_Some. done.
Qed.

Lemma Apply_correct_witness :
  exists st', Apply (str "appdb") (sample_rt (str "staging")) sample_store
    = ((Some (sample_rt (str "local")), 1), st') /\ 7%nat ∈ closed_socks st'.
Proof.
  destruct (Apply_correct (str "appdb") sample_db (sample_rt (str "staging")) sample_store
    sample_store_wf (lookup_singleton_eq _ _)) as (st' & E & _ & _ & H).
  exists st'. split; [exact E|].
  apply (proj2 (H 1%nat sample_conn (eq_refl _) (lookup_singleton_eq _ _))).
  left. reflexivity.
Defined.

Lemma Close_once_witness :
  Conn_Close 1 (Conn_Close 1 sample_store) = Conn_Close 1 sample_store /\
  close_all [1%nat; 2%nat] sample_store = close_all [2%nat; 1%nat] sample_store.
Proof.
  destruct (Close_once 1 [1%nat; 2%nat] [2%nat; 1%nat] sample_store) as [H1 H2].
  split; [exact H1|]. apply H2; [exact sample_store_wf|apply Permutation_swap].
Defined.
