(* ===== verification/Server.v ===== *)
(** internal/proxy/server.go, the control side: construction, routing lookup,
    the all-databases switch and shutdown.

    [SwitchAll] ranges over Go maps twice; the two visiting orders are its
    arguments [o1] and [o2].  The abstract contract of a switch is
    [next_target]: what one database's current target becomes, or that the
    switch must fail. *)
From Stdlib Require Import Strings.Byte.
From S2P Require Import Prelude Fmt Vars Config Database.

Record SwitchResult := mkSwitchResult {
  sr_VirtualName : bytes;
  sr_Previous : bytes;
  sr_PreviousDatabase : bytes;
  sr_Current : bytes;
  sr_CurrentDatabase : bytes;
  sr_ClosedConns : Z;
  sr_Skipped : bool;
}.

(** [listeners] maps an adapter to the address its live listener reports;
    [currentVars] is [None] for a nil map. *)
Record Server := mkServer {
  listenAddrs : gmap bytes bytes;
  connSeq : Z;
  listeners : gmap bytes bytes;
  s_store : store;
  s_cfg : Config;
  currentTarget : bytes;
  currentVars : option (gmap bytes bytes);
  s_closed : bool;
}.
Definition set_store (st : store) (s : Server) : Server :=
  mkServer (listenAddrs s) (connSeq s) (listeners s) st (s_cfg s) (currentTarget s) (currentVars s) (s_closed s).
Definition set_target (t : bytes) (v : option (gmap bytes bytes)) (s : Server) : Server :=
  mkServer (listenAddrs s) (connSeq s) (listeners s) (s_store s) (s_cfg s) t v (s_closed s).
Definition set_closed (s : Server) : Server :=
  mkServer (listenAddrs s) (connSeq s) (listeners s) (s_store s) (s_cfg s) (currentTarget s) (currentVars s) true.
Definition set_listeners (l : gmap bytes bytes) (s : Server) : Server :=
  mkServer (listenAddrs s) (connSeq s) l (s_store s) (s_cfg s) (currentTarget s) (currentVars s) (s_closed s).

Definition s_databases (s : Server) : gmap bytes Database := dbs (s_store s).

(** [net.JoinHostPort(host, strconv.Itoa(port))]. *)
Definition JoinHostPort (host : bytes) (port : Z) : bytes :=
  match IndexByte host ":"%byte with
  | Some _ => str "[" ++ host ++ str "]:" ++ Itoa port
  | None => host ++ str ":" ++ Itoa port
  end.

Definition cloneVars (v : option (gmap bytes bytes)) : option (gmap bytes bytes) := v.

(** [lookupDatabase]: the database's key, when its adapter matches. *)
Definition lookupDatabase (s : Server) (adapter_ name : bytes) : option bytes :=
  match s_databases s !! name with
  | None => None
  | Some d => if decide (adapter d <> adapter_) then None else Some name
  end.
Definition CurrentTarget (s : Server) : bytes * option (gmap bytes bytes) :=
  (currentTarget s, cloneVars (currentVars s)).
Definition Addrs (s : Server) : gmap bytes bytes :=
  map_imap (fun adapter addr => Some (default addr (listeners s !! adapter))) (listenAddrs s).
Definition AddrFor (s : Server) (adapter : bytes) : bytes :=
  match listeners s !! adapter with
  | Some addr => addr
  | None => default [] (listenAddrs s !! adapter)
  end.
Definition IsClosed (s : Server) : bool := s_closed s.

(** ** SwitchAll *)

Record plan := mkPlan { p_rt : ResolvedTarget; p_skip : bool }.

(** Phase 1: classify and resolve. *)
Fixpoint plan_all (databases : gmap bytes Database) (target : bytes) (vars : gmap bytes bytes)
    (l : list bytes) (plans : gmap bytes plan) (declared : Z) : res (gmap bytes plan * Z) :=
  match l with
  | [] => Ok (plans, declared)
  | name :: l =>
      match databases !! name with
      | None => plan_all databases target vars l plans declared (* not a key: never ranged over *)
      | Some d =>
          if negb (HasTarget d target)
          then plan_all databases target vars l (<[name := mkPlan zeroResolvedTarget true]> plans) declared
          else
            '(rt, missing, err) ← ResolveTarget d target vars;
            match err with
            | Some e => Err (ESwitchPlan name missing e)
            | None => plan_all databases target vars l (<[name := mkPlan rt false]> plans) (declared + 1)
            end
      end
  end.

(** Phase 2: commit one database, then all. *)
Definition commit_one (plans : gmap bytes plan) (name : bytes) (st : store) : SwitchResult * store :=
  let p := default (mkPlan zeroResolvedTarget false) (plans !! name) in
  let '((prev, closed), st') := if p_skip p then Clear name st else Apply name (p_rt p) st in
  (mkSwitchResult name
     (from_option rt_Name [] prev) (from_option rt_Database [] prev)
     (if p_skip p then [] else rt_Name (p_rt p)) (if p_skip p then [] else rt_Database (p_rt p))
     closed (p_skip p), st').
Fixpoint commit_all (plans : gmap bytes plan) (l : list bytes) (st : store) : list SwitchResult * store :=
  match l with
  | [] => ([], st)
  | name :: l =>
      let '(r, st1) := commit_one plans name st in
      let '(rs, st2) := commit_all plans l st1 in
      (r :: rs, st2)
  end.

Definition SwitchAll (o1 o2 : list bytes) (target : bytes) (vars : option (gmap bytes bytes))
    : M Server (list SwitchResult) :=
  databases ← gets s_databases;
  '(plans, declared) ← lift (plan_all databases target (default ∅ vars) o1 ∅ 0);
  if decide (declared = 0) then fail (Errorf (str "no databases declare target %q") [FStr target]) else
  results ← zoom s_store set_store (fun st => let '(rs, st') := commit_all plans o2 st in (Ok rs, st'));
  modify (set_target target (cloneVars vars));;
  mret results.

(** ** Construction and shutdown *)

Fixpoint bind_addrs (cfg : Config) (l : list bytes) (acc : gmap bytes bytes) : res (gmap bytes bytes) :=
  match l with
  | [] => Ok acc
  | adapter :: l =>
      match ListenPort cfg adapter with
      | None => Err (Errorf (str "adapter %q has no listen_ports entry") [FStr adapter])
      | Some port => bind_addrs cfg l (<[adapter := JoinHostPort (ListenHostOrDefault cfg) port]> acc)
      end
  end.
Definition new_databases (cfg : Config) : gmap bytes Database :=
  fold_left (fun m c => <[d_VirtualName c := NewDatabase c (ForwardTargets cfg)]> m) (Databases cfg) ∅.
(** [New]: the server is handed out only when its first switch succeeded. *)
Definition New (o1 o2 : list bytes) (cfg : Config) (target : bytes) (vars : option (gmap bytes bytes)) : res Server :=
  listenAddrs ← bind_addrs cfg (UsedAdapters cfg) ∅;
  let s := mkServer listenAddrs 0 ∅ (mkStore (new_databases cfg) ∅ ∅) cfg [] (cloneVars vars) false in
  match SwitchAll o1 o2 target vars s with
  | (Ok _, s') => Ok s'
  | (Err e, _) => Err e
  | (Panic, _) => Panic
  | (NoFuel, _) => NoFuel
  end.

(** [Shutdown], up to the wait for the handlers: [order] visits the databases. *)
Definition drop_each (order : list bytes) (st : store) : store :=
  fold_left (fun st n => (dropAll n st).2) order st.
Definition Shutdown (order : list bytes) : M Server unit :=
  closed ← gets s_closed;
  if closed : bool then mret tt else
  modify set_closed;;
  modify (fun s => set_store (drop_each order (s_store s)) s).

(** [Start] up to its accept loops: [listen] is [net.Listen], [order] visits
    [listenAddrs]; the result is the listeners left open. *)
Fixpoint open_listeners (listen : bytes -> error + bytes) (order : list (bytes * bytes))
    (acc : gmap bytes bytes) : res (gmap bytes bytes) :=
  match order with
  | [] => Ok acc
  | (adapter, addr) :: order =>
      match listen addr with
      | inl e => Err (Errorf (str "listen %s (%s): %w") [FStr addr; FStr adapter; FErr e])
      | inr a => open_listeners listen order (<[adapter := a]> acc)
      end
  end.
Definition Start_bind (listen : bytes -> error + bytes) (order : list (bytes * bytes)) : M Server bool :=
  ls ← lift (open_listeners listen order ∅);
  closed ← gets s_closed;
  if closed : bool then mret false else modify (set_listeners ls);; mret true.

(** ** The contract of a switch *)

(** What a switch to [target] makes of a database's current target: [Some None]
    when the target is not declared (the database becomes inactive), [Some
    (Some rt)] when it resolves, [None] when the whole switch must fail. *)
Definition next_target (target : bytes) (vars : gmap bytes bytes) (d : Database) : option (option ResolvedTarget) :=
  if HasTarget d target then
    match ResolveTarget d target vars with
    | Ok (rt, _, None) => Some (Some rt)
    | _ => None
    end
  else Some None.

Definition plan_of (cur : option ResolvedTarget) : plan :=
  match cur with Some rt => mkPlan rt false | None => mkPlan zeroResolvedTarget true end.

Definition next_db (target : bytes) (vars : gmap bytes bytes) (d : Database) : Database :=
  set_conns (fun _ => ∅) (set_current (default None (next_target target vars d)) d).

(** The report line of one database. *)
Definition result_for (target : bytes) (vars : gmap bytes bytes) (name : bytes) (d : Database) : SwitchResult :=
  let cur := default None (next_target target vars d) in
  mkSwitchResult name (from_option rt_Name [] (current d)) (from_option rt_Database [] (current d))
    (from_option rt_Name [] cur) (from_option rt_Database [] cur)
    (ActiveConns d) (bool_decide (cur = None)).

(** ** Phase 1 *)

Lemma plan_all_ok databases target vars l plans k plans' k' :
  plan_all databases target vars l plans k = Ok (plans', k') ->
  (forall n, n ∉ l -> plans' !! n = plans !! n) /\
  (forall n d, n ∈ l -> databases !! n = Some d ->
     exists cur, next_target target vars d = Some cur /\ plans' !! n = Some (plan_of cur)) /\
  k <= k' /\
  (k' = k <-> forall n d, n ∈ l -> databases !! n = Some d -> HasTarget d target = false).
Proof.
  revert plans k. induction l as [|n l IH]; intros plans k; cbn [plan_all].
  { intros [= <- <-]. split_and!; [done|set_solver|lia|]. split; [set_solver|done]. }
  destruct (databases !! n) as [d|] eqn:Ed.
  2: { intros H. destruct (IH _ _ H) as (H1 & H2 & H3 & H4). split_and!; [set_solver| |lia|].
       - intros n' d' [->|Hn']%elem_of_cons Hd'; [congruence|eauto].
       - rewrite H4. split; [|set_solver]. intros Hf n' d' [->|Hn']%elem_of_cons Hd'; [congruence|eauto]. }
  assert (Hlook : forall p k1, plan_all databases target vars l (<[n := p]> plans) k1 = Ok (plans', k') ->
            plans' !! n = Some p \/ n ∈ l).
  { intros p k1 H. destruct (decide (n ∈ l)); [by right|left].
    destruct (IH _ _ H) as (H1 & _). by rewrite H1, lookup_insert_eq. }
  destruct (HasTarget d target) eqn:Eh; cbn [negb].
  - destruct (ResolveTarget_cases d target vars) as [[E _]|(t & _ & [(rt & E & _)|(m & e & E & _)])].
    { unfold HasTarget in Eh. apply bool_decide_eq_true in Eh as [? ?]. congruence. }
    + rewrite E. cbn. intros H. destruct (IH _ _ H) as (H1 & H2 & H3 & H4). split_and!; [| |lia|].
      * intros n' Hn'. rewrite H1 by set_solver. apply lookup_insert_ne. set_solver.
      * intros n' d' Hn' Hd'. destruct (decide (n' ∈ l)) as [|Hni]; [eauto|].
        apply elem_of_cons in Hn' as [->|]; [|done]. rewrite Ed in Hd'. injection Hd' as <-.
        exists (Some rt). unfold next_target. rewrite Eh, E. split; [done|].
        destruct (Hlook _ _ H); [done|by destruct Hni].
      * split; [lia|]. intros Hf. specialize (Hf n d ltac:(left) Ed). congruence.
    + rewrite E. done.
  - intros H. destruct (IH _ _ H) as (H1 & H2 & H3 & H4). split_and!; [| |lia|].
    + intros n' Hn'. rewrite H1 by set_solver. apply lookup_insert_ne. set_solver.
    + intros n' d' Hn' Hd'. destruct (decide (n' ∈ l)) as [|Hni]; [eauto|].
      apply elem_of_cons in Hn' as [->|]; [|done]. rewrite Ed in Hd'. injection Hd' as <-.
      exists None. unfold next_target. rewrite Eh. split; [done|].
      destruct (Hlook _ _ H); [done|by destruct Hni].
    + rewrite H4. split; [|set_solver]. intros Hf n' d' [->|Hn']%elem_of_cons Hd'; [congruence|eauto].
Qed.

Lemma plan_all_cases databases target vars l plans k :
  (exists p, plan_all databases target vars l plans k = Ok p) \/
  (exists n d m e, n ∈ l /\ databases !! n = Some d /\ next_target target vars d = None /\
     plan_all databases target vars l plans k = Err (ESwitchPlan n m e)).
Proof.
  revert plans k. induction l as [|n l IH]; intros plans k; cbn [plan_all]; [left; eauto|].
  assert (Hrest : forall plans k, (exists p, plan_all databases target vars l plans k = Ok p) \/
    (exists n0 d m e, n0 ∈ n :: l /\ databases !! n0 = Some d /\ next_target target vars d = None /\
     plan_all databases target vars l plans k = Err (ESwitchPlan n0 m e))).
  { intros. destruct (IH plans0 k0) as [?|(n' & d & m & e & ? & H)]; [by left|right].
    exists n', d, m, e. split; [by right|done]. }
  destruct (databases !! n) as [d|] eqn:Ed; [|apply Hrest].
  destruct (HasTarget d target) eqn:Eh; cbn [negb]; [|apply Hrest].
  destruct (ResolveTarget_cases d target vars) as [[E [e E']]|(t & _ & [(rt & E & _)|(m & e & E & _)])].
  - unfold HasTarget in Eh. apply bool_decide_eq_true in Eh as [? ?]. congruence.
  - rewrite E. apply Hrest.
  - rewrite E. right. exists n, d, m, e. unfold next_target. rewrite Eh, E. split_and!; [left|done..].
Qed.

(** ** Phase 2 *)

(** The connections registered with the databases of [l]. *)
Definition lives (l : list bytes) (st : store) : gset nat := ⋃ ((fun n => live n st) <$> l).

Record committed (target : bytes) (vars : gmap bytes bytes) (l : list bytes) (st st' : store) : Prop := {
  cm_dbs : forall n, dbs st' !! n = (if decide (n ∈ l) then next_db target vars else id) <$> dbs st !! n;
  cm_heap : forall c, heap st' !! c = (if decide (c ∈ lives l st) then set_c_once else id) <$> heap st !! c;
  cm_socks : forall s, s ∈ closed_socks st' <->
    s ∈ closed_socks st \/ exists c o, c ∈ lives l st /\ heap st !! c = Some o /\ conn_sock o s;
}.

Lemma committed_unique target vars l1 l2 st st1 st2 : l1 ≡ₚ l2 ->
  committed target vars l1 st st1 -> committed target vars l2 st st2 -> st1 = st2.
Proof.
  intros Hl [H1 H2 H3] [G1 G2 G3].
  assert (Hlv : lives l1 st = lives l2 st).
  { unfold lives. apply set_eq. intros c. rewrite !elem_of_union_list. by setoid_rewrite Hl. }
  destruct st1 as [d1 h1 s1], st2 as [d2 h2 s2]. cbn in *. f_equal.
  - apply map_eq. intros n. rewrite H1, G1.
    destruct (decide (n ∈ l1)) as [I1|I1], (decide (n ∈ l2)) as [I2|I2]; try done; rewrite Hl in I1; done.
  - apply map_eq. intros c. by rewrite H2, G2, Hlv.
  - apply set_eq. intros s. by rewrite H3, G3, Hlv.
Qed.

Section Commit.
Context (target : bytes) (vars : gmap bytes bytes) (plans : gmap bytes plan).

(** [plans] holds the resolved plan of database [n]. *)
Definition planned (st : store) (n : bytes) : Prop := exists d cur,
  dbs st !! n = Some d /\ next_target target vars d = Some cur /\ plans !! n = Some (plan_of cur).

Lemma commit_one_spec st n d cur : store_wf st -> dbs st !! n = Some d ->
  next_target target vars d = Some cur -> plans !! n = Some (plan_of cur) ->
  exists st', commit_one plans n st = (result_for target vars n d, st') /\ switched n cur st st'.
Proof.
  intros W Hd Hn Hp. unfold commit_one, result_for. rewrite Hp, Hn. cbn [default from_option].
  assert (Hl : Z.of_nat (size (live n st)) = ActiveConns d) by (unfold live, ActiveConns; by rewrite Hd).
  assert (Hc : current_of n st = current d) by (unfold current_of; by rewrite Hd).
  destruct cur as [rt|]; cbn [plan_of p_skip p_rt id].
  - destruct (Apply_switched n rt st W) as (st' & -> & Hs). rewrite Hc, Hl. eauto.
  - destruct (Clear_switched n st W) as (st' & -> & Hs). rewrite Hc, Hl. eauto.
Qed.

Lemma lives_switched n cur st st1 l : switched n cur st st1 -> n ∉ l -> lives l st1 = lives l st.
Proof.
  intros Hs Hn. unfold lives. f_equal. apply list_fmap_ext. intros i n' Hi%list_elem_of_lookup_2.
  unfold live. rewrite (switched_live_other n n' cur st st1); [done|congruence|done].
Qed.

(** One database, then the rest. *)
Lemma committed_cons n d cur l st st1 st' : dbs st !! n = Some d ->
  next_target target vars d = Some cur -> n ∉ l -> store_wf st ->
  switched n cur st st1 -> committed target vars l st1 st' -> committed target vars (n :: l) st st'.
Proof.
  intros Hd Hcur Hn W Hs [H1 H2 H3]. rewrite (lives_switched n cur st st1 l) in H2, H3 by done.
  destruct Hs as [S1 S2 S3].
  assert (Hlives : forall c, c ∈ lives (n :: l) st <-> c ∈ live n st \/ c ∈ lives l st).
  { intros c. unfold lives. cbn. by rewrite elem_of_union. }
  split.
  - intros n'. rewrite H1, S1, lookup_alter. destruct (decide (n = n')) as [<-|Hne].
    + rewrite decide_False, decide_True by (done || left). rewrite Hd. cbn. unfold next_db. by rewrite Hcur.
    + destruct (decide (n' ∈ l)); [rewrite decide_True by by right|rewrite decide_False by set_solver]; done.
  - intros c. rewrite H2, S2, <- option_fmap_compose. apply option_fmap_ext. intros o.
    destruct (decide (c ∈ lives (n :: l) st)) as [I|I]; rewrite Hlives in I;
      destruct (decide (c ∈ live n st)), (decide (c ∈ lives l st)); tauto.
  - intros s. rewrite H3, S3. setoid_rewrite Hlives. split.
    + intros [[?|(c & o & ? & ? & ?)]|(c & o' & Hc & Ho & Hsk)]; [tauto|right; exists c, o; tauto|].
      rewrite S2 in Ho. apply fmap_Some in Ho as (o & Ho & ->). right. exists c, o.
      split_and!; [tauto|done|]. by case_decide.
    + intros [?|(c & o & [Hc|Hc] & Ho & Hsk)]; [tauto|left; right; by exists c, o|].
      right. exists c. eexists. rewrite S2, Ho. split_and!; [done|done|]. by case_decide.
Qed.

Definition results_for (st : store) (l : list bytes) : list SwitchResult :=
  omap (fun n => result_for target vars n <$> dbs st !! n) l.

Lemma commit_all_spec l st : store_wf st -> NoDup l -> Forall (planned st) l ->
  exists st', commit_all plans l st = (results_for st l, st') /\ store_wf st' /\
              committed target vars l st st'.
Proof.
  revert st. induction l as [|n l IH]; intros st W Hnd Hp.
  { exists st. split_and!; [done..|]. split.
    - intros n. by destruct (dbs st !! n).
    - intros c. by destruct (heap st !! c).
    - unfold lives. set_solver. }
  apply NoDup_cons in Hnd as [Hn Hnd]. apply Forall_cons in Hp as [(d & cur & Hd & Hcur & Hpl) Hp].
  destruct (commit_one_spec st n d cur W Hd Hcur Hpl) as (st1 & E1 & Hs).
  assert (Hsame : forall n', n' ∈ l -> dbs st1 !! n' = dbs st !! n').
  { intros n' Hn'. eapply switched_live_other; [|done]. congruence. }
  destruct (IH st1) as (st' & E2 & W' & Hc); [by eapply switched_wf|done| |].
  { rewrite Forall_forall in Hp |- *. intros n' Hn'. unfold planned. rewrite Hsame by done. by apply Hp. }
  exists st'. cbn [commit_all]. rewrite E1, E2. split_and!; [|done|by eapply committed_cons].
  f_equal. unfold results_for. cbn. rewrite Hd. cbn. f_equal.
  apply list_omap_ext, Forall2_same_length_lookup. split; [done|].
  intros i n1 n2 Hi1 Hi2. simplify_eq. by rewrite Hsame by by eapply list_elem_of_lookup_2.
Qed.
End Commit.

(** ** SwitchAll as a whole *)

(** [o] visits every database of the server once. *)
Definition enumerates (o : list bytes) (s : Server) : Prop := o ≡ₚ elements (dom (s_databases s)).

Lemma enumerates_elem o s n : enumerates o s -> n ∈ o <-> is_Some (s_databases s !! n).
Proof. intros H. by rewrite H, elem_of_elements, elem_of_dom. Qed.

Lemma enumerates_nodup o s : enumerates o s -> NoDup o.
Proof. intros H. rewrite H. apply NoDup_elements. Qed.

(** The switch is accepted: some database declares the target and each one
    that does can resolve it. *)
Definition switchable (target : bytes) (vars : gmap bytes bytes) (s : Server) : Prop :=
  (exists n d, s_databases s !! n = Some d /\ HasTarget d target = true) /\
  (forall n d, s_databases s !! n = Some d -> next_target target vars d <> None).

(** After a committed switch the databases are exactly the switched ones. *)
Lemma committed_all o2 target vs s st' : enumerates o2 s ->
  committed target vs o2 (s_store s) st' ->
  dbs st' = next_db target vs <$> s_databases s /\
  (forall c, (exists n d, s_databases s !! n = Some d /\ c ∈ conns d) <-> c ∈ lives o2 (s_store s)).
Proof.
  intros E2 [H1 _ _]. split.
  - apply map_eq. intros n. rewrite H1, lookup_fmap. unfold s_databases.
    destruct (dbs (s_store s) !! n) as [d|] eqn:Ed; [|done].
    rewrite decide_True; [done|]. apply (enumerates_elem _ _ _ E2). unfold s_databases. eauto.
  - intros c. unfold lives. rewrite elem_of_union_list. setoid_rewrite list_elem_of_fmap. split.
    + intros (n & d & Hd & Hc). exists (conns d). split; [|done]. exists n. unfold live.
      fold (s_databases s). rewrite Hd. split; [done|]. apply (enumerates_elem _ _ _ E2). eauto.
    + intros (X & (n & -> & Hn) & Hc). unfold live in Hc. fold (s_databases s) in Hc.
      destruct (s_databases s !! n) as [d|] eqn:Ed; [eauto|set_solver].
Qed.
Section SwitchAll.
Context (o1 o2 : list bytes) (target : bytes) (vars : option (gmap bytes bytes)) (s : Server).
Context (W : store_wf (s_store s)) (E1 : enumerates o1 s) (E2 : enumerates o2 s).
Local Notation vs := (default ∅ vars).

Lemma SwitchAll_cases :
  (switchable target vs s /\ exists st',
     SwitchAll o1 o2 target vars s =
       (Ok (results_for target vs (s_store s) o2), set_target target vars (set_store st' s)) /\
     store_wf st' /\ committed target vs o2 (s_store s) st') \/
  (~ switchable target vs s /\ exists e, SwitchAll o1 o2 target vars s = (Err e, s)).
Proof using W E1 E2.
  unfold SwitchAll, gets, lift, mbind, M_bind.
  destruct (plan_all_cases (s_databases s) target vs o1 ∅ 0) as [[[plans k] E]|(n & d & m & e & Hn & Hd & Hf & E)];
    rewrite E; cbn.
  2: { right. split; [|eauto]. intros [_ H]. by apply (H n d). }
  destruct (plan_all_ok _ _ _ _ _ _ _ _ E) as (_ & H2 & H3 & H4).
  destruct (decide (k = 0)) as [->|Hk].
  - right. split; [|unfold fail; eauto]. intros [(n & d & Hd & Ht) _].
    pose proof (proj1 H4 eq_refl n d) as Hc. rewrite Hc in Ht; [done| |done].
    apply (enumerates_elem _ _ _ E1). eauto.
  - left. destruct (commit_all_spec target vs plans o2 (s_store s) W (enumerates_nodup _ _ E2)) as (st' & Ec & W' & Hc).
    { rewrite Forall_forall. intros n Hn. apply (enumerates_elem _ _ _ E2) in Hn as [d Hd].
      destruct (H2 n d) as (cur & ? & ?); [apply (enumerates_elem _ _ _ E1); eauto|done|].
      exists d, cur. done. }
    split; [|exists st'; unfold zoom; cbn; rewrite Ec; done].
    split.
    + destruct (decide (map_Exists (fun _ d => HasTarget d target = true) (s_databases s))) as [H|Hno];
        [by apply map_Exists_lookup in H|].
      destruct Hk. apply H4. intros n d _ Hd. destruct (HasTarget d target) eqn:Eh; [|done].
      destruct Hno. apply map_Exists_lookup. eauto.
    + intros n d Hd. destruct (H2 n d) as (cur & -> & _); [apply (enumerates_elem _ _ _ E1); eauto|done|done].
Qed.
End SwitchAll.

(** ** Coherence: all databases follow the one global target *)

(** Every database's current target is what the server's global target and
    variables resolve to for it; undeclared means inactive. *)
Definition coherent (s : Server) : Prop := forall n d, s_databases s !! n = Some d ->
  next_target (currentTarget s) (default ∅ (currentVars s)) d = Some (current d).

Record server_ok (s : Server) : Prop := {
  so_wf : store_wf (s_store s);
  so_coherent : coherent s;
}.

Lemma next_target_next_db target vars target' vars' d :
  next_target target vars (next_db target' vars' d) = next_target target vars d.
Proof. done. Qed.

(** Switching all databases of a switchable server makes it coherent. *)
Lemma switched_coherent target vars s st' : switchable target (default ∅ vars) s ->
  dbs st' = next_db target (default ∅ vars) <$> s_databases s ->
  coherent (set_target target vars (set_store st' s)).
Proof.
  intros Hs Hd n d. unfold s_databases. cbn. rewrite Hd, lookup_fmap.
  intros (d0 & Hd0 & ->)%fmap_Some. rewrite next_target_next_db. unfold next_db. cbn.
  pose proof (proj2 Hs n d0 Hd0). by destruct (next_target target (default ∅ vars) d0).
Qed.

Lemma SwitchAll_ok_inv o1 o2 target vars s rs s' : store_wf (s_store s) ->
  enumerates o1 s -> enumerates o2 s -> SwitchAll o1 o2 target vars s = (Ok rs, s') ->
  exists st', s' = set_target target vars (set_store st' s) /\ store_wf st' /\
    switchable target (default ∅ vars) s /\ committed target (default ∅ vars) o2 (s_store s) st' /\
    rs = results_for target (default ∅ vars) (s_store s) o2.
Proof.
  intros W E1 E2 H. destruct (SwitchAll_cases o1 o2 target vars s W E1 E2) as [(Hs & st' & E & W' & Hc)|(_ & e & E)];
    rewrite E in H; [|done]. injection H as <- <-. by exists st'.
Qed.

Lemma SwitchAll_server_ok o1 o2 target vars s r s' : server_ok s ->
  enumerates o1 s -> enumerates o2 s -> SwitchAll o1 o2 target vars s = (r, s') -> server_ok s'.
Proof.
  intros [W Hc] E1 E2 H.
  destruct (SwitchAll_cases o1 o2 target vars s W E1 E2) as [(Hs & st' & E & W' & Hcm)|(_ & e & E)];
    rewrite E in H; injection H as <- <-; [|done].
  split; [done|]. apply (switched_coherent target vars _ _ Hs). by apply (committed_all o2 target _ s st' E2).
Qed.

Lemma drop_each_spec l st : store_wf st -> (forall n d, dbs st !! n = Some d -> n ∈ l) ->
  let st' := drop_each l st in
  store_wf st' /\ (forall n d, dbs st' !! n = Some d -> conns d = ∅) /\
  (forall c o n d, dbs st !! n = Some d -> c ∈ conns d -> heap st !! c = Some o ->
     heap st' !! c = Some (set_c_once o) /\ forall s, conn_sock o s -> s ∈ closed_socks st').
Proof.
  intros W Hall. unfold drop_each.
  assert (Hcl : forall l st, store_wf st -> exists cs,
    closes cs st (fold_left (fun st n => (dropAll n st).2) l st) /\ forall n c, n ∈ l -> c ∈ live n st -> c ∈ cs).
  { clear. intros l. induction l as [|n l IH]; intros st W.
    { exists []. split; [apply (close_all_closes [] st W)|set_solver]. }
    cbn [fold_left dropAll snd]. pose proof (close_all_closes (snapshot n st) st W) as Hc.
    destruct (IH _ (closes_wf _ _ _ W Hc)) as (cs & Hcs & Hin). exists (snapshot n st ++ cs).
    split; [by eapply closes_trans|]. intros n' c Hn' Hlive. rewrite elem_of_app.
    destruct (decide (c ∈ snapshot n st)) as [?|Hns]; [by left|right].
    apply elem_of_cons in Hn' as [->|Hn']; [by rewrite snapshot_live in Hns|]. apply (Hin n'); [done|].
    unfold live in Hlive |- *. destruct Hc as [-> _ _]. rewrite lookup_fmap.
    destruct (dbs st !! n') as [d|]; [|set_solver]. cbn.
    rewrite elem_of_difference, elem_of_list_to_set. done. }
  destruct (Hcl l st W) as (cs & Hc & Hin).
  assert (Hreg : forall n d c, dbs st !! n = Some d -> c ∈ conns d -> c ∈ cs).
  { intros n d c Hd Hcd. apply (Hin n); [by eapply Hall|]. unfold live. by rewrite Hd. }
  split; [by eapply closes_wf|]. destruct Hc as [H1 H2 H3]. split.
  - intros n d'. rewrite H1, lookup_fmap. intros (d & Hd & ->)%fmap_Some. cbn.
    apply difference_list_empty. intros c. by eapply Hreg.
  - intros c o n d Hd Hcd Ho. assert (c ∈ cs) by by eapply Hreg. split.
    + by rewrite H2, Ho, decide_True.
    + intros s Hs. apply H3. right. by exists c, o.
Qed.

Lemma NewDatabase_empty cfg n d : new_databases cfg !! n = Some d -> current d = None /\ conns d = ∅.
Proof.
  unfold new_databases.
  assert (forall l (m : gmap bytes Database), (forall d, m !! n = Some d -> current d = None /\ conns d = ∅) ->
    forall d, fold_left (fun m c => <[d_VirtualName c := NewDatabase c (ForwardTargets cfg)]> m) l m !! n = Some d ->
    current d = None /\ conns d = ∅) as H.
  { induction l as [|c l IH]; intros m Hm; [done|]. apply IH. intros d0. rewrite lookup_insert.
    case_decide; [intros [= <-]; done|apply Hm]. }
  apply H. intros d0. by rewrite lookup_empty.
Qed.

Lemma bind_addrs_ok cfg l acc : (forall a, a ∈ l -> is_Some (ListenPort cfg a)) ->
  exists m, bind_addrs cfg l acc = Ok m /\ dom m = list_to_set l ∪ dom acc.
Proof.
  revert acc. induction l as [|a l IH]; intros acc H; cbn; [exists acc; set_solver|].
  destruct (H a ltac:(left)) as [p ->]. destruct (IH (<[a := JoinHostPort (ListenHostOrDefault cfg) p]> acc)) as (m & -> & Hm).
  { intros. apply H. by right. }
  exists m. split; [done|]. rewrite Hm, dom_insert_L. set_solver.
Qed.

Lemma used_adapters_have_ports cfg : config_valid cfg -> forall a, a ∈ UsedAdapters cfg -> is_Some (ListenPort cfg a).
Proof.
  intros Hc a (_ & d & Hd & <-)%UsedAdapters_elem.
  exact (dv_port _ _ (proj1 (Forall_forall _ _) (cv_each _ Hc) d Hd)).
Qed.

Lemma fresh_wf m : (forall n d, m !! n = Some d -> conns d = ∅) -> store_wf (mkStore m ∅ ∅).
Proof.
  intros H. split; cbn.
  - intros n d c Hd Hc. rewrite (H n d Hd) in Hc. set_solver.
  - intros c o s. by rewrite lookup_empty.
Qed.

Lemma new_databases_wf cfg : store_wf (mkStore (new_databases cfg) ∅ ∅).
Proof. apply fresh_wf. intros n d Hd. by apply NewDatabase_empty in Hd as [_ ?]. Qed.

(** ** Properties *)

(** C1: a failed switch is atomic: [SwitchAll] fails exactly when no database
    declares the target or one that declares it cannot resolve it, and then
    the server is left unchanged, whatever order the maps are visited in. *)
Theorem SwitchAll_atomic o1 o2 target vars s :
  store_wf (s_store s) -> enumerates o1 s -> enumerates o2 s ->
  (is_err (SwitchAll o1 o2 target vars s).1 = true <-> ~ switchable target (default ∅ vars) s) /\
  (is_err (SwitchAll o1 o2 target vars s).1 = true -> (SwitchAll o1 o2 target vars s).2 = s).
Proof.
  intros W E1 E2.
  destruct (SwitchAll_cases o1 o2 target vars s W E1 E2) as [(Hs & st' & -> & _)|(Hs & e & ->)]; cbn; naive_solver.
Qed.

(** C2: a successful switch moves every database at once: each one's current
    target becomes what the new target resolves to for it (or none when it
    does not declare it), no connection stays registered anywhere, every
    connection that was registered is closed on both sides, the global target
    and variables are the requested ones, and nothing else changes. *)
Theorem SwitchAll_effect o1 o2 target vars s :
  store_wf (s_store s) -> enumerates o1 s -> enumerates o2 s -> switchable target (default ∅ vars) s ->
  exists rs s', SwitchAll o1 o2 target vars s = (Ok rs, s') /\
    s_databases s' = next_db target (default ∅ vars) <$> s_databases s /\
    CurrentTarget s' = (target, vars) /\ server_ok s' /\
    (forall n d c o, s_databases s !! n = Some d -> c ∈ conns d -> heap (s_store s) !! c = Some o ->
       heap (s_store s') !! c = Some (set_c_once o) /\ forall k, conn_sock o k -> k ∈ closed_socks (s_store s')) /\
    (listenAddrs s', connSeq s', listeners s', s_cfg s', s_closed s') =
    (listenAddrs s, connSeq s, listeners s, s_cfg s, s_closed s).
Proof.
  intros W E1 E2 Hsw.
  destruct (SwitchAll_cases o1 o2 target vars s W E1 E2) as [(Hs & st' & E & W' & Hc)|(Hs & _)]; [|done].
  destruct (committed_all o2 target _ s st' E2 Hc) as [Hd Hl]. do 2 eexists. split_and!; [exact E|exact Hd|done| | |done].
  - split; [done|]. by apply (switched_coherent target vars _ _ Hs).
  - intros n d c o Hn Hcd Ho. cbn. assert (c ∈ lives o2 (s_store s)) by (apply Hl; eauto).
    destruct Hc as [_ H2 H3]. split; [by rewrite H2, Ho, decide_True|].
    intros k Hk. apply H3. right. eauto.
Qed.

(** Why a database cannot follow, and the error of a switch that visits the
    databases in the order [l] to plan: the failure of the first one that has one. *)
Definition failure_of (target : bytes) (vars : gmap bytes bytes) (name : bytes) (d : Database) : option error :=
  if HasTarget d target then
    match ResolveTarget d target vars with Ok (_, missing, Some e) => Some (ESwitchPlan name missing e) | _ => None end
  else None.
Definition failures (target : bytes) (vars : gmap bytes bytes) (databases : gmap bytes Database) (l : list bytes) : list error :=
  omap (fun n => d ← databases !! n; failure_of target vars n d) l.
Definition switch_error (target : bytes) (vars : gmap bytes bytes) (databases : gmap bytes Database) (l : list bytes) : error :=
  default (Errorf (str "no databases declare target %q") [FStr target]) (head (failures target vars databases l)).
Lemma plan_all_failures databases target vars l plans k :
  match plan_all databases target vars l plans k with
  | Ok _ => failures target vars databases l = []
  | Err e => head (failures target vars databases l) = Some e
  | _ => False
  end.
Proof.
  revert plans k. induction l as [|n l IH]; intros plans k; [done|]. unfold failures. cbn [plan_all omap list_omap].
  destruct (databases !! n) as [d|] eqn:Ed; cbn [mbind option_bind]; [|apply IH]. unfold failure_of.
  destruct (HasTarget d target) eqn:Eh; cbn [negb]; [|apply IH].
  destruct (ResolveTarget_cases d target vars) as [[_ (e & E)]|(t & _ & [(rt & E & _)|(m & e & E & _)])]; rewrite E; cbn [mbind res_bind]; [done|apply IH|done].
Qed.
Lemma SwitchAll_error o1 o2 target vars s e s' : SwitchAll o1 o2 target vars s = (Err e, s') ->
  e = switch_error target (default ∅ vars) (s_databases s) o1.
Proof.
  unfold SwitchAll, gets, lift, fail, mbind, M_bind. pose proof (plan_all_failures (s_databases s) target (default ∅ vars) o1 ∅ 0) as Hf.
  unfold switch_error. destruct (plan_all _ _ _ _ _ _) as [[plans k]|e0| |]; [|by rewrite Hf; intros [= <- _]|done..].
  rewrite Hf. case_decide; [by intros [= <- _]|]. unfold zoom. by destruct (commit_all _ _ _).
Qed.

(** C13: what the order in which Go visits the maps decides.  Whether a switch
    succeeds, and the server it leaves, are the same for every order.  The order of
    the commit loop decides the order of the lines of the report and nothing else:
    the line of each database is the same.  The order of the planning loop decides,
    when several databases cannot follow, which one the error is about: the first
    one visited. *)
Theorem SwitchAll_any_order target vars s : store_wf (s_store s) ->
  exists s1, forall o1 o2, enumerates o1 s -> enumerates o2 s ->
    (switchable target (default ∅ vars) s /\
     SwitchAll o1 o2 target vars s = (Ok (omap (fun n => result_for target (default ∅ vars) n <$> s_databases s !! n) o2), s1)) \/
    (~ switchable target (default ∅ vars) s /\
     SwitchAll o1 o2 target vars s = (Err (switch_error target (default ∅ vars) (s_databases s) o1), s)).
Proof.
  intros W. set (o := elements (dom (s_databases s))). assert (enumerates o s) as Eo by (unfold enumerates; reflexivity).
  exists (SwitchAll o o target vars s).2. intros o1 o2 E1 E2. assert (o2 ≡ₚ o) as Hp by exact E2.
  destruct (SwitchAll_cases o1 o2 target vars s W E1 E2) as [(Hs & st1 & E & _ & C1)|(Hs & e & E)]; [left|right].
  - split; [done|]. rewrite E. destruct (SwitchAll_cases o o target vars s W Eo Eo) as [(_ & st2 & -> & _ & C2)|(Hs2 & _)]; [|by destruct Hs2].
    cbn [snd]. by rewrite (committed_unique _ _ o2 o _ st1 st2) by done.
  - split; [done|]. rewrite E. by rewrite (SwitchAll_error _ _ _ _ _ _ _ E).
Qed.

(** The report of a successful switch has exactly one line per database,
    saying its previous target and database name, the new ones (or that it
    was skipped), and how many of its connections were closed. *)
Theorem SwitchAll_report o1 o2 target vars s rs s' :
  store_wf (s_store s) -> enumerates o1 s -> enumerates o2 s ->
  SwitchAll o1 o2 target vars s = (Ok rs, s') ->
  NoDup (map sr_VirtualName rs) /\
  forall r, r ∈ rs <-> exists n d, s_databases s !! n = Some d /\ r = result_for target (default ∅ vars) n d.
Proof.
  intros W E1 E2 H. destruct (SwitchAll_ok_inv _ _ _ _ _ _ _ W E1 E2 H) as (st' & _ & _ & _ & _ & ->).
  unfold results_for. fold (s_databases s). split.
  - pose proof (enumerates_nodup _ _ E2) as Hnd. clear H E1 E2. induction Hnd as [|n l Hn Hnd IH]; [constructor|].
    cbn. destruct (s_databases s !! n) as [d|]; [|done]. cbn. constructor; [|done].
    change (map sr_VirtualName) with (fmap (M := list) sr_VirtualName).
    intros (r & Er & (n' & Hn' & Hr)%list_elem_of_omap)%list_elem_of_fmap.
    apply fmap_Some in Hr as (d' & _ & ->). cbn in Er. by subst.
  - intros r. rewrite list_elem_of_omap. setoid_rewrite fmap_Some. split; [naive_solver|].
    intros (n & d & Hd & ->). exists n. split; [apply (enumerates_elem _ _ _ E2); eauto|eauto].
Qed.

(** The addresses of a new server are those of its configuration. *)
Lemma New_addrs o1 o2 cfg target vars d : New o1 o2 cfg target vars = Ok d ->
  bind_addrs cfg (UsedAdapters cfg) ∅ = Ok (listenAddrs d).
Proof.
  unfold New. destruct (bind_addrs _ _ _) as [m|e| |]; [|done..]. cbn [mbind res_bind]. set (s := mkServer _ _ _ _ _ _ _ _).
  unfold SwitchAll, gets, modify, lift, fail, zoom, mbind, M_bind, mret, M_ret.
  destruct (plan_all _ _ _ _ _ _) as [[plans k]|e| |]; [|done..]. case_decide; [done|].
  destruct (commit_all plans o2 (s_store s)) as [rs st']. by intros [= <-].
Qed.
(** A server built from a validated configuration either comes up with every
    database following the requested target (inactive when it does not declare
    it), an address for exactly the adapters in use and no connections, or is
    not built because the initial switch is impossible; a missing listen port
    can no longer be the reason. *)
Theorem New_correct o1 o2 cfg target vars :
  config_valid cfg ->
  o1 ≡ₚ elements (dom (new_databases cfg)) -> o2 ≡ₚ elements (dom (new_databases cfg)) ->
  let fresh addrs := mkServer addrs 0 ∅ (mkStore (new_databases cfg) ∅ ∅) cfg [] vars false in
  (exists s, New o1 o2 cfg target vars = Ok s /\ server_ok s /\ CurrentTarget s = (target, vars) /\
     dom (listenAddrs s) = list_to_set (UsedAdapters cfg) /\
     s_databases s = next_db target (default ∅ vars) <$> new_databases cfg /\ s_closed s = false) \/
  (exists e, New o1 o2 cfg target vars = Err e /\ ~ switchable target (default ∅ vars) (fresh ∅)).
Proof.
  intros Hc E1 E2 fresh.
  destruct (bind_addrs_ok cfg (UsedAdapters cfg) ∅ (used_adapters_have_ports cfg Hc)) as (m & Em & Hm).
  unfold New. rewrite Em. cbn [mbind res_bind].
  change (mkServer m 0 ∅ _ cfg [] (cloneVars vars) false) with (fresh m).
  destruct (SwitchAll_cases o1 o2 target vars (fresh m) (new_databases_wf cfg) E1 E2)
    as [(Hs & st' & E & W' & Hcm)|(Hs & e & E)]; rewrite E; [left|right; eauto].
  destruct (committed_all o2 target _ (fresh m) st' E2 Hcm) as [Hd _].
  eexists. split_and!; [done| |done| |exact Hd|done].
  - split; [done|]. by apply (switched_coherent target vars _ _ Hs).
  - cbn. rewrite Hm, dom_empty_L. set_solver.
Qed.

(** Shutting down closes the server for good: it is marked closed, every
    registered connection of every database is closed on both sides and
    deregistered, and a second shutdown changes nothing. *)
Theorem Shutdown_correct order s :
  store_wf (s_store s) -> enumerates order s -> s_closed s = false ->
  exists s', Shutdown order s = (Ok tt, s') /\ s_closed s' = true /\ store_wf (s_store s') /\
    (forall n d, s_databases s' !! n = Some d -> conns d = ∅) /\
    (forall c o n d, s_databases s !! n = Some d -> c ∈ conns d -> heap (s_store s) !! c = Some o ->
       heap (s_store s') !! c = Some (set_c_once o) /\ forall k, conn_sock o k -> k ∈ closed_socks (s_store s')) /\
    Shutdown order s' = (Ok tt, s').
Proof.
  intros W E Hcl. unfold Shutdown, gets, modify, mbind, M_bind. rewrite Hcl.
  destruct (drop_each_spec order (s_store s) W) as (H1 & H2 & H3).
  { intros n d Hd. apply (enumerates_elem _ _ _ E). unfold s_databases. eauto. }
  eexists. split_and!; try done.
Qed.

(** ** Concrete servers *)

Definition sample_orders : list bytes := elements (dom (new_databases sample_config)).
Definition sample_server : Server :=
  mkServer ∅ 0 ∅ (mkStore (new_databases sample_config) ∅ ∅) sample_config [] None false.

(** The README session: [use local], then [use staging] without and with its variable. *)
Example switch_local :
  match New sample_orders sample_orders sample_config (str "local") None with
  | Ok s => (rt_Database <$> current_of (str "appdb") (s_store s), rt_Database <$> current_of (str "analytics") (s_store s))
  | _ => (None, None)
  end = (Some (str "app_dev"), Some (str "analytics_dev")).
Proof. vm_compute. reflexivity. Qed.

Lemma sample_wf : store_wf (s_store sample_server).
Proof. apply new_databases_wf. Qed.

Lemma sample_switchable : switchable (str "local") ∅ sample_server.
Proof.
  destruct (SwitchAll_cases sample_orders sample_orders (str "local") None sample_server
    sample_wf (reflexivity _) (reflexivity _)) as [[H _]|[_ [e H]]]; [exact H|].
  apply (f_equal (fun x => is_ok x.1)) in H. vm_compute in H. done.
Qed.

Lemma SwitchAll_atomic_witness :
  (SwitchAll sample_orders sample_orders (str "staging") None sample_server).2 = sample_server /\
  ~ switchable (str "staging") ∅ sample_server.
Proof.
  pose proof (SwitchAll_atomic sample_orders sample_orders (str "staging") None sample_server
    sample_wf (reflexivity _) (reflexivity _)) as [H1 H2].
  split; [apply H2|apply H1]; vm_compute; reflexivity.
Defined.

Lemma SwitchAll_effect_witness :
  exists rs s', SwitchAll sample_orders sample_orders (str "local") None sample_server = (Ok rs, s') /\
    CurrentTarget s' = (str "local", None).
Proof.
  destruct (SwitchAll_effect sample_orders sample_orders (str "local") None sample_server
    sample_wf (reflexivity _) (reflexivity _) sample_switchable) as (rs & s' & E & _ & H & _).
  exists rs, s'. split; assumption.
Defined.

Lemma SwitchAll_any_order_witness :
  (SwitchAll sample_orders sample_orders (str "local") None sample_server).2 =
  (SwitchAll (rev sample_orders) (rev sample_orders) (str "local") None sample_server).2.
Proof.
  assert (Hr : enumerates (rev sample_orders) sample_server).
  { unfold enumerates. rewrite <- Permutation_rev. reflexivity. }
  destruct (SwitchAll_any_order (str "local") None sample_server sample_wf) as (s1 & H).
  destruct (H sample_orders sample_orders (reflexivity _) (reflexivity _)) as [[Hs ->]|[Hno _]]; [|destruct (Hno sample_switchable)].
  destruct (H (rev sample_orders) (rev sample_orders) Hr Hr) as [[_ ->]|[Hno _]]; [reflexivity|destruct (Hno Hs)].
Defined.

Lemma SwitchAll_report_witness :
  exists rs s', SwitchAll sample_orders sample_orders (str "local") None sample_server = (Ok rs, s') /\
    NoDup (map sr_VirtualName rs).
Proof.
  destruct (SwitchAll sample_orders sample_orders (str "local") None sample_server) as [r s'] eqn:E.
  pose proof (f_equal (fun x => is_ok x.1) E) as Hok.
  destruct r as [rs| | |]; [|exfalso; vm_compute in Hok; discriminate Hok..].
  exists rs, s'. split; [reflexivity|].
  exact (proj1 (SwitchAll_report sample_orders sample_orders (str "local") None sample_server rs s'
    sample_wf (reflexivity _) (reflexivity _) E)).
Defined.

Lemma New_correct_witness :
  exists s, New sample_orders sample_orders sample_config (str "local") None = Ok s /\ server_ok s.
Proof.
  destruct (New_correct sample_orders sample_orders sample_config (str "local") None
    sample_config_valid (reflexivity _) (reflexivity _)) as [(s & E & H & _)|(e & E & _)].
  - exists s. split; assumption.
  - exfalso. apply (f_equal is_ok) in E. vm_compute in E. discriminate E.
Defined.

Lemma Shutdown_correct_witness :
  exists s', Shutdown sample_orders sample_server = (Ok tt, s') /\ s_closed s' = true.
Proof.
  destruct (Shutdown_correct sample_orders sample_server sample_wf (reflexivity _) (eq_refl _)) as (s' & E & H & _).
  exists s'. split; assumption.
Defined.

(** ** Names that validate but can never be activated *)

(** A dollar sign that stands alone: the first one of the text, with neither another
    one nor a brace after it.  The identifier rule of [Validate] allows it. *)
Definition lone_dollar (s : bytes) : Prop := exists a b, s = a ++ "$"%byte :: b /\ "$"%byte ∉ a /\
  match b with c :: _ => c <> "$"%byte /\ c <> "{"%byte | [] => True end.
Lemma lone_dollar_no_template s : lone_dollar s -> ~ exists ts, Forall tok_ok ts /\ s = print ts.
Proof.
  intros (a & b & -> & Ha & Hb) (ts & Hts & E). revert a Ha E. induction Hts as [|t ts Ht _ IH]; intros a Ha E; [by destruct a|].
  rewrite print_cons in E. destruct a as [|x a].
  - destruct t as [c| |name]; cbn in E; injection E as E; [by subst|destruct b; [done|]; injection E as -> _; naive_solver..].
  - apply not_elem_of_cons in Ha as [Hx Ha]. destruct t as [c| |name]; cbn in E; injection E as -> E; [by apply (IH a)|done..].
Qed.
Lemma lone_dollar_next target vars d t : byName d !! target = Some t -> lone_dollar (t_Database t) -> next_target target vars d = None.
Proof.
  intros Ht Hd. unfold next_target, HasTarget. rewrite bool_decide_eq_true_2 by eauto.
  destruct (ResolveTarget_cases d target vars) as [[E _]|(t' & E & [(rt & _ & Hr & _)|(m & e & -> & _)])]; [congruence| |done].
  rewrite Ht in E. injection E as <-. destruct (Resolve_correct_aux (t_Database t) vars) as [(ts & Hts & Es & _)|[_ (e & Er)]].
  - exfalso. apply (lone_dollar_no_template _ Hd). eauto.
  - congruence.
Qed.
Lemma new_databases_lookup cfg c : NoDup (map d_VirtualName (Databases cfg)) -> c ∈ Databases cfg ->
  new_databases cfg !! d_VirtualName c = Some (NewDatabase c (ForwardTargets cfg)).
Proof.
  unfold new_databases. generalize (∅ : gmap bytes Database). induction (Databases cfg) as [|x l IH]; intros m Hnd Hc; [set_solver|].
  cbn [map fold_left] in *. apply NoDup_cons in Hnd as [Hni Hnd]. apply elem_of_cons in Hc as [->|Hc]; [|by apply IH]. clear IH.
  assert (<[d_VirtualName x := NewDatabase x (ForwardTargets cfg)]> m !! d_VirtualName x = Some (NewDatabase x (ForwardTargets cfg)))
    as Hm by apply lookup_insert_eq. revert Hm. generalize (<[d_VirtualName x := NewDatabase x (ForwardTargets cfg)]> m).
  induction l as [|y l IH]; intros m' Hm; [done|]. cbn [map fold_left] in *. apply not_elem_of_cons in Hni as [Hne Hni].
  apply NoDup_cons in Hnd as [_ Hnd]. apply IH; [done..|]. by rewrite lookup_insert_ne.
Qed.


(** The name [app$dev] in a configuration that is otherwise the README's. *)
Definition dollar_config : Config :=
  mkConfig [] {[str "postgres" := 6432]} (str "/tmp/dbpivot.sock") ∅
    [mkDatabase (str "postgres") (str "appdb") [sample_target (str "local") (str "127.0.0.1") (str "app$dev")]].

Lemma dollar_config_valid : config_valid dollar_config.
Proof.
  destruct (checks_Validate dollar_config [(str "postgres", 6432)] [] []
    ltac:(vm_compute; reflexivity) ltac:(vm_compute; reflexivity) true []) as [[H _]|[_ (e & w & H)]]; [done|].
  apply (f_equal (fun x => is_ok x.1)) in H. vm_compute in H. done.
Qed.

