(* ===== verification/Net.v ===== *)
(** The libraries the connection code calls and whose source is not part of
    the repository, as parameters: the network dialer, the TLS client and the
    SCRAM client of xdg-go/scram. *)
From S2P Require Import Prelude IO.

(** [net.DialTimeout("tcp", addr, dialTimeout)]. *)
Class Dialer := { DialTimeout : bytes -> error + conn }.

(** [tls.Client(conn, cfg)] with [cfg.ServerName] followed by [Handshake()]:
    an error, or the encrypted connection as its plaintext streams.  The
    program never asks for certificate verification. *)
Class TLS := { tls_Client_Handshake : bytes -> conn -> error + conn }.

(** Replace the connection by the encrypted one. *)
Definition tls_upgrade {T : TLS} (serverName : bytes) : M conn unit := fun c =>
  match tls_Client_Handshake serverName c with
  | inl e => (Err e, c)
  | inr tlsConn => (Ok tt, tlsConn)
  end.

(** [scram.SHA256.NewClient(user, password, "")] followed by
    [client.NewConversation()]; [conv.Step] and [conv.Valid].  A conversation
    carries its own random nonce. *)
Class Scram := {
  conversation : Type;
  NewConversation : bytes -> bytes -> error + conversation;
  Step : conversation -> bytes -> error + (bytes * conversation);
  Valid : conversation -> bool;
}.

Definition of_sum {A} (x : error + A) : res A := match x with inl e => Err e | inr a => Ok a end.

(** Replacing what the peer still sends. *)
Lemma same_out_set_rx c c' : same_out c c' -> c' = set_rx (rx c') c.
Proof. destruct c, c'. unfold same_out, set_rx. cbn. by intros (-> & -> & -> & ->). Qed.

Lemma set_rx_healthy b c : healthy c -> healthy (set_rx b c).
Proof. done. Qed.
#[export] Hint Resolve set_rx_healthy : core.

(** [crypto/rand.Read] of [n] bytes. *)
Class Rand := { rand_Read : nat -> error + bytes }.

(** [pem.Decode] (the block's bytes), [x509.ParsePKIXPublicKey], and
    [rsa.EncryptOAEP(sha1.New(), rand.Reader, pub, msg, nil)]. *)
Inductive pkix_key (K : Type) : Type := RSAKey (k : K) | OtherKey.
Arguments RSAKey {K} k.
Arguments OtherKey {K}.
Class RSA := {
  PublicKey : Type;
  pem_Decode : bytes -> option bytes;
  ParsePKIXPublicKey : bytes -> error + pkix_key PublicKey;
  EncryptOAEP : PublicKey -> bytes -> error + bytes;
}.

(** ** Logins *)

(** Outcome of a login: accepted with the transcript, or an error and no
    transcript accepts. *)
Definition auth_outcome (accepts : bytes -> bytes -> Prop) (m : M conn unit) (c : conn) : Prop :=
  (exists sent rest, accepts sent rest /\ m c = (Ok tt, set_tx (tx c ++ sent) (set_rx rest c))) \/
  ((exists e c', m c = (Err e, c')) /\ forall sent rest, ~ accepts sent rest).

(** A library call that either succeeds or fails. *)
Lemma with_err_of_sum {A} f (x : error + A) (c : conn) :
  (exists a, x = inr a /\ with_err f (lift (of_sum x)) c = (Ok a, c)) \/
  (exists e e', x = inl e /\ with_err f (lift (of_sum x)) c = (Err e', c)).
Proof. destruct x; [right|left]; eauto. Qed.

(** What a login with contract [accepts] guarantees. *)
Lemma auth_outcome_spec accepts m c : healthy c -> auth_outcome accepts m c ->
  let '(out, c') := m c in
  out <> Panic /\ out <> NoFuel /\
  (out = Ok tt <-> exists sent rest, accepts sent rest) /\
  (out = Ok tt -> exists sent rest, accepts sent rest /\ c' = mkconn rest (rend c) (tx c ++ sent) None false).
Proof.
  intros Hc [(sent & rest & Ha & ->)|[(e & c' & ->) Hno]].
  - split_and!; [done..| |].
    + split; [eauto|done].
    + intros _. exists sent, rest. split; [done|]. destruct Hc as [H1 H2]. unfold set_tx, set_rx. cbn. by rewrite H1, H2.
  - split_and!; [done..| |done]. split; [done|]. intros (sent & rest & Ha). by destruct (Hno sent rest).
Qed.

(** A SCRAM client that accepts one fixed exchange, for the witnesses. *)
Definition toy_scram : Scram := {|
  conversation := nat;
  NewConversation _ _ := inr 0%nat;
  Step k challenge :=
    match k with
    | 0 => inr (str "client-first", 1)
    | 1 => if decide (challenge = str "server-first") then inr (str "client-final", 2) else inl EOF
    | _ => if decide (challenge = str "server-final") then inr ([], 3) else inl EOF
    end%nat;
  Valid k := Nat.eqb k 3;
|}.
