(* ===== verification/Sha.v ===== *)
(** Go's [crypto/sha1] and [crypto/sha256] (FIPS 180-4), executable, on lists of
    bytes.  The MySQL scrambles are computed with them. *)
From S2P Require Import Prelude Binary.

Definition word (z : Z) : Z := z mod 2 ^ 32.
Definition rotl (n z : Z) : Z := word (Z.lor (Z.shiftl z n) (Z.shiftr z (32 - n))).
Definition rotr (n z : Z) : Z := rotl (32 - n) z.
Definition wnot (z : Z) : Z := 2 ^ 32 - 1 - z.

(** The message followed by 0x80, zeros and its bit length, in 64-byte blocks. *)
Definition pad (m : bytes) : bytes :=
  let n := length m in
  let zeros_ := Nat.modulo (119 - Nat.modulo n 64) 64 in
  m ++ [Byte.x80] ++ repeat Byte.x00 zeros_ ++ be_bytes 8 (8 * Z.of_nat n).

Fixpoint chunks (fuel n : nat) (b : bytes) : list bytes :=
  match fuel, b with
  | S fuel, _ :: _ => take n b :: chunks fuel n (drop n b)
  | _, _ => []
  end.
Definition blocks (m : bytes) : list bytes := chunks (length m) 64 m.
Definition words (b : bytes) : list Z := be_val <$> chunks (length b) 4 b.
Definition of_words (l : list Z) : bytes := concat (map (be_bytes 4) l).
Definition nth_word (l : list Z) (i : nat) : Z := default 0 (l !! i).

(** The message schedule, newest word first: [step] sees the words so far. *)
Fixpoint expand (step : list Z -> Z) (n : nat) (w : list Z) : list Z :=
  match n with O => w | S n => expand step n (step w :: w) end.

Module Sha1.
Definition init : list Z := [0x67452301; 0xEFCDAB89; 0x98BADCFE; 0x10325476; 0xC3D2E1F0].
Definition schedule (block : bytes) : list Z :=
  rev (expand (fun w => rotl 1 (Z.lxor (Z.lxor (nth_word w 2) (nth_word w 7)) (Z.lxor (nth_word w 13) (nth_word w 15))))
         64 (rev (words block))).
Definition fk (t : nat) (b c d : Z) : Z * Z :=
  if (t <? 20)%nat then (Z.lor (Z.land b c) (Z.land (wnot b) d), 0x5A827999)
  else if (t <? 40)%nat then (Z.lxor (Z.lxor b c) d, 0x6ED9EBA1)
  else if (t <? 60)%nat then (Z.lor (Z.lor (Z.land b c) (Z.land b d)) (Z.land c d), 0x8F1BBCDC)
  else (Z.lxor (Z.lxor b c) d, 0xCA62C1D6).
Fixpoint rounds (t : nat) (ws : list Z) (st : list Z) : list Z :=
  match ws, st with
  | w :: ws, [a; b; c; d; e] =>
      let '(f, k) := fk t b c d in
      rounds (S t) ws [word (rotl 5 a + f + e + k + w); a; rotl 30 b; c; d]
  | _, _ => st
  end.
Definition compress (h : list Z) (block : bytes) : list Z :=
  zip_with (fun x y => word (x + y)) h (rounds 0 (schedule block) h).
Definition Sum (m : bytes) : bytes := of_words (fold_left compress (blocks (pad m)) init).
End Sha1.

Module Sha256.
(** The constants are the first 32 bits of the fractional parts of the square
    and cube roots of the first primes. *)
Definition is_prime (n : nat) : bool := forallb (fun d => negb (Nat.eqb (Nat.modulo n d) 0)) (seq 2 (n - 2)).
Definition primes (k : nat) : list Z := Z.of_nat <$> take k (List.filter is_prime (seq 2 400)).
(** The integer cube root below [2 ^ bits]. *)
Fixpoint cbrt (bits : nat) (acc n : Z) : Z :=
  match bits with
  | O => acc
  | S bits => let x := acc + 2 ^ Z.of_nat bits in cbrt bits (if x * x * x <=? n then x else acc) n
  end.
Definition init : list Z := Eval vm_compute in ((fun p => word (Z.sqrt (p * 2 ^ 64))) <$> primes 8).
Definition K : list Z := Eval vm_compute in ((fun p => word (cbrt 40 0 (p * 2 ^ 96))) <$> primes 64).
Definition xor3 (a b c : Z) : Z := Z.lxor (Z.lxor a b) c.
Definition sigma0 (x : Z) : Z := xor3 (rotr 7 x) (rotr 18 x) (Z.shiftr x 3).
Definition sigma1 (x : Z) : Z := xor3 (rotr 17 x) (rotr 19 x) (Z.shiftr x 10).
Definition Sigma0 (x : Z) : Z := xor3 (rotr 2 x) (rotr 13 x) (rotr 22 x).
Definition Sigma1 (x : Z) : Z := xor3 (rotr 6 x) (rotr 11 x) (rotr 25 x).
Definition schedule (block : bytes) : list Z :=
  rev (expand (fun w => word (sigma1 (nth_word w 1) + nth_word w 6 + sigma0 (nth_word w 14) + nth_word w 15))
         48 (rev (words block))).
Fixpoint rounds (kws : list (Z * Z)) (st : list Z) : list Z :=
  match kws, st with
  | (k, w) :: kws, [a; b; c; d; e; f; g; h] =>
      let t1 := word (h + Sigma1 e + Z.lxor (Z.land e f) (Z.land (wnot e) g) + k + w) in
      let t2 := word (Sigma0 a + xor3 (Z.land a b) (Z.land a c) (Z.land b c)) in
      rounds kws [word (t1 + t2); a; b; c; word (d + t1); e; f; g]
  | _, _ => st
  end.
Definition compress (h : list Z) (block : bytes) : list Z :=
  zip_with (fun x y => word (x + y)) h (rounds (zip K (schedule block)) h).
Definition Sum256 (m : bytes) : bytes := of_words (fold_left compress (blocks (pad m)) init).
End Sha256.

(** ** Digest sizes *)

Lemma length_of_words l : length (of_words l) = (4 * length l)%nat.
Proof.
  unfold of_words. induction l as [|z l IH]; [done|]. cbn [map concat length].
  rewrite length_app, IH, length_be_bytes. lia.
Qed.

Lemma sha1_rounds_length ws t st : length st = 5%nat -> length (Sha1.rounds t ws st) = 5%nat.
Proof.
  revert t st. induction ws as [|w ws IH]; intros t st H; [done|].
  destruct st as [|a [|b [|c [|d [|e [|]]]]]]; try done. cbn [Sha1.rounds].
  destruct (Sha1.fk t b c d). by apply IH.
Qed.

Lemma sha256_rounds_length ws st : length st = 8%nat -> length (Sha256.rounds ws st) = 8%nat.
Proof.
  revert st. induction ws as [|[k w] ws IH]; intros st H; [done|].
  destruct st as [|a [|b [|c [|d [|e [|f [|g [|h [|]]]]]]]]]; try done. cbn [Sha256.rounds]. by apply IH.
Qed.

Lemma fold_compress_length (compress : list Z -> bytes -> list Z) k :
  (forall h b, length h = k -> length (compress h b) = k) ->
  forall bs h, length h = k -> length (fold_left compress bs h) = k.
Proof. intros Hc bs. induction bs as [|b bs IH]; intros h Hh; cbn; auto. Qed.

Lemma length_sha1 m : length (Sha1.Sum m) = 20%nat.
Proof.
  unfold Sha1.Sum. rewrite length_of_words, (fold_compress_length _ 5); [done| |done].
  intros h b Hh. unfold Sha1.compress. rewrite length_zip_with, sha1_rounds_length by done. lia.
Qed.

Lemma length_sha256 m : length (Sha256.Sum256 m) = 32%nat.
Proof.
  unfold Sha256.Sum256. rewrite length_of_words, (fold_compress_length _ 8); [done| |done].
  intros h b Hh. unfold Sha256.compress. rewrite length_zip_with, sha256_rounds_length by done. lia.
Qed.

(** ** Test vectors of FIPS 180 *)

Example sha1_abc : be_val (Sha1.Sum (str "abc")) = 0xa9993e364706816aba3e25717850c26c9cd0d89d.
Proof. vm_compute. reflexivity. Qed.
Example sha1_two_blocks :
  be_val (Sha1.Sum (str "abcdbcdecdefdefgefghfghighijhijkijkljklmklmnlmnomnopnopq")) = 0x84983e441c3bd26ebaae4aa1f95129e5e54670f1.
Proof. vm_compute. reflexivity. Qed.
Example sha256_abc : be_val (Sha256.Sum256 (str "abc"))
  = 0xba7816bf8f01cfea414140de5dae2223b00361a396177a9cb410ff61f20015ad.
Proof. vm_compute. reflexivity. Qed.
Example sha256_empty : be_val (Sha256.Sum256 [])
  = 0xe3b0c44298fc1c149afbf4c8996fb92427ae41e4649b934ca495991b7852b855.
Proof. vm_compute. reflexivity. Qed.
