(* ===== verification/Session.v ===== *)
(** One client connection as its handler sees it: the server, the client's
    stream, the upstream connection once it is dialed, and the identities under
    which the connection is registered.

    The adapters' handlers (server.go, mysqlserver.go, mongoserver.go) are
    computations on a [session]; what they share with the rest of the program
    is the server in it. *)
From S2P Require Import Prelude Fmt IO Net Config Database Server.

(** [ss_dialed] logs the addresses passed to [net.DialTimeout].  [ss_obj],
    [ss_client_sock] and [ss_up_sock] are the identities of the [Conn] object
    and of the two sockets. *)
Record session := mkSession {
  ss_srv : Server;
  ss_client : bufr;
  ss_up : option conn;
  ss_dialed : list bytes;
  ss_obj : nat;
  ss_client_sock : nat;
  ss_up_sock : nat;
}.
Definition set_srv (x : Server) (s : session) : session :=
  mkSession x (ss_client s) (ss_up s) (ss_dialed s) (ss_obj s) (ss_client_sock s) (ss_up_sock s).
Definition set_client (x : bufr) (s : session) : session :=
  mkSession (ss_srv s) x (ss_up s) (ss_dialed s) (ss_obj s) (ss_client_sock s) (ss_up_sock s).
Definition set_up (x : option conn) (s : session) : session :=
  mkSession (ss_srv s) (ss_client s) x (ss_dialed s) (ss_obj s) (ss_client_sock s) (ss_up_sock s).
Definition log_dial (a : bytes) (s : session) : session :=
  mkSession (ss_srv s) (ss_client s) (ss_up s) (ss_dialed s ++ [a]) (ss_obj s) (ss_client_sock s) (ss_up_sock s).

(** Reading through the client's buffered reader; using its connection
    directly; using the upstream connection (a nil one panics). *)
Definition on_br {A} (m : M bufr A) : M session A := zoom ss_client set_client m.
Definition client_conn (s : session) : conn := br_conn (ss_client s).
Definition set_client_conn (c : conn) (s : session) : session := set_client (set_br_conn c (ss_client s)) s.
Definition on_client {A} (m : M conn A) : M session A := zoom client_conn set_client_conn m.
Definition on_up {A} (m : M conn A) : M session A := fun s =>
  match ss_up s with
  | Some c => let '(r, c') := m c in (r, set_up (Some c') s)
  | None => (Panic, s)
  end.

(** [up, err := net.DialTimeout("tcp", addr, dialTimeout)]. *)
Definition dial `{Dialer} (addr : bytes) : M session unit := fun s =>
  match DialTimeout addr with
  | inl e => (Err e, log_dial addr s)
  | inr c => (Ok tt, set_up (Some c) (log_dial addr s))
  end.
(** [up.Close()]. *)
Definition close_up : M session unit := ignore (on_up Close).

(** [conn := &Conn{Client: client, Upstream: up, Resolved: rt}; database.Register(conn)]. *)
Definition register (n : bytes) (rt : ResolvedTarget) : M session unit :=
  modify (fun s => set_srv (set_store (register_new n (ss_obj s) (ss_client_sock s) (ss_up_sock s) rt
                                         (s_store (ss_srv s))) (ss_srv s)) s).

Definition set_connSeq (n : Z) (s : Server) : Server :=
  mkServer (listenAddrs s) n (listeners s) (s_store s) (s_cfg s) (currentTarget s) (currentVars s) (s_closed s).
(** [s.connSeq.Add(1)] on an [atomic.Uint32]. *)
Definition connSeq_Add1 : M session Z :=
  n ← gets (fun s => uint32 (connSeq (ss_srv s) + 1));
  modify (fun s => set_srv (set_connSeq n (ss_srv s)) s);;
  mret n.

Lemma on_client_eq {A} (m : M conn A) s r c :
  m (client_conn s) = (r, c) -> on_client m s = (r, set_client_conn c s).
Proof. apply zoom_eq. Qed.
Lemma on_br_eq {A} (m : M bufr A) s r b : m (ss_client s) = (r, b) -> on_br m s = (r, set_client b s).
Proof. apply zoom_eq. Qed.
Lemma on_up_eq {A} (m : M conn A) s u r c : ss_up s = Some u -> m u = (r, c) -> on_up m s = (r, set_up (Some c) s).
Proof. intros E1 E2. unfold on_up. by rewrite E1, E2. Qed.

(** ** What handlers leave behind *)

(** The network as the program may rely on it here: a dialed or encrypted
    connection accepts writes. *)
Record network_ok {D : Dialer} {T : TLS} : Prop := {
  dial_healthy : forall addr c, DialTimeout addr = inr c -> healthy c;
  tls_healthy : forall name c c', tls_Client_Handshake name c = inr c' -> healthy c';
}.

(** The session after the client was sent [b]. *)
Definition replied (b : bytes) (s : session) : session :=
  set_client_conn (set_tx (tx (client_conn s) ++ b) (client_conn s)) s.
Definition registered (name : bytes) (rt : ResolvedTarget) (s : session) : Server :=
  set_store (register_new name (ss_obj s) (ss_client_sock s) (ss_up_sock s) rt (s_store (ss_srv s))) (ss_srv s).

Lemma close_up_eq u s : ss_up s = Some u ->
  close_up s = (Ok tt, set_up (Some (mkconn (rx u) (rend u) (tx u) (wleft u) true)) s).
Proof. intros E. unfold close_up. erewrite ignore_ok; [done|]. by eapply on_up_eq. Qed.

(** A failed connection attempt: nothing is registered, the client was sent
    [reply] and no more, and no upstream connection stays open. *)
Definition refused_with (reply : bytes) (s s' : session) : Prop :=
  ss_srv s' = ss_srv s /\ br_buf (ss_client s') = br_buf (ss_client s) /\
  client_conn s' = set_tx (tx (client_conn s) ++ reply) (client_conn s) /\
  forall u, ss_up s' = Some u -> shut u = true.
