(* ===== verification/PgWire.v ===== *)
(** internal/proxy/pgwire.go: PostgreSQL frontend/backend framing.

    The decoders run on any [Reader]; the encoders write to a [conn].  The
    grammar a codec implements is given by the [kv_bytes] and [message]
    functions, and each decoder is shown to accept exactly that grammar. *)
From Stdlib Require Import Strings.Byte.
From S2P Require Import Prelude Binary Fmt IO Vars.

Definition SSLRequestCode : Z := 0x04D2162F.
Definition GSSENCRequestCode : Z := 0x04D21630.
Definition CancelRequestCode : Z := 0x04D2162E.
Definition ProtocolV3 : Z := 0x00030000.
Definition MaxStartupLen : Z := 64 * 1024.

Definition AuthOk : Z := 0.
Definition AuthCleartextPassword : Z := 3.
Definition AuthMD5Password : Z := 5.
Definition AuthSASL : Z := 10.
Definition AuthSASLContinue : Z := 11.
Definition AuthSASLFinal : Z := 12.

Record KV := mkKV { K : bytes; V : bytes }.
#[export] Instance KV_eq_dec : EqDecision KV.
Proof. solve_decision. Defined.

(** ** Startup parameters *)

(** [indexByte(b, from, c)]; [rest] is [b[i:]]. *)
Fixpoint indexByte_loop (rest : bytes) (i : Z) (c : byte) : Z :=
  match rest with
  | [] => -1
  | x :: rest => if decide (x = c) then i else indexByte_loop rest (i + 1) c
  end.
Definition indexByte (b : bytes) (from : Z) (c : byte) : Z :=
  indexByte_loop (drop (Z.to_nat from) b) from c.

Fixpoint ParseStartupBody_loop (fuel : nat) (b : bytes) (cursor : Z) (out : list KV) : res (list KV) :=
  if decide (cursor < len b - 1) then
    match fuel with
    | O => NoFuel
    | S fuel =>
        let keyEnd := indexByte b cursor Byte.x00 in
        if decide (keyEnd < 0)
        then Err (Errorf (str "startup body: unterminated key at %d") [FInt cursor]) else
        key ← slice b cursor keyEnd;
        if decide (key = [])
        then Err (Errorf (str "startup body: empty key at %d") [FInt cursor]) else
        let valStart := keyEnd + 1 in
        let valEnd := indexByte b valStart Byte.x00 in
        if decide (valEnd < 0)
        then Err (Errorf (str "startup body: unterminated value for key %q") [FStr key]) else
        val ← slice b valStart valEnd;
        ParseStartupBody_loop fuel b (valEnd + 1) (out ++ [mkKV key val])
    end
  else if decide (cursor <> len b - 1)
  then Err (Errorf (str "startup body: missing end-of-params NUL") []) else Ok out.
Definition ParseStartupBody (b : bytes) : res (list KV) :=
  let missing := Err (Errorf (str "startup body: missing trailing NUL") []) in
  if decide (len b = 0) then missing else
  last ← index b (len b - 1);
  if decide (last <> Byte.x00) then missing else ParseStartupBody_loop (length b) b 0 [].

Fixpoint LookupParam (p : list KV) (key : bytes) : bytes :=
  match p with
  | [] => []
  | kv :: p => if decide (K kv = key) then V kv else LookupParam p key
  end.
Fixpoint UpsertParam (p : list KV) (key value : bytes) : list KV :=
  match p with
  | [] => [mkKV key value]
  | kv :: p => if decide (K kv = key) then mkKV (K kv) value :: p else kv :: UpsertParam p key value
  end.

(** [EncodeStartup] fills a buffer of the computed size. *)
Fixpoint EncodeStartup_loop (params : list KV) (out : bytes) (pos : Z) : res (bytes * Z) :=
  match params with
  | [] => Ok (out, pos)
  | kv :: params =>
      out ← copy_at out pos (K kv);
      let pos := pos + len (K kv) in
      out ← set_at out pos Byte.x00;
      let pos := pos + 1 in
      out ← copy_at out pos (V kv);
      let pos := pos + len (V kv) in
      out ← set_at out pos Byte.x00;
      EncodeStartup_loop params out (pos + 1)
  end.
Definition bodyLen (params : list KV) : Z :=
  fold_left (fun n kv => n + (len (K kv) + 1 + len (V kv) + 1)) params 1.
Definition EncodeStartup (params : list KV) : res bytes :=
  let total := 4 + 4 + bodyLen params in
  let out := zeros total in
  out ← copy_at out 0 (BigEndian.PutUint32 (uint32 total));
  out ← copy_at out 4 (BigEndian.PutUint32 ProtocolV3);
  '(out, pos) ← EncodeStartup_loop params out 8;
  set_at out pos Byte.x00.

(** ** Typed messages *)

Definition ReadMessage {R} `{Reader R} : M R (byte * bytes) :=
  hdr ← ReadFull 5;
  typ ← lift (index hdr 0);
  length ← lift (b ← slice hdr 1 5; BigEndian.Uint32 b);
  if decide (length < 4) then fail (Errorf (str "message length %d < 4") [FInt length]) else
  let bodyLen := length - 4 in
  if decide (bodyLen < 0 \/ bodyLen > MaxStartupLen)
  then fail (Errorf (str "message body length %d out of range") [FInt bodyLen]) else
  body ← ReadFull (Z.to_nat bodyLen);
  mret (typ, body).

Definition WriteMessage (typ : byte) (body : bytes) : M conn unit :=
  Write (typ :: BigEndian.PutUint32 (uint32 (4 + len body)));; Write body.

Definition WriteAuthenticationOk : M conn unit := WriteMessage "R"%byte (BigEndian.PutUint32 AuthOk).

Definition WriteSASLInitialResponse (mechanism data : bytes) : M conn unit :=
  WriteMessage "p"%byte (mechanism ++ [Byte.x00] ++ BigEndian.PutUint32 (uint32 (len data)) ++ data).
Definition WriteSASLResponse (data : bytes) : M conn unit := WriteMessage "p"%byte data.

Definition ParseAuthenticationMessage (body : bytes) : res (Z * bytes) :=
  if decide (len body < 4)
  then Err (Errorf (str "authentication message too short: %d") [FInt (len body)]) else
  c ← (b ← slice body 0 4; BigEndian.Uint32 b);
  data ← slice_from body 4;
  mret (int32 c, data).

Definition error_body (severity sqlstate message : bytes) : bytes :=
  ["S"%byte] ++ severity ++ [Byte.x00] ++ ["V"%byte] ++ severity ++ [Byte.x00] ++
  ["C"%byte] ++ sqlstate ++ [Byte.x00] ++ ["M"%byte] ++ message ++ [Byte.x00] ++ [Byte.x00].
Definition WriteErrorResponse (severity sqlstate message : bytes) : M conn unit :=
  WriteMessage "E"%byte (error_body severity sqlstate message).

(** The inner loop of [ParseErrorResponse]: [for end < len(body) && body[end] != 0]. *)
Fixpoint scan_nul (rest : bytes) (end_ : Z) : Z :=
  match rest with
  | [] => end_
  | x :: rest => if decide (x = Byte.x00) then end_ else scan_nul rest (end_ + 1)
  end.
(** Its (severity, code, message) accumulators. *)
Definition error_fields : Type := bytes * bytes * bytes.
Definition take_field (ftype : byte) (val : bytes) (f : error_fields) : error_fields :=
  let '(severity, code, message) := f in
  if decide (ftype = "S"%byte \/ ftype = "V"%byte)
  then (if decide (severity = []) then (val, code, message) else f)
  else if decide (ftype = "C"%byte) then (severity, val, message)
  else if decide (ftype = "M"%byte) then (severity, code, val) else f.
Fixpoint ParseErrorResponse_loop (fuel : nat) (body : bytes) (start : Z) (f : error_fields) : res error_fields :=
  if decide (start < len body) then
    match fuel with
    | O => NoFuel
    | S fuel =>
        ftype ← index body start;
        if decide (ftype = Byte.x00) then Ok f else
        let end_ := scan_nul (drop (Z.to_nat (start + 1)) body) (start + 1) in
        val ← slice body (start + 1) end_;
        ParseErrorResponse_loop fuel body (end_ + 1) (take_field ftype val f)
    end
  else Ok f.
Definition error_text (f : error_fields) : bytes :=
  let '(severity, code, message) := f in
  let parts := message in
  let parts := if decide (severity <> []) then severity ++ str ": " ++ parts else parts in
  let parts := if decide (code <> []) then parts ++ str " (SQLSTATE " ++ code ++ str ")" else parts in
  if decide (parts = []) then str "unparseable ErrorResponse" else parts.
Definition ParseErrorResponse (body : bytes) : res bytes :=
  f ← ParseErrorResponse_loop (length body) body 0 ([], [], []);
  mret (error_text f).

Definition ReadUint32 {R} `{Reader R} : M R Z :=
  b ← ReadFull 4;
  lift (BigEndian.Uint32 b).

Arguments EncodeStartup : simpl never.
Arguments ParseStartupBody : simpl never.
Arguments error_body : simpl never.

(** ** The startup grammar *)

Definition kv_bytes (kv : KV) : bytes := K kv ++ [Byte.x00] ++ V kv ++ [Byte.x00].
Definition params_bytes (params : list KV) : bytes := concat (map kv_bytes params) ++ [Byte.x00].
(** A parameter the format can carry. *)
Definition kv_ok (kv : KV) : Prop := K kv <> [] /\ Byte.x00 ∉ K kv /\ Byte.x00 ∉ V kv.
Definition startup_message (params : list KV) : bytes :=
  be_bytes 4 (8 + len (params_bytes params)) ++ be_bytes 4 ProtocolV3 ++ params_bytes params.

Lemma bodyLen_eq params : bodyLen params = len (params_bytes params).
Proof.
  unfold bodyLen, params_bytes. rewrite len_app, len_cons, len_nil.
  assert (forall n, fold_left (fun n kv => n + (len (K kv) + 1 + len (V kv) + 1)) params n
                    = n + len (concat (map kv_bytes params))) as ->; [|lia].
  induction params as [|kv params IH]; intros n; cbn [fold_left map concat]; [rewrite len_nil; lia|].
  rewrite IH, len_app. unfold kv_bytes. rewrite !len_app, !len_cons, len_nil. lia.
Qed.

Lemma EncodeStartup_loop_fill params written k pos :
  pos = len written -> len (concat (map kv_bytes params)) <= k ->
  EncodeStartup_loop params (written ++ zeros k) pos
  = Ok ((written ++ concat (map kv_bytes params)) ++ zeros (k - len (concat (map kv_bytes params))),
        pos + len (concat (map kv_bytes params))).
Proof.
  revert written k pos. induction params as [|kv params IH]; intros written k pos -> Hk.
  { cbn. rewrite len_nil, app_nil_r, Z.add_0_r, Z.sub_0_r. done. }
  cbn [EncodeStartup_loop map concat] in *. rewrite len_app in Hk.
  assert (len (kv_bytes kv) = len (K kv) + 1 + len (V kv) + 1) as Hlen
    by (unfold kv_bytes; rewrite !len_app, !len_cons, len_nil; lia).
  pose proof (len_nonneg (K kv)). pose proof (len_nonneg (V kv)).
  pose proof (len_nonneg (concat (map kv_bytes params))).
  rewrite copy_at_fill by lia. cbn [mbind res_bind].
  rewrite set_at_fill by len_lia. cbn [mbind res_bind].
  rewrite copy_at_fill by len_lia. cbn [mbind res_bind].
  rewrite set_at_fill by len_lia. cbn [mbind res_bind].
  rewrite IH by len_lia.
  rewrite len_app, Hlen. f_equal. f_equal; [|len_lia]. f_equal; [|f_equal; lia].
  unfold kv_bytes. by rewrite <- !app_assoc.
Qed.

Lemma EncodeStartup_eq params : EncodeStartup params = Ok (startup_message params).
Proof.
  unfold EncodeStartup. rewrite bodyLen_eq. unfold startup_message, params_bytes.
  set (c := concat _). pose proof (len_nonneg c). rewrite len_app, len_cons, len_nil.
  rewrite <- (app_nil_l (zeros _)), copy_at_fill by (unfold BigEndian.PutUint32; len_lia).
  cbn [mbind res_bind]. unfold BigEndian.PutUint32. rewrite app_nil_l, len_be_bytes.
  rewrite copy_at_fill by len_lia. cbn [mbind res_bind].
  rewrite EncodeStartup_loop_fill; fold c; [|len_lia..].
  cbn [mbind res_bind]. rewrite set_at_fill by len_lia.
  replace (_ - 1) with 0 by len_lia.
  unfold zeros. cbn [Z.to_nat repeat]. rewrite app_nil_r, be_bytes_uint by done.
  rewrite !app_assoc. replace (4 + 4) with 8 by done. done.
Qed.

(** ** Decoding the startup parameters *)

Lemma indexByte_app pre rest c :
  indexByte (pre ++ rest) (len pre) c = match IndexByte rest c with Some e => len pre + Z.of_nat e | None => -1 end.
Proof.
  unfold indexByte, len. rewrite Nat2Z.id, drop_app_length. generalize (Z.of_nat (length pre)) as i.
  induction rest as [|x rest IH]; intros i; cbn; [done|].
  destruct (decide (x = c)); [f_equal; lia|]. rewrite IH. destruct (IndexByte rest c); cbn; [lia|done].
Qed.

(** One iteration, at the suffix [rest]. *)
Lemma ParseStartupBody_step fuel pre rest out : 1 < len rest ->
  ParseStartupBody_loop (S fuel) (pre ++ rest) (len pre) out =
  match IndexByte rest Byte.x00 with
  | None => Err (Errorf (str "startup body: unterminated key at %d") [FInt (len pre)])
  | Some e =>
      if decide (e = 0%nat) then Err (Errorf (str "startup body: empty key at %d") [FInt (len pre)]) else
      match IndexByte (drop (S e) rest) Byte.x00 with
      | None => Err (Errorf (str "startup body: unterminated value for key %q") [FStr (take e rest)])
      | Some e' =>
          let kv := mkKV (take e rest) (take e' (drop (S e) rest)) in
          ParseStartupBody_loop fuel ((pre ++ kv_bytes kv) ++ drop (S e') (drop (S e) rest))
            (len (pre ++ kv_bytes kv)) (out ++ [kv])
      end
  end.
Proof.
  intros Hlen. cbn [ParseStartupBody_loop]. rewrite len_app, decide_True by (pose proof (len_nonneg pre); lia).
  rewrite indexByte_app. pose proof (len_nonneg pre) as Hp.
  destruct (IndexByte rest Byte.x00) as [e|] eqn:E; [|by rewrite decide_True].
  rewrite decide_False by lia. apply IndexByte_Some in E as (Hs & Hn & Hl).
  set (k := take e rest) in *. set (r1 := drop (S e) rest) in *.
  clearbody k r1. subst rest e. rewrite (slice_mid pre k (Byte.x00 :: r1) (len pre)) by (unfold len; lia). cbn [mbind res_bind].
  destruct (decide (length k = 0%nat)) as [Hz|Hne]; [rewrite decide_True by (by apply nil_length_inv); done|].
  rewrite decide_False by (by intros ->).
  replace (pre ++ k ++ Byte.x00 :: r1) with ((pre ++ k ++ [Byte.x00]) ++ r1) by (by rewrite <- !app_assoc).
  replace (len pre + Z.of_nat (length k) + 1) with (len (pre ++ k ++ [Byte.x00]))
    by (rewrite !len_app, len_cons, len_nil; unfold len; lia).
  rewrite indexByte_app. set (pre1 := pre ++ k ++ [Byte.x00]). pose proof (len_nonneg pre1).
  destruct (IndexByte r1 Byte.x00) as [e'|] eqn:E'; [|by rewrite decide_True].
  rewrite decide_False by lia. apply IndexByte_Some in E' as (Hs' & Hn' & Hl').
  set (v := take e' r1) in *. set (r2 := drop (S e') r1) in *.
  clearbody v r2. subst r1 e'. rewrite (slice_mid pre1 v (Byte.x00 :: r2)) by (unfold len; lia). cbn [mbind res_bind].
  f_equal; unfold pre1, kv_bytes; cbn [K V].
  - by rewrite <- !app_assoc.
  - rewrite !len_app, !len_cons, len_nil. unfold len. lia.
Qed.

Lemma kv_bytes_split kv rest : Byte.x00 ∉ K kv -> Byte.x00 ∉ V kv ->
  let s := kv_bytes kv ++ rest in let e := length (K kv) in let e' := length (V kv) in
  IndexByte s Byte.x00 = Some e /\ take e s = K kv /\ IndexByte (drop (S e) s) Byte.x00 = Some e' /\
  take e' (drop (S e) s) = V kv /\ drop (S e') (drop (S e) s) = rest.
Proof.
  intros HK HV s e e'.
  assert (s = K kv ++ Byte.x00 :: V kv ++ Byte.x00 :: rest) as ->
    by (unfold s, kv_bytes; by rewrite <- !app_assoc).
  assert (drop (S e) (K kv ++ Byte.x00 :: V kv ++ Byte.x00 :: rest) = V kv ++ Byte.x00 :: rest) as ->.
  { rewrite drop_app_ge by (unfold e; lia). replace (S e - length (K kv))%nat with 1%nat by (unfold e; lia). done. }
  rewrite !IndexByte_app by done. unfold e, e'. rewrite !take_app_length. split_and!; [done..|].
  rewrite drop_app_ge by lia. replace (S (length (V kv)) - length (V kv))%nat with 1%nat by lia. done.
Qed.

Lemma ParseStartupBody_complete kvs fuel pre out :
  Forall kv_ok kvs -> (length kvs <= fuel)%nat ->
  ParseStartupBody_loop fuel (pre ++ params_bytes kvs) (len pre) out = Ok (out ++ kvs).
Proof.
  revert fuel pre out. induction kvs as [|kv kvs IH]; intros fuel pre out Hok Hf.
  { unfold params_bytes. cbn [map concat app]. destruct fuel; cbn [ParseStartupBody_loop];
      rewrite decide_False, decide_False, app_nil_r by len_lia; done. }
  apply Forall_cons in Hok as [(Hne & HK & HV) Hok]. destruct fuel as [|fuel]; [cbn in Hf; lia|].
  replace (params_bytes (kv :: kvs)) with (kv_bytes kv ++ params_bytes kvs)
    by (unfold params_bytes; cbn; by rewrite app_assoc).
  rewrite ParseStartupBody_step by (unfold kv_bytes, params_bytes; len_lia).
  destruct (kv_bytes_split kv (params_bytes kvs) HK HV) as (-> & -> & -> & -> & ->).
  rewrite decide_False by (intros ?%nil_length_inv; done).
  destruct kv as [k v]. rewrite IH; [by rewrite <- app_assoc|done|cbn in Hf; lia].
Qed.

(** Empty, or closed by a NUL. *)
Definition ends_nul (b : bytes) : Prop := b = [] \/ exists q, b = q ++ [Byte.x00].

Lemma ends_nul_suffix p q : ends_nul (p ++ q) -> ends_nul q.
Proof.
  intros [E|[q' E]]; [apply app_nil in E as [_ ->]; by left|].
  destruct q as [|x q _] using rev_ind; [by left|right]. exists q.
  rewrite app_assoc in E. apply app_inj_tail in E as [_ ->]. done.
Qed.

Lemma ParseStartupBody_sound fuel pre rest out :
  (length rest <= fuel)%nat -> ends_nul rest ->
  match ParseStartupBody_loop fuel (pre ++ rest) (len pre) out with
  | Ok r => exists kvs, r = out ++ kvs /\ Forall kv_ok kvs /\ rest = params_bytes kvs
  | Err _ => True
  | _ => False
  end.
Proof.
  revert pre rest out. induction fuel as [|fuel IH]; intros pre rest out Hf Hl.
  { destruct rest; [|cbn in Hf; lia]. cbn [ParseStartupBody_loop].
    rewrite decide_False, decide_True by len_lia. done. }
  destruct (decide (1 < len rest)) as [Hlen|Hlen].
  2: { cbn [ParseStartupBody_loop]. rewrite decide_False by len_lia. destruct rest as [|x [|y rest]].
       - by rewrite decide_True by len_lia.
       - rewrite decide_False by len_lia. exists []. rewrite app_nil_r. destruct Hl as [|[q Hq]]; [done|].
         apply (app_inj_tail [] q) in Hq as [_ ->]. by split_and!.
       - exfalso. len_lia. }
  rewrite ParseStartupBody_step by done.
  destruct (IndexByte rest Byte.x00) as [e|] eqn:E; [|done]. case_decide; [done|].
  destruct (IndexByte (drop (S e) rest) Byte.x00) as [e'|] eqn:E'; [|done].
  apply IndexByte_Some in E as (Hs & Hn & Hle). apply IndexByte_Some in E' as (Hs' & Hn' & Hle').
  set (kv := mkKV (take e rest) (take e' (drop (S e) rest))). set (r2 := drop (S e') (drop (S e) rest)) in *.
  assert (rest = kv_bytes kv ++ r2) as Hr.
  { rewrite Hs at 1. rewrite Hs' at 1. unfold kv_bytes, kv. cbn [K V]. by rewrite <- !app_assoc. }
  rewrite Hr in Hl, Hf. apply ends_nul_suffix in Hl. rewrite length_app in Hf.
  specialize (IH (pre ++ kv_bytes kv) r2 (out ++ [kv])).
  assert (0 < length (kv_bytes kv))%nat by (unfold kv_bytes; rewrite !length_app; cbn; lia).
  destruct (ParseStartupBody_loop fuel _ _ _) as [r|err| |]; try (apply IH; [lia|done]).
  destruct IH as (kvs & -> & Hok & Hr2); [lia|done|]. exists (kv :: kvs). split_and!.
  - by rewrite <- app_assoc.
  - apply Forall_cons. split; [|done]. unfold kv_ok, kv. cbn [K V]. split_and!; [|done..].
    intros En. rewrite En in Hle. cbn in Hle. congruence.
  - rewrite Hr, Hr2. unfold params_bytes. cbn. by rewrite app_assoc.
Qed.

Lemma length_params_bytes kvs : (length kvs < length (params_bytes kvs))%nat.
Proof.
  unfold params_bytes. rewrite length_app. cbn [length].
  induction kvs as [|kv kvs IH]; cbn [length map concat]; [lia|].
  rewrite length_app. unfold kv_bytes at 1. rewrite !length_app. cbn [length]. lia.
Qed.

Lemma params_bytes_inj kvs kvs' : Forall kv_ok kvs -> Forall kv_ok kvs' ->
  params_bytes kvs = params_bytes kvs' -> kvs = kvs'.
Proof.
  intros H1 H2 E. pose proof (length_params_bytes kvs). pose proof (length_params_bytes kvs').
  pose proof (ParseStartupBody_complete kvs (length (params_bytes kvs)) [] [] H1 ltac:(lia)) as E1.
  pose proof (ParseStartupBody_complete kvs' (length (params_bytes kvs)) [] [] H2) as E2.
  rewrite <- E in *. rewrite E1 in E2. by injection E2 as <-; [|lia].
Qed.

Lemma ParseStartupBody_cases b :
  match ParseStartupBody b with
  | Ok kvs => Forall kv_ok kvs /\ b = params_bytes kvs
  | Err _ => forall kvs, Forall kv_ok kvs -> b <> params_bytes kvs
  | _ => False
  end.
Proof.
  unfold ParseStartupBody. destruct b as [|x b _] using rev_ind.
  { rewrite decide_True by done. intros kvs _ E. pose proof (length_params_bytes kvs). rewrite <- E in *. cbn in *. lia. }
  rewrite decide_False by len_lia. rewrite index_app_r by len_lia. cbn [mbind res_bind].
  case_decide as Hx; [|subst x].
  { intros kvs _ E. apply app_inj_tail in E as [_ ->]. done. }
  pose proof (ParseStartupBody_sound (length (b ++ [Byte.x00])) [] (b ++ [Byte.x00]) []) as Hs.
  change (len []) with 0 in Hs. rewrite !app_nil_l in Hs.
  destruct (ParseStartupBody_loop _ _ _ _) as [r|e| |] eqn:E.
  - destruct Hs as (kvs & -> & Hok & Hb); [done|right; eauto|done].
  - intros kvs Hok Hb. rewrite Hb in E.
    pose proof (ParseStartupBody_complete kvs (length (params_bytes kvs)) [] [] Hok) as Hc.
    change (len []) with 0 in Hc. rewrite !app_nil_l in Hc.
    rewrite Hc in E; [done|]. pose proof (length_params_bytes kvs). lia.
  - apply Hs; [done|right; eauto].
  - apply Hs; [done|right; eauto].
Qed.

(** C36: the startup codec is exact. [ParseStartupBody] never panics and its
    loop always terminates; it accepts a body exactly when it is the encoding
    of a list of parameters with non-empty NUL-free keys and NUL-free values,
    and then returns that list in order; and [EncodeStartup], which computes
    its buffer size first and fills it by position, never writes out of range
    and produces the frame whose body is that encoding. *)
Theorem startup_codec b kvs :
  (ParseStartupBody b = Ok kvs <-> Forall kv_ok kvs /\ b = params_bytes kvs) /\
  ParseStartupBody b <> Panic /\ ParseStartupBody b <> NoFuel /\
  EncodeStartup kvs = Ok (be_bytes 4 (8 + len (params_bytes kvs)) ++ be_bytes 4 ProtocolV3 ++ params_bytes kvs).
Proof.
  pose proof (ParseStartupBody_cases b) as H. split_and!.
  - split; [by intros E; rewrite E in H|]. intros [Hok ->].
    pose proof (ParseStartupBody_complete kvs (length (params_bytes kvs)) [] [] Hok) as Hc.
    change (len []) with 0 in Hc. rewrite !app_nil_l in Hc.
    destruct (ParseStartupBody (params_bytes kvs)) as [r|e| |] eqn:E; [|exfalso; by eapply H|done..].
    unfold ParseStartupBody, params_bytes in E. rewrite decide_False, index_app_r in E by len_lia.
    cbn [mbind res_bind] in E. rewrite decide_False in E by naive_solver.
    fold (params_bytes kvs) in E. rewrite Hc in E; [done|]. pose proof (length_params_bytes kvs). lia.
  - intros E. by rewrite E in H.
  - intros E. by rewrite E in H.
  - apply EncodeStartup_eq.
Qed.

(** ** The message grammar *)

Definition message (typ : byte) (body : bytes) : bytes := typ :: be_bytes 4 (4 + len body) ++ body.

Lemma message_inj typ1 body1 r1 typ2 body2 r2 :
  4 + len body1 < 2 ^ 32 -> 4 + len body2 < 2 ^ 32 ->
  message typ1 body1 ++ r1 = message typ2 body2 ++ r2 -> typ1 = typ2 /\ body1 = body2 /\ r1 = r2.
Proof.
  intros H1 H2 E. unfold message in E. cbn [app] in E. apply cons_inv in E as [-> E]. rewrite <- !app_assoc in E.
  apply app_inj_1 in E as [El E]; [|by rewrite !length_be_bytes].
  apply (f_equal be_val) in El. rewrite !be_val_be_bytes, !Z.mod_small in El by (pose_len; cbn; lia).
  apply app_inj_1 in E as [-> ->]; [done|unfold len in *; lia].
Qed.

Lemma WriteMessage_healthy typ body c : healthy c ->
  WriteMessage typ body c = (Ok tt, set_tx (tx c ++ message typ body) c).
Proof.
  intros Hc. unfold WriteMessage. erewrite M_bind_ok by by apply Write_healthy.
  rewrite Write_healthy by auto. unfold set_tx, message, BigEndian.PutUint32. cbn [tx rx rend wleft shut].
  rewrite be_bytes_uint by done. by rewrite <- app_assoc.
Qed.

Section messages.
Context {R} `{ReaderLaws R}.

Lemma ReadMessage_cases (r : R) : shut (under r) = false ->
  exists out r', ReadMessage r = (out, r') /\ same_out (under r) (under r') /\
  match out with
  | Ok (typ, body) => pending r = message typ body ++ pending r' /\ len body <= MaxStartupLen
  | Err _ => forall typ body rest, len body <= MaxStartupLen -> pending r <> message typ body ++ rest
  | _ => False
  end.
Proof.
  intros Hs. unfold ReadMessage.
  destruct (ReadFull_cases 5 r Hs) as [(hdr & r1 & E1 & Hl & Hp & Ho)|(r1 & E1 & Hl & Hp & Ho)]; mrun E1.
  2: { eexists _, _. split_and!; [done..|]. intros typ body rest Hb E.
       rewrite E in Hl. unfold message in Hl. cbn [app length] in Hl. rewrite !length_app, length_be_bytes in Hl. lia. }
  destruct hdr as [|typ hdr]; [done|]. injection Hl as Hl.
  mlift (index_app_r [] typ hdr 0 eq_refl).
  assert (slice (typ :: hdr) 1 5 = Ok hdr) as Hsl
    by (rewrite <- (app_nil_r hdr) at 1; apply (slice_mid [typ] hdr []); [done|unfold len; rewrite Hl; done]).
  destruct (BigEndian_Uint32_ok hdr) as (z & Ez & Hz & rest & Hh); [unfold len; lia|].
  rewrite Hsl. cbn [mbind res_bind]. mlift Ez.
  apply (f_equal length) in Hh as Hlr. rewrite length_app, length_be_bytes in Hlr.
  assert (rest = []) as -> by (destruct rest; [done|cbn in Hlr; lia]). rewrite app_nil_r in Hh. subst hdr.
  assert (Hrej : forall typ' body rest, len body <= MaxStartupLen ->
            pending r = message typ' body ++ rest -> z = 4 + len body /\ typ = typ' /\ pending r1 = body ++ rest).
  { intros typ' body rest Hb E. rewrite Hp in E. unfold message in E. cbn [app] in E. apply cons_inv in E as [-> E].
    rewrite <- app_assoc in E. apply app_inj_1 in E as [Hval E]; [|by rewrite !length_be_bytes].
    apply (f_equal be_val) in Hval. unfold MaxStartupLen in Hb.
    rewrite !be_val_be_bytes, !Z.mod_small in Hval by (pose_len; cbn; lia). done. }
  case_decide; [eexists _, _; split_and!; [done..|]; intros ??? Hb E; apply Hrej in E as [-> _]; [len_lia|done]|].
  case_decide; [eexists _, _; split_and!; [done..|]; intros ??? Hb E; apply Hrej in E as [-> _]; [len_lia|done]|].
  destruct (ReadFull_cases (Z.to_nat (z - 4)) r1) as [(body & r2 & E2 & Hl2 & Hp2 & Ho2)|(r2 & E2 & Hl2 & Hp2 & Ho2)];
    [by eapply same_out_shut| |]; mrun E2; eexists _, _; (split_and!; [done|by etrans|]).
  - unfold MaxStartupLen, len in *. split; [|lia]. rewrite Hp, Hp2. unfold message. cbn [app].
    rewrite <- app_assoc. do 3 f_equal. unfold len. lia.
  - intros ??? Hb E. apply Hrej in E as (-> & _ & E); [|done]. rewrite E, length_app in Hl2. unfold len in Hl2. lia.
Qed.

Lemma ReadMessage_app (r : R) typ body rest : shut (under r) = false -> len body <= MaxStartupLen ->
  pending r = message typ body ++ rest ->
  exists r', ReadMessage r = (Ok (typ, body), r') /\ pending r' = rest /\ same_out (under r) (under r').
Proof.
  intros Hs Hb Hp. destruct (ReadMessage_cases r Hs) as (out & r' & E & Ho & Hout).
  destruct out as [[typ' body']|e| |]; [|by edestruct Hout|done..].
  destruct Hout as [Hp' Hb']. rewrite Hp in Hp'. unfold MaxStartupLen in *.
  apply message_inj in Hp' as (-> & -> & ->); [|lia..]. eauto.
Qed.
End messages.

(** Message framing is exact on every kind of reader. [ReadMessage] never
    panics; it returns a message exactly when the pending bytes start with the
    encoding of one whose body is at most [MaxStartupLen] bytes, consuming
    exactly those bytes and leaving the sending side untouched, and fails with
    an error otherwise; and [WriteMessage] on a connection that accepts writes
    transmits that encoding, so what one side writes the other reads back. *)
Theorem message_codec {R} `{ReaderLaws R} (r : R) (c : conn) typ body :
  shut (under r) = false -> healthy c ->
  WriteMessage typ body c = (Ok tt, set_tx (tx c ++ message typ body) c) /\
  exists out r', ReadMessage r = (out, r') /\ same_out (under r) (under r') /\
    out <> Panic /\ out <> NoFuel /\
    (out = Ok (typ, body) <->
       len body <= MaxStartupLen /\ exists rest, pending r = message typ body ++ rest) /\
    (out = Ok (typ, body) -> pending r = message typ body ++ pending r').
Proof.
  intros Hs Hc. split; [by apply WriteMessage_healthy|].
  destruct (ReadMessage_cases r Hs) as (out & r' & E & Ho & Hout). exists out, r'.
  split_and!; [done..| | | |]; try (by intros ->).
  - split.
    + intros ->. destruct Hout. eauto.
    + intros [Hb [rest Hp]]. destruct (ReadMessage_app r typ body rest Hs Hb Hp) as (r'' & E' & _). congruence.
  - intros ->. by destruct Hout.
Qed.

(** ** Error responses *)

Lemma scan_nul_eq rest i :
  scan_nul rest i = i + match IndexByte rest Byte.x00 with Some e => Z.of_nat e | None => len rest end.
Proof.
  revert i. induction rest as [|x rest IH]; intros i; cbn [scan_nul IndexByte]; [len_lia|].
  case_decide; [lia|]. rewrite IH. destruct (IndexByte rest Byte.x00); cbn; len_lia.
Qed.

(** One iteration of the field loop, at the suffix [ftype :: rest]. *)
Lemma ParseErrorResponse_step fuel pre ftype rest f : ftype <> Byte.x00 ->
  exists val rest', Byte.x00 ∉ val /\ (length rest' <= length rest)%nat /\
    (rest = val ++ Byte.x00 :: rest' \/ rest = val /\ rest' = []) /\
    ParseErrorResponse_loop (S fuel) (pre ++ ftype :: rest) (len pre) f =
    (if decide (rest = val /\ rest' = [])
     then Ok (take_field ftype val f)
     else ParseErrorResponse_loop fuel ((pre ++ ftype :: val ++ [Byte.x00]) ++ rest')
            (len (pre ++ ftype :: val ++ [Byte.x00])) (take_field ftype val f)).
Proof.
  intros Hf. cbn [ParseErrorResponse_loop]. rewrite decide_True by len_lia.
  rewrite index_app_r by done. cbn [mbind res_bind]. rewrite decide_False by done.
  replace (drop (Z.to_nat (len pre + 1)) (pre ++ ftype :: rest)) with rest.
  2: { unfold len. rewrite drop_app_ge by lia.
       replace (Z.to_nat (Z.of_nat (length pre) + 1) - length pre)%nat with 1%nat by lia. done. }
  rewrite scan_nul_eq. destruct (IndexByte rest Byte.x00) as [e|] eqn:E.
  - apply IndexByte_Some in E as (Hs & Hn & Hl). exists (take e rest), (drop (S e) rest).
    set (v := take e rest) in *. set (r := drop (S e) rest) in *. clearbody v r. subst rest e.
    split_and!; [done|rewrite length_app; cbn; lia|by left|].
    rewrite (decide_False (P := _ /\ _)) by (intros [Hv _]; apply (f_equal length) in Hv; rewrite length_app in Hv; cbn in Hv; lia).
    replace (pre ++ ftype :: v ++ Byte.x00 :: r) with ((pre ++ [ftype]) ++ v ++ Byte.x00 :: r) by (by rewrite <- app_assoc).
    rewrite (slice_mid (pre ++ [ftype]) v (Byte.x00 :: r)) by (unfold len in *; rewrite ?length_app; cbn; lia).
    cbn [mbind res_bind]. f_equal; [rewrite <- !app_assoc; cbn [app]; by rewrite <- app_assoc|].
    unfold len. rewrite !length_app. cbn [length]. rewrite length_app. cbn. lia.
  - apply IndexByte_None in E. exists rest, []. split_and!; [done|cbn; lia|by right|].
    rewrite (decide_True (P := _ /\ _)) by done.
    assert (slice (pre ++ ftype :: rest) (len pre + 1) (len pre + 1 + len rest) = Ok rest) as ->.
    { replace (pre ++ ftype :: rest) with ((pre ++ [ftype]) ++ rest ++ []) by (by rewrite app_nil_r, <- app_assoc).
      apply slice_mid; len_lia. }
    cbn [mbind res_bind]. destruct fuel; cbn [ParseErrorResponse_loop]; by rewrite decide_False by len_lia.
Qed.

(** No field value contains a NUL. *)
Definition fields_clean (f : error_fields) : Prop :=
  let '(severity, code, message) := f in Byte.x00 ∉ severity /\ Byte.x00 ∉ code /\ Byte.x00 ∉ message.

Lemma take_field_clean ftype val f : Byte.x00 ∉ val -> fields_clean f -> fields_clean (take_field ftype val f).
Proof.
  destruct f as [[s c] m]. unfold take_field, fields_clean. intros Hv (Hs & Hc & Hm).
  repeat case_decide; split_and!; done.
Qed.

Lemma ParseErrorResponse_loop_total fuel pre rest f : (length rest <= fuel)%nat -> fields_clean f ->
  exists f', ParseErrorResponse_loop fuel (pre ++ rest) (len pre) f = Ok f' /\ fields_clean f'.
Proof.
  revert pre rest f. induction fuel as [|fuel IH]; intros pre rest f Hf Hc; (destruct rest as [|ftype rest];
    [cbn [ParseErrorResponse_loop]; rewrite decide_False by len_lia; eauto|]); [cbn in Hf; lia|].
  destruct (decide (ftype = Byte.x00)) as [->|Hne].
  { cbn [ParseErrorResponse_loop]. rewrite decide_True by len_lia. rewrite index_app_r by done.
    cbn [mbind res_bind]. rewrite decide_True by done. eauto. }
  destruct (ParseErrorResponse_step fuel pre ftype rest f Hne) as (val & rest' & Hv & Hl & _ & ->).
  pose proof (take_field_clean ftype val f Hv Hc) as Hc'.
  case_decide; [eauto|]. apply IH; [cbn in Hf; lia|done].
Qed.

Lemma error_text_clean f : fields_clean f -> Byte.x00 ∉ error_text f.
Proof.
  destruct f as [[s c] m]. intros (Hs & Hc & Hm). unfold error_text.
  assert (forall t, Byte.x00 ∉ str t <-> bool_decide (Byte.x00 ∈ str t) = false) as Hd
    by (intros t; by rewrite bool_decide_eq_false).
  assert (Byte.x00 ∉ str ": " /\ Byte.x00 ∉ str " (SQLSTATE " /\ Byte.x00 ∉ str ")" /\
          Byte.x00 ∉ str "unparseable ErrorResponse") as (H1 & H2 & H3 & H4)
    by (rewrite !Hd; vm_compute; done).
  repeat case_decide; rewrite ?not_elem_of_app; tauto.
Qed.

Lemma ParseErrorResponse_clean body : exists s, ParseErrorResponse body = Ok s /\ Byte.x00 ∉ s.
Proof.
  unfold ParseErrorResponse.
  destruct (ParseErrorResponse_loop_total (length body) [] body ([], [], [])) as (f & E & Hf); [done|split_and!; set_solver|].
  cbn [app] in E. change (len []) with 0 in E. rewrite E. eexists. split; [done|]. by apply error_text_clean.
Qed.

(** A field followed by its terminator, then [rest]. *)
Lemma ParseErrorResponse_field fuel pre ftype val rest f : ftype <> Byte.x00 -> Byte.x00 ∉ val ->
  ParseErrorResponse_loop (S fuel) (pre ++ ftype :: val ++ Byte.x00 :: rest) (len pre) f =
  ParseErrorResponse_loop fuel ((pre ++ ftype :: val ++ [Byte.x00]) ++ rest)
    (len (pre ++ ftype :: val ++ [Byte.x00])) (take_field ftype val f).
Proof.
  intros Hf Hv.
  destruct (ParseErrorResponse_step fuel pre ftype (val ++ Byte.x00 :: rest) f Hf) as (v & r & Hv' & _ & Hcase & ->).
  destruct Hcase as [E|[<- ->]]; [|set_solver].
  assert (v = val /\ r = rest) as [-> ->].
  { apply (f_equal (fun s => IndexByte s Byte.x00)) in E as E'. rewrite !IndexByte_app in E' by done.
    injection E' as El. apply app_inj_1 in E as [-> [= ->]]; done. }
  rewrite decide_False; [done|]. intros [Ev _]. apply (f_equal length) in Ev. rewrite length_app in Ev. cbn in Ev. lia.
Qed.

(** What [WriteErrorResponse] sends, [ParseErrorResponse] reports: severity,
    message and SQLSTATE, for any NUL-free fields; and on any body whatsoever
    [ParseErrorResponse] terminates without panicking and returns a string
    free of NUL bytes (so it can be embedded in another error response). *)
Theorem error_response_roundtrip severity sqlstate msg body c :
  severity <> [] -> sqlstate <> [] ->
  Byte.x00 ∉ severity -> Byte.x00 ∉ sqlstate -> Byte.x00 ∉ msg -> healthy c ->
  (exists b, WriteErrorResponse severity sqlstate msg c = (Ok tt, set_tx (tx c ++ message "E"%byte b) c) /\
     ParseErrorResponse b = Ok (severity ++ str ": " ++ msg ++ str " (SQLSTATE " ++ sqlstate ++ str ")")) /\
  exists s, ParseErrorResponse body = Ok s /\ Byte.x00 ∉ s.
Proof.
  intros Hs Hq Hsn Hqn Hmn Hc. split; [|apply ParseErrorResponse_clean].
  exists (error_body severity sqlstate msg). split; [by apply WriteMessage_healthy|].
  unfold ParseErrorResponse.
  assert (5 <= length (error_body severity sqlstate msg))%nat as Hl
    by (unfold error_body; rewrite !length_app; cbn; lia).
  destruct (length (error_body severity sqlstate msg)) as [|[|[|[|[|n]]]]]; [lia..|]. clear Hl.
  change (error_body severity sqlstate msg) with ([] ++ "S"%byte :: severity ++ Byte.x00 :: "V"%byte :: severity ++
    Byte.x00 :: "C"%byte :: sqlstate ++ Byte.x00 :: "M"%byte :: msg ++ Byte.x00 :: [Byte.x00]).
  change 0 with (len (@nil byte)).
  rewrite !ParseErrorResponse_field by done.
  cbn [ParseErrorResponse_loop]. rewrite decide_True by len_lia. rewrite index_app_r by done.
  cbn [mbind res_bind mret res_ret]. rewrite decide_True by done. cbn [mbind res_bind mret res_ret].
  f_equal. destruct severity as [|s0 severity]; [done|]. destruct sqlstate as [|q0 sqlstate]; [done|].
  change (error_text _) with ((((s0 :: severity) ++ str ": " ++ msg) ++ str " (SQLSTATE " ++ (q0 :: sqlstate) ++ str ")")).
  by rewrite <- !app_assoc.
Qed.

(** ** Witnesses *)

Definition quiet_conn (b : bytes) : conn := mkconn b EOF [] None false.

Lemma message_codec_witness :
  (ReadMessage (quiet_conn (message "R"%byte (be_bytes 4 0) ++ str "Z"))).1 = Ok ("R"%byte, be_bytes 4 0).
Proof.
  destruct (message_codec (quiet_conn (message "R"%byte (be_bytes 4 0) ++ str "Z")) (quiet_conn []) "R"%byte (be_bytes 4 0))
    as (_ & out & r' & E & _ & _ & _ & [_ H] & _); [reflexivity|split; reflexivity|].
  rewrite E. apply H. split; [vm_compute; done|]. exists (str "Z"). reflexivity.
Defined.

Lemma error_response_roundtrip_witness : exists b,
  ParseErrorResponse b = Ok (str "FATAL: database not configured (SQLSTATE 3D000)").
Proof.
  destruct (error_response_roundtrip (str "FATAL") (str "3D000") (str "database not configured") [] (quiet_conn []))
    as [(b & _ & E) _]; [done|done|..|split; reflexivity|].
  1-3: apply (bool_decide_unpack _); vm_compute; exact I.
  exists b. exact E.
Defined.
