(* ===== verification/PgAuth.v ===== *)
(** internal/proxy/auth.go: TLS negotiation and SCRAM-SHA-256 login on the
    upstream connection of the PostgreSQL adapter.

    [auth_accepts] is the contract of the login: the transcripts on which it
    succeeds, and what it sends in each. *)
From Stdlib Require Import Strings.Byte.
From S2P Require Import Prelude Binary Fmt IO Net Vars PgWire.

(** server.go's [SendSSLRequest]. *)
Definition SendSSLRequest : M conn unit :=
  Write (BigEndian.PutUint32 8 ++ BigEndian.PutUint32 SSLRequestCode).

(** [hasMechanism]: [rest] is [data[i:]]. *)
Fixpoint hasMechanism_loop (data rest : bytes) (i start : Z) (name : bytes) : res bool :=
  match rest with
  | [] => Ok false
  | b :: rest =>
      if decide (b = Byte.x00) then
        s ← slice data start i;
        if decide (s = name) then Ok true else hasMechanism_loop data rest (i + 1) (i + 1) name
      else hasMechanism_loop data rest (i + 1) start name
  end.
Definition hasMechanism (data name : bytes) : res bool := hasMechanism_loop data data 0 0 name.

Section auth.
Context {TLS_ : TLS} {Scram_ : Scram}.

Definition NegotiateUpstreamTLS (serverName : bytes) : M conn unit :=
  with_err (wrap_err (str "send SSLRequest")) SendSSLRequest;;
  resp ← with_err (wrap_err (str "read SSLRequest response")) (ReadFull 1);
  r ← lift (index resp 0);
  if decide (r = "S"%byte) then with_err (wrap_err (str "upstream TLS handshake")) (tls_upgrade serverName)
  else if decide (r = "N"%byte)
  then fail (Errorf (str "upstream does not support SSL but sslmode=require") [])
  else fail (Errorf (str "unexpected SSLRequest response byte %q") [FByte r]).

(** The sequence the reads of [runSCRAM] share: a message of type 'R' with
    subcode [want]; the three error values are the call's own. *)
Definition read_auth (read_ctx : bytes) (bad_type : byte -> error) (bad_code : Z -> error) (want : Z) : M conn bytes :=
  '(typ, body) ← with_err (wrap_err read_ctx) ReadMessage;
  if decide (typ <> "R"%byte) then fail (bad_type typ) else
  '(code, data) ← lift (ParseAuthenticationMessage body);
  if decide (code <> want) then fail (bad_code code) else mret data.

Definition readSASLContinue : M conn bytes :=
  read_auth (str "read SASLContinue") (fun typ => Errorf (str "expected 'R' for SASLContinue, got %c") [FByte typ])
    (fun code => Errorf (str "expected AuthSASLContinue (11), got %d") [FInt code]) AuthSASLContinue.
Definition readSASLFinal : M conn bytes :=
  read_auth (str "read SASLFinal") (fun typ => Errorf (str "expected 'R' for SASLFinal, got %c") [FByte typ])
    (fun code => Errorf (str "expected AuthSASLFinal (12), got %d") [FInt code]) AuthSASLFinal.
(** The last read of [runSCRAM]. *)
Definition readAuthenticationOk : M conn bytes :=
  read_auth (str "read AuthenticationOk") (fun typ => Errorf (str "expected AuthenticationOk, got %c") [FByte typ])
    (fun code => Errorf (str "expected AuthenticationOk code 0, got %d") [FInt code]) AuthOk.

Definition mechanism : bytes := str "SCRAM-SHA-256".

Definition runSCRAM (user password data : bytes) : M conn unit :=
  has ← lift (hasMechanism data mechanism);
  if negb has then fail (Errorf (str "upstream did not advertise SCRAM-SHA-256") []) else
  conv ← with_err (wrap_err (str "scram client")) (lift (of_sum (NewConversation user password)));
  '(clientFirst, conv) ← with_err (wrap_err (str "scram client-first")) (lift (of_sum (Step conv [])));
  with_err (wrap_err (str "write SASLInitialResponse")) (WriteSASLInitialResponse mechanism clientFirst);;
  serverFirst ← readSASLContinue;
  '(clientFinal, conv) ← with_err (wrap_err (str "scram client-final")) (lift (of_sum (Step conv serverFirst)));
  with_err (wrap_err (str "write SASLResponse")) (WriteSASLResponse clientFinal);;
  serverFinal ← readSASLFinal;
  '(_, conv) ← with_err (wrap_err (str "scram verify")) (lift (of_sum (Step conv serverFinal)));
  if negb (Valid conv) then fail (Errorf (str "scram conversation did not complete successfully") []) else
  _ ← readAuthenticationOk;
  mret tt.

Definition AuthenticateUpstream (user password : bytes) : M conn unit :=
  '(typ, body) ← with_err (wrap_err (str "read auth message")) ReadMessage;
  if decide (typ <> "R"%byte) then
    if decide (typ = "E"%byte) then
      text ← lift (ParseErrorResponse body);
      fail (Errorf (str "upstream rejected connection: %s") [FStr text])
    else fail (Errorf (str "expected Authentication message (R), got %c") [FByte typ])
  else
  '(code, data) ← lift (ParseAuthenticationMessage body);
  if decide (code = AuthOk) then mret tt
  else if decide (code = AuthSASL) then runSCRAM user password data
  else if decide (code = AuthCleartextPassword \/ code = AuthMD5Password)
  then fail (Errorf (str "upstream requires legacy auth (code %d); v1 supports SCRAM-SHA-256 only") [FInt code])
  else fail (Errorf (str "unsupported upstream auth method (code %d)") [FInt code]).

(** ** The contract *)

(** [b] is an authentication message with subcode [code], then [rest]. *)
Definition auth_next (b : bytes) (code : Z) (data rest : bytes) : Prop :=
  b = message "R"%byte (be_bytes 4 code ++ data) ++ rest /\ 4 + len data <= MaxStartupLen.

(** A name of a NUL-separated list: it starts at the beginning or after a NUL
    and is closed by one. *)
Definition advertises (data name : bytes) : Prop :=
  Byte.x00 ∉ name /\ exists pre post, data = pre ++ name ++ Byte.x00 :: post /\ ends_nul pre.

(** A complete SCRAM exchange: what follows the mechanism list [mechs] on the
    wire, what is sent, and what is left unread. *)
Inductive scram_accepts (user password mechs : bytes) : bytes -> bytes -> bytes -> Prop :=
  | scram_exchange b serverFirst b2 serverFinal b3 data rest k0 clientFirst k1 clientFinal k2 out k3 :
      advertises mechs mechanism ->
      NewConversation user password = inr k0 -> Step k0 [] = inr (clientFirst, k1) ->
      auth_next b 11 serverFirst b2 -> Step k1 serverFirst = inr (clientFinal, k2) ->
      auth_next b2 12 serverFinal b3 -> Step k2 serverFinal = inr (out, k3) -> Valid k3 = true ->
      auth_next b3 0 data rest ->
      scram_accepts user password mechs b
        (message "p"%byte (mechanism ++ [Byte.x00] ++ be_bytes 4 (len clientFirst) ++ clientFirst) ++
         message "p"%byte clientFinal) rest.
Inductive auth_accepts (user password : bytes) : bytes -> bytes -> bytes -> Prop :=
  | accepts_ok b data rest :
      auth_next b 0 data rest -> auth_accepts user password b [] rest
  | accepts_scram b mechs b1 sent rest :
      auth_next b 10 mechs b1 -> scram_accepts user password mechs b1 sent rest ->
      auth_accepts user password b sent rest.

(** ** Proofs *)

Lemma first_nul_split (seg rest p q : bytes) : Byte.x00 ∉ seg ->
  seg ++ Byte.x00 :: rest = p ++ Byte.x00 :: q -> Byte.x00 ∉ p -> seg = p /\ rest = q.
Proof.
  intros Hs E Hp. apply (f_equal (fun s => IndexByte s Byte.x00)) in E as E'.
  rewrite !IndexByte_app in E' by done. injection E' as El. apply app_inj_1 in E as [-> [= ->]]; done.
Qed.

Lemma hasMechanism_loop_correct rest pre seg name : Byte.x00 ∉ name -> Byte.x00 ∉ seg ->
  exists b, hasMechanism_loop (pre ++ seg ++ rest) rest (len (pre ++ seg)) (len pre) name = Ok b /\
  (b = true <-> exists p q, seg ++ rest = p ++ name ++ Byte.x00 :: q /\ ends_nul p).
Proof.
  intros Hn. revert pre seg. induction rest as [|x rest IH]; intros pre seg Hseg; cbn [hasMechanism_loop].
  { exists false. split; [done|]. split; [done|]. intros (p & q & E & _). rewrite app_nil_r in E.
    rewrite E in Hseg. set_solver. }
  case_decide as Hx.
  - subst x. rewrite slice_mid by len_lia. cbn [mbind res_bind]. case_decide as Hsn.
    { exists true. split; [done|]. split; [|done]. intros _. exists [], rest. subst. split; [done|by left]. }
    destruct (IH (pre ++ seg ++ [Byte.x00]) []) as (b & E & Hb); [set_solver|].
    replace (pre ++ seg ++ Byte.x00 :: rest) with ((pre ++ seg ++ [Byte.x00]) ++ [] ++ rest) by (by rewrite <- !app_assoc).
    replace (len (pre ++ seg) + 1) with (len (pre ++ seg ++ [Byte.x00])) by len_lia.
    rewrite app_nil_r in E. exists b. split; [done|]. rewrite Hb. cbn [app]. split.
    + intros (p & q & -> & Hp). exists (seg ++ Byte.x00 :: p), q. split; [by rewrite <- app_assoc|].
      right. destruct Hp as [->|[p' ->]]; [by exists seg|]. exists (seg ++ Byte.x00 :: p'). by rewrite <- app_assoc.
    + intros (p & q & Ep & Hp). destruct (decide (Byte.x00 ∈ p)) as [Hin|Hin].
      * apply list_elem_of_split_l in Hin as (a & c & -> & Ha). rewrite <- app_assoc in Ep.
        apply first_nul_split in Ep as [-> ->]; [|done..]. exists c, q. split; [done|].
        apply (ends_nul_suffix (a ++ [Byte.x00])). by rewrite <- app_assoc.
      * destruct Hp as [->|[p' ->]]; [|set_solver]. apply first_nul_split in Ep as [-> _]; done.
  - destruct (IH pre (seg ++ [x])) as (b & E & Hb); [set_solver|]. exists b.
    rewrite <- !app_assoc in E, Hb. cbn [app] in E, Hb. split; [|done].
    replace (len (pre ++ seg) + 1) with (len (pre ++ seg ++ [x])) by len_lia. done.
Qed.

Lemma hasMechanism_correct data name : Byte.x00 ∉ name ->
  exists b, hasMechanism data name = Ok b /\ (b = true <-> advertises data name).
Proof.
  intros Hn. destruct (hasMechanism_loop_correct data [] [] name Hn) as (b & E & Hb); [set_solver|].
  exists b. split; [done|]. rewrite Hb. unfold advertises. naive_solver.
Qed.

Lemma auth_next_inj b c1 d1 r1 c2 d2 r2 : 0 <= c1 < 2 ^ 32 -> 0 <= c2 < 2 ^ 32 ->
  auth_next b c1 d1 r1 -> auth_next b c2 d2 r2 -> c1 = c2 /\ d1 = d2 /\ r1 = r2.
Proof.
  intros Hc1 Hc2 [-> H1] [E H2]. unfold MaxStartupLen in *.
  apply message_inj in E as (_ & E & ->); [|len_lia..].
  apply app_inj_1 in E as [E ->]; [|by rewrite !length_be_bytes].
  apply (f_equal be_val) in E. rewrite !be_val_be_bytes, !Z.mod_small in E; done.
Qed.

Lemma ParseAuthenticationMessage_cases body :
  (len body < 4 /\ exists e, ParseAuthenticationMessage body = Err e) \/
  (exists z data, 0 <= z < 2 ^ 32 /\ body = be_bytes 4 z ++ data /\
     ParseAuthenticationMessage body = Ok (int32 z, data)).
Proof.
  unfold ParseAuthenticationMessage. case_decide as Hl; [left; eauto|right].
  destruct (BigEndian_Uint32_ok body) as (z & _ & Hz & data & ->); [lia|]. exists z, data.
  split_and!; [lia..|done|]. rewrite (slice_mid [] (be_bytes 4 z) data) by (rewrite ?len_be_bytes; done).
  cbn [mbind res_bind]. rewrite <- (app_nil_r (be_bytes 4 z)) at 1. rewrite BigEndian_Uint32_be by done.
  cbn [mbind res_bind]. unfold slice_from.
  assert (slice (be_bytes 4 z ++ data) 4 (len (be_bytes 4 z ++ data)) = Ok data) as ->; [|done].
  rewrite <- (app_nil_r data) at 1. apply slice_mid; len_lia.
Qed.

Lemma int32_eq z n : 0 <= z < 2 ^ 32 -> 0 <= n < 2 ^ 31 -> int32 z = n <-> z = n.
Proof.
  intros Hz Hn. unfold sint. rewrite Z.mod_small by done. cbn [Z.sub]. 
  destruct (Z.ltb_spec z (2 ^ (32 - 1))); change (2 ^ (32 - 1)) with (2 ^ 31) in *; lia.
Qed.

(** The first authentication message of [c], or none. *)
Lemma ReadMessage_auth c : healthy c ->
  (exists z data rest, 0 <= z < 2 ^ 32 /\ auth_next (rx c) z data rest /\
     ReadMessage c = (Ok ("R"%byte, be_bytes 4 z ++ data), set_rx rest c)) \/
  ((forall z data rest, ~ auth_next (rx c) z data rest) /\
   ((exists e c', ReadMessage c = (Err e, c')) \/
    (exists typ body c', typ <> "R"%byte /\ ReadMessage c = (Ok (typ, body), c')) \/
    (exists body c', len body < 4 /\ ReadMessage c = (Ok ("R"%byte, body), c')))).
Proof.
  intros [Hs _]. destruct (ReadMessage_cases (R := conn) c) as (out & c' & E & Ho & Hout); [done|].
  destruct out as [[typ body]|e| |]; [|right|done..].
  2: { split; [|eauto]. intros z data rest [E' Hl]. eapply Hout; [|exact E']. len_lia. }
  destruct Hout as [Hp Hb]. cbn [pending conn_Reader under] in Hp, Ho.
  assert (Hinj : forall z data rest, auth_next (rx c) z data rest -> typ = "R"%byte /\ body = be_bytes 4 z ++ data).
  { intros z data rest [E' Hl]. rewrite E' in Hp. unfold MaxStartupLen in *.
    apply message_inj in Hp as (<- & <- & _); [done|len_lia..]. }
  destruct (decide (typ = "R"%byte)) as [->|Ht].
  2: { right. split; [|eauto 7]. by intros z data rest [? _]%Hinj. }
  destruct (ParseAuthenticationMessage_cases body) as [[Hl _]|(z & data & Hz & -> & _)].
  - right. split; [|eauto 7]. intros z data rest [_ ->]%Hinj. len_lia.
  - left. exists z, data, (rx c'). split_and!; [lia..| |].
    + split; [done|len_lia].
    + rewrite E. f_equal. by apply same_out_set_rx.
Qed.

Lemma read_auth_cases ctx bt bc want c : 0 <= want < 2 ^ 31 -> healthy c ->
  (exists data rest, auth_next (rx c) want data rest /\ read_auth ctx bt bc want c = (Ok data, set_rx rest c)) \/
  ((exists e c', read_auth ctx bt bc want c = (Err e, c')) /\ forall data rest, ~ auth_next (rx c) want data rest).
Proof.
  intros Hw Hc. unfold read_auth.
  destruct (ReadMessage_auth c Hc) as [(z & data & rest & Hz & Hn & E)|[Hno Hcase]].
  - mrun (with_err_ok (wrap_err ctx) _ _ _ _ E). rewrite decide_False by naive_solver.
    destruct (ParseAuthenticationMessage_cases (be_bytes 4 z ++ data)) as [[Hl _]|(z' & data' & Hz' & Ed & Ep)]; [len_lia|].
    apply app_inj_1 in Ed as [Ez <-]; [|by rewrite !length_be_bytes].
    apply (f_equal be_val) in Ez. rewrite !be_val_be_bytes, !Z.mod_small in Ez by done. subst z'.
    mlift Ep. case_decide as Hd.
    + right. split; [unfold fail; eauto|]. intros data' rest' Hn'. rewrite int32_eq in Hd by done.
      destruct (auth_next_inj (rx c) z data rest want data' rest') as (-> & _); [lia..|done|done|done].
    + left. apply int32_eq in Hd as ->; [|done..]. eauto.
  - right. split; [|done]. destruct Hcase as [(e & c' & E)|[(typ & body & c' & Ht & E)|(body & c' & Hl & E)]].
    + mrun (with_err_err (wrap_err ctx) _ _ _ _ E). eauto.
    + mrun (with_err_ok (wrap_err ctx) _ _ _ _ E). rewrite decide_True by done. unfold fail. eauto.
    + mrun (with_err_ok (wrap_err ctx) _ _ _ _ E). rewrite decide_False by naive_solver.
      destruct (ParseAuthenticationMessage_cases body) as [[_ [e Ep]]|(z' & data' & Hz' & -> & _)]; [|len_lia].
      mlift Ep. eauto.
Qed.

Lemma mechanism_no_nul : Byte.x00 ∉ mechanism.
Proof. apply (bool_decide_unpack _). vm_compute. exact I. Qed.

Ltac auth_reject :=
  right; split; [unfold fail; by eauto|]; intros ? ? Hacc; inversion Hacc; subst; simplify_eq; try congruence;
  repeat match goal with
  | H1 : auth_next ?b ?c1 ?d1 ?r1, H2 : auth_next ?b ?c2 ?d2 ?r2 |- _ =>
      destruct (auth_next_inj b c1 d1 r1 c2 d2 r2) as (? & ? & ?); [lia|lia|exact H1|exact H2|]; clear H1; simplify_eq
  end; try congruence;
  match goal with
  | N : forall d r, ~ auth_next ?b ?code d r, H : auth_next ?b ?code _ _ |- _ => by destruct (N _ _ H)
  | _ => naive_solver
  end.

Lemma runSCRAM_cases user password mechs c : healthy c ->
  auth_outcome (scram_accepts user password mechs (rx c)) (runSCRAM user password mechs) c.
Proof.
  intros Hc. unfold auth_outcome, runSCRAM.
  destruct (hasMechanism_correct mechs mechanism mechanism_no_nul) as (has & Eh & Hh).
  mlift Eh. destruct has; cbn [negb]; [|auth_reject].
  destruct (with_err_of_sum (wrap_err (str "scram client")) (NewConversation user password) c) as [(k0 & E0 & E)|(e & e' & E0 & E)];
    mrun E; [clear E|auth_reject].
  destruct (with_err_of_sum (wrap_err (str "scram client-first")) (Step k0 []) c) as [([cf k1] & E1 & E)|(e & e' & E1 & E)];
    mrun E; [clear E|auth_reject].
  mrun (with_err_ok (wrap_err (str "write SASLInitialResponse")) _ _ _ _ (WriteMessage_healthy "p"%byte
    (mechanism ++ [Byte.x00] ++ BigEndian.PutUint32 (uint32 (len cf)) ++ cf) c Hc)).
  unfold BigEndian.PutUint32. rewrite be_bytes_uint by done.
  set (c1 := set_tx _ c). assert (Hc1 : healthy c1) by (unfold c1; auto).
  destruct (read_auth_cases (str "read SASLContinue") (fun typ => Errorf (str "expected 'R' for SASLContinue, got %c") [FByte typ])
    (fun code => Errorf (str "expected AuthSASLContinue (11), got %d") [FInt code]) 11 c1 ltac:(lia) Hc1)
    as [(sf & b2 & N1 & E)|[(e & c' & E) N1]]; cbn [rx c1 set_tx] in N1; mrun E; [|auth_reject].
  destruct (with_err_of_sum (wrap_err (str "scram client-final")) (Step k1 sf) (set_rx b2 c1)) as [([cl k2] & E2 & E')|(e & e' & E2 & E')];
    mrun E'; [|auth_reject].
  mrun (with_err_ok (wrap_err (str "write SASLResponse")) _ _ _ _ (WriteMessage_healthy "p"%byte cl (set_rx b2 c1) ltac:(auto))).
  set (c2 := set_tx _ (set_rx b2 c1)). assert (Hc2 : healthy c2) by (unfold c2; auto).
  destruct (read_auth_cases (str "read SASLFinal") (fun typ => Errorf (str "expected 'R' for SASLFinal, got %c") [FByte typ])
    (fun code => Errorf (str "expected AuthSASLFinal (12), got %d") [FInt code]) 12 c2 ltac:(lia) Hc2)
    as [(sfin & b3 & N2 & E'')|[(e & c' & E'') N2]]; cbn [rx c2 set_tx set_rx] in N2; mrun E''; [|auth_reject].
  destruct (with_err_of_sum (wrap_err (str "scram verify")) (Step k2 sfin) (set_rx b3 c2)) as [([out k3] & E3 & E4)|(e & e' & E3 & E4)];
    mrun E4; [|auth_reject].
  destruct (Valid k3) eqn:EV; cbn [negb]; [|auth_reject].
  destruct (read_auth_cases (str "read AuthenticationOk") (fun typ => Errorf (str "expected AuthenticationOk, got %c") [FByte typ])
    (fun code => Errorf (str "expected AuthenticationOk code 0, got %d") [FInt code]) 0 (set_rx b3 c2) ltac:(lia) ltac:(auto))
    as [(data & rest & N3 & E5)|[(e & c' & E5) N3]]; cbn [rx set_rx] in N3; mrun E5; [|auth_reject].
  left. eexists _, rest. split; [by econstructor; [apply Hh|..]|].
  unfold mret, M_ret, c2, c1, set_tx, set_rx. cbn [tx rx rend wleft shut]. by rewrite <- app_assoc.
Qed.

Lemma AuthenticateUpstream_cases user password c : healthy c ->
  auth_outcome (auth_accepts user password (rx c)) (AuthenticateUpstream user password) c.
Proof.
  intros Hc. unfold auth_outcome, AuthenticateUpstream.
  destruct (ReadMessage_auth c Hc) as [(z & data & rest & Hz & Hn & E)|[Hno Hcase]].
  - mrun (with_err_ok (wrap_err (str "read auth message")) _ _ _ _ E). rewrite decide_False by naive_solver.
    destruct (ParseAuthenticationMessage_cases (be_bytes 4 z ++ data)) as [[Hl _]|(z' & data' & Hz' & Ed & Ep)]; [len_lia|].
    apply app_inj_1 in Ed as [Ez <-]; [|by rewrite !length_be_bytes].
    apply (f_equal be_val) in Ez. rewrite !be_val_be_bytes, !Z.mod_small in Ez by done. subst z'. mlift Ep.
    destruct (decide (int32 z = AuthOk)) as [H0|H0]; [apply int32_eq in H0 as ->; [|done..]|].
    { left. exists [], rest. split; [by eapply accepts_ok|]. rewrite app_nil_r. by destruct c. }
    destruct (decide (int32 z = AuthSASL)) as [H1|H1]; [apply int32_eq in H1 as ->; [|done..]|].
    { destruct (runSCRAM_cases user password data (set_rx rest c) ltac:(auto)) as [(sent & rest' & Ha & ->)|[(e & c' & ->) Hr]].
      - left. exists sent, rest'. split; [by eapply accepts_scram|done].
      - auth_reject. }
    unfold AuthOk, AuthSASL in H0, H1. rewrite int32_eq in H0, H1 by done.
    assert (Hno : forall sent r, ~ auth_accepts user password (rx c) sent r).
    { intros sent r Hacc. inversion Hacc; subst;
        match goal with Hx : auth_next _ ?k ?d ?r' |- _ =>
          destruct (auth_next_inj (rx c) z data rest k d r') as (? & _); [lia|lia|done|done|lia] end. }
    case_decide; right; (split; [unfold fail; eauto|done]).
  - right. split; [|by intros ? ? Hacc; inversion Hacc; subst; eapply Hno].
    destruct Hcase as [(e & c' & E)|[(typ & body & c' & Ht & E)|(body & c' & Hl & E)]].
    + mrun (with_err_err (wrap_err (str "read auth message")) _ _ _ _ E). eauto.
    + mrun (with_err_ok (wrap_err (str "read auth message")) _ _ _ _ E). rewrite decide_True by done.
      unfold fail. case_decide; [|eauto].
      destruct (ParseErrorResponse_clean body) as (s & Es & _). mlift Es. eauto.
    + mrun (with_err_ok (wrap_err (str "read auth message")) _ _ _ _ E). rewrite decide_False by naive_solver.
      destruct (ParseAuthenticationMessage_cases body) as [[_ [e Ep]]|(z' & data' & Hz' & -> & _)]; [|len_lia].
      mlift Ep. eauto.
Qed.

(** TLS negotiation succeeds exactly on an 'S' answer and a completed handshake. *)
Lemma NegotiateUpstreamTLS_cases serverName c : healthy c ->
  let asked := set_tx (tx c ++ be_bytes 4 8 ++ be_bytes 4 SSLRequestCode) c in
  (exists rest c', rx c = "S"%byte :: rest /\ tls_Client_Handshake serverName (set_rx rest asked) = inr c' /\
     NegotiateUpstreamTLS serverName c = (Ok tt, c')) \/
  ((exists e c', NegotiateUpstreamTLS serverName c = (Err e, c')) /\
   forall rest c', rx c = "S"%byte :: rest -> tls_Client_Handshake serverName (set_rx rest asked) <> inr c').
Proof.
  intros Hc asked. unfold NegotiateUpstreamTLS.
  mrun (with_err_ok (wrap_err (str "send SSLRequest")) _ _ _ _
    (Write_healthy (BigEndian.PutUint32 8 ++ BigEndian.PutUint32 SSLRequestCode) c Hc)).
  change (set_tx _ c) with asked. assert (Ha : shut (under asked) = false) by (by destruct Hc).
  destruct (ReadFull_cases 1 asked Ha) as [(b & c1 & E & Hl & Hp & Ho)|(c1 & E & Hl & _)].
  2: { mrun (with_err_err (wrap_err (str "read SSLRequest response")) _ _ _ _ E). right. split; [eauto|].
       intros rest c' Hr. cbn in Hl. rewrite Hr in Hl. cbn in Hl. lia. }
  mrun (with_err_ok (wrap_err (str "read SSLRequest response")) _ _ _ _ E).
  destruct b as [|r [|]]; [done| |done]. mlift (index_app_r [] r [] 0 eq_refl).
  cbn [pending conn_Reader under id] in Hp, Ho. change (rx asked) with (rx c) in Hp. cbn [app] in Hp.
  apply same_out_set_rx in Ho. repeat case_decide; try subst r.
  - unfold with_err, tls_upgrade. rewrite Ho. destruct (tls_Client_Handshake serverName (set_rx (rx c1) asked)) eqn:Et.
    + right. split; [cbn; eauto|]. intros rest c' Hr. rewrite Hp in Hr. injection Hr as <-. congruence.
    + left. exists (rx c1). eauto.
  - right. split; [unfold fail; eauto|]. intros rest c'. by rewrite Hp.
  - right. split; [unfold fail; eauto|]. intros rest c'. rewrite Hp. intros Hr. congruence.
Qed.

(** C19: the PostgreSQL upstream login succeeds exactly on the transcripts of
    the protocol. On a connection that accepts writes, whatever the upstream
    sends and however the SCRAM client behaves, [AuthenticateUpstream] never
    panics; it returns success if and only if the upstream's bytes are either an
    immediate AuthenticationOk, or a mechanism list with SCRAM-SHA-256 in it
    followed by a SCRAM exchange whose every step the SCRAM client accepts,
    ending in a validated conversation and an AuthenticationOk; then it has
    sent exactly the two SCRAM messages and left everything after the
    AuthenticationOk unread. *)
Theorem AuthenticateUpstream_correct user password c : healthy c ->
  let '(out, c') := AuthenticateUpstream user password c in
  out <> Panic /\ out <> NoFuel /\
  (out = Ok tt <-> exists sent rest, auth_accepts user password (rx c) sent rest) /\
  (out = Ok tt -> exists sent rest, auth_accepts user password (rx c) sent rest /\
     c' = mkconn rest (rend c) (tx c ++ sent) None false).
Proof.
  intros Hc. apply auth_outcome_spec; [done|]. by apply AuthenticateUpstream_cases.
Qed.
End auth.

(** ** Witness *)

Definition toy_upstream : conn := mkconn
  (message "R"%byte (be_bytes 4 10 ++ mechanism ++ [Byte.x00; Byte.x00]) ++
   message "R"%byte (be_bytes 4 11 ++ str "server-first") ++
   message "R"%byte (be_bytes 4 12 ++ str "server-final") ++
   message "R"%byte (be_bytes 4 0) ++ str "Z") EOF [] None false.

Lemma AuthenticateUpstream_correct_witness :
  exists sent rest, @auth_accepts toy_scram (str "u") (str "p") (rx toy_upstream) sent rest.
Proof.
  pose proof (@AuthenticateUpstream_correct toy_scram (str "u") (str "p") toy_upstream (conj eq_refl eq_refl)) as H.
  destruct (@AuthenticateUpstream toy_scram (str "u") (str "p") toy_upstream) as [out c'] eqn:E.
  destruct H as (_ & _ & [H _] & _). apply H. apply (f_equal (fun x => is_ok x.1)) in E. cbn [fst] in E.
  destruct out as [[]|e| |]; [reflexivity|exfalso; revert E; vm_compute; discriminate..].
Defined.
