(* ===== verification/PgServer.v ===== *)
(** internal/proxy/server.go, the PostgreSQL side of a connection: the preamble
    loop [dispatch], the startup handler [handleStartup] up to the raw pipe, and
    the frame builders kept beside them. *)
From Stdlib Require Import Strings.Byte.
From S2P Require Import Prelude Binary Fmt IO Net Vars Config Database Server Session PgWire PgAuth.

(** The parameters of the upstream StartupMessage: the target's user, the
    target's database or else the client's, and the client's other parameters. *)
Definition upstream_params (params : list KV) (rt : ResolvedTarget) : list KV :=
  [mkKV (str "user") (rt_User rt)] ++
  (if decide (rt_Database rt <> []) then [mkKV (str "database") (rt_Database rt)]
   else let d := LookupParam params (str "database") in
        if decide (d <> []) then [mkKV (str "database") d] else []) ++
  filter (fun kv => ~ (K kv = str "user" \/ K kv = str "database")) params.

Definition EncodeStartupForTarget (clientParams : list KV) (rt : ResolvedTarget) : res bytes :=
  EncodeStartup (upstream_params clientParams rt).
Definition SendStartupMessage (params : list KV) : M conn unit :=
  frame ← lift (EncodeStartup params);
  Write frame.
Definition SendCancelRequest (pid secret : Z) : M conn unit :=
  Write (BigEndian.PutUint32 16 ++ BigEndian.PutUint32 CancelRequestCode ++
         BigEndian.PutUint32 pid ++ BigEndian.PutUint32 secret).

Section server.
Context {U : Unicode} {D : Dialer} {TLS_ : TLS} {Scram_ : Scram}.

Definition refuse (sqlstate msg : bytes) : M session unit :=
  ignore (on_client (WriteErrorResponse (str "FATAL") sqlstate msg)).

Definition routing_name (params : list KV) : bytes :=
  let dbname := LookupParam params (str "database") in
  if decide (dbname = []) then LookupParam params (str "user") else dbname.

(** Run a step of the login; when it fails, tell the client, close the
    upstream connection and return the error. *)
Definition or_refuse {A} (m : M session A) (sqlstate : bytes) (msg : error -> bytes) : M session A :=
  r ← try_ m;
  match r with
  | inr a => mret a
  | inl e => refuse sqlstate (msg e);; close_up;; fail e
  end.

(** [if n := br.Buffered(); n > 0 { ... }]. *)
Definition flush_buffered : M session unit :=
  buf ← gets (fun s => Peek_all (ss_client s));
  n ← gets (fun s => Buffered (ss_client s));
  if decide (n > 0) then
    r ← try_ (on_up (Write buf));
    match r with
    | inl e => close_up;; fail e
    | inr _ => modify (fun s => set_client (Discard_all (ss_client s)) s)
    end
  else mret tt.

(** From the dial to the registration; the result is [true] when the connection
    was registered and the raw pipe starts. *)
Definition connect_upstream (name : bytes) (rt : ResolvedTarget) (upStartup : bytes) : M session bool :=
  r ← try_ (dial (JoinHostPort (rt_Host rt) (rt_Port rt)));
  match r with
  | inl e => refuse (str "08006") (str "upstream dial failed: " ++ Error e);; fail e
  | inr _ =>
      (if decide (rt_SSLMode rt = SSLModeRequire)
       then or_refuse (on_up (NegotiateUpstreamTLS (rt_Host rt))) (str "08006")
              (fun e => str "upstream TLS failed: " ++ Error e)
       else mret tt);;
      or_refuse (on_up (Write upStartup)) (str "08006") (fun _ => str "upstream write failed");;
      or_refuse (on_up (AuthenticateUpstream (rt_User rt) (rt_Password rt))) (str "28P01")
        (fun e => str "upstream auth failed: " ++ Error e);;
      ok ← try_ (on_client WriteAuthenticationOk);
      match ok with
      | inl e => close_up;; fail (wrap_err (str "write AuthenticationOk to client") e)
      | inr _ =>
          flush_buffered;;
          register name rt;;
          mret true
      end
  end.

(** [handleStartup] once the parameters are parsed. *)
Definition serve_startup (params : list KV) : M session bool :=
  let dbname := routing_name params in
  s ← gets ss_srv;
  match lookupDatabase s AdapterPostgres dbname with
  | None => refuse (str "3D000") (Sprintf (str "database %q not configured") [RText dbname]);; mret false
  | Some name =>
      match current_of name (s_store s) with
      | None => refuse (str "57P03") (Sprintf (str "database %q has no active target") [RText dbname]);; mret false
      | Some rt =>
          upStartup ← lift (EncodeStartup (upstream_params params rt));
          connect_upstream name rt upStartup
      end
  end.
Definition handleStartup (msgLen : Z) : M session bool :=
  body ← with_err (wrap_err (str "read startup body")) (on_br (ReadFull (Z.to_nat (msgLen - 8))));
  params ← lift (ParseStartupBody body);
  serve_startup params.

(** [for attempt := 0; attempt < 2; attempt++]; [attempts] are left. *)
Fixpoint dispatch_loop (attempts : nat) : M session bool :=
  match attempts with
  | O => fail (Errorf (str "client did not send StartupMessage after preamble") [])
  | S attempts =>
      msgLen ← with_err (wrap_err (str "read length")) (on_br ReadUint32);
      if decide (msgLen < 8 \/ msgLen > MaxStartupLen)
      then fail (Errorf (str "startup length out of range: %d") [FInt msgLen]) else
      code ← with_err (wrap_err (str "read code")) (on_br ReadUint32);
      if decide (code = SSLRequestCode \/ code = GSSENCRequestCode) then
        with_err (wrap_err (str "write SSL/GSS rejection")) (on_client (Write [ "N"%byte ]));;
        dispatch_loop attempts
      else if decide (code = CancelRequestCode) then
        on_br (CopyN_discard (Z.to_nat (msgLen - 8)));; mret false
      else if decide (code = ProtocolV3) then handleStartup msgLen
      else fail (Errorf (str "unsupported pg protocol code 0x%08x") [FInt code])
  end.
Definition dispatch : M session bool := dispatch_loop 2.

(** ** The contract of a login *)

(** [login rt startup u up]: on the dialed connection [u] the upstream accepts
    the target's credentials after the startup frame, leaving [up]. *)
Inductive login (rt : ResolvedTarget) (startup : bytes) : conn -> conn -> Prop :=
  | login_plain u sent rest :
      rt_SSLMode rt <> SSLModeRequire ->
      auth_accepts (rt_User rt) (rt_Password rt) (rx u) sent rest ->
      login rt startup u (set_tx (tx u ++ startup ++ sent) (set_rx rest u))
  | login_tls u rest0 t sent rest :
      rt_SSLMode rt = SSLModeRequire -> rx u = "S"%byte :: rest0 ->
      tls_Client_Handshake (rt_Host rt) (set_rx rest0 (set_tx (tx u ++ be_bytes 4 8 ++ be_bytes 4 SSLRequestCode) u)) = inr t ->
      auth_accepts (rt_User rt) (rt_Password rt) (rx t) sent rest ->
      login rt startup u (set_tx (tx t ++ startup ++ sent) (set_rx rest t)).

Definition refusal (sqlstate msg : bytes) : bytes := message "E"%byte (error_body (str "FATAL") sqlstate msg).
(** The session once the raw pipe starts: the client was told
    AuthenticationOk, the bytes it had already sent are with the upstream. *)
Definition piping (name : bytes) (rt : ResolvedTarget) (up : conn) (s : session) : session :=
  mkSession (registered name rt s)
    (Bufr [] (br_chunks (ss_client s))
       (set_tx (tx (client_conn s) ++ message "R"%byte (be_bytes 4 0)) (client_conn s)))
    (Some (set_tx (tx up ++ br_buf (ss_client s)) up))
    (ss_dialed s ++ [JoinHostPort (rt_Host rt) (rt_Port rt)])
    (ss_obj s) (ss_client_sock s) (ss_up_sock s).

Lemma refuse_eq code msg s : healthy (client_conn s) -> refuse code msg s = (Ok tt, replied (refusal code msg) s).
Proof.
  intros Hc. unfold refuse. erewrite ignore_ok; [done|]. apply on_client_eq, WriteMessage_healthy, Hc.
Qed.

Lemma or_refuse_ok {A} (m : M session A) code msg s a s' :
  m s = (Ok a, s') -> or_refuse m code msg s = (Ok a, s').
Proof. intros E. unfold or_refuse. by mrun (try_ok _ _ _ _ E). Qed.

Lemma or_refuse_err {A} (m : M session A) code msg s e s' u :
  m s = (Err e, s') -> healthy (client_conn s') -> ss_up s' = Some u ->
  or_refuse m code msg s = (Err e, set_up (Some (mkconn (rx u) (rend u) (tx u) (wleft u) true))
                                     (replied (refusal code (msg e)) s')).
Proof.
  intros E Hc Hu. unfold or_refuse. mrun (try_err _ _ _ _ E). mrun (refuse_eq code (msg e) s' Hc).
  by mrun (close_up_eq u (replied (refusal code (msg e)) s') Hu).
Qed.

Lemma flush_buffered_eq s u : ss_up s = Some u -> healthy u ->
  flush_buffered s = (Ok tt, set_client (Discard_all (ss_client s)) (set_up (Some (set_tx (tx u ++ br_buf (ss_client s)) u)) s)).
Proof.
  intros Hu Hh. unfold flush_buffered. rewrite !M_bind_gets. unfold Buffered, Peek_all.
  destruct (br_buf (ss_client s)) as [|x b] eqn:Eb.
  - rewrite decide_False by (rewrite len_nil; lia). unfold mret, M_ret. f_equal. rewrite app_nil_r.
    destruct s as [srv [buf ch cn] up dl o1 o2 o3], u. cbn in *. by subst.
  - destruct (decide (len (x :: b) > 0)) as [_|Hd]; [|exfalso; rewrite len_cons in Hd; pose proof (len_nonneg b); lia].
    mrun (try_ok _ _ _ _ (on_up_eq (Write (x :: b)) s u _ _ Hu (Write_healthy (x :: b) u Hh))). done.
Qed.

(** What a failed connection attempt looks like: nothing is registered, the
    client got one FATAL response, and no upstream connection stays open. *)
Definition refused (s s' : session) : Prop :=
  ss_srv s' = ss_srv s /\ br_buf (ss_client s') = br_buf (ss_client s) /\
  (exists code msg, client_conn s' = set_tx (tx (client_conn s) ++ refusal code msg) (client_conn s)) /\
  forall u, ss_up s' = Some u -> shut u = true.

Lemma or_refuse_refused {A} (m : M session A) code msg s s0 e s' u :
  m s = (Err e, s') -> healthy (client_conn s) -> ss_up s' = Some u -> ss_srv s' = ss_srv s0 ->
  ss_client s' = ss_client s0 -> ss_client s = ss_client s0 ->
  exists s'', or_refuse m code msg s = (Err e, s'') /\ refused s0 s''.
Proof.
  intros E Hc Hu Hsrv Hcl Hcl0. eexists. split.
  - eapply or_refuse_err; [done| |done]. unfold client_conn in *. by rewrite Hcl, <- Hcl0.
  - unfold refused, replied, client_conn, set_client_conn. cbn. rewrite Hcl. split_and!; [done|done|eauto|naive_solver].
Qed.

(** After the upstream side is encrypted (or left plain) as the target asks. *)
Definition upgraded (rt : ResolvedTarget) (u t : conn) : Prop :=
  (rt_SSLMode rt <> SSLModeRequire /\ t = u) \/
  (rt_SSLMode rt = SSLModeRequire /\ exists rest0, rx u = "S"%byte :: rest0 /\
   tls_Client_Handshake (rt_Host rt) (set_rx rest0 (set_tx (tx u ++ be_bytes 4 8 ++ be_bytes 4 SSLRequestCode) u)) = inr t).

Lemma login_upgraded rt startup u up :
  login rt startup u up <-> exists t sent rest, upgraded rt u t /\
    auth_accepts (rt_User rt) (rt_Password rt) (rx t) sent rest /\ up = set_tx (tx t ++ startup ++ sent) (set_rx rest t).
Proof.
  unfold upgraded. split.
  - intros [u' sent rest Hn Ha|u' rest0 t sent rest Hr Hx Ht Ha].
    + exists u', sent, rest. tauto.
    + exists t, sent, rest. split_and!; [right|done..]. split; [done|]. exists rest0. tauto.
  - intros (t & sent & rest & [[Hn ->]|(Hr & rest0 & Hx & Ht)] & Ha & ->).
    + by apply login_plain.
    + by eapply login_tls.
Qed.

Lemma upgraded_inj rt u t1 t2 : upgraded rt u t1 -> upgraded rt u t2 -> t1 = t2.
Proof. unfold upgraded. naive_solver congruence. Qed.

Definition upgrade (rt : ResolvedTarget) : M session unit :=
  if decide (rt_SSLMode rt = SSLModeRequire)
  then or_refuse (on_up (NegotiateUpstreamTLS (rt_Host rt))) (str "08006") (fun e => str "upstream TLS failed: " ++ Error e)
  else mret tt.

Lemma upgrade_cases rt s u : network_ok -> healthy (client_conn s) -> ss_up s = Some u -> healthy u ->
  (exists t, upgraded rt u t /\ healthy t /\ upgrade rt s = (Ok tt, set_up (Some t) s)) \/
  ((exists e s', upgrade rt s = (Err e, s') /\ refused s s') /\ forall t, ~ upgraded rt u t).
Proof.
  intros Hn Hc Hu Hh. unfold upgrade, upgraded. case_decide as Hd.
  2: { left. exists u. split_and!; [tauto|done..|]. unfold mret, M_ret. f_equal. destruct s. cbn in *. by subst. }
  destruct (NegotiateUpstreamTLS_cases (rt_Host rt) u Hh) as [(rest & t & Hx & Ht & E)|[(e & t & E) Hno]].
  - left. exists t. split_and!; [naive_solver|by eapply tls_healthy|].
    apply or_refuse_ok. by eapply on_up_eq.
  - right. split.
    + exists e. by eapply or_refuse_refused; [by eapply on_up_eq|..].
    + intros t' [[? _]|(_ & rest0 & Hx & Ht)]; [done|]. by eapply Hno.
Qed.

Lemma connect_upstream_cases name rt startup s :
  network_ok -> healthy (client_conn s) -> ss_up s = None ->
  (exists u up, DialTimeout (JoinHostPort (rt_Host rt) (rt_Port rt)) = inr u /\ login rt startup u up /\
     connect_upstream name rt startup s = (Ok true, piping name rt up s)) \/
  ((exists e s', connect_upstream name rt startup s = (Err e, s') /\ refused s s') /\
   forall u up, DialTimeout (JoinHostPort (rt_Host rt) (rt_Port rt)) = inr u -> ~ login rt startup u up).
Proof.
  intros Hn Hc Hu0. unfold connect_upstream. set (addr := JoinHostPort _ _).
  destruct (DialTimeout addr) as [e|u] eqn:Ed.
  { assert (dial addr s = (Err e, log_dial addr s)) as E by (unfold dial; by rewrite Ed).
    mrun (try_err _ _ _ _ E). erewrite M_bind_ok by (by apply refuse_eq). right. split; [|done].
    eexists e, _. split; [done|]. unfold refused. cbn. rewrite Hu0. split_and!; [done|done|eauto|done]. }
  assert (dial addr s = (Ok tt, set_up (Some u) (log_dial addr s))) as E by (unfold dial; by rewrite Ed).
  mrun (try_ok _ _ _ _ E). fold (upgrade rt). set (s1 := set_up (Some u) (log_dial addr s)).
  pose proof (dial_healthy Hn _ _ Ed) as Hu.
  destruct (upgrade_cases rt s1 u Hn Hc eq_refl Hu) as [(t & Hup & Ht & E1)|[(e & s' & E1 & Hr) Hno]].
  2: { mrun E1. right. split; [by exists e, s'|]. intros u0 up [= <-] (t & ? & ? & Ht & _)%login_upgraded. by eapply Hno. }
  mrun E1. set (s2 := set_up (Some t) s1).
  erewrite M_bind_ok by (apply or_refuse_ok; eapply on_up_eq; [reflexivity|by apply Write_healthy]). cbv beta.
  set (t1 := set_tx (tx t ++ startup) t). set (s3 := set_up (Some t1) s2).
  destruct (AuthenticateUpstream_cases (rt_User rt) (rt_Password rt) t1 ltac:(unfold t1; auto))
    as [(sent & rest & Ha & E2)|[(e & t2 & E2) Hno]].
  - erewrite M_bind_ok by (apply or_refuse_ok; by eapply on_up_eq). cbv beta.
    erewrite M_bind_ok by (by eapply try_ok, on_client_eq, WriteMessage_healthy). cbv beta iota.
    erewrite M_bind_ok by (by eapply flush_buffered_eq; [|unfold t1; auto]).
    left. exists u, (set_tx (tx t ++ startup ++ sent) (set_rx rest t)). split_and!; [done| |].
    + apply login_upgraded. exists t, sent, rest. done.
    + unfold piping, s3, s2, s1, t1. cbn. unfold set_tx, set_rx. cbn. by rewrite <- !app_assoc.
  - right. split.
    + destruct (or_refuse_refused (on_up (AuthenticateUpstream (rt_User rt) (rt_Password rt))) (str "28P01")
        (fun e => str "upstream auth failed: " ++ Error e) s3 s e (set_up (Some t2) s3) t2) as (s' & E3 & Hr);
        [by eapply on_up_eq|done..|]. mrun E3. by exists e, s'.
    + intros u0 up [= <-] (t' & sent & rest & Ht' & Ha & _)%login_upgraded.
      rewrite <- (upgraded_inj rt u t t' Hup Ht') in Ha. by eapply Hno.
Qed.

(** ** Routing a client *)

Inductive route := Unknown | Inactive (name : bytes) | Active (name : bytes) (rt : ResolvedTarget).
Definition route_of (srv : Server) (kvs : list KV) : route :=
  match lookupDatabase srv AdapterPostgres (routing_name kvs) with
  | None => Unknown
  | Some n => match current_of n (s_store srv) with None => Inactive n | Some rt => Active n rt end
  end.

(** What must come of a client that asked for [kvs], given the bytes [extra] it
    sent after its StartupMessage: [s] is the session when that message had been
    read, [out] and [s'] the handler's result. *)
Definition startup_outcome (kvs : list KV) (s : session) (out : res bool) (s' : session) : Prop :=
  match route_of (ss_srv s) kvs with
  | Unknown => out = Ok false /\
      s' = replied (refusal (str "3D000") (Sprintf (str "database %q not configured") [RText (routing_name kvs)])) s
  | Inactive n => out = Ok false /\
      s' = replied (refusal (str "57P03") (Sprintf (str "database %q has no active target") [RText (routing_name kvs)])) s
  | Active n rt =>
      let startup := startup_message (upstream_params kvs rt) in
      (exists u up, DialTimeout (JoinHostPort (rt_Host rt) (rt_Port rt)) = inr u /\ login rt startup u up /\
         out = Ok true /\ s' = piping n rt up s) \/
      ((exists e, out = Err e) /\ refused s s' /\
       forall u up, DialTimeout (JoinHostPort (rt_Host rt) (rt_Port rt)) = inr u -> ~ login rt startup u up)
  end.

Lemma serve_startup_cases kvs s : network_ok -> healthy (client_conn s) -> ss_up s = None ->
  exists out s', serve_startup kvs s = (out, s') /\ startup_outcome kvs s out s'.
Proof.
  intros Hn Hc Hu. unfold serve_startup. rewrite M_bind_gets. unfold startup_outcome, route_of.
  destruct (lookupDatabase (ss_srv s) AdapterPostgres (routing_name kvs)) as [n|].
  2: { erewrite M_bind_ok by (by apply refuse_eq). by eexists _, _. }
  destruct (current_of n (s_store (ss_srv s))) as [rt|].
  2: { erewrite M_bind_ok by (by apply refuse_eq). by eexists _, _. }
  mlift (EncodeStartup_eq (upstream_params kvs rt)).
  destruct (connect_upstream_cases n rt (startup_message (upstream_params kvs rt)) s Hn Hc Hu)
    as [(u & up & Hd & Hl & ->)|[(e & s' & -> & Hr) Hno]]; eexists _, _; (split; [done|]).
  - left. by exists u, up.
  - right. split_and!; [eauto|done..].
Qed.

(** The startup handler on any input. *)
Lemma handleStartup_cases msgLen s : network_ok -> healthy (client_conn s) -> ss_up s = None ->
  exists out s', handleStartup msgLen s = (out, s') /\
  ((exists kvs extra b, pending (ss_client s) = params_bytes kvs ++ extra /\ Forall kv_ok kvs /\
      Z.to_nat (msgLen - 8) = length (params_bytes kvs) /\
      pending b = extra /\ same_out (client_conn s) (br_conn b) /\
      startup_outcome kvs (set_client b s) out s') \/
   ((exists e, out = Err e) /\ ss_srv s' = ss_srv s /\ ss_up s' = None /\
    forall kvs extra, pending (ss_client s) = params_bytes kvs ++ extra -> Forall kv_ok kvs ->
      Z.to_nat (msgLen - 8) <> length (params_bytes kvs))).
Proof.
  intros Hn Hc Hu. unfold handleStartup.
  assert (shut (under (ss_client s)) = false) as Hs by apply Hc.
  destruct (ReadFull_cases (Z.to_nat (msgLen - 8)) (ss_client s) Hs) as [(body & b & E & Hl & Hp & Ho)|(b & E & Hl & Hp & Ho)].
  2: { mrun (with_err_err (wrap_err (str "read startup body")) _ _ _ _ (on_br_eq _ _ _ _ E)).
       eexists _, _. split; [done|]. right. split_and!; [eauto|done|done|].
       intros kvs extra Hk _ Hlen. rewrite Hk, length_app in Hl. lia. }
  mrun (with_err_ok (wrap_err (str "read startup body")) _ _ _ _ (on_br_eq _ _ _ _ E)).
  pose proof (ParseStartupBody_cases body) as Hcase.
  destruct (ParseStartupBody body) as [kvs|e| |] eqn:Ep; [|mlift (@eq_refl (res (list KV)) (Err e))|done..].
  2: { eexists _, _. split; [done|]. right. split_and!; [eauto|done|done|].
       intros kvs extra Hk Hok Hlen. rewrite Hp in Hk. apply app_inj_1 in Hk as [-> _]; [|lia]. by eapply Hcase. }
  destruct Hcase as [Hok ->]. mlift (@eq_refl (res (list KV)) (Ok kvs)).
  destruct (serve_startup_cases kvs (set_client b s) Hn) as (out & s' & -> & Hout); [by eapply healthy_same_out|done|].
  exists out, s'. split; [done|]. left. exists kvs, (pending b), b. done.
Qed.

(** ** The preamble *)

Lemma on_br_ReadUint32 s z rest : healthy (client_conn s) -> 0 <= z < 2 ^ 32 ->
  pending (ss_client s) = be_bytes 4 z ++ rest ->
  exists b, on_br ReadUint32 s = (Ok z, set_client b s) /\ pending b = rest /\ same_out (client_conn s) (br_conn b).
Proof.
  intros [Hs _] Hz Hp.
  destruct (ReadFull_app 4 (ss_client s) (be_bytes 4 z) rest) as (b & E & Hb & Ho); [done|by rewrite length_be_bytes|done|].
  exists b. split; [|done]. apply on_br_eq. unfold ReadUint32. mrun E. unfold lift.
  rewrite <- (app_nil_r (be_bytes 4 z)). by rewrite BigEndian_Uint32_be.
Qed.

(** [on_br ReadUint32] on any input. *)
Lemma on_br_ReadUint32_cases s : healthy (client_conn s) ->
  (exists z b, 0 <= z < 2 ^ 32 /\ on_br ReadUint32 s = (Ok z, set_client b s) /\ healthy (br_conn b) /\
     same_out (client_conn s) (br_conn b)) \/
  (exists e b, on_br ReadUint32 s = (Err e, set_client b s) /\ same_out (client_conn s) (br_conn b)).
Proof.
  intros Hc. destruct (ReadFull_cases 4 (ss_client s)) as [(x & b & E & Hl & Hp & Ho)|(b & E & Hl & Hp & Ho)]; [by apply Hc| |].
  - left. destruct (BigEndian_Uint32_ok x) as (z & Ez & Hz & _); [unfold len; lia|]. exists z, b.
    split_and!; [lia..| |by eapply healthy_same_out|done]. apply on_br_eq. unfold ReadUint32. mrun E.
    unfold lift. by rewrite Ez.
  - right. eexists _, b. split; [|done]. apply on_br_eq. unfold ReadUint32. by mrun E.
Qed.

(** An SSLRequest or GSSENCRequest. *)
Definition negotiation (code : Z) : bytes := be_bytes 4 8 ++ be_bytes 4 code.
Definition negotiates (code : Z) : Prop := code = SSLRequestCode \/ code = GSSENCRequestCode.

Lemma dispatch_header n s z code rest : healthy (client_conn s) -> 8 <= z <= MaxStartupLen -> 0 <= code < 2 ^ 32 ->
  pending (ss_client s) = be_bytes 4 z ++ be_bytes 4 code ++ rest ->
  exists b, pending b = rest /\ same_out (client_conn s) (br_conn b) /\ healthy (client_conn (set_client b s)) /\
  dispatch_loop (S n) s =
    (if decide (code = SSLRequestCode \/ code = GSSENCRequestCode) then
       with_err (wrap_err (str "write SSL/GSS rejection")) (on_client (Write [ "N"%byte ]));; dispatch_loop n
     else if decide (code = CancelRequestCode) then on_br (CopyN_discard (Z.to_nat (z - 8)));; mret false
     else if decide (code = ProtocolV3) then handleStartup z
     else fail (Errorf (str "unsupported pg protocol code 0x%08x") [FInt code])) (set_client b s).
Proof.
  intros Hc Hz Hcode Hp. cbn [dispatch_loop]. unfold MaxStartupLen in *.
  destruct (on_br_ReadUint32 s z (be_bytes 4 code ++ rest) Hc ltac:(lia) Hp) as (b1 & E1 & Hp1 & Ho1).
  mrun (with_err_ok (wrap_err (str "read length")) _ _ _ _ E1). rewrite decide_False by lia.
  destruct (on_br_ReadUint32 (set_client b1 s) code rest) as (b2 & E2 & Hp2 & Ho2); [by eapply healthy_same_out|done..|].
  mrun (with_err_ok (wrap_err (str "read code")) _ _ _ _ E2). exists b2.
  assert (same_out (client_conn s) (br_conn b2)) as Ho by (by etrans).
  split_and!; [done|done|by eapply healthy_same_out|done].
Qed.

Lemma dispatch_negotiation n s code rest : healthy (client_conn s) -> negotiates code ->
  pending (ss_client s) = negotiation code ++ rest ->
  exists b, pending b = rest /\ same_out (client_conn s) (br_conn b) /\
    dispatch_loop (S n) s = dispatch_loop n (replied [ "N"%byte ] (set_client b s)).
Proof.
  intros Hc Hn Hp. unfold negotiation in Hp. rewrite <- app_assoc in Hp.
  assert (0 <= code < 2 ^ 32) by (destruct Hn; subst code; vm_compute; split; congruence).
  destruct (dispatch_header n s 8 code rest Hc) as (b & Hb & Ho & Hh & ->); [vm_compute; split; congruence|done..|].
  exists b. split_and!; [done..|]. rewrite decide_True by done.
  erewrite M_bind_ok; [done|]. apply with_err_ok, on_client_eq, Write_healthy, Hh.
Qed.

Lemma dispatch_startup_message n s kvs extra : network_ok -> healthy (client_conn s) -> ss_up s = None ->
  Forall kv_ok kvs -> 8 + len (params_bytes kvs) <= MaxStartupLen ->
  pending (ss_client s) = startup_message kvs ++ extra ->
  exists b out s', pending b = extra /\ same_out (client_conn s) (br_conn b) /\
    dispatch_loop (S n) s = (out, s') /\ startup_outcome kvs (set_client b s) out s'.
Proof.
  intros Hn Hc Hu Hok Hl Hp. unfold startup_message in Hp. rewrite <- !app_assoc in Hp.
  destruct (dispatch_header n s (8 + len (params_bytes kvs)) ProtocolV3 (params_bytes kvs ++ extra) Hc)
    as (b & Hb & Ho & Hh & ->); [pose_len; lia|done|done|].
  rewrite decide_False by (intros [?|?]; done). rewrite decide_False, decide_True by done.
  destruct (handleStartup_cases (8 + len (params_bytes kvs)) (set_client b s) Hn Hh Hu)
    as (out & s' & -> & [(kvs' & extra' & b' & Hp' & Hok' & Hl' & Hb' & Ho' & Hout)|(_ & _ & _ & Hno)]).
  - cbn [ss_client set_client] in Hp'. rewrite Hb in Hp'.
    replace (Z.to_nat (8 + len (params_bytes kvs) - 8)) with (length (params_bytes kvs)) in Hl' by (unfold len; lia).
    apply app_inj_1 in Hp' as [Hk He]; [|done].
    apply (params_bytes_inj kvs kvs' Hok Hok') in Hk as <-.
    subst extra'. exists b', out, s'. rewrite Hb'. split_and!; [done|by etrans|done|done].
  - exfalso. eapply (Hno kvs extra Hb Hok). unfold len. lia.
Qed.

(** C17: a PostgreSQL client that opens with at most one SSL or GSS negotiation
    request and a well-formed StartupMessage, however the network fragments its
    bytes, gets exactly this: the request is answered 'N'; an unknown database
    or one without an active target is refused with its SQLSTATE, without any
    dial; otherwise the active target's address is dialed, and if the upstream
    accepts the target's credentials (over TLS when the target requires it) the
    client is told AuthenticationOk, the connection is registered, the upstream
    has received the rewritten startup frame and the login messages followed by
    the bytes [b1] the client had already sent, and the client's stream continues
    with [b2], where [b1 ++ b2] is all it sent after its StartupMessage: nothing
    is lost, duplicated or reordered; if the dial or the login fails the client
    gets one FATAL response, nothing is registered and the upstream connection
    is closed. *)
Theorem dispatch_correct pre kvs extra s :
  network_ok -> healthy (client_conn s) -> ss_up s = None ->
  Forall kv_ok kvs -> 8 + len (params_bytes kvs) <= MaxStartupLen ->
  pre = None \/ (exists code, pre = Some code /\ negotiates code) ->
  pending (ss_client s) = from_option negotiation [] pre ++ startup_message kvs ++ extra ->
  let N := if pre then [ "N"%byte ] else [] in
  exists out s', dispatch s = (out, s') /\
  match route_of (ss_srv s) kvs with
  | Unknown | Inactive _ =>
      out = Ok false /\ ss_srv s' = ss_srv s /\ ss_dialed s' = ss_dialed s /\ ss_up s' = None /\
      exists code msg, (code = str "3D000" \/ code = str "57P03") /\
        tx (client_conn s') = tx (client_conn s) ++ N ++ refusal code msg
  | Active n rt =>
      let startup := startup_message (upstream_params kvs rt) in
      let addr := JoinHostPort (rt_Host rt) (rt_Port rt) in
      (exists u up b1 b2, DialTimeout addr = inr u /\ login rt startup u up /\
         out = Ok true /\ ss_srv s' = registered n rt s /\ ss_dialed s' = ss_dialed s ++ [addr] /\
         tx (client_conn s') = tx (client_conn s) ++ N ++ message "R"%byte (be_bytes 4 0) /\
         ss_up s' = Some (set_tx (tx up ++ b1) up) /\ pending (ss_client s') = b2 /\ extra = b1 ++ b2) \/
      (exists e code msg, out = Err e /\ ss_srv s' = ss_srv s /\
         tx (client_conn s') = tx (client_conn s) ++ N ++ refusal code msg /\
         (forall u, ss_up s' = Some u -> shut u = true) /\
         forall u up, DialTimeout addr = inr u -> ~ login rt startup u up)
  end.
Proof.
  intros Hn Hc Hu Hok Hl Hpre Hp N.
  assert (exists b out s', dispatch s = (out, s') /\ pending b = extra /\ tx (br_conn b) = tx (client_conn s) ++ N /\
            startup_outcome kvs (set_client b s) out s') as (b & out & s' & E & Hb & Ht & Hout).
  { unfold dispatch, N. destruct Hpre as [->|(code & -> & Hcode)]; cbn [from_option] in Hp.
    - destruct (dispatch_startup_message 1 s kvs extra Hn Hc Hu Hok Hl Hp) as (b & out & s' & Hb & Ho & E & Hout).
      exists b, out, s'. rewrite app_nil_r. split_and!; [done..|apply Ho|done].
    - destruct (dispatch_negotiation 1 s code _ Hc Hcode Hp) as (b1 & Hb1 & Ho1 & ->).
      set (s1 := replied [ "N"%byte ] (set_client b1 s)).
      assert (healthy (client_conn s1)) as Hc1 by (by eapply (healthy_same_out _ (br_conn b1))).
      destruct (dispatch_startup_message 0 s1 kvs extra Hn Hc1 Hu Hok Hl Hb1) as (b & out & s' & Hb & Ho & E & Hout).
      exists b, out, s'. split_and!; [done..| |done]. destruct Ho as [-> _], Ho1 as [Ht1 _]. unfold s1. cbn. by rewrite <- Ht1. }
  exists out, s'. split; [done|]. revert Hout. unfold startup_outcome. cbn [ss_srv set_client].
  destruct (route_of (ss_srv s) kvs) as [|n|n rt].
  - intros [-> ->]. split_and!; [done..|]. eexists _, _. split; [by left|]. cbn. change (client_conn (set_client b s)) with (br_conn b). by rewrite Ht, <- app_assoc.
  - intros [-> ->]. split_and!; [done..|]. eexists _, _. split; [by right|]. cbn. change (client_conn (set_client b s)) with (br_conn b). by rewrite Ht, <- app_assoc.
  - intros Hout. cbv zeta in *.
    destruct Hout as [(u & up & Hd & Hlog & -> & ->)|((e & ->) & (H1 & H2 & (code & msg & H3) & H4) & Hno)].
    + left. exists u, up, (br_buf b), (rx (br_conn b)). split_and!; [done|done|done|done|done| |done|done|by rewrite <- Hb].
      cbn. change (client_conn (set_client b s)) with (br_conn b). by rewrite Ht, <- app_assoc.
    + right. exists e, code, msg. split_and!; [done|done| |done|done]. rewrite H3. cbn. change (client_conn (set_client b s)) with (br_conn b). by rewrite Ht, <- app_assoc.
Qed.

(** The preamble loop reads at most two messages, so a client that sends
    both a GSSENCRequest and an SSLRequest before its StartupMessage (as libpq
    does with both modes enabled) has each answered 'N' and is then dropped
    without its StartupMessage being read. *)
Theorem dispatch_two_negotiations c1 c2 s rest :
  healthy (client_conn s) -> negotiates c1 -> negotiates c2 ->
  pending (ss_client s) = negotiation c1 ++ negotiation c2 ++ rest ->
  exists s', dispatch s = (Err (Errorf (str "client did not send StartupMessage after preamble") []), s') /\
    tx (client_conn s') = tx (client_conn s) ++ str "NN" /\ pending (ss_client s') = rest /\ ss_srv s' = ss_srv s.
Proof.
  intros Hc H1 H2 Hp. unfold dispatch.
  destruct (dispatch_negotiation 1 s c1 _ Hc H1 Hp) as (b1 & Hb1 & Ho1 & ->).
  set (s1 := replied [ "N"%byte ] (set_client b1 s)).
  assert (healthy (client_conn s1)) as Hc1 by (by eapply (healthy_same_out _ (br_conn b1))).
  destruct (dispatch_negotiation 0 s1 c2 _ Hc1 H2 Hb1) as (b2 & Hb2 & Ho2 & ->).
  eexists. split; [reflexivity|]. destruct Ho2 as [Ht2 _], Ho1 as [Ht1 _]. split_and!; [|done..].
  change (tx (br_conn b2) ++ [ "N"%byte ] = tx (client_conn s) ++ str "NN"). rewrite Ht2.
  change ((tx (br_conn b1) ++ [ "N"%byte ]) ++ [ "N"%byte ] = tx (client_conn s) ++ str "NN"). by rewrite Ht1, <- app_assoc.
Qed.

(** The client is dropped: nothing registered, nothing left open. *)
Ltac dropped Hu := cbn; rewrite ?Hu; split_and!; [done..|left; done].

(** Every way [dispatch] can end. *)
Lemma dispatch_ends s :
  network_ok -> healthy (client_conn s) -> ss_up s = None ->
  let '(out, s') := dispatch s in
  out <> Panic /\ out <> NoFuel /\
  ((out <> Ok true /\ ss_srv s' = ss_srv s /\ forall u, ss_up s' = Some u -> shut u = true) \/
   (out = Ok true /\ exists kvs n rt u up,
      route_of (ss_srv s) kvs = Active n rt /\
      DialTimeout (JoinHostPort (rt_Host rt) (rt_Port rt)) = inr u /\
      login rt (startup_message (upstream_params kvs rt)) u up /\
      ss_srv s' = registered n rt s /\ ss_dialed s' = ss_dialed s ++ [JoinHostPort (rt_Host rt) (rt_Port rt)])).
Proof.
  intros Hn. unfold dispatch. generalize 2%nat as k. intros k. revert s.
  induction k as [|k IH]; intros s Hc Hu; cbn [dispatch_loop].
  { split_and!; [done..|left]. split_and!; [done..|]. rewrite Hu. done. }
  destruct (on_br_ReadUint32_cases s Hc) as [(z & b1 & Hz & E1 & Hc1 & Ho1)|(e & b1 & E1 & Ho1)].
  2: { mrun (with_err_err (wrap_err (str "read length")) _ _ _ _ E1). dropped Hu. }
  mrun (with_err_ok (wrap_err (str "read length")) _ _ _ _ E1).
  case_decide; [dropped Hu|].
  destruct (on_br_ReadUint32_cases (set_client b1 s) Hc1) as [(c & b2 & Hc' & E2 & Hc2 & Ho2)|(e & b2 & E2 & Ho2)].
  2: { mrun (with_err_err (wrap_err (str "read code")) _ _ _ _ E2). dropped Hu. }
  mrun (with_err_ok (wrap_err (str "read code")) _ _ _ _ E2). repeat case_decide.
  - erewrite M_bind_ok by (by eapply with_err_ok, on_client_eq, Write_healthy). cbv beta.
    specialize (IH (replied [ "N"%byte ] (set_client b2 s))). apply IH; [auto|done].
  - destruct (ReadFull_cases (Z.to_nat (z - 8)) b2) as [(x & b3 & E3 & _)|(b3 & E3 & _)]; [apply Hc2| |].
    + erewrite M_bind_ok; [|apply on_br_eq; unfold CopyN_discard; apply with_err_ok; by mrun E3].
      dropped Hu.
    + erewrite M_bind_err; [|apply on_br_eq; unfold CopyN_discard; apply with_err_err; by mrun E3].
      dropped Hu.
  - change (set_client b2 (set_client b1 s)) with (set_client b2 s).
    destruct (handleStartup_cases z (set_client b2 s) Hn Hc2 Hu) as (out & s' & -> & Hcase).
    destruct Hcase as [(kvs & extra & b & Hp & Hok & Hl & Hb & Ho & Hout)|((e & ->) & Hs & Hup & _)].
    2: { split_and!; [done..|]. left. rewrite Hup. done. }
    revert Hout. unfold startup_outcome. cbn [ss_srv set_client].
    destruct (route_of (ss_srv s) kvs) as [|n|n rt] eqn:Er.
    + intros [-> ->]. dropped Hu.
    + intros [-> ->]. dropped Hu.
    + intros [(u & up & Hd & Hlog & -> & ->)|((e & ->) & (R1 & R2 & R3 & R4) & Hno)]; (split_and!; [done..|]).
      * right. split; [done|]. by exists kvs, n, rt, u, up.
      * left. done.
  - dropped Hu.
Qed.

(** C18: safety on arbitrary input. Whatever bytes a client sends, [dispatch]
    terminates without a panic; it registers a connection only after the
    upstream of an active PostgreSQL target accepted that target's credentials,
    and then registers it under that database with that target; otherwise the
    server's state is unchanged and no upstream connection stays open. *)
Theorem dispatch_safe s :
  network_ok -> healthy (client_conn s) -> ss_up s = None ->
  let '(out, s') := dispatch s in
  out <> Panic /\ out <> NoFuel /\
  ((out <> Ok true /\ ss_srv s' = ss_srv s /\ forall u, ss_up s' = Some u -> shut u = true) \/
   (out = Ok true /\ exists kvs n rt u up,
      route_of (ss_srv s) kvs = Active n rt /\
      DialTimeout (JoinHostPort (rt_Host rt) (rt_Port rt)) = inr u /\
      login rt (startup_message (upstream_params kvs rt)) u up /\
      ss_srv s' = registered n rt s /\ ss_dialed s' = ss_dialed s ++ [JoinHostPort (rt_Host rt) (rt_Port rt)])).
Proof. apply dispatch_ends. Qed.
End server.

(** ** Witnesses: one database on one target, an upstream that accepts *)

Definition toy_rt : ResolvedTarget :=
  mkResolvedTarget (str "local") (str "127.0.0.1") 5432 (str "app") (str "secret") (str "app_dev") (str "disable") [].
Definition toy_server (adapter_ : bytes) : Server :=
  mkServer ∅ 0 ∅
    (mkStore {[str "appdb" := mkDb (str "appdb") adapter_ [] ∅ ∅ (Some toy_rt) ∅]} ∅ ∅)
    sample_config (str "local") None false.
Definition toy_session (adapter_ : bytes) (chunks : list nat) (sent : bytes) : session :=
  mkSession (toy_server adapter_) (NewReader (quiet_conn sent) chunks) None [] 0 1 2.
Definition toy_dialer (c : conn) : Dialer := Build_Dialer (fun _ => inr c).
Definition toy_tls (c : conn) : TLS := Build_TLS (fun _ _ => inr c).
Definition toy_unicode : Unicode := Build_Unicode (fun _ => true).

Lemma toy_network c : healthy c -> @network_ok (toy_dialer c) (toy_tls c).
Proof. intros Hc. split; cbn; congruence. Qed.

Definition toy_params : list KV := [mkKV (str "user") (str "me"); mkKV (str "database") (str "appdb")].
Definition toy_client : session :=
  toy_session AdapterPostgres [5; 30; 1]%nat (negotiation SSLRequestCode ++ startup_message toy_params ++ str "Qxyz").

Lemma toy_params_ok : Forall kv_ok toy_params.
Proof. repeat (apply Forall_cons; split); [..|apply Forall_nil; exact I]; split_and!; apply (bool_decide_unpack _); vm_compute; exact I. Qed.

Lemma dispatch_correct_witness : exists s' u up b1 b2,
  @dispatch toy_unicode (toy_dialer toy_upstream) (toy_tls toy_upstream) toy_scram toy_client = (Ok true, s') /\
  @login (toy_tls toy_upstream) toy_scram toy_rt (startup_message (upstream_params toy_params toy_rt)) u up /\
  ss_up s' = Some (set_tx (tx up ++ b1) up) /\ pending (ss_client s') = b2 /\ str "Qxyz" = b1 ++ b2.
Proof.
  pose proof (@dispatch_correct toy_unicode (toy_dialer toy_upstream) (toy_tls toy_upstream) toy_scram
    (Some SSLRequestCode) toy_params (str "Qxyz") toy_client
    (toy_network toy_upstream (conj eq_refl eq_refl)) (conj eq_refl eq_refl) eq_refl toy_params_ok) as H.
  destruct H as (out & s' & E & H); [vm_compute; congruence|right; eexists; split; [reflexivity|by left]|vm_compute; reflexivity|].
  assert (route_of (ss_srv toy_client) toy_params = Active (str "appdb") toy_rt) as Hr by (vm_compute; reflexivity).
  rewrite Hr in H. destruct H as [(u & up & b1 & b2 & _ & Hl & -> & _ & _ & _ & Hup & Hp & He)|(e & code & msg & -> & _)].
  - exists s', u, up, b1, b2. split_and!; assumption.
  - exfalso. apply (f_equal (fun x => is_ok x.1)) in E. revert E. vm_compute. discriminate.
Defined.

Lemma dispatch_two_negotiations_witness :
  let s := toy_session AdapterPostgres [] (negotiation GSSENCRequestCode ++ negotiation SSLRequestCode ++ startup_message toy_params) in
  exists s', @dispatch toy_unicode (toy_dialer toy_upstream) (toy_tls toy_upstream) toy_scram s =
    (Err (Errorf (str "client did not send StartupMessage after preamble") []), s') /\ ss_srv s' = ss_srv s.
Proof.
  intros s.
  destruct (@dispatch_two_negotiations toy_unicode (toy_dialer toy_upstream) (toy_tls toy_upstream) toy_scram
    GSSENCRequestCode SSLRequestCode s (startup_message toy_params)) as (s' & E & _ & _ & H);
    [split; reflexivity|by right|by left|vm_compute; reflexivity|].
  exists s'. split; assumption.
Defined.

Lemma dispatch_safe_witness :
  let '(out, s') := @dispatch toy_unicode (toy_dialer toy_upstream) (toy_tls toy_upstream) toy_scram
                      (toy_session AdapterPostgres [] (str "GET / HTTP/1.1")) in
  out <> Panic /\ ss_srv s' = toy_server AdapterPostgres.
Proof.
  pose proof (@dispatch_safe toy_unicode (toy_dialer toy_upstream) (toy_tls toy_upstream) toy_scram
    (toy_session AdapterPostgres [] (str "GET / HTTP/1.1"))
    (toy_network toy_upstream (conj eq_refl eq_refl)) (conj eq_refl eq_refl) eq_refl) as H.
  destruct (@dispatch _ _ _ _ (toy_session AdapterPostgres [] (str "GET / HTTP/1.1"))) as [out s'] eqn:E.
  destruct H as (H1 & _ & [(_ & H2 & _)|(H3 & _)]); [split; assumption|].
  exfalso. apply (f_equal (fun x => is_ok x.1)) in E. rewrite H3 in E. revert E. vm_compute. discriminate.
Defined.
