(* ===== verification/MysqlWire.v ===== *)
(** internal/proxy/mysqlwire.go: MySQL packets, length-encoded integers, the
    handshake packets, OK/ERR packets and the authentication scrambles.

    Go's [int] is 64 bits wide; positions and lengths are at most a few bytes
    past the length of a slice, so they are plain integers except where an
    [int] is made from a client-supplied [uint64] ([ParseHandshakeResponse41]). *)
From Stdlib Require Import Strings.Byte.
From S2P Require Import Prelude Binary Fmt IO Vars Cursor Sha.

Definition MaxPacketPayload : Z := 0xFFFFFF.

Definition ClientLongPassword : Z := 0x00000001.
Definition ClientFoundRows : Z := 0x00000002.
Definition ClientLongFlag : Z := 0x00000004.
Definition ClientConnectWithDB : Z := 0x00000008.
Definition ClientProtocol41 : Z := 0x00000200.
Definition ClientSSL : Z := 0x00000800.
Definition ClientTransactions : Z := 0x00002000.
Definition ClientSecureConnection : Z := 0x00008000.
Definition ClientPluginAuth : Z := 0x00080000.
Definition ClientConnectAttrs : Z := 0x00100000.
Definition ClientPluginAuthLenencClientData : Z := 0x00200000.
Definition ClientDeprecateEOF : Z := 0x01000000.

Definition OKPacketHeader : byte := Byte.x00.
Definition ErrPacketHeader : byte := Byte.xff.
Definition EOFPacketHeader : byte := Byte.xfe.

Definition MySQLNativePassword : bytes := str "mysql_native_password".
Definition CachingSHA2Password : bytes := str "caching_sha2_password".
Definition ProtocolVersion10 : byte := Byte.x0a.
Definition DefaultCharsetUTF8MB4 : byte := Byte.x2d.

(** [caps & flag != 0]. *)
Definition has_flag (caps flag : Z) : bool := negb (Z.land caps flag =? 0).
Definition next_seq (seq : byte) : byte := tobyte (bval seq + 1).

(** ** Packets *)

(** The 3-byte length of a header. *)
Definition header_length (hdr : bytes) : res Z :=
  b0 ← index hdr 0; b1 ← index hdr 1; b2 ← index hdr 2;
  mret (Z.lor (Z.lor (bval b0) (Z.shiftl (bval b1) 8)) (Z.shiftl (bval b2) 16)).

Fixpoint ReadPacket_loop {R} `{Reader R} (fuel : nat) (payload : bytes) : M R (byte * bytes) :=
  match fuel with
  | O => lift NoFuel
  | S fuel =>
      hdr ← ReadFull 4;
      length ← lift (header_length hdr);
      seq ← lift (index hdr 3);
      chunk ← ReadFull (Z.to_nat length);
      let payload := payload ++ chunk in
      if decide (length < MaxPacketPayload) then mret (seq, payload) else ReadPacket_loop fuel payload
  end.
(** Every iteration consumes a header, so the pending bytes bound them. *)
Definition ReadPacket {R} `{Reader R} : M R (byte * bytes) := fun r =>
  ReadPacket_loop (S (length (pending r))) [] r.

Definition packet_header (n : Z) (seq : byte) : bytes :=
  [tobyte n; tobyte (Z.shiftr n 8); tobyte (Z.shiftr n 16); seq].

Fixpoint WritePacket_loop (fuel : nat) (seq : byte) (payload : bytes) : M conn byte :=
  match fuel with
  | O => lift NoFuel
  | S fuel =>
      let n := Z.min (len payload) MaxPacketPayload in
      Write (packet_header n seq);;
      head ← lift (slice payload 0 n);
      Write head;;
      let seq := next_seq seq in
      payload ← lift (slice_from payload n);
      if decide (n < MaxPacketPayload) then mret seq else
      if decide (len payload = 0) then
        Write [Byte.x00; Byte.x00; Byte.x00; seq];;
        mret (next_seq seq)
      else WritePacket_loop fuel seq payload
  end.
Definition WritePacket (seq : byte) (payload : bytes) : M conn byte :=
  WritePacket_loop (S (length payload)) seq payload.

(** ** Length-encoded integers and strings *)

Definition AppendLenencInt (b : bytes) (i : Z) : bytes :=
  if i <? 0xFB then b ++ [tobyte i]
  else if i <=? 0xFFFF then b ++ [Byte.xfc; tobyte i; tobyte (Z.shiftr i 8)]
  else if i <=? 0xFFFFFF then b ++ [Byte.xfd; tobyte i; tobyte (Z.shiftr i 8); tobyte (Z.shiftr i 16)]
  else b ++ [Byte.xfe; tobyte i; tobyte (Z.shiftr i 8); tobyte (Z.shiftr i 16); tobyte (Z.shiftr i 24);
             tobyte (Z.shiftr i 32); tobyte (Z.shiftr i 40); tobyte (Z.shiftr i 48); tobyte (Z.shiftr i 56)].

Definition ReadLenencInt (b : bytes) (pos : Z) : res (Z * Z) :=
  if decide (pos >= len b) then Err (Errorf (str "lenenc-int: out of range at %d") [FInt pos]) else
  first ← index b pos;
  if bval first <? 0xFB then Ok (bval first, pos + 1)
  else if decide (first = Byte.xfc) then
    if decide (pos + 3 > len b) then Err (Errorf (str "lenenc-int: truncated 2-byte") []) else
    b1 ← index b (pos + 1); b2 ← index b (pos + 2);
    Ok (Z.lor (bval b1) (Z.shiftl (bval b2) 8), pos + 3)
  else if decide (first = Byte.xfd) then
    if decide (pos + 4 > len b) then Err (Errorf (str "lenenc-int: truncated 3-byte") []) else
    b1 ← index b (pos + 1); b2 ← index b (pos + 2); b3 ← index b (pos + 3);
    Ok (Z.lor (Z.lor (bval b1) (Z.shiftl (bval b2) 8)) (Z.shiftl (bval b3) 16), pos + 4)
  else if decide (first = Byte.xfe) then
    if decide (pos + 9 > len b) then Err (Errorf (str "lenenc-int: truncated 8-byte") []) else
    s ← slice b (pos + 1) (pos + 9);
    v ← LittleEndian.Uint64 s;
    Ok (v, pos + 9)
  else Err (Errorf (str "lenenc-int: invalid leading byte 0x%02x") [FByte first]).

Definition AppendLenencStr (b s : bytes) : bytes := AppendLenencInt b (len s) ++ s.

Definition readNulString (b : bytes) (pos : Z) : res (bytes * Z) :=
  match find_nul (drop (Z.to_nat pos) b) pos with
  | Some i => s ← slice b pos i; Ok (s, i + 1)
  | None => Err (Errorf (str "nul-string: unterminated at %d") [FInt pos])
  end.

(** ** OK and ERR packets *)

Definition EncodeOKPacket (affectedRows lastInsertID statusFlags warnings : Z) : bytes :=
  let b := [OKPacketHeader] in
  let b := AppendLenencInt b affectedRows in
  let b := AppendLenencInt b lastInsertID in
  let b := LittleEndian.AppendUint16 b statusFlags in
  LittleEndian.AppendUint16 b warnings.

Definition EncodeERRPacket (code : Z) (sqlState message : bytes) : bytes :=
  let sqlState := if decide (len sqlState <> 5) then str "HY000" else sqlState in
  LittleEndian.AppendUint16 [ErrPacketHeader] code ++ str "#" ++ sqlState ++ message.

(** [fmt.Sprintf] with [%d] and [%s] only. *)
Definition ParseERRPacket (b : bytes) : res bytes :=
  if decide (len b < 3) then Ok (str "not an ERR packet") else
  b0 ← index b 0;
  if decide (b0 <> ErrPacketHeader) then Ok (str "not an ERR packet") else
  c ← slice b 1 3;
  code ← LittleEndian.Uint16 c;
  '(sqlState, pos) ←
    (if decide (3 < len b) then
       x ← index b 3;
       if decide (x = "#"%byte) then
         if decide (3 + 6 <= len b) then s ← slice b 4 9; Ok (s, 9) else Ok ([], 3)
       else Ok ([], 3)
     else Ok ([], 3));
  msg ← slice_from b pos;
  if decide (sqlState <> [])
  then Ok (str "ERROR " ++ Itoa code ++ str " (" ++ sqlState ++ str "): " ++ msg)
  else Ok (str "ERROR " ++ Itoa code ++ str ": " ++ msg).

Definition IsErrPacket (b : bytes) : bool := match b with x :: _ => bool_decide (x = ErrPacketHeader) | [] => false end.
Definition IsOKPacket (b : bytes) : bool := match b with x :: _ => bool_decide (x = OKPacketHeader) | [] => false end.

(** ** Scrambles *)

Definition xor_byte (a b : byte) : byte := tobyte (Z.lxor (bval a) (bval b)).
(** [for i := range a { out[i] = a[i] ^ b[i] }] for slices of equal length. *)
Definition xor_bytes (a b : bytes) : bytes := zip_with xor_byte a b.
Definition first20 (salt : bytes) : bytes := if decide (len salt > 20) then take 20 salt else salt.

Definition ScrambleNativePassword (password salt : bytes) : bytes :=
  if decide (password = []) then [] else
  let salt := first20 salt in
  let h1 := Sha1.Sum password in
  let h2 := Sha1.Sum h1 in
  let h3 := Sha1.Sum (salt ++ h2) in
  xor_bytes h1 h3.
Definition ScrambleCachingSHA2Password (password salt : bytes) : bytes :=
  if decide (password = []) then [] else
  let salt := first20 salt in
  let h1 := Sha256.Sum256 password in
  let h2 := Sha256.Sum256 h1 in
  let h3 := Sha256.Sum256 (h2 ++ salt) in
  xor_bytes h1 h3.

Arguments ReadPacket : simpl never.
Arguments WritePacket : simpl never.
Arguments ParseERRPacket : simpl never.

(** ** The packet grammar *)

(** A frame, and the frame sequences that carry a payload: maximal frames, then
    one that is not.  [last] is the sequence id of the last frame. *)
Definition frame (seq : byte) (p : bytes) : bytes := le_bytes 3 (len p) ++ [seq] ++ p.
Inductive frames : bytes -> byte -> bytes -> Prop :=
  | frames_last seq p : len p < MaxPacketPayload -> frames p seq (frame seq p)
  | frames_more seq p rest last bs : len p = MaxPacketPayload -> frames rest last bs ->
      frames (p ++ rest) last (frame seq p ++ bs).
(** The same, with the ids counting up from [seq] modulo 256. *)
Inductive packets : byte -> bytes -> byte -> bytes -> Prop :=
  | packets_last seq p : len p < MaxPacketPayload -> packets seq p seq (frame seq p)
  | packets_more seq p rest last bs : len p = MaxPacketPayload -> packets (next_seq seq) rest last bs ->
      packets seq (p ++ rest) last (frame seq p ++ bs).

Lemma packets_frames seq p last bs : packets seq p last bs -> frames p last bs.
Proof. induction 1; by constructor. Qed.

Lemma tobyte_shiftr z k : 0 <= k -> tobyte (Z.shiftr z k) = tobyte (z / 2 ^ k).
Proof. intros Hk. by rewrite Z.shiftr_div_pow2. Qed.

Lemma packet_header_eq n seq : packet_header n seq = le_bytes 3 n ++ [seq].
Proof.
  unfold packet_header. rewrite !tobyte_shiftr by lia. cbn [le_bytes app]. rewrite Z.div_div by lia. done.
Qed.

Lemma le3_lor b0 b1 b2 :
  Z.lor (Z.lor (bval b0) (Z.shiftl (bval b1) 8)) (Z.shiftl (bval b2) 16) = le_val [b0; b1; b2].
Proof.
  pose proof (bval_range b0). pose proof (bval_range b1). pose proof (bval_range b2).
  rewrite (lor_shift_add (bval b0)), lor_shift_add by (cbn; lia). cbn [le_val]. lia.
Qed.

Lemma header_length_eq b0 b1 b2 seq : header_length [b0; b1; b2; seq] = Ok (le_val [b0; b1; b2]).
Proof.
  rewrite <- le3_lor. reflexivity.
Qed.

Section packets.
Context {R} `{ReaderLaws R}.

(** One iteration of [ReadPacket]: a frame is consumed, or the stream is short. *)
Lemma ReadPacket_step fuel acc (r : R) : shut (under r) = false ->
  (exists seq p r', len p <= MaxPacketPayload /\ pending r = frame seq p ++ pending r' /\ same_out (under r) (under r') /\
     ReadPacket_loop (S fuel) acc r =
       if decide (len p < MaxPacketPayload) then (Ok (seq, acc ++ p), r') else ReadPacket_loop fuel (acc ++ p) r') \/
  (exists e r', ReadPacket_loop (S fuel) acc r = (Err e, r') /\ same_out (under r) (under r') /\
     forall seq p rest, len p <= MaxPacketPayload -> pending r <> frame seq p ++ rest).
Proof.
  intros Hs. cbn [ReadPacket_loop].
  destruct (ReadFull_cases 4 r Hs) as [(hdr & r1 & E1 & Hl & Hp & Ho)|(r1 & E1 & Hl & Hp & Ho)]; mrun E1.
  2: { right. eexists _, r1. split_and!; [done|done|]. intros seq p rest _ E. rewrite E in Hl. unfold frame in Hl.
       rewrite !length_app, length_le_bytes in Hl. cbn in Hl. lia. }
  destruct hdr as [|b0 [|b1 [|b2 [|seq [|]]]]]; try done. clear Hl.
  mlift (header_length_eq b0 b1 b2 seq). mlift (index_app_r [b0; b1; b2] seq [] 3 eq_refl).
  set (n := le_val [b0; b1; b2]). assert (0 <= n < 2 ^ 24) as Hn by apply (le_val_range [b0; b1; b2]).
  assert (Hhdr : le_bytes 3 n = [b0; b1; b2]) by (by apply le_bytes_le_val).
  destruct (ReadFull_cases (Z.to_nat n) r1) as [(p & r2 & E2 & Hl2 & Hp2 & Ho2)|(r2 & E2 & Hl2 & Hp2 & Ho2)];
    [by eapply same_out_shut| |]; mrun E2.
  - left. assert (len p = n) as Hlen by (unfold len; lia). exists seq, p, r2. unfold MaxPacketPayload.
    split_and!; [lia| |by etrans|].
    + rewrite Hp, Hp2. unfold frame. rewrite Hlen, Hhdr. by rewrite <- !app_assoc.
    + rewrite Hlen. case_decide; done.
  - right. eexists _, r2. split_and!; [done|by etrans|]. intros seq' p rest Hb E. rewrite Hp in E. unfold frame in E.
    rewrite <- !app_assoc in E. apply (app_inj_1 [b0; b1; b2] (le_bytes 3 (len p))) in E as [Eh E]; [|by rewrite length_le_bytes].
    cbn [app] in E. apply cons_inv in E as [_ E]. rewrite E, length_app in Hl2.
    apply (f_equal le_val) in Eh. rewrite le_val_le_bytes, Z.mod_small in Eh by (unfold MaxPacketPayload in Hb; pose_len; cbn; lia).
    fold n in Eh. unfold len in Eh. lia.
Qed.

Lemma frame_inj seq1 p1 r1 seq2 p2 r2 : len p1 <= MaxPacketPayload -> len p2 <= MaxPacketPayload ->
  frame seq1 p1 ++ r1 = frame seq2 p2 ++ r2 -> seq1 = seq2 /\ p1 = p2 /\ r1 = r2.
Proof.
  unfold frame, MaxPacketPayload. intros H1 H2 E. rewrite <- !app_assoc in E.
  apply app_inj_1 in E as [El E]; [|by rewrite !length_le_bytes]. apply cons_inv in E as [-> E].
  apply (f_equal le_val) in El. rewrite !le_val_le_bytes, !Z.mod_small in El by (pose_len; cbn; lia).
  apply app_inj_1 in E as [-> ->]; [done|unfold len in El; lia].
Qed.

Lemma ReadPacket_loop_cases fuel acc (r : R) : shut (under r) = false -> (length (pending r) < fuel)%nat ->
  exists out r', ReadPacket_loop fuel acc r = (out, r') /\ same_out (under r) (under r') /\
  match out with
  | Ok (seq, payload) => exists p bs, payload = acc ++ p /\ frames p seq bs /\ pending r = bs ++ pending r'
  | Err _ => forall p seq bs rest, frames p seq bs -> pending r <> bs ++ rest
  | _ => False
  end.
Proof.
  revert acc r. induction fuel as [|fuel IH]; intros acc r Hs Hf; [lia|].
  destruct (ReadPacket_step fuel acc r Hs) as [(seq & p & r1 & Hb & Hp & Ho & ->)|(e & r1 & -> & Ho & Hno)].
  2: { eexists _, _. split_and!; [done..|]. intros p seq bs rest Hfr E. destruct Hfr.
       - eapply Hno; [|exact E]. lia.
       - rewrite <- app_assoc in E. eapply Hno; [|exact E]. lia. }
  case_decide as Hlt.
  { eexists _, _. split_and!; [done..|]. exists p, (frame seq p). split_and!; [done|by constructor|done]. }
  destruct (IH (acc ++ p) r1) as (out & r2 & -> & Ho2 & Hout); [by eapply same_out_shut|..].
  { rewrite Hp, length_app in Hf. unfold frame in Hf. rewrite !length_app, length_le_bytes in Hf. cbn in Hf. lia. }
  exists out, r2. split_and!; [done|by etrans|]. destruct out as [[seq' payload]|e| |]; [| |done..].
  - destruct Hout as (p' & bs & -> & Hfr & Hp'). exists (p ++ p'), (frame seq p ++ bs).
    rewrite Hp, Hp', !app_assoc. split_and!; [done| |done]. constructor; [unfold MaxPacketPayload in *; lia|done].
  - intros p' seq' bs rest Hfr E. rewrite Hp in E. destruct Hfr as [seq' p' Hl|seq' p' rest' last bs Hl Hfr].
    + apply frame_inj in E as (_ & -> & _); [lia|lia..].
    + rewrite <- app_assoc in E. apply frame_inj in E as (_ & _ & E); [|lia..]. by eapply Hout.
Qed.

Lemma ReadPacket_cases (r : R) : shut (under r) = false ->
  exists out r', ReadPacket r = (out, r') /\ same_out (under r) (under r') /\
  match out with
  | Ok (seq, payload) => exists bs, frames payload seq bs /\ pending r = bs ++ pending r'
  | Err _ => forall p seq bs rest, frames p seq bs -> pending r <> bs ++ rest
  | _ => False
  end.
Proof.
  intros Hs. destruct (ReadPacket_loop_cases (S (length (pending r))) [] r Hs ltac:(lia)) as (out & r' & E & Ho & Hout).
  exists out, r'. split_and!; [done..|]. destruct out as [[seq payload]|e| |]; [|done..].
  destruct Hout as (p & bs & -> & ? & ?). eauto.
Qed.
End packets.

(** A frame sequence is self-delimiting. *)
Lemma frames_inj p1 s1 bs1 r1 p2 s2 bs2 r2 :
  frames p1 s1 bs1 -> frames p2 s2 bs2 -> bs1 ++ r1 = bs2 ++ r2 -> p1 = p2 /\ s1 = s2 /\ r1 = r2.
Proof.
  intros H1. revert p2 s2 bs2. induction H1 as [seq p Hl|seq p rest last bs Hl Hf IH]; intros p2 s2 bs2 H2 E; destruct H2.
  - apply frame_inj in E as (-> & -> & ->); [done|lia..].
  - rewrite <- app_assoc in E. apply frame_inj in E as (_ & -> & _); lia.
  - rewrite <- app_assoc in E. apply frame_inj in E as (_ & -> & _); lia.
  - rewrite <- !app_assoc in E. apply frame_inj in E as (_ & -> & E); [|lia..].
    edestruct IH as (-> & -> & ->); [done..|]. done.
Qed.

Lemma WritePacket_loop_healthy fuel seq payload c : healthy c -> (length payload < fuel)%nat ->
  exists last bs, packets seq payload last bs /\
    WritePacket_loop fuel seq payload c = (Ok (next_seq last), set_tx (tx c ++ bs) c).
Proof.
  revert seq payload c. induction fuel as [|fuel IH]; intros seq payload c Hc Hf; [lia|].
  cbn [WritePacket_loop]. set (n := Z.min (len payload) MaxPacketPayload).
  assert (0 <= n <= len payload) as Hn by (unfold n, MaxPacketPayload; pose_len; lia).
  erewrite M_bind_ok by (by apply Write_healthy). mlift (slice_prefix payload n Hn).
  erewrite M_bind_ok by (by apply Write_healthy; auto). cbv beta.
  mlift (slice_suffix payload n Hn).
  set (p := take (Z.to_nat n) payload). set (q := drop (Z.to_nat n) payload).
  assert (len p = n) as Hp by (unfold p, len in *; rewrite length_take; lia).
  assert (payload = p ++ q) as Hpq by (symmetry; apply take_drop).
  set (c1 := set_tx _ (set_tx _ c)).
  assert (c1 = set_tx (tx c ++ frame seq p) c) as Hc1.
  { unfold c1, set_tx, frame. cbn. rewrite packet_header_eq, Hp. by rewrite <- !app_assoc. }
  assert (healthy c1) as Hh by (rewrite Hc1; auto).
  assert (length payload = length p + length q)%nat as Hlen by (rewrite Hpq at 1; apply length_app).
  case_decide as Hlt.
  - assert (q = []) as Hq by (apply nil_length_inv; unfold n, len, MaxPacketPayload in *; lia).
    exists seq, (frame seq p). rewrite Hpq, Hq, app_nil_r. split; [constructor; lia|]. unfold mret, M_ret. by rewrite Hc1.
  - assert (len p = MaxPacketPayload) as Hmax by (unfold n in *; lia). case_decide as Hq0.
    + assert (q = []) as Hq by (apply nil_length_inv; unfold len in *; lia).
      erewrite M_bind_ok by (by apply Write_healthy). exists (next_seq seq), (frame seq p ++ frame (next_seq seq) []).
      split.
      * rewrite Hpq, Hq. constructor; [done|]. constructor. done.
      * unfold mret, M_ret. rewrite Hc1. unfold set_tx. cbn. by rewrite <- app_assoc.
    + destruct (IH (next_seq seq) q c1 Hh) as (last & bs & Hpk & ->).
      { unfold MaxPacketPayload, len in *. lia. }
      exists last, (frame seq p ++ bs). split; [rewrite Hpq at 1; by constructor|].
      rewrite Hc1. unfold set_tx. cbn. by rewrite <- app_assoc.
Qed.

Lemma WritePacket_healthy seq payload c : healthy c ->
  exists last bs, packets seq payload last bs /\ WritePacket seq payload c = (Ok (next_seq last), set_tx (tx c ++ bs) c).
Proof. intros Hc. apply WritePacket_loop_healthy; [done|lia]. Qed.

(** A short payload is one frame. *)
Lemma packets_short seq p last bs : len p < MaxPacketPayload -> packets seq p last bs -> last = seq /\ bs = frame seq p.
Proof. intros Hp H. destruct H as [|seq p rest last bs Hl _]; [done|]. rewrite len_app in Hp. pose_len. lia. Qed.

Lemma WritePacket_short seq payload c : healthy c -> len payload < MaxPacketPayload ->
  WritePacket seq payload c = (Ok (next_seq seq), set_tx (tx c ++ frame seq payload) c).
Proof.
  intros Hc Hp. destruct (WritePacket_healthy seq payload c Hc) as (last & bs & Hpk & ->).
  by apply packets_short in Hpk as [-> ->].
Qed.

(** C34: MySQL packet framing is exact for payloads of any length. A payload is
    sent as frames of at most 2^24-1 bytes whose ids count up modulo 256, closed
    by a non-maximal frame (an empty one when the length is a multiple of the
    maximum), and the returned id follows the last one; [ReadPacket] on any
    reader terminates without panicking and returns a payload and id exactly
    when the pending bytes start with a frame sequence carrying them, consuming
    exactly it; so a written payload is read back whole, with its last id. *)
Theorem packet_roundtrip {R} `{ReaderLaws R} (r : R) (c : conn) seq payload :
  healthy c -> shut (under r) = false ->
  (exists last bs, packets seq payload last bs /\
     WritePacket seq payload c = (Ok (next_seq last), set_tx (tx c ++ bs) c) /\
     forall rest, pending r = bs ++ rest ->
       exists r', ReadPacket r = (Ok (last, payload), r') /\ pending r' = rest) /\
  exists out r', ReadPacket r = (out, r') /\ out <> Panic /\ out <> NoFuel /\ same_out (under r) (under r') /\
    (is_ok out = true <-> exists p s bs rest, frames p s bs /\ pending r = bs ++ rest).
Proof.
  intros Hc Hs. destruct (ReadPacket_cases r Hs) as (out & r' & E & Ho & Hout). split.
  - destruct (WritePacket_healthy seq payload c Hc) as (last & bs & Hpk & Ew). exists last, bs. split_and!; [done..|].
    intros rest Hp. apply packets_frames in Hpk. exists r'. destruct out as [[s p]|e| |]; [|by edestruct Hout|done..].
    destruct Hout as (bs' & Hf & Hp'). rewrite Hp in Hp'.
    destruct (frames_inj _ _ _ _ _ _ _ _ Hpk Hf Hp') as (-> & -> & ->). done.
  - exists out, r'. destruct out as [[s p]|e| |]; [| |done..]; split_and!; try done.
    + split; [|done]. destruct Hout as (bs & Hf & Hp). eauto 6.
    + split; [done|]. intros (p & s & bs & rest & Hf & Hp). by edestruct Hout.
Qed.

(** ** Length-encoded integers *)

(** The encoding as prefix and little-endian bytes. *)
Definition lenenc (i : Z) : bytes :=
  if i <? 0xFB then [tobyte i] else if i <=? 0xFFFF then Byte.xfc :: le_bytes 2 i
  else if i <=? 0xFFFFFF then Byte.xfd :: le_bytes 3 i else Byte.xfe :: le_bytes 8 i.

Lemma AppendLenencInt_eq b i : AppendLenencInt b i = b ++ lenenc i.
Proof.
  unfold AppendLenencInt, lenenc. rewrite !tobyte_shiftr by lia. cbn [le_bytes]. rewrite !Z.div_div by lia.
  by repeat case_match.
Qed.

Lemma index_shift {A} (l1 l2 : list A) k : 0 <= k -> index (l1 ++ l2) (len l1 + k) = index l2 k.
Proof.
  intros Hk. unfold index, len. rewrite !decide_True by lia.
  rewrite lookup_app_r by lia.
  replace (Z.to_nat (Z.of_nat (length l1) + k) - length l1)%nat with (Z.to_nat k) by lia. done.
Qed.

Lemma ReadLenencInt_lenenc pre i rest : 0 <= i < 2 ^ 64 ->
  ReadLenencInt (pre ++ lenenc i ++ rest) (len pre) = Ok (i, len pre + len (lenenc i)).
Proof.
  intros Hi. unfold ReadLenencInt, lenenc.
  destruct (Z.ltb_spec i 0xFB); [|destruct (Z.leb_spec i 0xFFFF); [|destruct (Z.leb_spec i 0xFFFFFF)]];
    (rewrite decide_False by len_lia); cbn [app]; rewrite (index_app_r pre _ _ (len pre)) by done; cbn [mbind res_bind].
  - rewrite bval_tobyte, Z.mod_small by lia. by rewrite (proj2 (Z.ltb_lt i 0xFB)) by lia.
  - change (bval Byte.xfc <? 0xFB) with false. cbv iota. rewrite (decide_True (P := Byte.xfc = _)) by done.
    rewrite decide_False by len_lia. rewrite !index_shift by lia. cbn [le_bytes app].
    set (b1 := tobyte i). set (b2 := tobyte (i / 256)).
    change (index (Byte.xfc :: b1 :: b2 :: rest) 1) with (Ok b1). change (index (Byte.xfc :: b1 :: b2 :: rest) 2) with (Ok b2).
    cbn [mbind res_bind]. f_equal. f_equal. pose proof (bval_range b1). pose proof (bval_range b2).
    rewrite lor_shift_add by (cbn; lia).
    pose proof (le_val_le_bytes 2 i) as E. cbn [le_bytes le_val] in E. fold b1 b2 in E.
    rewrite Z.mod_small in E by (cbn; lia). change (2 ^ 8) with 256. lia.
  - change (bval Byte.xfd <? 0xFB) with false. cbv iota. rewrite (decide_False (P := Byte.xfd = Byte.xfc)) by done.
    rewrite (decide_True (P := Byte.xfd = _)) by done.
    rewrite decide_False by len_lia. rewrite !index_shift by lia. cbn [le_bytes app].
    set (b1 := tobyte i). set (b2 := tobyte (i / 256)). set (b3 := tobyte (i / 256 / 256)).
    change (index (Byte.xfd :: b1 :: b2 :: b3 :: rest) 1) with (Ok b1).
    change (index (Byte.xfd :: b1 :: b2 :: b3 :: rest) 2) with (Ok b2).
    change (index (Byte.xfd :: b1 :: b2 :: b3 :: rest) 3) with (Ok b3).
    cbn [mbind res_bind]. f_equal. f_equal. rewrite le3_lor.
    pose proof (le_val_le_bytes 3 i) as E. cbn [le_bytes] in E. fold b1 b2 b3 in E. rewrite E. apply Z.mod_small. cbn. lia.
  - change (bval Byte.xfe <? 0xFB) with false. cbv iota. rewrite (decide_False (P := Byte.xfe = Byte.xfc)) by done.
    rewrite (decide_False (P := Byte.xfe = Byte.xfd)) by done. rewrite (decide_True (P := Byte.xfe = _)) by done.
    rewrite decide_False by len_lia.
    replace (pre ++ Byte.xfe :: le_bytes 8 i ++ rest) with ((pre ++ [Byte.xfe]) ++ le_bytes 8 i ++ rest) by (by rewrite <- app_assoc).
    rewrite slice_mid by len_lia. cbn [mbind res_bind]. unfold LittleEndian.Uint64.
    rewrite slice_prefix by len_lia. rewrite take_ge by (by rewrite length_le_bytes). cbn [mbind res_bind mret res_ret].
    rewrite le_val_le_bytes, Z.mod_small by done. done.
Qed.

(** On any input a decoder call stays in range: it advances, or reports an error. *)
Lemma ReadLenencInt_total b pos : 0 <= pos ->
  (exists v next, ReadLenencInt b pos = Ok (v, next) /\ 0 <= v < 2 ^ 64 /\ pos < next <= len b) \/
  (exists e, ReadLenencInt b pos = Err e).
Proof.
  intros Hpos. unfold ReadLenencInt. case_decide as Hp; [right; eauto|].
  assert (Hix : forall k, 0 <= k -> pos + k < len b -> exists x, index b (pos + k) = Ok x)
    by (intros k ? ?; apply index_some; lia).
  destruct (Hix 0) as [first E]; [lia..|]. rewrite Z.add_0_r in E. rewrite E. cbn [mbind res_bind].
  pose proof (bval_range first).
  destruct (bval first <? 0xFB). { left. eexists _, _. split; [done|]. cbn. lia. }
  case_decide.
  { case_decide; [right; eauto|]. destruct (Hix 1) as [b1 ->]; [lia..|]. destruct (Hix 2) as [b2 ->]; [lia..|].
    left. eexists _, _. split; [done|]. pose proof (bval_range b1). pose proof (bval_range b2).
    rewrite lor_shift_add by (cbn; lia). change (2 ^ 8) with 256. cbn. lia. }
  case_decide.
  { case_decide; [right; eauto|]. destruct (Hix 1) as [b1 ->]; [lia..|]. destruct (Hix 2) as [b2 ->]; [lia..|].
    destruct (Hix 3) as [b3 ->]; [lia..|]. left. eexists _, _. split; [done|]. rewrite le3_lor.
    pose proof (le_val_range [b1; b2; b3]). cbn [len length Z.of_nat] in *. change (8 * len [b1; b2; b3]) with 24 in *. cbn in *. lia. }
  case_decide; [|right; eauto]. case_decide; [right; eauto|].
  destruct (slice_ok b (pos + 1) (pos + 9)) as (l1 & l2 & l3 & _ & _ & Hl & ->); [lia..|]. cbn [mbind res_bind].
  unfold LittleEndian.Uint64. rewrite slice_prefix by lia. cbn [mbind res_bind mret res_ret].
  left. eexists _, _. split; [done|]. pose proof (le_val_range (take (Z.to_nat 8) l2)) as Hr.
  replace (len (take (Z.to_nat 8) l2)) with 8 in Hr by (unfold len in *; rewrite length_take; lia). cbn in *. lia.
Qed.

Lemma readNulString_app pre s rest : Byte.x00 ∉ s ->
  readNulString (pre ++ s ++ Byte.x00 :: rest) (len pre) = Ok (s, len pre + len s + 1).
Proof.
  intros Hs. unfold readNulString, len. rewrite Nat2Z.id, drop_app_length, find_nul_eq, IndexByte_app by done.
  cbn [fmap option_fmap option_map]. rewrite slice_mid by (unfold len; lia). done.
Qed.

Lemma readNulString_cases b pos : 0 <= pos <= len b ->
  (exists pre s rest, b = pre ++ s ++ Byte.x00 :: rest /\ len pre = pos /\ Byte.x00 ∉ s /\
     readNulString b pos = Ok (s, pos + len s + 1)) \/
  (exists pre s e, b = pre ++ s /\ len pre = pos /\ Byte.x00 ∉ s /\ readNulString b pos = Err e).
Proof.
  intros Hp. assert (exists pre r, b = pre ++ r /\ len pre = pos) as (pre & r & -> & <-).
  { exists (take (Z.to_nat pos) b), (drop (Z.to_nat pos) b). rewrite take_drop.
    split; [done|]. unfold len in *. rewrite length_take. lia. }
  destruct (IndexByte r Byte.x00) as [e|] eqn:E.
  - apply IndexByte_Some in E as (Hr & Hn & He). left. exists pre, (take e r), (drop (S e) r).
    rewrite Hr at 1. split_and!; [done..|]. rewrite Hr at 1. by rewrite readNulString_app.
  - right. exists pre, r. eexists. split_and!; [done..|by eapply IndexByte_None|].
    unfold readNulString, len. by rewrite Nat2Z.id, drop_app_length, find_nul_eq, E.
Qed.

(** ** Scrambles *)

Lemma lxor_byte_range a b : 0 <= a < 256 -> 0 <= b < 256 -> 0 <= Z.lxor a b < 256.
Proof.
  intros Ha Hb. assert (0 <= Z.lxor a b) by (apply Z.lxor_nonneg; lia). split; [done|].
  destruct (decide (Z.lxor a b = 0)) as [->|]; [done|]. change 256 with (2 ^ 8). apply Z.log2_lt_pow2; [lia|].
  eapply Z.le_lt_trans; [apply Z.log2_lxor; lia|]. assert (Hlog : forall x, 0 <= x < 256 -> Z.log2 x < 8).
  { intros x Hx. destruct (decide (x = 0)) as [->|]; [done|]. apply Z.log2_lt_pow2; cbn; lia. }
  apply Z.max_lub_lt; by apply Hlog.
Qed.

Lemma xor_byte_cancel a b : xor_byte (xor_byte a b) b = a.
Proof.
  unfold xor_byte. apply bval_inj. rewrite !bval_tobyte.
  pose proof (bval_range a). pose proof (bval_range b). pose proof (lxor_byte_range (bval a) (bval b)).
  rewrite (Z.mod_small (Z.lxor (bval a) (bval b))) by lia.
  rewrite Z.lxor_assoc, Z.lxor_nilpotent, Z.lxor_0_r. apply Z.mod_small. lia.
Qed.

Lemma xor_bytes_cancel a b : length a = length b -> xor_bytes (xor_bytes a b) b = a.
Proof.
  unfold xor_bytes. revert b. induction a as [|x a IH]; intros [|y b] H; try done. cbn. f_equal; [apply xor_byte_cancel|].
  apply IH. cbn in H. lia.
Qed.

(** What a MySQL server stores of a password and how it checks a response:
    the documented verification of the two plugins. *)
Definition native_stored (password : bytes) : bytes := Sha1.Sum (Sha1.Sum password).
Definition native_check (stored salt response : bytes) : Prop :=
  Sha1.Sum (xor_bytes response (Sha1.Sum (salt ++ stored))) = stored.
Definition sha2_stored (password : bytes) : bytes := Sha256.Sum256 (Sha256.Sum256 password).
Definition sha2_check (stored salt response : bytes) : Prop :=
  Sha256.Sum256 (xor_bytes response (Sha256.Sum256 (stored ++ salt))) = stored.

(** For every password and every 20-byte salt (possibly followed by a
    terminator the server appends), the responses the proxy computes pass the
    server's own verification against the stored double hash; an empty password
    gives the empty response. *)
Theorem scramble_verifies password salt tail : length salt = 20%nat -> password <> [] ->
  native_check (native_stored password) salt (ScrambleNativePassword password (salt ++ tail)) /\
  sha2_check (sha2_stored password) salt (ScrambleCachingSHA2Password password (salt ++ tail)) /\
  length (ScrambleNativePassword password (salt ++ tail)) = 20%nat /\
  length (ScrambleCachingSHA2Password password (salt ++ tail)) = 32%nat /\
  ScrambleNativePassword [] salt = [] /\ ScrambleCachingSHA2Password [] salt = [].
Proof.
  intros Hl Hp. unfold ScrambleNativePassword, ScrambleCachingSHA2Password. rewrite !(decide_False (P := password = [])) by done.
  assert (first20 (salt ++ tail) = salt) as ->.
  { unfold first20. case_decide as Hd; [by rewrite <- Hl, take_app_length|].
    unfold len in Hd. rewrite length_app in Hd. destruct tail; [by rewrite app_nil_r|cbn in Hd; lia]. }
  unfold native_check, sha2_check, native_stored, sha2_stored. cbv zeta.
  rewrite !xor_bytes_cancel by (by rewrite ?length_sha1, ?length_sha256).
  unfold xor_bytes. rewrite !length_zip_with, !length_sha1, !length_sha256. done.
Qed.

(** ** ERR packets *)

Lemma ParseERRPacket_total b : exists s, ParseERRPacket b = Ok s.
Proof.
  unfold ParseERRPacket. case_decide; [eauto|]. destruct (index_some b 0) as [x0 ->]; [lia|]. cbn [mbind res_bind].
  case_decide; [eauto|]. destruct (slice_ok b 1 3) as (? & c & ? & _ & _ & Hl & ->); [lia..|]. cbn [mbind res_bind].
  unfold LittleEndian.Uint16. rewrite slice_prefix by lia. cbn [mbind res_bind mret res_ret].
  assert (forall s pos, 0 <= pos <= len b -> exists t, ('(sqlState, pos) ← Ok (s, pos);
    msg ← slice_from b pos;
    if decide (sqlState <> [])
    then Ok (str "ERROR " ++ Itoa (le_val (take (Z.to_nat 2) c)) ++ str " (" ++ sqlState ++ str "): " ++ msg)
    else Ok (str "ERROR " ++ Itoa (le_val (take (Z.to_nat 2) c)) ++ str ": " ++ msg)) = Ok t) as Hend.
  { intros s pos Hpos. cbn [mbind res_bind]. rewrite slice_suffix by done. cbn [mbind res_bind]. case_decide; eauto. }
  case_decide; [|apply Hend; lia]. destruct (index_some b 3) as [x3 ->]; [lia|]. cbn [mbind res_bind].
  case_decide; [|apply Hend; lia]. case_decide; [|apply Hend; lia].
  destruct (slice_ok b 4 9) as (? & st & ? & _ & _ & _ & ->); [lia..|]. apply Hend. lia.
Qed.

(** An ERR packet built by the proxy is decoded to its code, SQLSTATE and
    message; on arbitrary bytes [ParseERRPacket] never panics. *)
Theorem err_packet_roundtrip code sqlState msg b : 0 <= code < 2 ^ 16 -> length sqlState = 5%nat ->
  ParseERRPacket (EncodeERRPacket code sqlState msg)
  = Ok (str "ERROR " ++ Itoa code ++ str " (" ++ sqlState ++ str "): " ++ msg) /\
  exists s, ParseERRPacket b = Ok s.
Proof.
  intros Hc Hs. split.
  - unfold EncodeERRPacket, LittleEndian.AppendUint16. rewrite decide_False by (unfold len; lia).
    change (str "#") with [ "#"%byte ]. set (p := ([ErrPacketHeader] ++ le_bytes 2 code) ++ [ "#"%byte ] ++ sqlState ++ msg).
    assert (len sqlState = 5) as Hs5 by (unfold len; lia).
    assert (len p = 9 + len msg) as Hlen by (unfold p; len_lia).
    unfold ParseERRPacket. pose proof (len_nonneg msg). rewrite decide_False by lia.
    change (index p 0) with (Ok ErrPacketHeader). cbn [mbind res_bind]. rewrite decide_False by naive_solver.
    assert (slice p 1 3 = Ok (le_bytes 2 code)) as ->
      by (unfold p; rewrite <- app_assoc; apply slice_mid; len_lia).
    cbn [mbind res_bind]. unfold LittleEndian.Uint16. rewrite slice_prefix by len_lia.
    rewrite take_ge by (by rewrite length_le_bytes). cbn [mbind res_bind mret res_ret].
    rewrite le_val_le_bytes, Z.mod_small by done. rewrite decide_True by lia.
    assert (index p 3 = Ok "#"%byte) as -> by (unfold p; apply index_app_r; len_lia).
    cbn [mbind res_bind]. rewrite decide_True by done. rewrite decide_True by lia.
    assert (slice p 4 9 = Ok sqlState) as ->.
    { unfold p. rewrite app_assoc. apply slice_mid; len_lia. }
    cbn [mbind res_bind]. rewrite slice_suffix by lia.
    assert (drop (Z.to_nat 9) p = msg) as ->.
    { unfold p. rewrite !app_assoc. rewrite drop_app_ge by (rewrite !length_app, length_le_bytes; cbn; lia).
      rewrite !length_app, length_le_bytes, Hs. done. }
    cbn [mbind res_bind]. rewrite decide_True; [done|]. by intros ->.
  - apply ParseERRPacket_total.
Qed.

(** ** Witnesses *)

Definition mysql_conn (b : bytes) : conn := mkconn b EOF [] None false.

Lemma packet_roundtrip_witness :
  exists last bs, packets Byte.xff (str "hello") last bs /\
    WritePacket Byte.xff (str "hello") (mysql_conn []) = (Ok (next_seq last), set_tx bs (mysql_conn [])).
Proof.
  destruct (packet_roundtrip (mysql_conn []) (mysql_conn []) Byte.xff (str "hello")) as [(last & bs & H1 & H2 & _) _];
    [split; reflexivity|reflexivity|].
  exists last, bs. split; assumption.
Defined.

Lemma scramble_verifies_witness :
  native_check (native_stored (str "secret")) (repeat "a"%byte 20)
    (ScrambleNativePassword (str "secret") (repeat "a"%byte 20 ++ [Byte.x00])).
Proof. exact (proj1 (scramble_verifies (str "secret") (repeat "a"%byte 20) [Byte.x00] eq_refl ltac:(discriminate))). Defined.

Lemma err_packet_roundtrip_witness :
  ParseERRPacket (EncodeERRPacket 1049 (str "42000") (str "Unknown database 'x'"))
  = Ok (str "ERROR 1049 (42000): Unknown database 'x'").
Proof.
  exact (proj1 (err_packet_roundtrip 1049 (str "42000") (str "Unknown database 'x'") [] ltac:(lia) eq_refl)).
Defined.
