(* ===== verification/MysqlHandshake.v ===== *)
(** internal/proxy/mysqlwire.go: the two handshake packets, Handshake v10
    (server to client) and HandshakeResponse41 (client to server). *)
From Stdlib Require Import Strings.Byte.
From S2P Require Import Prelude Binary Fmt IO Vars Cursor Sha MysqlWire.

Record HandshakeV10 := mkHandshakeV10 {
  h_ProtocolVersion : byte;
  h_ServerVersion : bytes;
  h_ConnectionID : Z;
  h_AuthPluginData : bytes;
  h_Capabilities : Z;
  h_CharacterSet : byte;
  h_StatusFlags : Z;
  h_AuthPluginName : bytes;
}.

Record HandshakeResponse41 := mkHandshakeResponse41 {
  r_Capabilities : Z;
  r_MaxPacketSize : Z;
  r_CharacterSet : byte;
  r_Username : bytes;
  r_AuthResponse : bytes;
  r_Database : bytes;
  r_AuthPlugin : bytes;
}.

(** [bytes.TrimRight(b, "\x00")]. *)
Fixpoint drop_nuls (b : bytes) : bytes :=
  match b with
  | x :: b' => if decide (x = Byte.x00) then drop_nuls b' else b
  | [] => []
  end.
Definition TrimRightNul (b : bytes) : bytes := rev (drop_nuls (rev b)).

(** The optional fields after the lower capability bits, each read only when
    enough bytes are left. *)
Definition opt_byte (b : bytes) (pos : Z) : res (byte * Z) :=
  if decide (pos < len b) then x ← index b pos; Ok (x, pos + 1) else Ok (Byte.x00, pos).
Definition opt_uint16 (b : bytes) (pos : Z) : res (Z * Z) :=
  if decide (pos + 2 <= len b) then x ← Uint16_at b pos; Ok (x, pos + 2) else Ok (0, pos).

(** auth-plugin-data-part-2. *)
Definition auth_data_part2 (b : bytes) (pos : Z) (caps : Z) (authDataLen : byte) : res (bytes * Z) :=
  if has_flag caps ClientSecureConnection then
    let part2Len := 13 in
    let part2Len := if decide (bval authDataLen - 8 > part2Len) then bval authDataLen - 8 else part2Len in
    let part2Len := if decide (pos + part2Len > len b) then len b - pos else part2Len in
    if decide (part2Len > 0) then
      part2 ← slice b pos (pos + part2Len);
      Ok (TrimRightNul part2, pos + part2Len)
    else Ok ([], pos)
  else Ok ([], pos).
Definition plugin_name (b : bytes) (pos : Z) (caps : Z) : res bytes :=
  if has_flag caps ClientPluginAuth && bool_decide (pos < len b) then
    match readNulString b pos with
    | Ok (name, _) => Ok name
    | Err _ => s ← slice_from b pos; Ok (TrimRightNul s)
    | Panic => Panic
    | NoFuel => NoFuel
    end
  else Ok [].

Definition ParseHandshakeV10 (b : bytes) : res HandshakeV10 :=
  if decide (len b < 1) then Err (Errorf (str "handshake: empty") []) else
  version ← index b 0;
  if decide (version <> ProtocolVersion10) then
    if decide (version = ErrPacketHeader) then
      text ← ParseERRPacket b;
      Err (Errorf (str "server returned error instead of handshake: %s") [FStr text])
    else Err (Errorf (str "unsupported handshake protocol version %d") [FByte version])
  else
  '(serverVersion, pos) ← map_err (wrap_err (str "handshake server version")) (readNulString b 1);
  if decide (pos + 4 > len b) then Err (Errorf (str "handshake: truncated connection id") []) else
  connectionID ← Uint32_at b pos;
  let pos := pos + 4 in
  if decide (pos + 8 > len b) then Err (Errorf (str "handshake: truncated auth-plugin-data-part-1") []) else
  authData ← slice b pos (pos + 8);
  let pos := pos + 8 in
  if decide (pos >= len b) then Err (Errorf (str "handshake: truncated filler") []) else
  let pos := pos + 1 in
  if decide (pos + 2 > len b) then Err (Errorf (str "handshake: truncated capability lower") []) else
  capLower ← Uint16_at b pos;
  let pos := pos + 2 in
  '(charset, pos) ← opt_byte b pos;
  '(status, pos) ← opt_uint16 b pos;
  '(capUpper, pos) ← opt_uint16 b pos;
  let caps := Z.lor capLower (Z.shiftl capUpper 16) in
  '(authDataLen, pos) ← opt_byte b pos;
  let pos := if decide (pos + 10 <= len b) then pos + 10 else pos in
  '(part2, pos) ← auth_data_part2 b pos caps authDataLen;
  name ← plugin_name b pos caps;
  Ok (mkHandshakeV10 version serverVersion connectionID (authData ++ part2) caps charset status name).

Definition EncodeHandshakeV10 (serverVersion : bytes) (connectionID capabilities : Z) (charset : byte)
    (statusFlags : Z) (authPlugin salt : bytes) : bytes :=
  let salt := if decide (len salt < 20) then salt ++ zeros (20 - len salt) else salt in
  [ProtocolVersion10] ++ serverVersion ++ [Byte.x00] ++ le_bytes 4 connectionID ++ take 8 salt ++ [Byte.x00] ++
  le_bytes 2 (uint16 capabilities) ++ [charset] ++ le_bytes 2 statusFlags ++
  le_bytes 2 (uint16 (Z.shiftr capabilities 16)) ++
  [if has_flag capabilities ClientPluginAuth then tobyte 21 else Byte.x00] ++ zeros 10 ++
  take 12 (drop 8 salt) ++ [Byte.x00] ++
  (if has_flag capabilities ClientPluginAuth then authPlugin ++ [Byte.x00] else []).

(** The fixed 32 bytes both client packets start with. *)
Definition response_header (capabilities : Z) (charset : byte) : bytes :=
  le_bytes 4 capabilities ++ le_bytes 4 MaxPacketPayload ++ [charset] ++ zeros 23.
Definition EncodeHandshakeResponse41 (capabilities : Z) (charset : byte) (username authResponse database authPlugin : bytes) : bytes :=
  response_header capabilities charset ++ username ++ [Byte.x00] ++
  [tobyte (len authResponse)] ++ authResponse ++
  (if has_flag capabilities ClientConnectWithDB then database ++ [Byte.x00] else []) ++
  (if has_flag capabilities ClientPluginAuth then authPlugin ++ [Byte.x00] else []).
Definition EncodeSSLRequest (capabilities : Z) (charset : byte) : bytes := response_header capabilities charset.

(** The auth-response of a client packet.  [int(n)] of a [uint64] and the
    addition are 64-bit and wrap. *)
Definition auth_response (b : bytes) (pos caps : Z) : res (bytes * Z) :=
  if has_flag caps ClientPluginAuthLenencClientData then
    '(n, pos) ← map_err (wrap_err (str "handshake response auth len")) (ReadLenencInt b pos);
    let stop := int64 (pos + int64 n) in
    if decide (stop > len b) then Err (Errorf (str "handshake response: auth-response out of range") []) else
    auth ← slice b pos stop;
    Ok (auth, stop)
  else if has_flag caps ClientSecureConnection then
    if decide (pos >= len b) then Err (Errorf (str "handshake response: missing auth length") []) else
    x ← index b pos;
    let n := bval x in
    let pos := pos + 1 in
    if decide (pos + n > len b) then Err (Errorf (str "handshake response: auth-response out of range") []) else
    auth ← slice b pos (pos + n);
    Ok (auth, pos + n)
  else map_err (wrap_err (str "handshake response auth")) (readNulString b pos).

Definition client_plugin (b : bytes) (pos caps : Z) : res bytes :=
  if has_flag caps ClientPluginAuth && bool_decide (pos < len b) then
    match readNulString b pos with
    | Ok (name, _) => Ok name
    | Err _ => Ok []
    | Panic => Panic
    | NoFuel => NoFuel
    end
  else Ok [].

Definition ParseHandshakeResponse41 (b : bytes) : res HandshakeResponse41 :=
  if decide (len b < 32) then Err (Errorf (str "handshake response: too short (%d)") [FInt (len b)]) else
  caps ← Uint32_at b 0;
  if negb (has_flag caps ClientProtocol41)
  then Err (Errorf (str "handshake response: pre-4.1 protocol not supported") []) else
  maxPacket ← Uint32_at b 4;
  charset ← index b 8;
  '(username, pos) ← map_err (wrap_err (str "handshake response username")) (readNulString b 32);
  '(auth, pos) ← auth_response b pos caps;
  '(database, pos) ←
    (if has_flag caps ClientConnectWithDB
     then map_err (wrap_err (str "handshake response database")) (readNulString b pos) else Ok ([], pos));
  plugin ← client_plugin b pos caps;
  Ok (mkHandshakeResponse41 caps maxPacket charset username auth database plugin).

Arguments ParseHandshakeV10 : simpl never.
Arguments ParseHandshakeResponse41 : simpl never.

(** ** Reading fields at a cursor *)

Lemma at_readNul b pos s rest : at_pos b pos (s ++ Byte.x00 :: rest) -> Byte.x00 ∉ s ->
  readNulString b pos = Ok (s, pos + len s + 1) /\ at_pos b (pos + len s + 1) rest.
Proof.
  intros H Hs. split.
  - destruct H as (pre & -> & <-). by apply readNulString_app.
  - by apply (at_cons _ _ Byte.x00), at_app.
Qed.

Lemma readNulString_total b pos : 0 <= pos <= len b ->
  (exists s next, readNulString b pos = Ok (s, next) /\ Byte.x00 ∉ s /\ pos < next <= len b) \/
  (exists e, readNulString b pos = Err e).
Proof.
  intros H. destruct (readNulString_cases b pos H) as [(pre & s & rest & -> & <- & Hs & ->)|(pre & s & e & _ & _ & _ & ->)].
  - left. exists s. eexists. split; [done|]. split; [done|]. len_lia.
  - right. eauto.
Qed.

Lemma TrimRightNul_app s : Byte.x00 ∉ s -> TrimRightNul (s ++ [Byte.x00]) = s.
Proof.
  intros Hs. unfold TrimRightNul. rewrite rev_app_distr. cbn [rev app drop_nuls]. rewrite decide_True by done.
  destruct s as [|x s _] using rev_ind; [done|]. rewrite rev_app_distr. cbn [rev app drop_nuls].
  rewrite decide_False by set_solver. cbn [rev]. by rewrite rev_involutive.
Qed.

(** ** Handshake v10 *)

Lemma caps_halves caps : 0 <= caps < 2 ^ 32 -> Z.lor (uint16 caps) (Z.shiftl (uint16 (Z.shiftr caps 16)) 16) = caps.
Proof.
  intros Hc. unfold uint. rewrite Z.shiftr_div_pow2 by lia. change (2 ^ 16) with 65536.
  pose proof (Z.mod_pos_bound caps 65536 ltac:(lia)). pose proof (Z.mod_pos_bound (caps / 65536) 65536 ltac:(lia)).
  rewrite lor_shift_add by (cbn; lia). change (2 ^ 16) with 65536.
  rewrite (Z.mod_small (caps / 65536)) by (split; [apply Z.div_pos|apply Z.div_lt_upper_bound]; lia).
  pose proof (Z.div_mod caps 65536 ltac:(lia)). lia.
Qed.

Lemma handshake_roundtrip_aux serverVersion connectionID caps charset status plugin salt :
  Byte.x00 ∉ serverVersion -> Byte.x00 ∉ plugin -> Byte.x00 ∉ salt -> length salt = 20%nat ->
  0 <= connectionID < 2 ^ 32 -> 0 <= caps < 2 ^ 32 -> 0 <= status < 2 ^ 16 ->
  has_flag caps ClientSecureConnection = true -> has_flag caps ClientPluginAuth = true ->
  ParseHandshakeV10 (EncodeHandshakeV10 serverVersion connectionID caps charset status plugin salt)
  = Ok (mkHandshakeV10 ProtocolVersion10 serverVersion connectionID salt caps charset status plugin).
Proof.
  intros Hv Hpl Hs Hl Hid Hcaps Hst Hsec Hplug. set (b := EncodeHandshakeV10 _ _ _ _ _ _ _).
  pose proof (at_start b) as A0. unfold b at 2, EncodeHandshakeV10 in A0. rewrite Hplug in A0.
  rewrite decide_False in A0 by (unfold len; lia).
  set (s1 := take 8 salt) in A0. set (s2 := take 12 (drop 8 salt)) in A0.
  assert (len s1 = 8) as Hl1 by (unfold s1, len; rewrite length_take; lia).
  assert (len s2 = 12) as Hl2 by (unfold s2, len; rewrite length_take, length_drop; lia).
  assert (salt = s1 ++ s2) as Hsalt.
  { unfold s1, s2. rewrite (take_ge (drop 8 salt)) by (rewrite length_drop; lia). by rewrite take_drop. }
  assert (Byte.x00 ∉ s2) as Hs2 by (rewrite Hsalt in Hs; set_solver). clearbody s1 s2.
  unfold ParseHandshakeV10, opt_byte, opt_uint16. in_range A0. rewrite (at_index _ _ _ _ A0). cbn [mbind res_bind].
  rewrite decide_False by naive_solver. apply at_cons in A0 as A1. change (0 + 1) with 1 in A1.
  destruct (at_readNul _ _ _ _ A1 Hv) as [-> A2]. cbn [map_err mbind res_bind].
  set (p2 := 1 + len serverVersion + 1) in *.
  in_range A2. rewrite (at_Uint32 _ _ _ _ A2) by done. cbn [mbind res_bind]. apply at_app in A2 as A3.
  rewrite len_le_bytes in A3. change (Z.of_nat 4) with 4 in A3. in_range A3. erewrite at_slice by (exact A3 || lia). cbn [mbind res_bind].
  apply at_app in A3 as A4. rewrite Hl1 in A4. in_range A4. apply at_cons in A4 as A5. in_range A5.
  rewrite (at_Uint16 _ _ _ _ A5) by (apply uint_range; lia). cbn [mbind res_bind]. apply at_app in A5 as A6.
  rewrite len_le_bytes in A6. change (Z.of_nat 2) with 2 in A6.  rewrite decide_True by (pose proof (at_len _ _ _ A6); len_lia).
  rewrite (at_index _ _ _ _ A6). cbn [mbind res_bind]. apply at_cons in A6 as A7.
   rewrite decide_True by (pose proof (at_len _ _ _ A7); len_lia).
  rewrite (at_Uint16 _ _ _ _ A7) by done. cbn [mbind res_bind]. apply at_app in A7 as A8. rewrite len_le_bytes in A8. change (Z.of_nat 2) with 2 in A8.
   rewrite decide_True by (pose proof (at_len _ _ _ A8); len_lia).
  rewrite (at_Uint16 _ _ _ _ A8) by (apply uint_range; lia). cbn [mbind res_bind]. apply at_app in A8 as A9. rewrite len_le_bytes in A9. change (Z.of_nat 2) with 2 in A9.
  rewrite caps_halves by done.  rewrite decide_True by (pose proof (at_len _ _ _ A9); len_lia).
  rewrite (at_index _ _ _ _ A9). cbn [mbind res_bind]. apply at_cons in A9 as A10.
  rewrite decide_True by (pose proof (at_len _ _ _ A10); len_lia). apply at_app in A10 as A11. rewrite len_zeros in A11 by lia.
  rewrite app_assoc in A11. unfold auth_data_part2. rewrite Hsec.
  change (bval (tobyte 21)) with 21. rewrite (decide_False (P := 21 - 8 > 13)) by lia.
  rewrite (decide_False (P := _ > len b)) by (pose proof (at_len _ _ _ A11); len_lia).
  rewrite (decide_True (P := 13 > 0)) by lia. erewrite at_slice by (exact A11 || len_lia). cbn [mbind res_bind].
  rewrite TrimRightNul_app by done. apply at_app in A11 as A12. rewrite len_app, Hl2 in A12. change (12 + len [Byte.x00]) with 13 in A12.
  unfold plugin_name. rewrite Hplug, bool_decide_true by (pose proof (at_len _ _ _ A12); len_lia). cbn [andb].
  destruct (at_readNul _ _ _ _ A12 Hpl) as [-> _]. cbn [mbind res_bind]. by rewrite Hsalt.
Qed.

Lemma safe_readNulString b pos : 0 <= pos <= len b -> safe (readNulString b pos).
Proof. intros H. by destruct (readNulString_total b pos H) as [(? & ? & -> & _)|(? & ->)]. Qed.
Lemma readNulString_next b pos s next : 0 <= pos <= len b -> readNulString b pos = Ok (s, next) ->
  Byte.x00 ∉ s /\ pos < next <= len b.
Proof.
  intros H E. destruct (readNulString_total b pos H) as [(s' & n' & E' & ?)|(e & E')]; rewrite E' in E; [|done].
  by injection E as -> ->.
Qed.
Lemma opt_byte_next b pos : 0 <= pos <= len b ->
  exists x next, opt_byte b pos = Ok (x, next) /\ pos <= next <= len b.
Proof.
  intros H. unfold opt_byte. case_decide; [|eexists _, _; split; [done|lia]].
  destruct (index_some b pos) as [x ->]; [lia|]. eexists _, _. split; [done|lia].
Qed.
Lemma opt_uint16_next b pos : 0 <= pos <= len b ->
  exists x next, opt_uint16 b pos = Ok (x, next) /\ pos <= next <= len b.
Proof.
  intros H. unfold opt_uint16. case_decide; [|eexists _, _; split; [done|lia]].
  destruct (Uint16_at_total b pos) as (x & -> & _); [lia..|]. eexists _, _. split; [done|lia].
Qed.

Lemma plugin_name_safe b pos caps : 0 <= pos <= len b -> safe (plugin_name b pos caps).
Proof.
  intros H. unfold plugin_name. destruct (_ && _); [|done].
  destruct (readNulString_total b pos H) as [(? & ? & -> & _)|(? & ->)]; [done|].
  apply safe_bind; [|done]. apply safe_slice; lia.
Qed.

Lemma auth_data_part2_next b pos caps n : 0 <= pos <= len b ->
  exists x next, auth_data_part2 b pos caps n = Ok (x, next) /\ pos <= next <= len b.
Proof.
  intros H. unfold auth_data_part2. destruct (has_flag _ _); [|eexists _, _; split; [done|lia]]. cbv zeta.
  set (l := if decide (pos + _ > len b) then _ else _). destruct (decide (l > 0)) as [Hl|]; [|eexists _, _; split; [done|lia]].
  assert (pos + l <= len b) by (unfold l; case_decide; lia).
  destruct (slice_ok b pos (pos + l)) as (? & s & ? & _ & _ & _ & ->); [lia..|]. eexists _, _. split; [done|lia].
Qed.

Lemma ParseHandshakeV10_safe b : safe (ParseHandshakeV10 b).
Proof.
  unfold ParseHandshakeV10. case_decide; [done|]. apply safe_bind; [apply safe_index; lia|]. intros v _.
  case_decide. { case_decide; [|done]. destruct (ParseERRPacket_total b) as [s ->]. done. }
  apply safe_bind; [apply safe_map_err, safe_readNulString; lia|]. intros [sv pos] E%map_err_ok.
  apply readNulString_next in E as [_ Hp]; [|lia]. case_decide; [done|].
  apply safe_bind; [apply safe_Uint32_at; lia|]. intros id _. case_decide; [done|].
  apply safe_bind; [apply safe_slice; lia|]. intros ad _. case_decide; [done|]. case_decide; [done|].
  apply safe_bind; [apply safe_Uint16_at; lia|]. intros cl _.
  destruct (opt_byte_next b (pos + 4 + 8 + 1 + 2)) as (cs & p1 & -> & Q1); [lia|]. cbn [mbind res_bind].
  destruct (opt_uint16_next b p1) as (st & p2 & -> & Q2); [lia|]. cbn [mbind res_bind].
  destruct (opt_uint16_next b p2) as (cu & p3 & -> & Q3); [lia|]. cbn [mbind res_bind].
  destruct (opt_byte_next b p3) as (al & p4 & -> & Q4); [lia|]. cbn [mbind res_bind].
  destruct (auth_data_part2_next b (if decide (p4 + 10 <= len b) then p4 + 10 else p4) (Z.lor cl (Z.shiftl cu 16)) al)
    as (ap & p5 & -> & Q5); [case_decide; lia|]. cbn [mbind res_bind].
  apply safe_bind; [|done]. apply plugin_name_safe. case_decide; lia.
Qed.

(** The Handshake v10 codec. What the proxy greets a client with, a parser
    of the protocol reads back field by field, salt included, for every NUL-free
    20-byte salt; and whatever an upstream sends, [ParseHandshakeV10] never
    panics. *)
Theorem handshake_roundtrip serverVersion connectionID caps charset status plugin salt b :
  Byte.x00 ∉ serverVersion -> Byte.x00 ∉ plugin -> Byte.x00 ∉ salt -> length salt = 20%nat ->
  0 <= connectionID < 2 ^ 32 -> 0 <= caps < 2 ^ 32 -> 0 <= status < 2 ^ 16 ->
  has_flag caps ClientSecureConnection = true -> has_flag caps ClientPluginAuth = true ->
  ParseHandshakeV10 (EncodeHandshakeV10 serverVersion connectionID caps charset status plugin salt)
  = Ok (mkHandshakeV10 ProtocolVersion10 serverVersion connectionID salt caps charset status plugin) /\
  ParseHandshakeV10 b <> Panic /\ ParseHandshakeV10 b <> NoFuel.
Proof. intros. split; [by apply handshake_roundtrip_aux|]. apply safe_spec, ParseHandshakeV10_safe. Qed.

(** ** HandshakeResponse41 *)

Lemma client_plugin_total b pos caps : 0 <= pos <= len b -> exists s, client_plugin b pos caps = Ok s.
Proof.
  intros H. unfold client_plugin. destruct (_ && _); [|eauto].
  destruct (readNulString_total b pos H) as [(? & ? & -> & _)|(? & ->)]; eauto.
Qed.

(** The overflowing length: [int(n)] added to the position wraps. *)
Definition overflows (b : bytes) (pos caps : Z) : Prop :=
  has_flag caps ClientPluginAuthLenencClientData = true /\
  exists n next, ReadLenencInt b pos = Ok (n, next) /\ 2 ^ 63 <= next + n.

Lemma auth_response_cases b pos caps : 0 <= pos <= len b -> len b < 2 ^ 63 ->
  (auth_response b pos caps = Panic /\ overflows b pos caps) \/
  (~ overflows b pos caps /\
   ((exists e, auth_response b pos caps = Err e) \/
    (exists auth next, auth_response b pos caps = Ok (auth, next) /\ pos <= next <= len b))).
Proof.
  intros Hp Hb. unfold auth_response, overflows. destruct (has_flag caps ClientPluginAuthLenencClientData).
  2: { right. split; [naive_solver|]. destruct (has_flag caps ClientSecureConnection).
       - case_decide; [left; eauto|]. destruct (index_some b pos) as [x ->]; [lia|]. cbn [mbind res_bind].
         pose proof (bval_range x). case_decide; [left; eauto|].
         destruct (slice_ok b (pos + 1) (pos + 1 + bval x)) as (? & s & ? & _ & _ & _ & ->); [lia..|].
         right. eexists _, _. split; [done|lia].
       - destruct (readNulString_total b pos Hp) as [(s & n & -> & _ & ?)|(e & ->)]; [right|left; cbn; eauto].
         eexists _, _. split; [done|lia]. }
  destruct (ReadLenencInt_total b pos ltac:(lia)) as [(n & next & E & Hn & Hnext)|(e & E)]; rewrite E; cbn [map_err mbind res_bind].
  2: { right. split; [naive_solver|left; eauto]. }
  destruct (decide (2 ^ 63 <= next + n)) as [Ho|Ho].
  - left. split; [|eauto]. assert (int64 (next + int64 n) < next) as Hlt.
    { unfold sint. rewrite (Z.mod_small n) by done. change (2 ^ (64 - 1)) with (2 ^ 63).
      destruct (Z.ltb_spec n (2 ^ 63)).
      - rewrite (Z.mod_small (next + n)) by lia. destruct (Z.ltb_spec (next + n) (2 ^ 63)); lia.
      - assert (next + (n - 2 ^ 64) < next) by lia.
        destruct (decide (0 <= next + (n - 2 ^ 64))).
        + rewrite Z.mod_small by lia. destruct (Z.ltb_spec (next + (n - 2 ^ 64)) (2 ^ 63)); lia.
        + replace ((next + (n - 2 ^ 64)) mod 2 ^ 64) with (next + n) by (symmetry; rewrite <- (Z.mod_add _ 1) by lia;
            rewrite Z.mod_small by lia; lia).
          destruct (Z.ltb_spec (next + n) (2 ^ 63)); lia. }
    rewrite decide_False by lia. unfold slice. by rewrite decide_False by lia.
  - right. split; [naive_solver lia|].
    rewrite !(sint_small 64) by (change (2 ^ (64 - 1)) with (2 ^ 63); rewrite ?sint_small by (change (2 ^ (64 - 1)) with (2 ^ 63); lia); lia).
    case_decide; [left; eauto|]. destruct (slice_ok b next (next + n)) as (? & s & ? & _ & _ & _ & ->); [lia..|].
    right. eexists _, _. split; [done|lia].
Qed.

(** Which client login packets crash the proxy. [ParseHandshakeResponse41]
    panics exactly on the packets that claim CLIENT_PLUGIN_AUTH_LENENC_CLIENT_DATA
    and announce an auth-response whose length, added to its position, reaches
    2^63: the 64-bit sum is negative, passes the range check and is used as a
    slice bound. On every other packet it returns a value or an error. *)
Theorem ParseHandshakeResponse41_panics b : len b < 2 ^ 63 ->
  (ParseHandshakeResponse41 b = Panic <->
   32 <= len b /\ exists caps user pos, Uint32_at b 0 = Ok caps /\ has_flag caps ClientProtocol41 = true /\
     readNulString b 32 = Ok (user, pos) /\ overflows b pos caps) /\
  ParseHandshakeResponse41 b <> NoFuel.
Proof.
  intros Hb. unfold ParseHandshakeResponse41. case_decide as Hl; [split; [naive_solver lia|done]|].
  destruct (Uint32_at_total b 0) as (caps & E0 & _); [lia..|]. rewrite E0. cbn [mbind res_bind].
  destruct (has_flag caps ClientProtocol41) eqn:Ep; cbn [negb]; [|split; [naive_solver congruence|done]].
  destruct (Uint32_at_total b 4) as (mp & -> & _); [lia..|]. cbn [mbind res_bind].
  destruct (index_some b 8) as [cs ->]; [lia|]. cbn [mbind res_bind].
  destruct (readNulString_total b 32 ltac:(lia)) as [(user & pos & Eu & _ & Hpos)|(e & Eu)]; rewrite Eu; cbn [map_err mbind res_bind];
    [|split; [naive_solver congruence|done]].
  destruct (auth_response_cases b pos caps ltac:(lia) Hb) as [[-> Ho]|[Ho Hcase]]; cbn [mbind res_bind].
  { split; [|done]. split; [|done]. intros _. split; [lia|]. exists caps, user, pos. done. }
  assert (forall r : res HandshakeResponse41, safe r -> (r = Panic <-> 32 <= len b /\ exists caps' user' pos',
    Ok caps = Ok caps' /\ has_flag caps' ClientProtocol41 = true /\ Ok (user, pos) = Ok (user', pos') /\ overflows b pos' caps') /\ r <> NoFuel) as Hsafe.
  { intros r Hr. apply safe_spec in Hr as [H1 H2]. split; [|done]. split; [done|]. naive_solver. }
  apply Hsafe. destruct Hcase as [[e ->]|(auth & next & -> & Hn)]; [done|]. cbn [mbind res_bind].
  destruct (has_flag caps ClientConnectWithDB); cbn [mbind res_bind].
  - destruct (readNulString_total b next ltac:(lia)) as [(db & p2 & -> & _ & ?)|(e & ->)]; cbn [map_err mbind res_bind]; [|done].
    destruct (client_plugin_total b p2 caps ltac:(lia)) as [s ->]. done.
  - destruct (client_plugin_total b next caps ltac:(lia)) as [s ->]. done.
Qed.

(** What the proxy logs in to an upstream with is read back exactly: user,
    auth-response, database and plugin, for NUL-free strings and an
    auth-response of at most 250 bytes (the scrambles have 0, 20 or 32). *)
Theorem response41_roundtrip caps charset username auth database plugin :
  0 <= caps < 2 ^ 32 -> has_flag caps ClientProtocol41 = true -> has_flag caps ClientSecureConnection = true ->
  Byte.x00 ∉ username -> Byte.x00 ∉ database -> Byte.x00 ∉ plugin -> len auth < 251 ->
  len username < 2 ^ 62 ->
  ParseHandshakeResponse41 (EncodeHandshakeResponse41 caps charset username auth database plugin)
  = Ok (mkHandshakeResponse41 caps MaxPacketPayload charset username auth
          (if has_flag caps ClientConnectWithDB then database else [])
          (if has_flag caps ClientPluginAuth then plugin else [])).
Proof.
  intros Hc H41 Hsec Hu Hd Hp Ha Hlu. set (b := EncodeHandshakeResponse41 _ _ _ _ _ _).
  pose proof (at_start b) as A0. unfold b at 2, EncodeHandshakeResponse41, response_header in A0. rewrite <- !app_assoc in A0.
  set (tail1 := if has_flag caps ClientConnectWithDB then _ else _) in A0.
  set (tail2 := if has_flag caps ClientPluginAuth then _ else _) in A0. pose proof (len_nonneg auth) as Hauth.
  unfold ParseHandshakeResponse41. in_range A0. rewrite (at_Uint32 _ _ _ _ A0) by done. cbn [mbind res_bind]. rewrite H41. cbn [negb].
  apply at_app in A0 as A1. rewrite len_le_bytes in A1. change (0 + Z.of_nat 4) with 4 in A1.
  rewrite (at_Uint32 _ _ _ _ A1) by done. cbn [mbind res_bind]. apply at_app in A1 as A2. rewrite len_le_bytes in A2.
  change (4 + Z.of_nat 4) with 8 in A2. rewrite (at_index _ _ _ _ A2). cbn [mbind res_bind].
  apply at_cons, at_app in A2 as A3. rewrite len_zeros in A3 by lia. change (8 + 1 + 23) with 32 in A3.
  destruct (at_readNul _ _ _ _ A3 Hu) as [-> A4]. cbn [map_err mbind res_bind]. set (p4 := 32 + len username + 1) in *.
  assert (auth_response b p4 caps = Ok (auth, p4 + 1 + len auth)) as ->.
  { unfold auth_response. apply at_cons in A4 as A5. destruct (has_flag caps ClientPluginAuthLenencClientData).
    - assert (ReadLenencInt b p4 = Ok (len auth, p4 + 1)) as ->.
      { destruct A4 as (pre & -> & <-). pose proof (ReadLenencInt_lenenc pre (len auth) (auth ++ tail1 ++ tail2) ltac:(lia)) as E.
        unfold lenenc in E. rewrite (proj2 (Z.ltb_lt _ _)) in E by lia. exact E. }
      cbn [map_err mbind res_bind]. pose proof (at_len _ _ _ A5) as [Hl5 H5].
      pose proof (len_nonneg username).
      rewrite !(sint_small 64) by (change (2 ^ (64 - 1)) with (2 ^ 63); rewrite ?sint_small by (change (2 ^ (64 - 1)) with (2 ^ 63); lia); lia).
      in_range A5. erewrite at_slice by (exact A5 || lia). done.
    - rewrite Hsec. in_range A4. rewrite (at_index _ _ _ _ A4). cbn [mbind res_bind].
      rewrite bval_tobyte, Z.mod_small by lia. in_range A5. erewrite at_slice by (exact A5 || lia). done. }
  cbn [mbind res_bind]. apply at_cons, at_app in A4 as A6. set (p6 := p4 + 1 + len auth) in *.
  assert (exists p7, (if has_flag caps ClientConnectWithDB
     then map_err (wrap_err (str "handshake response database")) (readNulString b p6) else Ok ([], p6))
     = Ok (if has_flag caps ClientConnectWithDB then database else [], p7) /\ at_pos b p7 tail2) as (p7 & -> & A7).
  { unfold tail1 in A6. destruct (has_flag caps ClientConnectWithDB); [|eauto]. rewrite <- app_assoc in A6.
    destruct (at_readNul _ _ _ _ A6 Hd) as [-> A7]. eauto. }
  cbn [mbind res_bind]. unfold client_plugin, tail2 in *. destruct (has_flag caps ClientPluginAuth); [|done]. cbn [andb].
  rewrite bool_decide_true by (pose proof (at_len _ _ _ A7); len_lia).
  destruct (at_readNul _ _ _ _ A7 Hp) as [-> _]. done.
Qed.

(** ** Witnesses *)

Definition toy_salt : bytes := repeat "a"%byte 20.
Definition toy_caps : Z := 0x0108A20F.
Lemma str_no_nul (s : bytes) : bool_decide (Byte.x00 ∈ s) = false -> Byte.x00 ∉ s.
Proof. apply bool_decide_eq_false_1. Qed.

Lemma handshake_roundtrip_witness :
  ParseHandshakeV10 (EncodeHandshakeV10 (str "8.0.0") 7 toy_caps DefaultCharsetUTF8MB4 2 MySQLNativePassword toy_salt)
  = Ok (mkHandshakeV10 ProtocolVersion10 (str "8.0.0") 7 toy_salt toy_caps DefaultCharsetUTF8MB4 2 MySQLNativePassword).
Proof.
  refine (proj1 (handshake_roundtrip (str "8.0.0") 7 toy_caps DefaultCharsetUTF8MB4 2 MySQLNativePassword toy_salt [] _ _ _ _ _ _ _ _ _));
    first [apply str_no_nul; vm_compute; reflexivity | vm_compute; reflexivity | vm_compute; split; congruence].
Defined.

(** A 42-byte login packet: capabilities, an empty user name, and the length
    2^64-1. *)
Definition crash_packet : bytes := response_header 0x00200200 Byte.x2d ++ [Byte.x00] ++ Byte.xfe :: repeat Byte.xff 8.

Lemma ParseHandshakeResponse41_panics_witness : ParseHandshakeResponse41 crash_packet = Panic.
Proof.
  apply (proj1 (ParseHandshakeResponse41_panics crash_packet ltac:(vm_compute; reflexivity))).
  split; [vm_compute; congruence|]. exists 0x00200200, [], 33.
  split_and!; [vm_compute; reflexivity..|]. split; [vm_compute; reflexivity|].
  exists (2 ^ 64 - 1), 42. split; [vm_compute; reflexivity|vm_compute; congruence].
Defined.

Lemma response41_roundtrip_witness :
  ParseHandshakeResponse41 (EncodeHandshakeResponse41 toy_caps DefaultCharsetUTF8MB4 (str "app") (repeat Byte.x01 20) (str "app_dev") MySQLNativePassword)
  = Ok (mkHandshakeResponse41 toy_caps MaxPacketPayload DefaultCharsetUTF8MB4 (str "app") (repeat Byte.x01 20) (str "app_dev") MySQLNativePassword).
Proof.
  apply (response41_roundtrip toy_caps DefaultCharsetUTF8MB4 (str "app") (repeat Byte.x01 20) (str "app_dev") MySQLNativePassword);
    first [apply str_no_nul; vm_compute; reflexivity | vm_compute; reflexivity | vm_compute; split; congruence].
Defined.
