(* ===== verification/MysqlAuth.v ===== *)
(** internal/proxy/mysqlauth.go: the login on the upstream connection of the
    MySQL adapter, for mysql_native_password and caching_sha2_password.

    [discreet] is the confidentiality contract: what may be sent on a link that
    is not encrypted. *)
From Stdlib Require Import Strings.Byte.
From S2P Require Import Prelude Binary Fmt IO Net Vars Cursor Sha MysqlWire MysqlHandshake.

Definition authMoreDataHeader : byte := Byte.x01.
Definition authSwitchRequestEOF : byte := Byte.xfe.
Definition cachingSHA2FastSuccess : byte := Byte.x03.
Definition cachingSHA2FullAuth : byte := Byte.x04.
Definition cachingSHA2RequestKey : byte := Byte.x02.

Definition desired_caps : Z :=
  Z.lor ClientLongPassword (Z.lor ClientLongFlag (Z.lor ClientProtocol41 (Z.lor ClientTransactions
    (Z.lor ClientSecureConnection (Z.lor ClientPluginAuth (Z.lor ClientPluginAuthLenencClientData ClientDeprecateEOF)))))).
Definition mysqlUpstreamCaps (serverCaps : Z) (withDB : bool) : Z :=
  let caps := Z.land desired_caps serverCaps in
  let caps := Z.lor caps (Z.lor ClientProtocol41 (Z.lor ClientSecureConnection ClientPluginAuth)) in
  if withDB then Z.lor caps ClientConnectWithDB else caps.

Definition mysqlAuthResponse (plugin password salt : bytes) : res bytes :=
  if decide (plugin = MySQLNativePassword \/ plugin = []) then Ok (ScrambleNativePassword password salt)
  else if decide (plugin = CachingSHA2Password) then Ok (ScrambleCachingSHA2Password password salt)
  else Err (Errorf (str "unsupported auth plugin %q") [FStr plugin]).

Definition firstByte (b : bytes) : byte := hd Byte.x00 b.

Section auth.
Context {TLS_ : TLS} {RSA_ : RSA}.

Definition parseRSAPublicKey (pemData : bytes) : res PublicKey :=
  match pem_Decode (TrimRightNul pemData) with
  | None => Err (Errorf (str "caching_sha2 RSA: invalid PEM public key") [])
  | Some block =>
      match ParsePKIXPublicKey block with
      | inl e => Err (wrap_err (str "caching_sha2 RSA: parse public key") e)
      | inr (RSAKey k) => Ok k
      | inr OtherKey => Err (Errorf (str "caching_sha2 RSA: not an RSA public key") [])
      end
  end.

(** [obf[i] = plain[i] ^ salt[i%len(salt)]]. *)
Definition obfuscate (plain salt : bytes) : bytes :=
  imap (fun i x => xor_byte x (nth (Nat.modulo i (length salt)) salt Byte.x00)) plain.
Definition encryptCachingSHA2Password (password salt : bytes) (pub : PublicKey) : res bytes :=
  if decide (len salt = 0) then Err (Errorf (str "caching_sha2 RSA: empty nonce") []) else
  of_sum (EncryptOAEP pub (obfuscate (password ++ [Byte.x00]) salt)).

(** The sequence id is returned instead of stored through a pointer. *)
Definition mysqlCachingSHA2RSA (seq : byte) (password salt : bytes) : M conn byte :=
  seq ← with_err (wrap_err (str "request public key")) (WritePacket seq [cachingSHA2RequestKey]);
  '(rseq, payload) ← with_err (wrap_err (str "read public key")) ReadPacket;
  let seq := next_seq rseq in
  if decide (len payload < 1 \/ firstByte payload <> authMoreDataHeader)
  then fail (Errorf (str "expected public key AuthMoreData, got 0x%02x") [FByte (firstByte payload)]) else
  body ← lift (slice_from payload 1);
  pub ← lift (parseRSAPublicKey body);
  enc ← lift (encryptCachingSHA2Password password salt pub);
  with_err (wrap_err (str "write encrypted password")) (WritePacket seq enc).

Definition mysqlCachingSHA2More (seq : byte) (payload password salt : bytes) (secure : bool) : M conn byte :=
  if decide (len payload < 2) then fail (Errorf (str "short caching_sha2 AuthMoreData") []) else
  marker ← lift (index payload 1);
  if decide (marker = cachingSHA2FastSuccess) then mret seq
  else if decide (marker = cachingSHA2FullAuth) then
    if decide (password = []) then WritePacket seq [Byte.x00]
    else if secure then WritePacket seq (password ++ [Byte.x00])
    else mysqlCachingSHA2RSA seq password salt
  else fail (Errorf (str "unexpected caching_sha2 marker 0x%02x") [FByte marker]).

Fixpoint mysqlFinishAuth_loop (fuel : nat) (plugin password salt : bytes) (secure : bool) : M conn unit :=
  match fuel with
  | O => lift NoFuel
  | S fuel =>
      '(rseq, payload) ← with_err (wrap_err (str "read auth result")) ReadPacket;
      let seq := next_seq rseq in
      match payload with
      | [] => fail (Errorf (str "empty auth packet") [])
      | h :: _ =>
          if decide (h = OKPacketHeader) then mret tt
          else if decide (h = ErrPacketHeader) then
            text ← lift (ParseERRPacket payload);
            fail (Errorf (str "upstream auth failed: %s") [FStr text])
          else if decide (h = authSwitchRequestEOF) then
            '(newPlugin, np) ← with_err (wrap_err (str "auth switch")) (lift (readNulString payload 1));
            data ← lift (slice_from payload np);
            let newSalt := TrimRightNul data in
            authResp ← lift (mysqlAuthResponse newPlugin password newSalt);
            _ ← with_err (wrap_err (str "write auth switch response")) (WritePacket seq authResp);
            mysqlFinishAuth_loop fuel newPlugin password newSalt secure
          else if decide (h = authMoreDataHeader) then
            if decide (plugin <> CachingSHA2Password)
            then fail (Errorf (str "unexpected AuthMoreData for plugin %q") [FStr plugin]) else
            _ ← mysqlCachingSHA2More seq payload password salt secure;
            mysqlFinishAuth_loop fuel plugin password salt secure
          else fail (Errorf (str "unexpected auth packet header 0x%02x") [FByte h])
      end
  end.
(** Every iteration consumes a packet, so the bytes the upstream sends bound them. *)
Definition mysqlFinishAuth (plugin password salt : bytes) (secure : bool) : M conn unit := fun c =>
  mysqlFinishAuth_loop (S (length (rx c))) plugin password salt secure c.

Definition upstream_plugin (hs : HandshakeV10) : bytes :=
  if decide (h_AuthPluginName hs = []) then MySQLNativePassword else h_AuthPluginName hs.

(** The in-band TLS upgrade; [tlsName] is [tlsConfig.ServerName], [None] for a
    nil [tlsConfig]. *)
Definition negotiate_tls (hs : HandshakeV10) (seq : byte) (caps : Z) (secure : bool) (tlsName : option bytes)
    : M conn (byte * Z * bool) :=
  match tlsName with
  | Some name =>
      if negb (has_flag (h_Capabilities hs) ClientSSL)
      then fail (Errorf (str "upstream does not support TLS but sslmode=require") []) else
      let caps := Z.lor caps ClientSSL in
      seq ← with_err (wrap_err (str "write SSLRequest"))
              (WritePacket (next_seq seq) (EncodeSSLRequest caps DefaultCharsetUTF8MB4));
      with_err (wrap_err (str "upstream TLS handshake")) (tls_upgrade name);;
      mret (seq, caps, true)
  | None => mret (next_seq seq, caps, secure)
  end.

(** The login packet and what follows it. *)
Definition send_login (user password database : bytes) (hs : HandshakeV10) (seq : byte) (caps : Z) (secure : bool) : M conn unit :=
  let plugin := upstream_plugin hs in
  authResp ← lift (mysqlAuthResponse plugin password (h_AuthPluginData hs));
  let resp := EncodeHandshakeResponse41 caps DefaultCharsetUTF8MB4 user authResp database plugin in
  _ ← with_err (wrap_err (str "write handshake response")) (WritePacket seq resp);
  mysqlFinishAuth plugin password (h_AuthPluginData hs) secure.

(** The login once the upstream's handshake [hs] is read. *)
Definition answer_handshake (user password database : bytes) (secure : bool) (tlsName : option bytes) (hs : HandshakeV10) (seq : byte)
    : M conn (HandshakeV10 * Z) :=
  let caps := mysqlUpstreamCaps (h_Capabilities hs) (bool_decide (database <> [])) in
  '(seq, caps, secure) ← negotiate_tls hs seq caps secure tlsName;
  send_login user password database hs seq caps secure;;
  mret (hs, caps).
Definition AuthenticateUpstreamMySQL (user password database : bytes) (secure : bool) (tlsName : option bytes)
    : M conn (HandshakeV10 * Z) :=
  '(seq, payload) ← with_err (wrap_err (str "read handshake")) ReadPacket;
  if IsErrPacket payload then
    text ← lift (ParseERRPacket payload);
    fail (Errorf (str "upstream rejected connection: %s") [FStr text])
  else
  hs ← lift (ParseHandshakeV10 payload);
  answer_handshake user password database secure tlsName hs seq.

Arguments mysqlFinishAuth : simpl never.

(** ** What is sent *)

(** A packet the login may send: a salted scramble, the key request, the
    encrypted password, a bare terminator for the empty password, or, only when
    the link is encrypted, the password itself. *)
Inductive discreet (password : bytes) (secure : bool) : bytes -> Prop :=
  | discreet_native salt : discreet password secure (ScrambleNativePassword password salt)
  | discreet_sha2 salt : discreet password secure (ScrambleCachingSHA2Password password salt)
  | discreet_key_request : discreet password secure [cachingSHA2RequestKey]
  | discreet_encrypted pub salt enc : salt <> [] ->
      EncryptOAEP pub (obfuscate (password ++ [Byte.x00]) salt) = inr enc -> discreet password secure enc
  | discreet_empty : password = [] -> discreet password secure [Byte.x00]
  | discreet_clear : secure = true -> discreet password secure (password ++ [Byte.x00]).

Inductive sends (password : bytes) (secure : bool) : bytes -> Prop :=
  | sends_nil : sends password secure []
  | sends_packet seq p last bs rest : discreet password secure p -> packets seq p last bs ->
      sends password secure rest -> sends password secure (bs ++ rest).

Lemma sends_app password secure a b : sends password secure a -> sends password secure b -> sends password secure (a ++ b).
Proof. intros Ha Hb. induction Ha; [done|]. rewrite <- app_assoc. by eapply sends_packet. Qed.

(** From [c] to [c'] only reads happened, and discreet packets were sent. *)
Definition spoke (password : bytes) (secure : bool) (c c' : conn) : Prop :=
  exists sent, sends password secure sent /\ c' = set_tx (tx c ++ sent) (set_rx (rx c') c).

Lemma spoke_refl password secure c : spoke password secure c c.
Proof. exists []. split; [constructor|]. rewrite app_nil_r. by destruct c. Qed.
Lemma spoke_trans password secure c1 c2 c3 :
  spoke password secure c1 c2 -> spoke password secure c2 c3 -> spoke password secure c1 c3.
Proof.
  intros (s1 & Hs1 & E1) (s2 & Hs2 & E2). exists (s1 ++ s2). split; [by apply sends_app|]. rewrite E2, E1. unfold set_tx, set_rx. cbn. by rewrite <- app_assoc.
Qed.
Lemma spoke_healthy password secure c c' : spoke password secure c c' -> healthy c -> healthy c'.
Proof. intros (? & _ & ->). done. Qed.

(** [c'] is left after reading some bytes of [c]. *)
Definition consumed {A} (out : res A) (c c' : conn) : Prop :=
  match out with Ok _ => exists k, rx c = k ++ rx c' | Err _ => True | _ => False end.
(** A computation that only speaks discreetly and does not panic. *)
Definition speaks {A} (password : bytes) (secure : bool) (m : M conn A) (c : conn) : Prop :=
  exists out c', m c = (out, c') /\ consumed out c c' /\ spoke password secure c c'.

Section speaks.
Variables (password : bytes) (secure : bool).

Lemma speaks_bind {A B} (m : M conn A) (k : A -> M conn B) c :
  speaks password secure m c ->
  (forall a c', m c = (Ok a, c') -> spoke password secure c c' -> speaks password secure (k a) c') ->
  speaks password secure (m ≫= k) c.
Proof.
  intros (out & c' & E & Hs & Hsp) Hk. unfold speaks, mbind, M_bind. rewrite E. destruct out as [a|e| |]; [|by eauto|done..].
  destruct (Hk a c' E Hsp) as (out & c'' & E' & Hs' & Hsp'). exists out, c''. split_and!; [done| |by eapply spoke_trans].
  destruct out; try done. destruct Hs as [k1 H1], Hs' as [k2 H2]. exists (k1 ++ k2). by rewrite H1, H2, app_assoc.
Qed.
Lemma speaks_pure {A} (r : res A) c : safe r -> speaks password secure (lift r) c.
Proof. intros Hr. exists r, c. split_and!; [done| |apply spoke_refl]. destruct r; try done. by exists []. Qed.
Lemma speaks_with_err {A} f (m : M conn A) c : speaks password secure m c -> speaks password secure (with_err f m) c.
Proof.
  intros (out & c' & E & Hs & Hsp). exists (map_err f out), c'. unfold with_err. rewrite E. split_and!; [done|by destruct out|done].
Qed.
Lemma speaks_read c : healthy c -> speaks password secure ReadPacket c.
Proof.
  intros [Hs _]. destruct (ReadPacket_cases (R := conn) c) as (out & c' & E & Ho & Hout); [done|].
  exists out, c'. split_and!; [done| |].
  { destruct out as [[s p]|e| |]; try done. destruct Hout as (bs & _ & Hp). by exists bs. }
  exists []. split; [constructor|].
  apply same_out_set_rx in Ho as Hc. rewrite app_nil_r. rewrite Hc at 1. by destruct c.
Qed.
Lemma speaks_write seq p c : healthy c -> discreet password secure p -> speaks password secure (WritePacket seq p) c.
Proof.
  intros Hc Hp. destruct (WritePacket_healthy seq p c Hc) as (last & bs & Hpk & E). eexists _, _. split_and!; [exact E|by exists []|].
  exists bs. split; [|by destruct c]. rewrite <- (app_nil_r bs). eapply sends_packet; [done..|constructor].
Qed.

Lemma safe_parseRSAPublicKey b : safe (parseRSAPublicKey b).
Proof. unfold parseRSAPublicKey. by repeat case_match. Qed.

Lemma speaks_rsa seq salt c : healthy c -> speaks password secure (mysqlCachingSHA2RSA seq password salt) c.
Proof.
  intros Hc. unfold mysqlCachingSHA2RSA.
  apply speaks_bind; [apply speaks_with_err, speaks_write; [done|constructor]|]. intros seq1 c1 _ Hs1.
  apply spoke_healthy in Hs1; [|done].
  apply speaks_bind; [by apply speaks_with_err, speaks_read|]. intros [rseq payload] c2 _ Hs2.
  apply spoke_healthy in Hs2; [|done]. case_decide as Hd; [by apply (speaks_pure (Err _))|].
  apply speaks_bind; [apply speaks_pure, safe_slice; lia|]. intros body c3 E3 Hs3. apply spoke_healthy in Hs3; [|done].
  apply speaks_bind; [apply speaks_pure, safe_parseRSAPublicKey|]. intros pub c4 E4 Hs4. apply spoke_healthy in Hs4; [|done].
  apply speaks_bind.
  { apply speaks_pure. unfold encryptCachingSHA2Password. case_decide; [done|]. by destruct (EncryptOAEP _ _). }
  intros enc c5 E5 Hs5. apply spoke_healthy in Hs5; [|done]. apply speaks_with_err, speaks_write; [done|].
  unfold lift in E5. injection E5 as E5 _. unfold encryptCachingSHA2Password in E5. case_decide as Hl; [done|].
  destruct (EncryptOAEP pub _) as [e|x] eqn:Ee; [done|]. injection E5 as ->. eapply discreet_encrypted; [|exact Ee].
  by intros ->.
Qed.

Lemma speaks_more seq payload salt c : healthy c ->
  speaks password secure (mysqlCachingSHA2More seq payload password salt secure) c.
Proof.
  intros Hc. unfold mysqlCachingSHA2More. case_decide; [by apply (speaks_pure (Err _))|].
  apply speaks_bind; [apply speaks_pure, safe_index; lia|]. intros marker c1 _ Hs1. apply spoke_healthy in Hs1; [|done].
  case_decide; [by apply (speaks_pure (Ok _))|]. case_decide; [|by apply (speaks_pure (Err _))].
  case_decide; [by apply speaks_write, discreet_empty|].
  pose proof speaks_write as Hw. pose proof speaks_rsa as Hrsa.
  destruct secure; [apply Hw; [done|by apply discreet_clear]|by apply Hrsa].
Qed.

(** A packet that was read. *)
Lemma read_packet c s p c' : healthy c -> ReadPacket c = (Ok (s, p), c') ->
  exists bs, frames p s bs /\ rx c = bs ++ rx c' /\ (4 <= length bs)%nat /\ c' = set_rx (rx c') c.
Proof.
  intros [Hs _] E. destruct (ReadPacket_cases (R := conn) c) as (out & c1 & E' & Ho & Hout); [done|].
  rewrite E in E'. injection E' as <- <-. destruct Hout as (bs & Hf & Hp). exists bs.
  split_and!; [done|done| |by apply same_out_set_rx].
  destruct Hf; unfold frame; rewrite !length_app, length_le_bytes; cbn; lia.
Qed.

(** The login ended with an OK packet. *)
Definition ended_ok (c c' : conn) : Prop :=
  exists pre p s bs, frames (OKPacketHeader :: p) s bs /\ rx c = pre ++ bs ++ rx c'.

Lemma finish_loop fuel plugin salt c : healthy c -> (length (rx c) < fuel)%nat ->
  exists out c', mysqlFinishAuth_loop fuel plugin password salt secure c = (out, c') /\ safe out /\
    spoke password secure c c' /\ (out = Ok tt -> ended_ok c c').
Proof.
  revert plugin salt c. induction fuel as [|fuel IH]; intros plugin salt c Hc Hf; [lia|]. cbn [mysqlFinishAuth_loop].
  destruct (speaks_read c Hc) as (out & c1 & E & Hcons & Hsp).
  destruct out as [[rseq payload]|e| |]; [|mrun (with_err_err (wrap_err (str "read auth result")) _ _ _ _ E); by eexists _, _|done..].
  mrun (with_err_ok (wrap_err (str "read auth result")) _ _ _ _ E).
  destruct (read_packet c rseq payload c1 Hc E) as (bs & Hfr & Hrx & Hl & _).
  assert (healthy c1) as Hc1 by (by eapply spoke_healthy). rewrite Hrx, length_app in Hf.
  assert (Hnext : forall p' s' c2, spoke password secure c1 c2 -> (exists k, rx c1 = k ++ rx c2) ->
    exists out c', mysqlFinishAuth_loop fuel p' password s' secure c2 = (out, c') /\ safe out /\
      spoke password secure c c' /\ (out = Ok tt -> ended_ok c c')).
  { intros p' s' c2 Hsp2 [k Hk]. destruct (IH p' s' c2) as (out & c3 & E3 & Hs3 & Hsp3 & Hok).
    { by eapply spoke_healthy. } { rewrite Hk, length_app in Hf. lia. }
    exists out, c3. split_and!; [done..|by eapply spoke_trans; [|eapply spoke_trans]|].
    intros Ho. destruct (Hok Ho) as (pre & p'' & s & bs' & Hf' & Hr'). exists (bs ++ k ++ pre), p'', s, bs'.
    split; [done|]. by rewrite Hrx, Hk, Hr', <- !app_assoc. }
  destruct payload as [|h payload]; [by eexists _, c1|].
  destruct (decide (h = OKPacketHeader)) as [->|].
  { eexists _, c1. split_and!; [done..|]. intros _. exists [], payload, rseq, bs. done. }
  case_decide. { destruct (ParseERRPacket_total (h :: payload)) as [t Et]. mlift Et. by eexists _, c1. }
  case_decide.
  { destruct (readNulString_total (h :: payload) 1) as [(np & pos & En & _ & Hpos)|(e & En)]; [len_lia| |].
    2: { erewrite M_bind_err by (apply with_err_err; by rewrite En, lift_eq). by eexists _, c1. }
    erewrite M_bind_ok by (apply with_err_ok; by rewrite En, lift_eq). cbv beta iota.
    mlift (slice_suffix (h :: payload) pos ltac:(lia)). set (salt' := TrimRightNul _).
    unfold mysqlAuthResponse. destruct (decide (np = MySQLNativePassword \/ np = [])); [|destruct (decide (np = CachingSHA2Password))].
    3: { by eexists _, c1. }
    all: erewrite M_bind_lift_ok by reflexivity; cbv beta.
    all: match goal with |- context [WritePacket _ ?resp] =>
        destruct (speaks_write (next_seq rseq) resp c1 Hc1 ltac:(constructor)) as (out & c2 & E2 & Hc2 & Hsp2) end.
    all: destruct out as [sq|ew| |]; [| |done..].
    1, 3: mrun (with_err_ok (wrap_err (str "write auth switch response")) _ _ _ _ E2); by apply Hnext.
    all: mrun (with_err_err (wrap_err (str "write auth switch response")) _ _ _ _ E2); eexists _, c2;
      split_and!; [done|done|by eapply spoke_trans|done]. }
  case_decide; [|by eexists _, c1]. case_decide; [by eexists _, c1|].
  destruct (speaks_more (next_seq rseq) (h :: payload) salt c1 Hc1) as (out & c2 & E2 & Hc2 & Hsp2).
  destruct out as [sq|e| |]; [mrun E2; by apply Hnext|mrun E2|done..].
  eexists _, c2. split_and!; [done|done|by eapply spoke_trans|done].
Qed.
End speaks.

(** ** The login as a whole *)

(** The bytes sent once the upstream's handshake [hs] is known (and the link is
    encrypted, when [secure]): nothing, or the login packet, carrying a scramble
    of the password for the handshake's salt, followed by discreet packets. *)
Definition login_sent (user password database : bytes) (hs : HandshakeV10) (caps : Z) (secure : bool) (sent : bytes) : Prop :=
  sent = [] \/
  exists seq last authResp bs rest,
    mysqlAuthResponse (upstream_plugin hs) password (h_AuthPluginData hs) = Ok authResp /\
    packets seq (EncodeHandshakeResponse41 caps DefaultCharsetUTF8MB4 user authResp database (upstream_plugin hs)) last bs /\
    sends password secure rest /\ sent = bs ++ rest.

Lemma send_login_cases user password database hs seq caps secure c : healthy c ->
  exists out c' sent, send_login user password database hs seq caps secure c = (out, c') /\ safe out /\
    login_sent user password database hs caps secure sent /\ c' = set_tx (tx c ++ sent) (set_rx (rx c') c) /\
    (out = Ok tt -> ended_ok c c').
Proof.
  intros Hc. unfold send_login.
  destruct (mysqlAuthResponse (upstream_plugin hs) password (h_AuthPluginData hs)) as [authResp|e| |] eqn:Er.
  2: { eexists _, c, []. split_and!; [done|done|by left| |done]. rewrite app_nil_r. by destruct c. }
  2, 3: unfold mysqlAuthResponse in Er; by repeat case_decide.
  mlift (@eq_refl (res bytes) (Ok authResp)).
  destruct (WritePacket_healthy seq (EncodeHandshakeResponse41 caps DefaultCharsetUTF8MB4 user authResp database (upstream_plugin hs)) c Hc)
    as (last & bs & Hpk & Ew).
  mrun (with_err_ok (wrap_err (str "write handshake response")) _ _ _ _ Ew). unfold mysqlFinishAuth.
  set (c1 := set_tx (tx c ++ bs) c).
  destruct (finish_loop password secure (S (length (rx c1))) (upstream_plugin hs) (h_AuthPluginData hs) c1)
    as (out & c' & E & Hs & (sent & Hsent & Ec') & Hok); [unfold c1; auto|lia|].
  exists out, c', (bs ++ sent). split_and!; [done|done| | |done].
  - right. exists seq, last, authResp, bs, sent. done.
  - rewrite Ec'. unfold c1, set_tx, set_rx. cbn. by rewrite app_assoc.
Qed.

(** The upstream's first packet is a handshake. *)
Definition greeted (c : conn) (hs : HandshakeV10) (seq : byte) (rest : bytes) : Prop :=
  exists payload bs, frames payload seq bs /\ rx c = bs ++ rest /\ IsErrPacket payload = false /\
    ParseHandshakeV10 payload = Ok hs.

(** The capability flags the login computes from a handshake. *)
Definition plain_caps (database : bytes) (hs : HandshakeV10) : Z :=
  mysqlUpstreamCaps (h_Capabilities hs) (bool_decide (database <> [])).
Definition tls_caps (database : bytes) (hs : HandshakeV10) : Z := Z.lor (plain_caps database hs) ClientSSL.

(** Outcome [out], [c'] of a login on [c] without TLS. *)
Definition plain_outcome (user password database : bytes) (c : conn) (out : res (HandshakeV10 * Z)) (c' : conn) : Prop :=
  (is_err out = true /\ tx c' = tx c) \/
  (exists hs seq rest sent, greeted c hs seq rest /\
     login_sent user password database hs (plain_caps database hs) false sent /\ tx c' = tx c ++ sent /\
     (is_ok out = true -> out = Ok (hs, plain_caps database hs) /\ healthy c' /\ ended_ok c c')).

(** The SSLRequest packet [bs] answers the handshake [hs]. *)
Definition ssl_request (database : bytes) (c : conn) (hs : HandshakeV10) (rest bs : bytes) : Prop :=
  exists seq last, greeted c hs seq rest /\ has_flag (h_Capabilities hs) ClientSSL = true /\
    packets (next_seq seq) (EncodeSSLRequest (tls_caps database hs) DefaultCharsetUTF8MB4) last bs.

(** Outcome of a login that requires TLS, with server name [name]. *)
Definition tls_outcome (user password database name : bytes) (c : conn) (out : res (HandshakeV10 * Z)) (c' : conn) : Prop :=
  (is_err out = true /\
     (tx c' = tx c \/ exists hs rest bs, ssl_request database c hs rest bs /\ tx c' = tx c ++ bs)) \/
  (exists hs rest bs t sent, ssl_request database c hs rest bs /\
     tls_Client_Handshake name (set_tx (tx c ++ bs) (set_rx rest c)) = inr t /\
     login_sent user password database hs (tls_caps database hs) true sent /\ tx c' = tx t ++ sent /\
     (is_ok out = true -> out = Ok (hs, tls_caps database hs) /\ healthy c' /\ ended_ok t c')).

(** Both ways to go on from the handshake. *)
Lemma answer_plain user password database hs seq rest bs0 c : healthy c -> greeted c hs seq rest -> rx c = bs0 ++ rest ->
  exists out c', answer_handshake user password database false None hs seq (set_rx rest c) = (out, c') /\ safe out /\
    plain_outcome user password database c out c'.
Proof.
  intros Hc Hg Hp. unfold answer_handshake. fold (plain_caps database hs). unfold negotiate_tls. erewrite M_bind_ok by reflexivity. cbv beta iota.
  destruct (send_login_cases user password database hs (next_seq seq) (plain_caps database hs) false (set_rx rest c) ltac:(auto))
    as (out & c' & sent & El & Hs & Hls & Hc' & Hok).
  destruct out as [[]|e| |]; [mrun El|mrun El|done..]; eexists _, c'; (split; [done|]); (split; [done|]); right;
    exists hs, seq, rest, sent; (split_and!; [done..| |]); [by rewrite Hc'| |by rewrite Hc'|done].
  intros _. split_and!; [done|rewrite Hc'; auto|]. destruct (Hok eq_refl) as (pre & p & s & bs & Hf & Hr).
  exists (bs0 ++ pre), p, s, bs. split; [done|]. rewrite Hp. cbn [rx set_rx] in Hr. by rewrite Hr, <- !app_assoc.
Qed.
Lemma answer_tls user password database name hs seq rest c : healthy c -> (forall n c c', tls_Client_Handshake n c = inr c' -> healthy c') ->
  greeted c hs seq rest ->
  exists out c', answer_handshake user password database false (Some name) hs seq (set_rx rest c) = (out, c') /\ safe out /\
    tls_outcome user password database name c out c'.
Proof.
  intros Hc Htls Hg. unfold answer_handshake. fold (plain_caps database hs). unfold negotiate_tls.
  destruct (has_flag (h_Capabilities hs) ClientSSL) eqn:Essl; cbn [negb].
  2: { eexists _, _. split; [done|]. split; [done|]. left. split; [done|]. by left. }
  fold (tls_caps database hs).
  destruct (WritePacket_healthy (next_seq seq) (EncodeSSLRequest (tls_caps database hs) DefaultCharsetUTF8MB4) (set_rx rest c) ltac:(auto))
    as (last & bs & Hpk & Ew).
  assert (ssl_request database c hs rest bs) as Hreq by (exists seq, last; done).
  set (raw := set_tx (tx c ++ bs) (set_rx rest c)). change (set_tx (tx (set_rx rest c) ++ bs) (set_rx rest c)) with raw in Ew.
  destruct (tls_Client_Handshake name raw) as [e|t] eqn:Et.
  - assert (tls_upgrade name raw = (Err e, raw)) as Eup by (unfold tls_upgrade; by rewrite Et).
    erewrite M_bind_err.
    2: { erewrite M_bind_ok by (by eapply with_err_ok). cbv beta. by erewrite M_bind_err by (by eapply with_err_err). }
    eexists _, _. split; [done|]. split; [done|]. left. split; [done|]. right. exists hs, rest, bs. done.
  - assert (tls_upgrade name raw = (Ok tt, t)) as Eup by (unfold tls_upgrade; by rewrite Et).
    erewrite M_bind_ok.
    2: { erewrite M_bind_ok by (by eapply with_err_ok). cbv beta. by erewrite M_bind_ok by (by eapply with_err_ok). }
    cbv beta iota. pose proof (Htls _ _ _ Et) as Ht.
    destruct (send_login_cases user password database hs (next_seq last) (tls_caps database hs) true t Ht)
      as (out & c' & sent & El & Hs & Hls & Hc' & Hok).
    destruct out as [[]|e| |]; [mrun El|mrun El|done..]; eexists _, c'; (split; [done|]); (split; [done|]); right;
      exists hs, rest, bs, t, sent; (split_and!; [done..| |]); [by rewrite Hc'| |by rewrite Hc'|done].
    intros _. split_and!; [done| |by apply Hok]. rewrite Hc'. auto.
Qed.

Lemma AuthenticateUpstreamMySQL_cases user password database tlsName c :
  healthy c -> (forall n c c', tls_Client_Handshake n c = inr c' -> healthy c') ->
  exists out c', AuthenticateUpstreamMySQL user password database false tlsName c = (out, c') /\ safe out /\
  match tlsName with
  | None => plain_outcome user password database c out c'
  | Some name => tls_outcome user password database name c out c'
  end.
Proof.
  intros Hc Htls. unfold AuthenticateUpstreamMySQL.
  assert (Hfail : forall e c', tx c' = tx c -> safe (@Err (HandshakeV10 * Z) e) /\
    match tlsName with
    | None => plain_outcome user password database c (Err e) c'
    | Some name => tls_outcome user password database name c (Err e) c'
    end).
  { intros e c' Ht. split; [done|]. destruct tlsName; left; auto. }
  destruct (ReadPacket_cases (R := conn) c) as (out & c1 & E & Ho & Hout); [apply Hc|].
  destruct out as [[seq payload]|e| |]; [| |done..].
  2: { mrun (with_err_err (wrap_err (str "read handshake")) _ _ _ _ E). eexists _, c1. split; [done|]. apply Hfail. apply Ho. }
  mrun (with_err_ok (wrap_err (str "read handshake")) _ _ _ _ E). destruct Hout as (bs0 & Hfr & Hp).
  change (same_out c c1) in Ho. apply same_out_set_rx in Ho as Hc1. set (rest := rx c1) in *. cbn [pending conn_Reader] in Hp. fold rest in Hp. rewrite Hc1.
  destruct (IsErrPacket payload) eqn:Ee.
  { destruct (ParseERRPacket_total payload) as [t Et]. mlift Et. eexists _, _. split; [done|]. by apply Hfail. }
  pose proof (ParseHandshakeV10_safe payload) as Hsafe.
  destruct (ParseHandshakeV10 payload) as [hs|e| |] eqn:Eh; [| |done..].
  2: { eexists _, _. split; [done|]. by apply Hfail. }
  mlift (@eq_refl (res HandshakeV10) (Ok hs)).
  assert (greeted c hs seq rest) as Hg by (exists payload, bs0; done).
  destruct tlsName as [name|]; [by apply (answer_tls _ _ _ _ hs seq rest)|by apply (answer_plain _ _ _ hs seq rest bs0)].
Qed.

(** C33: confidentiality and correctness of the MySQL upstream login, against any
    upstream. It never panics and terminates. Without TLS, all that is ever sent
    is the login packet with a scramble and discreet packets: scrambles, a key
    request, the RSA-encrypted password; the password in clear is not among them.
    When TLS is required, the raw connection carries at most one SSLRequest (and
    nothing at all unless the upstream advertised CLIENT_SSL), and everything
    else is sent on the encrypted connection. Success means that the upstream
    greeted with a handshake, the flags returned are those computed from it, and
    its last packet read was an OK packet. *)
Theorem mysql_login_discreet user password database tlsName c :
  healthy c -> (forall n c c', tls_Client_Handshake n c = inr c' -> healthy c') ->
  let '(out, c') := AuthenticateUpstreamMySQL user password database false tlsName c in
  out <> Panic /\ out <> NoFuel /\
  match tlsName with
  | None => plain_outcome user password database c out c'
  | Some name => tls_outcome user password database name c out c'
  end.
Proof.
  intros Hc Htls. destruct (AuthenticateUpstreamMySQL_cases user password database tlsName c Hc Htls) as (out & c' & -> & Hs & H).
  apply safe_spec in Hs as [H1 H2]. done.
Qed.
End auth.

(** ** Witness: an upstream that accepts the native password *)

Definition toy_rsa : RSA := {|
  PublicKey := unit;
  pem_Decode _ := None;
  ParsePKIXPublicKey _ := inl EOF;
  EncryptOAEP _ _ := inl EOF;
|}.
Definition toy_no_tls : TLS := Build_TLS (fun _ _ => inl EOF).
Definition toy_greeting : bytes :=
  EncodeHandshakeV10 (str "8.0.0") 7 toy_caps DefaultCharsetUTF8MB4 2 MySQLNativePassword toy_salt.
Definition toy_mysql : conn :=
  mysql_conn (frame Byte.x00 toy_greeting ++ frame Byte.x02 (EncodeOKPacket 0 0 2 0)).

Lemma mysql_login_discreet_witness : exists hs seq rest sent,
  greeted toy_mysql hs seq rest /\
  @login_sent toy_rsa (str "app") (str "secret") (str "app_dev") hs (plain_caps (str "app_dev") hs) false sent /\ sent <> [].
Proof.
  pose proof (@mysql_login_discreet toy_no_tls toy_rsa (str "app") (str "secret") (str "app_dev") None toy_mysql
    (conj eq_refl eq_refl) ltac:(discriminate)) as H.
  destruct (@AuthenticateUpstreamMySQL toy_no_tls toy_rsa (str "app") (str "secret") (str "app_dev") false None toy_mysql)
    as [out c'] eqn:E.
  assert (is_err out = false /\ tx c' <> []) as [He Ht].
  { apply (f_equal (fun x => (is_err x.1, match tx x.2 with [] => true | _ => false end))) in E.
    destruct out, c' as [? ? [|] ? ?]; vm_compute in E; try discriminate; split; discriminate || reflexivity. }
  destruct H as (_ & _ & [[H _]|(hs & seq & rest & sent & Hg & Hl & Htx & _)]); [congruence|].
  exists hs, seq, rest, sent. split_and!; [assumption..|]. intros ->. apply Ht. rewrite Htx. reflexivity.
Defined.
