(* ===== verification/MysqlServer.v ===== *)
(** internal/proxy/mysqlclient.go and mysqlserver.go: the greeting of a MySQL
    client and the handler of its connection up to the raw pipe. *)
From Stdlib Require Import Strings.Byte.
From S2P Require Import Prelude Binary Fmt IO Net Vars Config Database Server Session Cursor Sha MysqlWire MysqlHandshake MysqlAuth.

(** ** mysqlclient.go *)

Definition serverStatusAutocommit : Z := 0x0002.
Definition mysqlProxyClientCaps : Z :=
  Z.lor ClientLongPassword (Z.lor ClientLongFlag (Z.lor ClientProtocol41 (Z.lor ClientTransactions
    (Z.lor ClientSecureConnection (Z.lor ClientPluginAuth (Z.lor ClientPluginAuthLenencClientData
    (Z.lor ClientConnectWithDB ClientDeprecateEOF))))))).

Record ClientLogin := mkClientLogin {
  cl_Response : HandshakeResponse41;
  cl_Caps : Z;
  cl_NextSeq : byte;
}.

Section greet.
Context {Rand_ : Rand}.

Definition newMySQLSalt : res bytes :=
  match rand_Read 20 with
  | inl e => Err (wrap_err (str "generate salt") e)
  | inr salt => Ok (map (fun b => if decide (b = Byte.x00) then Byte.x01 else b) salt)
  end.

Definition GreetClientMySQL (serverVersion : bytes) (connectionID : Z) : M conn ClientLogin :=
  salt ← lift newMySQLSalt;
  let greeting := EncodeHandshakeV10 serverVersion connectionID mysqlProxyClientCaps DefaultCharsetUTF8MB4
                    serverStatusAutocommit MySQLNativePassword salt in
  _ ← with_err (wrap_err (str "write handshake")) (WritePacket Byte.x00 greeting);
  '(seq, payload) ← with_err (wrap_err (str "read handshake response")) ReadPacket;
  resp ← lift (ParseHandshakeResponse41 payload);
  mret (mkClientLogin resp (Z.land (r_Capabilities resp) mysqlProxyClientCaps) (next_seq seq)).
End greet.

(** ** mysqlserver.go *)

Definition mysqlServerVersion : bytes := str "8.0.0-dbpivot".
Definition erAccessDenied : Z := 1045.
Definition erBadDBError : Z := 1049.
Definition erUnknownError : Z := 1105.

Definition writeMySQLErr (seq : byte) (code : Z) (sqlState msg : bytes) : M conn unit :=
  _ ← WritePacket seq (EncodeERRPacket code sqlState msg);
  mret tt.

Section server.
Context {U : Unicode} {D : Dialer} {TLS_ : TLS} {RSA_ : RSA} {Rand_ : Rand}.

Definition mysql_refuse (login : ClientLogin) (code : Z) (sqlState msg : bytes) : M session unit :=
  ignore (on_client (writeMySQLErr (cl_NextSeq login) code sqlState msg)).

(** From the dial to the registration, for a client routed to [name] with
    current target [rt]; [true] when the raw pipe starts. *)
Definition connect_mysql (login : ClientLogin) (name : bytes) (rt : ResolvedTarget) : M session bool :=
  r ← try_ (dial (JoinHostPort (rt_Host rt) (rt_Port rt)));
  match r with
  | inl e => mysql_refuse login erUnknownError (str "HY000") (str "upstream dial failed: " ++ Error e);; fail e
  | inr _ =>
      let upDatabase := if decide (rt_Database rt = []) then r_Database (cl_Response login) else rt_Database rt in
      let tlsName := if decide (rt_SSLMode rt = SSLModeRequire) then Some (rt_Host rt) else None in
      a ← try_ (on_up (AuthenticateUpstreamMySQL (rt_User rt) (rt_Password rt) upDatabase false tlsName));
      match a with
      | inl e =>
          mysql_refuse login erAccessDenied (str "28000") (str "upstream auth failed: " ++ Error e);;
          close_up;; fail e
      | inr (_, upCaps) =>
          if decide (Z.land (cl_Caps login) ClientDeprecateEOF <> Z.land upCaps ClientDeprecateEOF) then
            mysql_refuse login erUnknownError (str "HY000") (str "proxy/upstream capability mismatch (CLIENT_DEPRECATE_EOF)");;
            close_up;;
            fail (Errorf (str "mysql capability mismatch: client=0x%08x upstream=0x%08x") [FInt (cl_Caps login); FInt upCaps])
          else
            ok ← try_ (on_client (WritePacket (cl_NextSeq login) (EncodeOKPacket 0 0 serverStatusAutocommit 0)));
            match ok with
            | inl e => close_up;; fail (wrap_err (str "write OK to client") e)
            | inr _ => register name rt;; mret true
            end
      end
  end.

Definition mysql_routing_name (login : ClientLogin) : bytes :=
  let dbname := r_Database (cl_Response login) in
  if decide (dbname = []) then r_Username (cl_Response login) else dbname.

(** [dispatchMySQL] after the greeting. *)
Definition serve_mysql (login : ClientLogin) : M session bool :=
  let dbname := mysql_routing_name login in
  s ← gets ss_srv;
  match lookupDatabase s AdapterMySQL dbname with
  | None => mysql_refuse login erBadDBError (str "42000") (str "Unknown database '" ++ dbname ++ str "'");; mret false
  | Some name =>
      match current_of name (s_store s) with
      | None => mysql_refuse login erUnknownError (str "HY000") (Sprintf (str "database %q has no active target") [RText dbname]);; mret false
      | Some rt => connect_mysql login name rt
      end
  end.

Definition dispatchMySQL : M session bool :=
  connID ← connSeq_Add1;
  login ← with_err (wrap_err (str "mysql client handshake")) (on_client (GreetClientMySQL mysqlServerVersion connID));
  serve_mysql login.

(** ** The contract *)

Inductive mysql_route := MyUnknown | MyInactive | MyActive (name : bytes) (rt : ResolvedTarget).
Definition mysql_route_of (srv : Server) (login : ClientLogin) : mysql_route :=
  match lookupDatabase srv AdapterMySQL (mysql_routing_name login) with
  | None => MyUnknown
  | Some n => match current_of n (s_store srv) with None => MyInactive | Some rt => MyActive n rt end
  end.

(** The login of [rt] on the dialed connection [u] ends as [u'] with flags
    [caps] that agree with the client's on the result-set framing. *)
Definition mysql_connects (login : ClientLogin) (rt : ResolvedTarget) (u u' : conn) (caps : Z) : Prop :=
  exists hs,
    AuthenticateUpstreamMySQL (rt_User rt) (rt_Password rt)
      (if decide (rt_Database rt = []) then r_Database (cl_Response login) else rt_Database rt) false
      (if decide (rt_SSLMode rt = SSLModeRequire) then Some (rt_Host rt) else None) u = (Ok (hs, caps), u') /\
    Z.land (cl_Caps login) ClientDeprecateEOF = Z.land caps ClientDeprecateEOF.

(** The client was sent the packet [p] with the next sequence id. *)
Definition answered (login : ClientLogin) (p bs : bytes) : Prop := exists last, packets (cl_NextSeq login) p last bs.

Definition mysql_piping (name : bytes) (rt : ResolvedTarget) (u' : conn) (bs : bytes) (s : session) : session :=
  mkSession (registered name rt s) (set_br_conn (set_tx (tx (client_conn s) ++ bs) (client_conn s)) (ss_client s)) (Some u')
    (ss_dialed s ++ [JoinHostPort (rt_Host rt) (rt_Port rt)]) (ss_obj s) (ss_client_sock s) (ss_up_sock s).

Definition mysql_outcome (login : ClientLogin) (s : session) (out : res bool) (s' : session) : Prop :=
  match mysql_route_of (ss_srv s) login with
  | MyUnknown => out = Ok false /\ exists bs,
      answered login (EncodeERRPacket erBadDBError (str "42000") (str "Unknown database '" ++ mysql_routing_name login ++ str "'")) bs /\
      s' = replied bs s
  | MyInactive => out = Ok false /\ exists bs msg,
      answered login (EncodeERRPacket erUnknownError (str "HY000") msg) bs /\ s' = replied bs s
  | MyActive n rt =>
      (exists u u' caps bs, DialTimeout (JoinHostPort (rt_Host rt) (rt_Port rt)) = inr u /\ mysql_connects login rt u u' caps /\
         answered login (EncodeOKPacket 0 0 serverStatusAutocommit 0) bs /\
         out = Ok true /\ s' = mysql_piping n rt u' bs s) \/
      (exists e code st msg bs, out = Err e /\ answered login (EncodeERRPacket code st msg) bs /\ refused_with bs s s' /\
         forall u u' caps, DialTimeout (JoinHostPort (rt_Host rt) (rt_Port rt)) = inr u -> ~ mysql_connects login rt u u' caps)
  end.

Lemma mysql_refuse_eq login code st msg s : healthy (client_conn s) ->
  exists bs, answered login (EncodeERRPacket code st msg) bs /\ mysql_refuse login code st msg s = (Ok tt, replied bs s).
Proof.
  intros Hc. destruct (WritePacket_healthy (cl_NextSeq login) (EncodeERRPacket code st msg) (client_conn s) Hc) as (last & bs & Hp & E).
  exists bs. split; [by exists last|]. unfold mysql_refuse. erewrite ignore_ok; [done|]. apply on_client_eq.
  unfold writeMySQLErr. by mrun E.
Qed.

Lemma connect_mysql_cases login name rt s :
  network_ok -> healthy (client_conn s) -> ss_up s = None -> mysql_route_of (ss_srv s) login = MyActive name rt ->
  exists out s', connect_mysql login name rt s = (out, s') /\ mysql_outcome login s out s'.
Proof.
  intros Hn Hc Hu Hr. unfold mysql_outcome. rewrite Hr. unfold connect_mysql. set (addr := JoinHostPort _ _).
  destruct (DialTimeout addr) as [e|u] eqn:Ed.
  { assert (dial addr s = (Err e, log_dial addr s)) as E by (unfold dial; by rewrite Ed). mrun (try_err _ _ _ _ E).
    destruct (mysql_refuse_eq login erUnknownError (str "HY000") (str "upstream dial failed: " ++ Error e) (log_dial addr s) Hc) as (bs & Ha & Eb).
    mrun Eb. eexists _, _. split; [done|]. right. eexists e, _, _, _, bs. split_and!; [done|exact Ha| |done].
    unfold refused_with. cbn. rewrite Hu. done. }
  assert (dial addr s = (Ok tt, set_up (Some u) (log_dial addr s))) as E by (unfold dial; by rewrite Ed).
  mrun (try_ok _ _ _ _ E). set (s1 := set_up (Some u) (log_dial addr s)). cbv zeta. unfold mysql_connects.
  set (updb := if decide (rt_Database rt = []) then _ else _). set (tn := if decide (rt_SSLMode rt = _) then _ else _).
  assert (Hrej : forall e code st msg u2, exists out s', (mysql_refuse login code st msg;; close_up;; fail e) (set_up (Some u2) s1) = (out, s') /\
    out = @Err bool e /\ exists bs, answered login (EncodeERRPacket code st msg) bs /\ refused_with bs s s').
  { intros e code st msg u2. destruct (mysql_refuse_eq login code st msg (set_up (Some u2) s1) Hc) as (bs & Ha & Eb). mrun Eb.
    erewrite M_bind_ok by (by apply (close_up_eq u2)). eexists _, _. split; [done|]. split; [done|]. exists bs. split; [done|].
    unfold refused_with. cbn. split_and!; [done..|]. by intros u0 [= <-]. }
  destruct (AuthenticateUpstreamMySQL_cases (rt_User rt) (rt_Password rt) updb tn u) as (out & u2 & Ea & Hs & _);
    [by eapply dial_healthy|by apply tls_healthy|].
  destruct out as [[hs caps]|e| |]; [| |done..].
  2: { mrun (try_err _ _ _ _ (on_up_eq _ s1 u _ _ eq_refl Ea)).
       destruct (Hrej e erAccessDenied (str "28000") (str "upstream auth failed: " ++ Error e) u2) as (out & s' & -> & -> & bs & Ha & Hrf).
       eexists _, s'. split; [done|]. right. exists e, erAccessDenied, (str "28000"), (str "upstream auth failed: " ++ Error e), bs.
       split_and!; [done..|]. intros u0 u' caps [= <-] (hs & Ea' & _). congruence. }
  mrun (try_ok _ _ _ _ (on_up_eq _ s1 u _ _ eq_refl Ea)). destruct (decide (_ <> _)) as [Hne|Heq].
  - match goal with |- context [fail ?e] =>
      destruct (Hrej e erUnknownError (str "HY000") (str "proxy/upstream capability mismatch (CLIENT_DEPRECATE_EOF)") u2)
        as (out & s' & -> & -> & bs & Ha & Hrf) end.
    eexists _, s'. split; [done|]. right. eexists _, _, _, _, bs. split_and!; [done|exact Ha|done|].
    intros u0 u' caps' [= <-] (hs' & Ea' & Heq). rewrite Ea in Ea'. injection Ea' as <- <- <-. done.
  - destruct (WritePacket_healthy (cl_NextSeq login) (EncodeOKPacket 0 0 serverStatusAutocommit 0) (client_conn s) Hc) as (last & bs & Hp & Ew).
    mrun (try_ok _ _ _ _ (on_client_eq _ (set_up (Some u2) s1) _ _ Ew)).
    eexists _, _. split; [reflexivity|]. left. exists u, u2, caps, bs. split_and!; [done| |by exists last|done|done].
    exists hs. split; [done|]. by apply dec_stable.
Qed.

Lemma serve_mysql_cases login s : network_ok -> healthy (client_conn s) -> ss_up s = None ->
  exists out s', serve_mysql login s = (out, s') /\ mysql_outcome login s out s'.
Proof.
  intros Hn Hc Hu. unfold serve_mysql. rewrite M_bind_gets.
  destruct (mysql_route_of (ss_srv s) login) as [| |n rt] eqn:Er; pose proof Er as Er'; unfold mysql_route_of in Er.
  - destruct (lookupDatabase _ _ _); [by destruct (current_of _ _)|].
    match goal with |- context [mysql_refuse login ?c ?st ?m] => destruct (mysql_refuse_eq login c st m s Hc) as (bs & Ha & Eb) end.
    mrun Eb. eexists _, _. split; [done|]. unfold mysql_outcome. rewrite Er'. split; [done|]. exists bs. done.
  - destruct (lookupDatabase _ _ _) as [n|]; [|done]. destruct (current_of _ _); [done|].
    match goal with |- context [mysql_refuse login ?c ?st ?m] => destruct (mysql_refuse_eq login c st m s Hc) as (bs & Ha & Eb) end.
    mrun Eb. eexists _, _. split; [done|]. unfold mysql_outcome. rewrite Er'. split; [done|]. eexists bs, _. done.
  - destruct (lookupDatabase _ _ _) as [n'|]; [|done]. destruct (current_of _ _); [|done]. injection Er as -> ->.
    by apply connect_mysql_cases.
Qed.

(** ** The greeting *)

Lemma newMySQLSalt_clean salt : newMySQLSalt = Ok salt -> Byte.x00 ∉ salt.
Proof.
  unfold newMySQLSalt. destruct (rand_Read 20) as [e|b]; [done|]. intros [= <-].
  induction b as [|x b IH]; cbn [map]; [set_solver|]. case_decide; set_solver.
Qed.
Lemma newMySQLSalt_length salt : newMySQLSalt = Ok salt ->
  (forall n b, rand_Read n = inr b -> length b = n) -> length salt = 20%nat.
Proof.
  unfold newMySQLSalt. destruct (rand_Read 20) as [e|b] eqn:E; [done|]. intros [= <-] Hr. rewrite length_map. by apply Hr.
Qed.

Definition greeting (connectionID : Z) (salt : bytes) : bytes :=
  EncodeHandshakeV10 mysqlServerVersion connectionID mysqlProxyClientCaps DefaultCharsetUTF8MB4
    serverStatusAutocommit MySQLNativePassword salt.

(** The client's answer [payload] to the greeting, with sequence id [seq]. *)
Lemma GreetClientMySQL_read c id salt payload seq bs rest : healthy c -> newMySQLSalt = Ok salt ->
  frames payload seq bs -> rx c = bs ++ rest ->
  exists last g, packets Byte.x00 (greeting id salt) last g /\
    GreetClientMySQL mysqlServerVersion id c =
    (resp ← lift (ParseHandshakeResponse41 payload);
     mret (mkClientLogin resp (Z.land (r_Capabilities resp) mysqlProxyClientCaps) (next_seq seq)))
      (set_tx (tx c ++ g) (set_rx rest c)).
Proof.
  intros Hc Hs Hf Hrx. unfold GreetClientMySQL. mlift Hs. fold (greeting id salt).
  destruct (WritePacket_healthy Byte.x00 (greeting id salt) c Hc) as (last & g & Hp & E). exists last, g. split; [done|].
  mrun (with_err_ok (wrap_err (str "write handshake")) _ _ _ _ E).
  destruct (ReadPacket_cases (R := conn) (set_tx (tx c ++ g) c)) as (out & c1 & E1 & Ho & Hout); [apply Hc|].
  change (same_out (set_tx (tx c ++ g) c) c1) in Ho. apply same_out_set_rx in Ho as Hc1.
  cbn [pending conn_Reader rx set_tx] in Hout.
  destruct out as [[seq' payload']|e| |]; [|by edestruct Hout|done..]. destruct Hout as (bs' & Hf' & Hp').
  rewrite Hrx in Hp'. destruct (frames_inj _ _ _ _ _ _ _ _ Hf Hf' Hp') as (<- & <- & Hr).
  mrun (with_err_ok (wrap_err (str "read handshake response")) _ _ _ _ E1). rewrite Hc1, <- Hr. done.
Qed.

(** The session once the client's login packet has been read. *)
Definition greeted_session (g rest : bytes) (s : session) : session :=
  let c := client_conn s in
  set_client_conn (set_tx (tx c ++ g) (set_rx rest c))
    (set_srv (set_connSeq (uint32 (connSeq (ss_srv s) + 1)) (ss_srv s)) s).

(** C23: a MySQL client that answers the greeting with a login packet the parser
    accepts gets exactly this: it is greeted with a fresh connection id and
    salt, in a packet that a protocol-10 parser reads back; an unknown database
    or one without an active target is refused with an ERR packet carrying the
    next sequence id, without any dial; otherwise the active target is dialed
    and logged in to, and only when that succeeds and both legs agree on
    CLIENT_DEPRECATE_EOF does the client get its OK packet and is the connection
    registered and piped; any other outcome is one ERR packet, nothing
    registered and the upstream connection closed. *)
Theorem dispatchMySQL_correct s salt payload seq bs rest resp :
  network_ok -> healthy (client_conn s) -> ss_up s = None ->
  newMySQLSalt = Ok salt -> (forall n b, rand_Read n = inr b -> length b = n) ->
  frames payload seq bs -> rx (client_conn s) = bs ++ rest -> ParseHandshakeResponse41 payload = Ok resp ->
  let login := mkClientLogin resp (Z.land (r_Capabilities resp) mysqlProxyClientCaps) (next_seq seq) in
  let id := uint32 (connSeq (ss_srv s) + 1) in
  exists last g out s', packets Byte.x00 (greeting id salt) last g /\
    (exists h, ParseHandshakeV10 (greeting id salt) = Ok h /\ h_ConnectionID h = id /\ h_AuthPluginData h = salt /\
       h_Capabilities h = mysqlProxyClientCaps) /\
    dispatchMySQL s = (out, s') /\ mysql_outcome login (greeted_session g rest s) out s'.
Proof.
  intros Hn Hc Hu Hs Hrand Hf Hrx Hresp login id.
  destruct (GreetClientMySQL_read (client_conn s) id salt payload seq bs rest Hc Hs Hf Hrx) as (last & g & Hp & Eg).
  unfold dispatchMySQL. unfold lift in Eg. rewrite Hresp in Eg.
  erewrite M_bind_ok by reflexivity. cbv beta.
  mrun (with_err_ok (wrap_err (str "mysql client handshake")) _ _ _ _ (on_client_eq _ (set_srv (set_connSeq id (ss_srv s)) s) _ _ Eg)).
  destruct (serve_mysql_cases login (greeted_session g rest s) Hn) as (out & s' & E & Hout); [done|done|].
  exists last, g, out, s'. split_and!; [done| |exact E|done].
  eexists. split; [apply handshake_roundtrip_aux|done]; try done.
  - by apply str_no_nul.
  - by apply str_no_nul.
  - by apply newMySQLSalt_clean.
  - by apply newMySQLSalt_length.
  - apply uint_range. lia.
Qed.

(** If the packet a client answers the greeting with is one on which
    [ParseHandshakeResponse41] panics, [dispatchMySQL] panics, whatever the server's
    state; nothing recovers it. *)
Lemma dispatchMySQL_crashes s salt payload seq bs rest :
  healthy (client_conn s) -> newMySQLSalt = Ok salt ->
  frames payload seq bs -> rx (client_conn s) = bs ++ rest -> ParseHandshakeResponse41 payload = Panic ->
  (dispatchMySQL s).1 = Panic.
Proof.
  intros Hc Hs Hf Hrx Hp. set (id := uint32 (connSeq (ss_srv s) + 1)).
  destruct (GreetClientMySQL_read (client_conn s) id salt payload seq bs rest Hc Hs Hf Hrx) as (last & g & _ & Eg).
  unfold lift in Eg. rewrite Hp in Eg. unfold dispatchMySQL. erewrite M_bind_ok by reflexivity. cbv beta.
  erewrite M_bind_panic; [done|]. unfold with_err. erewrite (on_client_eq _ (set_srv (set_connSeq id (ss_srv s)) s)) by exact Eg. done.
Qed.
End server.

(** ** Witnesses *)

Definition toy_rand : Rand := Build_Rand (fun n => inr (repeat Byte.x00 n)).
Definition my_rt : ResolvedTarget :=
  mkResolvedTarget (str "local") (str "127.0.0.1") 3306 (str "app") (str "secret") (str "app_dev") (str "disable") [].
Definition my_server : Server :=
  mkServer ∅ 0 ∅
    (mkStore {[str "appdb" := mkDb (str "appdb") AdapterMySQL [] ∅ ∅ (Some my_rt) ∅]} ∅ ∅)
    sample_config (str "local") None false.
Definition my_session (sent : bytes) : session := mkSession my_server (NewReader (mysql_conn sent) []) None [] 0 1 2.
Definition my_dialer : Dialer := Build_Dialer (fun _ => inr toy_mysql).
Definition my_unicode : Unicode := Build_Unicode (fun _ => true).
Lemma my_network : @network_ok my_dialer toy_no_tls.
Proof. split; [|discriminate]. intros addr c [= <-]. split; reflexivity. Qed.

Definition my_login_packet : bytes :=
  EncodeHandshakeResponse41 toy_caps DefaultCharsetUTF8MB4 (str "me") [] (str "appdb") MySQLNativePassword.

Lemma dispatchMySQL_correct_witness : exists login g s',
  @mysql_outcome my_dialer toy_no_tls toy_rsa login (greeted_session g [] (my_session (frame Byte.x01 my_login_packet))) (Ok true) s'.
Proof.
  destruct (ParseHandshakeResponse41 my_login_packet) as [resp|e| |] eqn:Er; [|exfalso; revert Er; vm_compute; discriminate..].
  destruct (@dispatchMySQL_correct my_unicode my_dialer toy_no_tls toy_rsa toy_rand (my_session (frame Byte.x01 my_login_packet))
    (repeat Byte.x01 20) my_login_packet Byte.x01 (frame Byte.x01 my_login_packet) [] resp my_network (conj eq_refl eq_refl) eq_refl)
    as (last & g & out & s' & _ & _ & E & Hout);
    [vm_compute; reflexivity|intros n b [= <-]; apply repeat_length|constructor; vm_compute; reflexivity|
     change (rx (client_conn (my_session ?b))) with b; symmetry; apply app_nil_r|exact Er|].
  assert (out = Ok true) as ->.
  { apply (f_equal (fun x => match x.1 with Ok b => b | _ => false end)) in E. destruct out as [[]|e| |]; vm_compute in E; congruence. }
  eexists _, g, s'. exact Hout.
Defined.

Lemma dispatchMySQL_crashes_witness :
  (@dispatchMySQL my_unicode my_dialer toy_no_tls toy_rsa toy_rand (my_session (frame Byte.x01 crash_packet))).1 = Panic.
Proof.
  apply (@dispatchMySQL_crashes my_unicode my_dialer toy_no_tls toy_rsa toy_rand _ (repeat Byte.x01 20) crash_packet Byte.x01 (frame Byte.x01 crash_packet) []).
  - split; reflexivity.
  - vm_compute; reflexivity.
  - constructor. vm_compute. reflexivity.
  - symmetry. apply app_nil_r.
  - vm_compute. reflexivity.
Defined.
