(* ===== verification/Bson.v ===== *)
(** internal/proxy/bson.go: the BSON codec of the MongoDB adapter.

    A [float64] is its 64-bit pattern ([math.Float64bits] and its inverse are
    the identity).  The codec's Go values are the constructors of [value]; the
    encoder's panic on any other dynamic type is ruled out by the type. *)
From Stdlib Require Import Strings.Byte.
From S2P Require Import Prelude Binary Fmt Vars Cursor.

Definition bsonDouble : byte := Byte.x01.
Definition bsonString : byte := Byte.x02.
Definition bsonDocument : byte := Byte.x03.
Definition bsonArray : byte := Byte.x04.
Definition bsonBinary : byte := Byte.x05.
Definition bsonObjectID : byte := Byte.x07.
Definition bsonBool : byte := Byte.x08.
Definition bsonDateTime : byte := Byte.x09.
Definition bsonNull : byte := Byte.x0a.
Definition bsonInt32 : byte := Byte.x10.
Definition bsonTimestamp : byte := Byte.x11.
Definition bsonInt64 : byte := Byte.x12.
Definition BinarySubtypeGeneric : byte := Byte.x00.

Inductive value : Type :=
  | VDouble (bits : Z)
  | VString (s : bytes)
  | VDoc (d : list (bytes * value))
  | VArray (l : list value)
  | VBinary (subtype : byte) (data : bytes)
  | VObjectID (oid : bytes)
  | VBool (b : bool)
  | VDateTime (ms : Z)
  | VNull
  | VInt32 (z : Z)
  | VInt (z : Z)
  | VTimestamp (secs inc : Z)
  | VInt64 (z : Z).
Definition BSON : Type := list (bytes * value).

Fixpoint Lookup (d : BSON) (key : bytes) : option value :=
  match d with
  | [] => None
  | (k, v) :: d => if decide (k = key) then Some v else Lookup d key
  end.

(** ** Encoding *)

Definition appendCString (b s : bytes) : bytes := b ++ s ++ [Byte.x00].
Definition appendBSONString (b s : bytes) : bytes := b ++ le_bytes 4 (uint32 (len s + 1)) ++ s ++ [Byte.x00].
(** [binary.LittleEndian.PutUint32(b[start:], uint32(len(b)-start))]. *)
Definition patch_length (start : Z) (b : bytes) : bytes :=
  take (Z.to_nat start) b ++ le_bytes 4 (uint32 (len b - start)) ++ drop (Z.to_nat start + 4) b.
(** [AppendBSON], given how to append the elements. *)
Definition append_document (elements : bytes -> bytes) (b : bytes) : bytes :=
  let start := len b in
  patch_length start (elements (b ++ zeros 4) ++ [Byte.x00]).

Fixpoint appendBSONElement (b key : bytes) (v : value) {struct v} : bytes :=
  match v with
  | VDouble bits => appendCString (b ++ [bsonDouble]) key ++ le_bytes 8 bits
  | VString s => appendBSONString (appendCString (b ++ [bsonString]) key) s
  | VDoc d =>
      append_document (fun b => fold_left (fun b kv => appendBSONElement b kv.1 kv.2) d b)
        (appendCString (b ++ [bsonDocument]) key)
  | VArray l =>
      append_document
        (fun b => (fix go (i : Z) (l : list value) (b : bytes) : bytes :=
                     match l with
                     | [] => b
                     | e :: l => go (i + 1) l (appendBSONElement b (Itoa i) e)
                     end) 0 l b)
        (appendCString (b ++ [bsonArray]) key)
  | VBinary subtype data =>
      appendCString (b ++ [bsonBinary]) key ++ le_bytes 4 (uint32 (len data)) ++ [subtype] ++ data
  | VObjectID oid => appendCString (b ++ [bsonObjectID]) key ++ oid
  | VBool x => appendCString (b ++ [bsonBool]) key ++ [if x then Byte.x01 else Byte.x00]
  | VDateTime ms => appendCString (b ++ [bsonDateTime]) key ++ le_bytes 8 (uint64 ms)
  | VNull => appendCString (b ++ [bsonNull]) key
  | VInt32 z => appendCString (b ++ [bsonInt32]) key ++ le_bytes 4 (uint32 z)
  | VInt z => appendCString (b ++ [bsonInt32]) key ++ le_bytes 4 (uint32 (int32 z))
  | VTimestamp secs inc => appendCString (b ++ [bsonTimestamp]) key ++ le_bytes 4 inc ++ le_bytes 4 secs
  | VInt64 z => appendCString (b ++ [bsonInt64]) key ++ le_bytes 8 (uint64 z)
  end.
Definition AppendBSON (b : bytes) (d : BSON) : bytes :=
  append_document (fun b => fold_left (fun b kv => appendBSONElement b kv.1 kv.2) d b) b.
Definition MarshalBSON (d : BSON) : bytes := AppendBSON [] d.

(** ** Decoding *)

Definition readCString (b : bytes) (pos : Z) : res (bytes * Z) :=
  match find_nul (drop (Z.to_nat pos) b) pos with
  | Some i => s ← slice b pos i; Ok (s, i + 1)
  | None => Err (Errorf (str "bson: unterminated cstring at %d") [FInt pos])
  end.

Definition readBSONString (b : bytes) (pos : Z) : res (bytes * Z) :=
  if decide (pos + 4 > len b) then Err (Errorf (str "bson: truncated string length") []) else
  n ← Int32_at b pos;
  if decide (n < 1) then Err (Errorf (str "bson: invalid string length %d") [FInt n]) else
  let start := pos + 4 in
  if decide (start + n > len b) then Err (Errorf (str "bson: string length %d out of range") [FInt n]) else
  last ← index b (start + n - 1);
  if decide (last <> Byte.x00) then Err (Errorf (str "bson: string not NUL-terminated") []) else
  s ← slice b start (start + n - 1);
  Ok (s, start + n).

Definition truncated (b : bytes) (pos n : Z) (what : bytes) (k : res (value * Z)) : res (value * Z) :=
  if decide (pos + n > len b) then Err (Errorf (str "bson: truncated " ++ what) []) else k.

(** [rec] reads a nested document. *)
Definition readBSONValue (rec : bytes -> res (BSON * Z)) (t : byte) (b : bytes) (pos : Z) : res (value * Z) :=
  if decide (t = bsonDouble) then
    truncated b pos 8 (str "double") (z ← Uint64_at b pos; Ok (VDouble z, pos + 8))
  else if decide (t = bsonString) then '(s, np) ← readBSONString b pos; Ok (VString s, np)
  else if decide (t = bsonDocument) then
    rest ← slice_from b pos; '(sub, n) ← rec rest; Ok (VDoc sub, pos + n)
  else if decide (t = bsonArray) then
    rest ← slice_from b pos; '(sub, n) ← rec rest; Ok (VArray (sub.*2), pos + n)
  else if decide (t = bsonBinary) then
    if decide (pos + 5 > len b) then Err (Errorf (str "bson: truncated binary header") []) else
    blen ← Int32_at b pos;
    subtype ← index b (pos + 4);
    let start := pos + 5 in
    if decide (blen < 0 \/ start + blen > len b)
    then Err (Errorf (str "bson: binary length %d out of range") [FInt blen]) else
    data ← slice b start (start + blen);
    Ok (VBinary subtype data, start + blen)
  else if decide (t = bsonObjectID) then
    truncated b pos 12 (str "objectid") (oid ← slice b pos (pos + 12); Ok (VObjectID oid, pos + 12))
  else if decide (t = bsonBool) then
    truncated b pos 1 (str "bool") (x ← index b pos; Ok (VBool (bool_decide (x <> Byte.x00)), pos + 1))
  else if decide (t = bsonDateTime) then
    truncated b pos 8 (str "datetime") (z ← Uint64_at b pos; Ok (VDateTime (int64 z), pos + 8))
  else if decide (t = bsonNull) then Ok (VNull, pos)
  else if decide (t = bsonInt32) then
    truncated b pos 4 (str "int32") (z ← Int32_at b pos; Ok (VInt32 z, pos + 4))
  else if decide (t = bsonTimestamp) then
    truncated b pos 8 (str "timestamp")
      (inc ← Uint32_at b pos; secs ← Uint32_at b (pos + 4); Ok (VTimestamp secs inc, pos + 8))
  else if decide (t = bsonInt64) then
    truncated b pos 8 (str "int64") (z ← Uint64_at b pos; Ok (VInt64 (int64 z), pos + 8))
  else Err (Errorf (str "bson: unsupported element type 0x%02x") [FByte t]).

(** The element loop of [ReadBSONDocument]. *)
Fixpoint read_elements (rec : bytes -> res (BSON * Z)) (fuel : nat) (doc : bytes) (pos : Z) (out : BSON) : res (BSON * Z) :=
  match fuel with
  | O => NoFuel
  | S fuel =>
      if decide (pos >= len doc) then Err (Errorf (str "bson: document not terminated") []) else
      t ← index doc pos;
      let pos := pos + 1 in
      if decide (t = Byte.x00) then
        if decide (pos <> len doc)
        then Err (Errorf (str "bson: %d trailing bytes after terminator") [FInt (len doc - pos)]) else Ok (out, len doc)
      else
      '(key, pos) ← readCString doc pos;
      '(val, pos) ← readBSONValue rec t doc pos;
      read_elements rec fuel doc pos (out ++ [(key, val)])
  end.
(** [fuel] bounds the nesting; a nested document is shorter than its parent. *)
Fixpoint read_document (fuel : nat) (b : bytes) : res (BSON * Z) :=
  match fuel with
  | O => NoFuel
  | S fuel =>
      if decide (len b < 5) then Err (Errorf (str "bson: document too short (%d bytes)") [FInt (len b)]) else
      length_ ← Int32_at b 0;
      if decide (length_ < 5 \/ length_ > len b)
      then Err (Errorf (str "bson: invalid document length %d (have %d bytes)") [FInt length_; FInt (len b)]) else
      doc ← slice b 0 length_;
      read_elements (read_document fuel) (S (length doc)) doc 4 []
  end.
Definition ReadBSONDocument (b : bytes) : res (BSON * Z) := read_document (S (length b)) b.

Arguments ReadBSONDocument : simpl never.
Arguments AppendBSON : simpl never.
Arguments patch_length : simpl never.

(** ** The format *)

Definition tag (v : value) : byte :=
  match v with
  | VDouble _ => bsonDouble | VString _ => bsonString | VDoc _ => bsonDocument | VArray _ => bsonArray
  | VBinary _ _ => bsonBinary | VObjectID _ => bsonObjectID | VBool _ => bsonBool | VDateTime _ => bsonDateTime
  | VNull => bsonNull | VInt32 _ | VInt _ => bsonInt32 | VTimestamp _ _ => bsonTimestamp | VInt64 _ => bsonInt64
  end.
Definition document (body : bytes) : bytes := le_bytes 4 (len body + 5) ++ body ++ [Byte.x00].
Fixpoint payload (v : value) : bytes :=
  match v with
  | VDouble bits => le_bytes 8 bits
  | VString s => le_bytes 4 (len s + 1) ++ s ++ [Byte.x00]
  | VDoc d => document (concat (map (fun kv => tag kv.2 :: kv.1 ++ Byte.x00 :: payload kv.2) d))
  | VArray l =>
      document ((fix go (i : Z) (l : list value) : bytes :=
                   match l with [] => [] | e :: l => (tag e :: Itoa i ++ Byte.x00 :: payload e) ++ go (i + 1) l end) 0 l)
  | VBinary subtype data => le_bytes 4 (len data) ++ [subtype] ++ data
  | VObjectID oid => oid
  | VBool x => [if x then Byte.x01 else Byte.x00]
  | VDateTime ms => le_bytes 8 ms
  | VNull => []
  | VInt32 z | VInt z => le_bytes 4 z
  | VTimestamp secs inc => le_bytes 4 inc ++ le_bytes 4 secs
  | VInt64 z => le_bytes 8 z
  end.
Definition element (kv : bytes * value) : bytes := tag kv.2 :: kv.1 ++ Byte.x00 :: payload kv.2.
Definition body (d : BSON) : bytes := concat (map element d).
(** An array is encoded as a document with the indices as keys. *)
Fixpoint array_elems (i : Z) (l : list value) : BSON :=
  match l with [] => [] | e :: l => (Itoa i, e) :: array_elems (i + 1) l end.

Lemma payload_doc d : payload (VDoc d) = document (body d).
Proof. done. Qed.
Lemma payload_array l : payload (VArray l) = document (body (array_elems 0 l)).
Proof.
  cbn [payload]. f_equal. generalize 0. induction l as [|e l IH]; intros i; [done|].
  cbn [array_elems]. unfold body. cbn [map concat]. by rewrite IH.
Qed.

(** Induction over values with nested documents and arrays. *)
Section value_ind.
Variable P : value -> Prop.
Hypothesis (Hdouble : forall z, P (VDouble z)) (Hstring : forall s, P (VString s))
  (Hdoc : forall d, Forall (fun kv => P kv.2) d -> P (VDoc d)) (Harray : forall l, Forall P l -> P (VArray l))
  (Hbinary : forall t s, P (VBinary t s)) (Hoid : forall s, P (VObjectID s)) (Hbool : forall x, P (VBool x))
  (Hdate : forall z, P (VDateTime z)) (Hnull : P VNull) (Hint32 : forall z, P (VInt32 z)) (Hint : forall z, P (VInt z))
  (Hts : forall a c, P (VTimestamp a c)) (Hint64 : forall z, P (VInt64 z)).
Fixpoint value_ind' (v : value) : P v :=
  match v with
  | VDouble z => Hdouble z | VString s => Hstring s
  | VDoc d => Hdoc d ((fix go (d : BSON) : Forall (fun kv => P kv.2) d :=
      match d with [] => List.Forall_nil _ | kv :: d => List.Forall_cons _ _ _ (value_ind' kv.2) (go d) end) d)
  | VArray l => Harray l ((fix go (l : list value) : Forall P l :=
      match l with [] => List.Forall_nil _ | e :: l => List.Forall_cons _ _ _ (value_ind' e) (go l) end) l)
  | VBinary t s => Hbinary t s | VObjectID s => Hoid s | VBool x => Hbool x | VDateTime z => Hdate z
  | VNull => Hnull | VInt32 z => Hint32 z | VInt z => Hint z | VTimestamp a c => Hts a c | VInt64 z => Hint64 z
  end.
End value_ind.

(** ** The encoder produces the format *)

Lemma append_document_eq elements b bd : (forall b, elements b = b ++ bd) -> append_document elements b = b ++ document bd.
Proof.
  intros He. unfold append_document, patch_length, document. rewrite He.
  replace (Z.to_nat (len b)) with (length b) by (unfold len; lia).
  replace (len (((b ++ zeros 4) ++ bd) ++ [Byte.x00]) - len b) with (len bd + 5) by len_lia.
  rewrite <- !app_assoc, take_app_length. f_equal.
  rewrite drop_app_ge by lia. replace (length b + 4 - length b)%nat with 4%nat by lia.
  by rewrite le_bytes_uint by done.
Qed.

Lemma appendBSONElement_eq v : forall b key, appendBSONElement b key v = b ++ element (key, v).
Proof.
  induction v as [z|s|d IH|l IH|t s|s|x|z| |z|z|a c|z] using value_ind'; intros b key; cbn [appendBSONElement];
    unfold element, appendCString, appendBSONString; cbn [fst snd].
  3: { rewrite (append_document_eq _ _ (body d)); [by rewrite <- !app_assoc|]. intros b'.
       revert b'. induction IH as [|kv d Hkv _ IHd]; intros b'; [by rewrite app_nil_r|]. cbn [fold_left].
       rewrite IHd, Hkv. destruct kv. unfold body. cbn [map concat]. by rewrite app_assoc. }
  3: { rewrite payload_array. rewrite (append_document_eq _ _ (body (array_elems 0 l))); [by rewrite <- !app_assoc|].
       intros b'. generalize 0. revert b'. induction IH as [|e l He _ IHl]; intros b' i; [by rewrite app_nil_r|].
       rewrite IHl, He. cbn [array_elems]. unfold body. cbn [map concat]. by rewrite app_assoc. }
  all: cbn [tag payload]; rewrite ?le_bytes_uint by done; rewrite <- ?app_assoc; try done.
  rewrite <- (le_bytes_uint 4 (int32 z) 32), <- (le_bytes_uint 4 z 32) by done. unfold uint. by rewrite sint_mod by lia.
Qed.

Lemma AppendBSON_eq b d : AppendBSON b d = b ++ document (body d).
Proof.
  apply append_document_eq. intros b'. revert b'. induction d as [|[k v] d IH]; intros b'; [by rewrite app_nil_r|].
  cbn [fold_left fst snd]. rewrite IH, appendBSONElement_eq. unfold body. cbn [map concat]. by rewrite app_assoc.
Qed.

(** ** Well-formed values *)

(** What a value must satisfy to fit the format: NUL-free keys, integers in the
    range of their Go types, and lengths below 2^31. *)
Definition in_int (w z : Z) : bool := (- 2 ^ (w - 1) <=? z) && (z <? 2 ^ (w - 1)).
Definition in_uint (w z : Z) : bool := (0 <=? z) && (z <? 2 ^ w).
Definition key_ok (k : bytes) : bool := bool_decide (Byte.x00 ∉ k).
Fixpoint value_ok (v : value) : bool :=
  match v with
  | VDouble bits => in_uint 64 bits
  | VString s => len s + 1 <? 2 ^ 31
  | VDoc d => forallb (fun kv => key_ok kv.1 && value_ok kv.2) d && (len (payload (VDoc d)) <? 2 ^ 31)
  | VArray l => forallb value_ok l && (len (payload (VArray l)) <? 2 ^ 31)
  | VBinary _ data => len data <? 2 ^ 31
  | VObjectID oid => Nat.eqb (length oid) 12
  | VDateTime z | VInt64 z => in_int 64 z
  | VInt32 z => in_int 32 z
  | VTimestamp secs inc => in_uint 32 secs && in_uint 32 inc
  | VBool _ | VNull | VInt _ => true
  end.
Definition doc_ok (d : BSON) : bool := value_ok (VDoc d).

(** What is read back: a Go [int] comes back as an [int32]. *)
Fixpoint norm (v : value) : value :=
  match v with
  | VDoc d => VDoc (map (fun kv => (kv.1, norm kv.2)) d)
  | VArray l => VArray (map norm l)
  | VInt z => VInt32 (int32 z)
  | v => v
  end.
Definition norm_doc (d : BSON) : BSON := map (fun kv => (kv.1, norm kv.2)) d.

Lemma in_int_spec w z : in_int w z = true -> - 2 ^ (w - 1) <= z < 2 ^ (w - 1).
Proof. unfold in_int. intros [?%Z.leb_le ?%Z.ltb_lt]%andb_true_iff. lia. Qed.
Lemma in_uint_spec w z : in_uint w z = true -> 0 <= z < 2 ^ w.
Proof. unfold in_uint. intros [?%Z.leb_le ?%Z.ltb_lt]%andb_true_iff. lia. Qed.

(** ** Fields *)

Lemma at_Uint64 b pos z rest : at_pos b pos (le_bytes 8 z ++ rest) -> Uint64_at b pos = Ok (uint64 z).
Proof.
  intros H. unfold Uint64_at. erewrite at_slice by (exact H || len_lia). cbn [mbind res_bind].
  unfold LittleEndian.Uint64. rewrite slice_prefix by len_lia. rewrite take_ge by (by rewrite length_le_bytes).
  cbn [mbind res_bind mret res_ret]. by rewrite le_val_le_bytes.
Qed.
Lemma at_Int32 b pos z rest : at_pos b pos (le_bytes 4 z ++ rest) -> Int32_at b pos = Ok (int32 z).
Proof.
  intros H. rewrite <- (le_bytes_uint 4 z 32) in H by done. unfold Int32_at.
  rewrite (at_Uint32 _ _ _ _ H) by (apply uint_range; lia). cbn [mbind res_bind]. by rewrite sint_uint.
Qed.
Lemma at_readCString b pos s rest : at_pos b pos (s ++ Byte.x00 :: rest) -> Byte.x00 ∉ s ->
  readCString b pos = Ok (s, pos + len s + 1) /\ at_pos b (pos + len s + 1) rest.
Proof.
  intros H Hs. split; [|by apply (at_cons _ _ Byte.x00), at_app].
  destruct H as (pre & -> & <-). unfold readCString, len.
  rewrite Nat2Z.id, drop_app_length, find_nul_eq, IndexByte_app by done.
  cbn [fmap option_fmap option_map]. by rewrite slice_mid by (unfold len; lia).
Qed.

Lemma at_readBSONString b pos s rest : at_pos b pos (le_bytes 4 (len s + 1) ++ s ++ Byte.x00 :: rest) ->
  len s + 1 < 2 ^ 31 -> readBSONString b pos = Ok (s, pos + 4 + (len s + 1)).
Proof.
  intros H Hl. pose proof (len_nonneg s). unfold readBSONString. in_range H. rewrite (at_Int32 _ _ _ _ H). cbn [mbind res_bind].
  rewrite sint_small by (change (2 ^ (32 - 1)) with (2 ^ 31); lia). rewrite decide_False by lia.
  apply at_app in H as H1. rewrite len_le_bytes in H1. change (Z.of_nat 4) with 4 in H1. in_range H1.
  apply at_app in H1 as H2. replace (pos + 4 + (len s + 1) - 1) with (pos + 4 + len s) by lia.
  rewrite (at_index _ _ _ _ H2). cbn [mbind res_bind]. rewrite decide_False by naive_solver.
  erewrite at_slice by (exact H1 || lia). done.
Qed.

(** Reduce the type switch of [readBSONValue]. *)
Ltac tag_switch :=
  unfold readBSONValue; repeat (rewrite (decide_False (P := @eq byte _ _)) by discriminate);
  try rewrite (decide_True (P := @eq byte _ _)) by reflexivity.
(** Pass a "truncated" check at the cursor [A]. *)
Ltac not_truncated A := unfold truncated; in_range A.

Definition reads (rec : bytes -> res (BSON * Z)) (v : value) : Prop :=
  forall b pos rest, at_pos b pos (payload v ++ rest) -> readBSONValue rec (tag v) b pos = Ok (norm v, pos + len (payload v)).

(** The element loop reads back a list of elements. *)
Lemma read_elements_ok rec d doc pos out fuel :
  Forall (fun kv => Byte.x00 ∉ kv.1 /\ reads rec kv.2) d -> (length d < fuel)%nat ->
  at_pos doc pos (body d ++ [Byte.x00]) -> read_elements rec fuel doc pos out = Ok (out ++ norm_doc d, len doc).
Proof.
  intros Hd. revert doc pos out fuel. induction Hd as [|[k v] d [Hk Hv] _ IH]; intros doc pos out fuel Hf A;
    (destruct fuel as [|fuel]; [lia|]); cbn [read_elements].
  - in_range A. rewrite (at_index _ _ _ _ A). cbn [mbind res_bind]. rewrite decide_True by done.
    pose proof (at_len _ _ _ A) as [Hl _]. rewrite decide_False by (cbn in Hl; len_lia). by rewrite app_nil_r.
  - unfold body in A. cbn [map concat] in A. unfold element in A at 1. cbn [fst snd] in *. rewrite <- app_assoc in A.
    cbn [app] in A. rewrite <- app_assoc in A. cbn [app] in A. in_range A. rewrite (at_index _ _ _ _ A). cbn [mbind res_bind].
    rewrite decide_False by (by destruct v). apply at_cons in A as A1.
    destruct (at_readCString _ _ _ _ A1 Hk) as [-> A2]. cbn [mbind res_bind].
    rewrite (Hv _ _ _ A2). cbn [mbind res_bind]. apply at_app in A2 as A3.
    rewrite IH; [by rewrite <- app_assoc|cbn in Hf; lia|done].
Qed.

Lemma length_body d : (length d <= length (body d))%nat.
Proof. unfold body. induction d as [|[k v] d IH]; cbn [map concat length]; [lia|]. rewrite length_app. cbn. lia. Qed.

Lemma read_document_ok fuel d rest :
  Forall (fun kv => Byte.x00 ∉ kv.1 /\ reads (read_document fuel) kv.2) d -> len (document (body d)) < 2 ^ 31 ->
  read_document (S fuel) (document (body d) ++ rest) = Ok (norm_doc d, len (document (body d))).
Proof.
  intros Hd Hl. cbn [read_document]. set (b := document (body d) ++ rest).
  assert (len (document (body d)) = len (body d) + 5) as Hlen by (unfold document; len_lia).
  pose proof (at_start b) as A. unfold b at 2, document in A. rewrite <- !app_assoc in A.
  in_range A. rewrite (at_Int32 _ _ _ _ A). cbn [mbind res_bind].
  rewrite sint_small by (change (2 ^ (32 - 1)) with (2 ^ 31); pose_len; lia).
  rewrite decide_False by (unfold b; rewrite len_app; pose_len; lia).
  assert (slice b 0 (len (body d) + 5) = Ok (document (body d))) as -> by (apply (slice_mid []); [done|len_lia]).
  cbn [mbind res_bind]. rewrite (read_elements_ok _ d); [done|done| |].
  - pose proof (length_body d). unfold document. rewrite !length_app. cbn. lia.
  - exists (le_bytes 4 (len (body d) + 5)). split; [done|len_lia].
Qed.

Lemma body_elem d kv : kv ∈ d -> (length (payload kv.2) + 5 <= length (document (body d)))%nat.
Proof.
  intros Hin. assert (length (payload kv.2) <= length (body d))%nat.
  2: { unfold document. rewrite !length_app, length_le_bytes. cbn. lia. }
  unfold body. induction d as [|kv' d IH]; [set_solver|]. cbn [map concat]. rewrite length_app.
  apply elem_of_cons in Hin as [->|Hin]; [|specialize (IH Hin); lia].
  unfold element. cbn [length]. rewrite length_app. cbn [length]. lia.
Qed.

(** A well-formed document reads back, given that its values do. *)
Lemma nested_reads d fuel rest :
  Forall (fun kv => Byte.x00 ∉ kv.1) d ->
  Forall (fun kv => forall fuel, (length (payload kv.2) <= fuel)%nat -> reads (read_document fuel) kv.2) d ->
  len (document (body d)) < 2 ^ 31 -> (length (document (body d)) <= fuel)%nat ->
  read_document fuel (document (body d) ++ rest) = Ok (norm_doc d, len (document (body d))).
Proof.
  intros Hk Hv Hl Hf. destruct fuel as [|fuel]; [unfold document in Hf; rewrite !length_app, length_le_bytes in Hf; lia|].
  apply read_document_ok; [|done]. rewrite Forall_forall in *. intros kv Hin. split; [by apply Hk|].
  apply Hv; [done|]. pose proof (body_elem d kv Hin). lia.
Qed.

Lemma array_elems_Forall (P : bytes * value -> Prop) l i :
  (forall j e, e ∈ l -> P (Itoa j, e)) -> Forall P (array_elems i l).
Proof.
  revert i. induction l as [|e l IH]; intros i H; cbn [array_elems]; [by apply Forall_nil|].
  apply Forall_cons. split; [apply H; set_solver|]. apply IH. set_solver.
Qed.
Lemma array_elems_norm l i : (norm_doc (array_elems i l)).*2 = map norm l.
Proof. revert i. induction l as [|e l IH]; intros i; [done|]. cbn. f_equal. apply IH. Qed.

(** Read a fixed-width value: [A] is the cursor, [R] the lemma on the field. *)
Ltac fixed_value A R :=
  cbn [payload] in A; cbn [tag]; tag_switch; not_truncated A; rewrite (R _ _ _ _ A); cbn [mbind res_bind norm payload];
  rewrite ?sint_uint, ?sint_small, ?uint_small, ?len_le_bytes by lia; done.

Definition is_nested (v : value) : bool := match v with VDoc _ | VArray _ => true | _ => false end.
Lemma flat_reads rec v : is_nested v = false -> value_ok v = true -> reads rec v.
Proof.
  intros Hn Hok b pos rest A. destruct v as [z|s|d|l|t s|s|x|z| |z|z|a c|z]; try discriminate Hn; cbn [value_ok] in Hok.
  - apply in_uint_spec in Hok. fixed_value A at_Uint64.
  - apply Z.ltb_lt in Hok. cbn [tag]. tag_switch. cbn [payload] in A. rewrite <- !app_assoc in A.
    rewrite (at_readBSONString _ _ _ _ A) by done. cbn [mbind res_bind norm payload]. do 2 f_equal. len_lia.
  - apply Z.ltb_lt in Hok. cbn [tag]. tag_switch. cbn [payload] in A. rewrite <- !app_assoc in A.
    pose proof (len_nonneg s). in_range A. rewrite (at_Int32 _ _ _ _ A). cbn [mbind res_bind].
    rewrite sint_small by (change (2 ^ (32 - 1)) with (2 ^ 31); lia).
    apply at_app in A as A1. rewrite len_le_bytes in A1. change (Z.of_nat 4) with 4 in A1. rewrite (at_index _ _ _ _ A1). cbn [mbind res_bind].
    apply at_cons in A1 as A2. replace (pos + 4 + 1) with (pos + 5) in A2 by lia.
    rewrite decide_False by (pose proof (at_len _ _ _ A2); len_lia). erewrite at_slice by (exact A2 || lia).
    cbn [mbind res_bind norm payload]. do 2 f_equal. len_lia.
  - apply Nat.eqb_eq in Hok. assert (len s = 12) as Hs by (unfold len; lia).
    cbn [tag]. tag_switch. cbn [payload] in *. not_truncated A. erewrite at_slice by (exact A || lia). cbn [mbind res_bind norm]. by rewrite Hs.
  - cbn [tag]. tag_switch. cbn [payload app] in *. not_truncated A. rewrite (at_index _ _ _ _ A). by destruct x.
  - apply in_int_spec in Hok. fixed_value A at_Uint64.
  - cbn [tag]. tag_switch. cbn [norm payload]. by rewrite len_nil, Z.add_0_r.
  - apply in_int_spec in Hok. fixed_value A at_Int32.
  - fixed_value A at_Int32.
  - apply andb_true_iff in Hok as [Ha%in_uint_spec Hc%in_uint_spec]. cbn [tag]. tag_switch. cbn [payload] in A.
    rewrite <- app_assoc in A. not_truncated A. rewrite (at_Uint32 _ _ _ _ A) by done. cbn [mbind res_bind].
    apply at_app in A as A1. rewrite len_le_bytes in A1. change (Z.of_nat 4) with 4 in A1.
    rewrite (at_Uint32 _ _ _ _ A1) by done. cbn [mbind res_bind norm payload]. done.
  - apply in_int_spec in Hok. fixed_value A at_Uint64.
Qed.

Lemma forallb_Forall {A} (f : A -> bool) l : forallb f l = true -> Forall (fun x => f x = true) l.
Proof. intros H. apply List.Forall_forall. by apply forallb_forall. Qed.
Lemma doc_fields (d : BSON) : forallb (fun kv => key_ok kv.1 && value_ok kv.2) d = true ->
  Forall (fun kv => Byte.x00 ∉ kv.1 /\ value_ok kv.2 = true) d.
Proof. intros H. eapply Forall_impl; [by apply forallb_Forall|]. by intros kv [?%bool_decide_eq_true ?]%andb_true_iff. Qed.

Lemma value_reads v : value_ok v = true -> forall fuel, (length (payload v) <= fuel)%nat -> reads (read_document fuel) v.
Proof.
  induction v as [| |d IH|l IH| | | | | | | | |] using value_ind'; intros Hok fuel Hf; try by apply flat_reads.
  - intros b pos rest A. cbn [value_ok] in Hok. apply andb_true_iff in Hok as [Hd%doc_fields Hl%Z.ltb_lt].
    cbn [tag]. tag_switch. rewrite (at_slice_from _ _ _ A). cbn [mbind res_bind]. rewrite payload_doc in *.
    rewrite nested_reads; [done|by eapply Forall_impl; [exact Hd|intros kv []]| |done|done].
    rewrite Forall_forall in *. intros kv Hin. apply (IH kv Hin). by apply Hd.
  - intros b pos rest A. cbn [value_ok] in Hok. apply andb_true_iff in Hok as [Hd%forallb_Forall Hl%Z.ltb_lt].
    cbn [tag]. tag_switch. rewrite (at_slice_from _ _ _ A). cbn [mbind res_bind]. rewrite payload_array in *.
    rewrite nested_reads; [cbn [mbind res_bind norm]; by rewrite array_elems_norm| | |done|done].
    + apply array_elems_Forall. intros. apply Itoa_no_nul.
    + apply array_elems_Forall. intros j e Hin. rewrite Forall_forall in IH, Hd. apply (IH e Hin). by apply Hd.
Qed.

Lemma ReadBSONDocument_ok d rest : doc_ok d = true ->
  ReadBSONDocument (document (body d) ++ rest) = Ok (norm_doc d, len (document (body d))).
Proof.
  intros Hok. unfold ReadBSONDocument, doc_ok in *. cbn [value_ok] in Hok. apply andb_true_iff in Hok as [Hd%doc_fields Hl%Z.ltb_lt].
  rewrite payload_doc in Hl.
  apply nested_reads; [by eapply Forall_impl; [exact Hd|intros kv []]| |done|rewrite length_app; lia].
  eapply Forall_impl; [exact Hd|]. intros kv []. by apply value_reads.
Qed.

(** ** The decoder is total *)

(** [r] is a value and a position between [lo] and [hi], or an error. *)
Definition within {A} (lo hi : Z) (r : res (A * Z)) : Prop :=
  match r with Ok (_, p) => lo <= p <= hi | Err _ => True | _ => False end.
Lemma within_weaken {A} lo lo' hi hi' (r : res (A * Z)) : within lo hi r -> lo' <= lo -> hi <= hi' -> within lo' hi' r.
Proof. destruct r as [[a p]| | |]; cbn; [lia|done..]. Qed.
Lemma within_bind {A B} lo hi lo' hi' (r : res (A * Z)) (k : A * Z -> res (B * Z)) :
  within lo hi r -> (forall a p, r = Ok (a, p) -> lo <= p <= hi -> within lo' hi' (k (a, p))) -> within lo' hi' (r ≫= k).
Proof. destruct r as [[a p]| | |]; cbn; auto. Qed.
Lemma within_read {A B} lo hi (r : res A) (k : A -> res (B * Z)) :
  safe r -> (forall a, r = Ok a -> within lo hi (k a)) -> within lo hi (r ≫= k).
Proof. destruct r; cbn; auto. Qed.
Lemma within_safe {A} lo hi (r : res (A * Z)) : within lo hi r -> safe r.
Proof. by destruct r as [[]| | |]. Qed.

Lemma safe_Uint64_at b pos : 0 <= pos -> pos + 8 <= len b -> safe (Uint64_at b pos).
Proof.
  intros H1 H2. unfold Uint64_at. apply safe_bind; [apply safe_slice; lia|]. intros s Hs.
  unfold LittleEndian.Uint64. apply slice_len in Hs. by rewrite slice_prefix by lia.
Qed.
Lemma safe_Int32_at b pos : 0 <= pos -> pos + 4 <= len b -> safe (Int32_at b pos).
Proof. intros H1 H2. unfold Int32_at. apply safe_bind; [by apply safe_Uint32_at|done]. Qed.

Create HintDb bson.
#[export] Hint Resolve safe_Uint64_at safe_Uint32_at safe_Int32_at safe_index safe_slice : bson.
#[export] Hint Extern 5 (_ <= _) => lia : bson.
#[export] Hint Extern 5 (_ < _) => lia : bson.
#[export] Hint Extern 5 (_ /\ _) => lia : bson.

Lemma find_nul_range rest i j : find_nul rest i = Some j -> i <= j < i + len rest.
Proof.
  revert i. induction rest as [|x rest IH]; intros i H; cbn in H; [done|]. case_decide; [injection H as ->|apply IH in H]; len_lia.
Qed.
Lemma readCString_within b pos : 0 <= pos <= len b -> within (pos + 1) (len b) (readCString b pos).
Proof.
  intros Hp. unfold readCString. destruct (find_nul _ _) as [i|] eqn:E; [|done]. apply find_nul_range in E.
  assert (len (drop (Z.to_nat pos) b) = len b - pos) as Hl by (unfold len in *; rewrite length_drop; lia).
  apply within_read; [auto with bson|]. intros s _. cbn. lia.
Qed.
Lemma readBSONString_within b pos : 0 <= pos <= len b -> within pos (len b) (readBSONString b pos).
Proof.
  intros Hp. unfold readBSONString. case_decide; [done|]. apply within_read; [auto with bson|]. intros n _.
  case_decide; [done|]. case_decide; [done|]. apply within_read; [auto with bson|]. intros x _. case_decide; [done|].
  apply within_read; [auto with bson|]. intros s _. cbn. lia.
Qed.
Lemma truncated_within b pos n what k :
  (pos + n <= len b -> within pos (len b) k) -> within pos (len b) (truncated b pos n what k).
Proof. intros Hk. unfold truncated. case_decide; [done|]. apply Hk. lia. Qed.

(** Nested reads are on shorter input. *)
Lemma readBSONValue_within rec t b pos : 1 <= pos <= len b ->
  (forall rest, len rest < len b -> within 5 (len rest) (rec rest)) -> within pos (len b) (readBSONValue rec t b pos).
Proof.
  intros Hp Hrec. assert (forall A (k : BSON -> A),
    within pos (len b) (rest ← slice_from b pos; '(d, n) ← rec rest; Ok (k d, pos + n))) as Hnest.
  { intros A k. rewrite slice_suffix by lia. cbn [mbind res_bind].
    assert (len (drop (Z.to_nat pos) b) = len b - pos) as Hl by (unfold len in *; rewrite length_drop; lia).
    eapply within_bind; [apply Hrec; lia|]. intros d n _ Hn. cbn. lia. }
  unfold readBSONValue. repeat (case_decide; [try (apply truncated_within; intros ?)|]); try done.
  all: try first [apply (Hnest _ VDoc)|apply (Hnest _ (fun d : BSON => VArray d.*2))].
  all: try (apply within_read; [auto with bson|]; intros ? _; try (apply within_read; [auto with bson|]; intros ? _); cbn; lia).
  - eapply within_bind; [apply readBSONString_within; lia|]. intros s p _ Hsp. done.
  - apply within_read; [auto with bson|]. intros n _. apply within_read; [auto with bson|]. intros x _. case_decide; [done|].
    apply within_read; [auto with bson|]. intros s _. cbn. lia.
  - cbn. lia.
Qed.

Lemma read_elements_within rec fuel doc pos out : 1 <= pos <= len doc -> len doc - pos < Z.of_nat fuel ->
  (forall rest, len rest < len doc -> within 5 (len rest) (rec rest)) ->
  within (len doc) (len doc) (read_elements rec fuel doc pos out).
Proof.
  intros Hp Hf Hrec. revert pos out Hp Hf. induction fuel as [|fuel IH]; intros pos out Hp Hf; [lia|]. cbn [read_elements].
  case_decide; [done|]. apply within_read; [auto with bson|]. intros t _. case_decide; [case_decide; [done|]; cbn; lia|].
  eapply within_bind; [apply readCString_within; lia|]. intros key p _ Hkey.
  eapply within_bind; [apply readBSONValue_within; [lia|done]|]. intros v p' _ Hv. apply IH; lia.
Qed.
Lemma read_document_within fuel b : (length b < fuel)%nat -> within 5 (len b) (read_document fuel b).
Proof.
  revert b. induction fuel as [|fuel IH]; intros b Hf; [lia|]. cbn [read_document]. case_decide; [done|].
  apply within_read; [auto with bson|]. intros n _. case_decide; [done|].
  apply within_read; [auto with bson|]. intros doc Hd. apply slice_len in Hd.
  eapply within_weaken; [apply read_elements_within| |]; unfold len in *; try lia.
  intros rest Hr. apply IH. lia.
Qed.

(** On any input: an error, or a document and its size, within the input. *)
Lemma ReadBSONDocument_within b : within 5 (len b) (ReadBSONDocument b).
Proof. apply read_document_within. lia. Qed.

(** ** What the decoder produces *)

(** The values a document read from the wire can hold: keys are C strings, every
    number is in the range of its Go type, and there is no Go [int]. *)
Fixpoint typed (v : value) : bool :=
  match v with
  | VDoc d => forallb (fun kv => key_ok kv.1 && typed kv.2) d
  | VArray l => forallb typed l
  | VInt _ => false
  | v => value_ok v
  end.
Definition typed_doc (d : BSON) : bool := typed (VDoc d).

(** Every value [r] can produce satisfies [P]. *)
Definition yields {A} (P : A -> Prop) (r : res (A * Z)) : Prop := forall a p, r = Ok (a, p) -> P a.
Lemma yields_bind {A B} (P : A -> Prop) (r : res B) (k : B -> res (A * Z)) :
  (forall x, r = Ok x -> yields P (k x)) -> yields P (r ≫= k).
Proof. intros Hk a p. destruct r as [x| | |]; [|done..]. by apply Hk. Qed.
Lemma yields_ok {A} (P : A -> Prop) a p : P a -> yields P (Ok (a, p)).
Proof. by intros Ha a' p' [= <- <-]. Qed.
Lemma yields_err {A} (P : A -> Prop) e : yields P (Err e).
Proof. done. Qed.
Create HintDb yields.
#[local] Hint Resolve yields_ok yields_err : yields.

Lemma Uint32_at_range b pos z : Uint32_at b pos = Ok z -> 0 <= z < 2 ^ 32.
Proof.
  unfold Uint32_at, LittleEndian.Uint32. destruct (slice b pos (pos + 4)) as [s| | |]; [|done..]. cbn [mbind res_bind].
  destruct (slice s 0 4) as [x| | |] eqn:E; [|done..]. intros [= <-]. apply slice_len in E. pose proof (le_val_range x) as H. by rewrite E in H.
Qed.
Lemma Uint64_at_range b pos z : Uint64_at b pos = Ok z -> 0 <= z < 2 ^ 64.
Proof.
  unfold Uint64_at, LittleEndian.Uint64. destruct (slice b pos (pos + 8)) as [s| | |]; [|done..]. cbn [mbind res_bind].
  destruct (slice s 0 8) as [x| | |] eqn:E; [|done..]. intros [= <-]. apply slice_len in E. pose proof (le_val_range x) as H. by rewrite E in H.
Qed.
Lemma Int32_at_range b pos z : Int32_at b pos = Ok z -> - 2 ^ 31 <= z < 2 ^ 31.
Proof.
  unfold Int32_at. destruct (Uint32_at b pos) as [x| | |]; [|done..]. cbn [mbind res_bind]. intros [= <-]. by apply (sint_range 32).
Qed.
Lemma in_int_true w z : - 2 ^ (w - 1) <= z < 2 ^ (w - 1) -> in_int w z = true.
Proof. intros H. unfold in_int. apply andb_true_iff. split; [apply Z.leb_le|apply Z.ltb_lt]; lia. Qed.
Lemma in_uint_true w z : 0 <= z < 2 ^ w -> in_uint w z = true.
Proof. intros H. unfold in_uint. apply andb_true_iff. split; [apply Z.leb_le|apply Z.ltb_lt]; lia. Qed.

Lemma readCString_yields b pos : 0 <= pos <= len b -> yields (fun s => key_ok s = true) (readCString b pos).
Proof.
  intros Hp. unfold readCString. rewrite find_nul_eq. destruct (IndexByte (drop (Z.to_nat pos) b) Byte.x00) as [e|] eqn:E; [|done]. cbn.
  apply IndexByte_Some in E as (E & Hno & Hl).
  assert (at_pos b pos (drop (Z.to_nat pos) b)) as A.
  { exists (take (Z.to_nat pos) b). split; [by rewrite take_drop|]. unfold len in *. rewrite length_take. lia. }
  rewrite E in A. erewrite at_slice by (exact A || (unfold len; lia)). by apply yields_ok, bool_decide_eq_true_2.
Qed.
Lemma readBSONString_yields b pos : yields (fun s => len s + 1 < 2 ^ 31) (readBSONString b pos).
Proof.
  unfold readBSONString. case_decide; [done|]. apply yields_bind. intros n Hn%Int32_at_range. case_decide; [done|]. case_decide; [done|].
  apply yields_bind. intros x _. case_decide; [done|]. apply yields_bind. intros s Hs%slice_len. apply yields_ok. lia.
Qed.
Lemma truncated_yields P b pos n what k : (pos + n <= len b -> yields P k) -> yields P (truncated b pos n what k).
Proof. intros Hk. unfold truncated. case_decide; [done|]. apply Hk. lia. Qed.
Lemma readBSONValue_yields rec t b pos : (forall rest, len rest < len b -> yields (fun d => typed_doc d = true) (rec rest)) -> 1 <= pos <= len b ->
  yields (fun v => typed v = true) (readBSONValue rec t b pos).
Proof.
  intros Hrec Hp. assert (forall A (k : BSON -> A) P, (forall d, typed_doc d = true -> P (k d)) ->
    yields P (rest ← slice_from b pos; '(d, n) ← rec rest; Ok (k d, pos + n))) as Hnest.
  { intros A k P Hk. rewrite slice_suffix by lia. cbn [mbind res_bind]. apply yields_bind. intros [d n] Hd. apply yields_ok, Hk.
    refine (Hrec _ _ d n Hd). unfold len in *. rewrite length_drop. lia. }
  unfold readBSONValue. repeat (case_decide; [try (apply truncated_yields; intros ?)|]); try done.
  - apply yields_bind. intros z Hz%Uint64_at_range. by apply yields_ok, in_uint_true.
  - apply yields_bind. intros [s np] Hs. apply yields_ok, Z.ltb_lt. by eapply readBSONString_yields.
  - apply (Hnest _ VDoc). auto.
  - apply (Hnest _ (fun d : BSON => VArray d.*2)). intros d Hd. cbn. unfold typed_doc in Hd. cbn in Hd.
    induction d as [|[k v] d IH]; [done|]. cbn in *. apply andb_true_iff in Hd as [[_ Hv]%andb_true_iff Hd]. by rewrite Hv, IH.
  - apply yields_bind. intros n Hn%Int32_at_range. apply yields_bind. intros x _. case_decide; [done|].
    apply yields_bind. intros s Hs%slice_len. apply yields_ok, Z.ltb_lt. lia.
  - apply yields_bind. intros s Hs%slice_len. apply yields_ok, Nat.eqb_eq. unfold len in Hs. lia.
  - apply yields_bind. intros x _. by apply yields_ok.
  - apply yields_bind. intros z _. apply yields_ok, in_int_true. by apply sint_range.
  - by apply yields_ok.
  - apply yields_bind. intros z Hz%Int32_at_range. by apply yields_ok, in_int_true.
  - apply yields_bind. intros z Hz%Uint32_at_range. apply yields_bind. intros z' Hz'%Uint32_at_range. apply yields_ok. cbn.
    by rewrite !in_uint_true.
  - apply yields_bind. intros z _. apply yields_ok, in_int_true. by apply sint_range.
Qed.
Lemma read_elements_yields rec fuel doc pos out : (forall rest, len rest < len doc -> within 5 (len rest) (rec rest)) ->
  (forall rest, len rest < len doc -> yields (fun d => typed_doc d = true) (rec rest)) -> 1 <= pos <= len doc -> typed_doc out = true ->
  yields (fun d => typed_doc d = true) (read_elements rec fuel doc pos out).
Proof.
  intros Hw Hrec. revert pos out. induction fuel as [|fuel IH]; intros pos out Hp Hout; [done|]. cbn [read_elements].
  case_decide; [done|]. apply yields_bind. intros t _. case_decide; [case_decide; [done|by apply yields_ok]|].
  apply yields_bind. intros [key p] Hkey. pose proof (readCString_within doc (pos + 1)) as Hk. rewrite Hkey in Hk. cbn in Hk.
  apply yields_bind. intros [v p'] Hv. pose proof (readBSONValue_within rec t doc p) as Hvw. rewrite Hv in Hvw. cbn in Hvw.
  apply IH; [specialize (Hvw ltac:(lia) Hw); lia|]. unfold typed_doc in *. cbn [typed] in *. rewrite forallb_app, Hout. cbn.
  rewrite (readCString_yields doc (pos + 1) ltac:(lia) key p Hkey), (readBSONValue_yields rec t doc p Hrec ltac:(lia) v p' Hv). done.
Qed.
Lemma read_document_yields fuel b : (length b < fuel)%nat -> yields (fun d => typed_doc d = true) (read_document fuel b).
Proof.
  revert b. induction fuel as [|fuel IH]; intros b Hf; [done|]. cbn [read_document]. case_decide; [done|].
  apply yields_bind. intros n _. case_decide; [done|]. apply yields_bind. intros doc Hd%slice_len. unfold len in *.
  apply read_elements_yields; [| |unfold len; lia|done]; intros rest Hr; unfold len in Hr; [apply read_document_within|apply IH]; lia.
Qed.

(** A typed document whose encoding stays below the length field's limit is
    well-formed, and it contains nothing the codec would change. *)
Lemma typed_fits v : typed v = true -> len (payload v) < 2 ^ 31 -> value_ok v = true.
Proof.
  induction v as [| |d IH|l IH| | | | | | | | |] using value_ind'; intros Ht Hl; try done.
  - cbn [value_ok]. apply andb_true_iff. split; [|by apply Z.ltb_lt]. cbn [typed] in Ht. rewrite payload_doc in Hl.
    apply forallb_forall. intros kv Hin. rewrite forallb_forall in Ht. specialize (Ht kv Hin). apply andb_true_iff in Ht as [-> Ht].
    apply list_elem_of_In in Hin. rewrite Forall_forall in IH. apply (IH kv Hin Ht). pose proof (body_elem d kv Hin). unfold len in *. lia.
  - cbn [value_ok]. apply andb_true_iff. split; [|by apply Z.ltb_lt]. cbn [typed] in Ht. rewrite payload_array in Hl.
    apply forallb_forall. intros e Hin. rewrite forallb_forall in Ht. specialize (Ht e Hin). apply list_elem_of_In in Hin.
    rewrite Forall_forall in IH. apply (IH e Hin Ht).
    assert (exists j, (Itoa j, e) ∈ array_elems 0 l) as [j Hj].
    { clear -Hin. generalize 0. induction l as [|e' l IH]; intros i; [set_solver|]. cbn. apply elem_of_cons in Hin as [<-|Hin]; [exists i; by left|].
      destruct (IH Hin (i + 1)) as [j Hj]. exists j. by right. }
    pose proof (body_elem _ _ Hj) as Hb. cbn [snd] in Hb. unfold len in *. lia.
Qed.
Lemma typed_norm v : typed v = true -> norm v = v.
Proof.
  induction v as [| |d IH|l IH| | | | | | | | |] using value_ind'; intros Ht; try done; cbn in *; f_equal.
  - induction IH as [|[k v] d Hv _ IHd]; [done|]. cbn in *. apply andb_true_iff in Ht as [[_ Ht]%andb_true_iff Hd]. by rewrite Hv, IHd.
  - induction IH as [|v d Hv _ IHd]; [done|]. cbn in *. apply andb_true_iff in Ht as [Ht Hd]. by rewrite Hv, IHd.
Qed.

(** C32: a document read from the wire is well typed, whatever the bytes: keys are
    C strings, numbers are in the range of their Go types, object ids have twelve
    bytes, strings and binaries fit their length fields, at any nesting.  So what
    was read can be written again (unless its arrays' rewritten indices make it
    outgrow the 31-bit length) and is then read back unchanged. *)
Theorem read_document_typed b d n : ReadBSONDocument b = Ok (d, n) ->
  typed_doc d = true /\
  (len (MarshalBSON d) < 2 ^ 31 -> forall rest, ReadBSONDocument (MarshalBSON d ++ rest) = Ok (d, len (MarshalBSON d))).
Proof.
  intros H. assert (typed_doc d = true) as Ht by (refine (read_document_yields _ b _ d n H); lia). split; [done|].
  unfold MarshalBSON. rewrite AppendBSON_eq. intros Hl rest.
  assert (norm_doc d = d) as Hn by (pose proof (typed_norm (VDoc d) Ht) as E; by injection E).
  assert (doc_ok d = true) as Hok by (by apply (typed_fits (VDoc d))). cbn [app]. rewrite (ReadBSONDocument_ok d rest Hok). by rewrite Hn.
Qed.

(** C31: the BSON codec.  [MarshalBSON] and [AppendBSON] write the BSON format, and
    [ReadBSONDocument] reads back what they write -- whatever follows it, and at
    any nesting -- with the exact number of bytes it occupied; a Go [int] comes
    back as the [int32] it was written as.  On arbitrary bytes the decoder never
    panics and never loops: it returns an error, or a size of at least five bytes
    that stays within the input. *)
Theorem bson_codec (d : BSON) (pre rest : bytes) (Hd : doc_ok d = true) :
  AppendBSON pre d = pre ++ MarshalBSON d /\
  ReadBSONDocument (MarshalBSON d ++ rest) = Ok (norm_doc d, len (MarshalBSON d)) /\
  (forall b, match ReadBSONDocument b with
             | Ok (_, n) => 5 <= n <= len b
             | Err _ => True
             | Panic | NoFuel => False
             end).
Proof.
  unfold MarshalBSON. rewrite !AppendBSON_eq. split_and!; [done|by apply ReadBSONDocument_ok|apply ReadBSONDocument_within].
Qed.

Definition hello_example : BSON :=
  [(str "hello", VInt32 1); (str "client", VDoc [(str "n", VArray [VInt 7; VBool true; VNull])]);
   (str "ts", VTimestamp 5 6); (str "ok", VDouble 0x3FF0000000000000); (str "$db", VString (str "admin"))].
Lemma bson_codec_witness : doc_ok hello_example = true /\
  ReadBSONDocument (MarshalBSON hello_example ++ [Byte.x01]) = Ok (norm_doc hello_example, len (MarshalBSON hello_example)).
Proof. split; [vm_compute; reflexivity|]. apply (bson_codec hello_example [] [Byte.x01]). vm_compute. reflexivity. Defined.

(** An array whose keys are not indices, a negative datetime. *)
Definition odd_document : bytes :=
  le_bytes 4 31 ++ [bsonArray] ++ str "a" ++ [Byte.x00] ++ le_bytes 4 9 ++ [bsonNull] ++ str "zz" ++ [Byte.x00; Byte.x00] ++
  [bsonDateTime] ++ str "when" ++ [Byte.x00] ++ le_bytes 8 (-1) ++ [Byte.x00].
Lemma read_document_typed_witness : exists d, ReadBSONDocument odd_document = Ok (d, 31) /\ typed_doc d = true /\
  Lookup d (str "when") = Some (VDateTime (-1)).
Proof.
  assert (ReadBSONDocument odd_document = Ok ([(str "a", VArray [VNull]); (str "when", VDateTime (-1))], 31)) as E by (vm_compute; reflexivity).
  eexists. split; [exact E|]. split; [exact (proj1 (read_document_typed odd_document _ 31 E))|reflexivity].
Defined.
