(* ===== verification/MongoWire.v ===== *)
(** internal/proxy/mongowire.go: the MongoDB message envelope and the bodies of
    OP_MSG, OP_QUERY and OP_REPLY messages. *)
From Stdlib Require Import Strings.Byte.
From S2P Require Import Prelude Binary Fmt IO Net Vars Cursor Bson.

Definition OpReply : Z := 1.
Definition OpQuery : Z := 2004.
Definition OpMsg : Z := 2013.
Definition msgHeaderLen : Z := 16.
Definition MaxMessageSize : Z := 64 * 1024 * 1024.
Definition OpMsgFlagChecksumPresent : Z := 1.

Record MsgHeader := mkMsgHeader {
  MessageLength : Z;
  RequestID : Z;
  ResponseTo : Z;
  OpCode : Z;
}.

(** The header that accompanies an error is dropped by every caller. *)
Definition ReadMongoMessage {R} `{Reader R} : M R (MsgHeader * bytes) :=
  hdr ← ReadFull 16;
  messageLength ← lift (Int32_at hdr 0);
  requestID ← lift (Int32_at hdr 4);
  responseTo ← lift (Int32_at hdr 8);
  opCode ← lift (Int32_at hdr 12);
  if decide (messageLength < msgHeaderLen \/ messageLength > MaxMessageSize)
  then fail (Errorf (str "mongo message length out of range: %d") [FInt messageLength]) else
  body ← ReadFull (Z.to_nat (messageLength - msgHeaderLen));
  mret (mkMsgHeader messageLength requestID responseTo opCode, body).

Definition WriteMongoMessage (requestID responseTo opCode : Z) (body : bytes) : M conn unit :=
  let total := msgHeaderLen + len body in
  Write (le_bytes 4 (uint32 total) ++ le_bytes 4 (uint32 requestID) ++ le_bytes 4 (uint32 responseTo) ++ le_bytes 4 (uint32 opCode));;
  Write body.

Definition EncodeOpMsgBody (flags : Z) (doc : BSON) : bytes := AppendBSON (le_bytes 4 flags ++ [Byte.x00]) doc.

(** The section loop; [found] is the body section's document. *)
Fixpoint parse_sections (fuel : nat) (sections : bytes) (found : option BSON) : res BSON :=
  match fuel with
  | O => NoFuel
  | S fuel =>
      match sections with
      | [] => match found with Some doc => Ok doc | None => Err (Errorf (str "op_msg: no body section") []) end
      | kind :: sections =>
          if decide (kind = Byte.x00) then
            '(d, n) ← map_err (wrap_err (str "op_msg: body section")) (ReadBSONDocument sections);
            match found with
            | Some _ => Err (Errorf (str "op_msg: more than one body section") [])
            | None => rest ← slice_from sections n; parse_sections fuel rest (Some d)
            end
          else if decide (kind = Byte.x01) then
            if decide (len sections < 4) then Err (Errorf (str "op_msg: truncated document-sequence size") []) else
            size ← Int32_at sections 0;
            if decide (size < 4 \/ size > len sections)
            then Err (Errorf (str "op_msg: document-sequence size %d out of range") [FInt size]) else
            rest ← slice_from sections size; parse_sections fuel rest found
          else Err (Errorf (str "op_msg: unknown section kind %d") [FInt (bval kind)])
      end
  end.
Definition ParseOpMsg (body : bytes) : res (Z * BSON) :=
  if decide (len body < 5) then Err (Errorf (str "op_msg: body too short (%d bytes)") [FInt (len body)]) else
  flags ← Uint32_at body 0;
  sections ← slice_from body 4;
  sections ←
    (if decide (Z.land flags OpMsgFlagChecksumPresent <> 0) then
       if decide (len sections < 4) then Err (Errorf (str "op_msg: checksum flag set but body too short") [])
       else slice sections 0 (len sections - 4)
     else Ok sections);
  doc ← parse_sections (S (length sections)) sections None;
  Ok (flags, doc).

Definition ParseOpQuery (body : bytes) : res (Z * bytes * Z * Z * BSON) :=
  if decide (len body < 4) then Err (Errorf (str "op_query: body too short") []) else
  flags ← Int32_at body 0;
  '(fullCollection, pos) ← map_err (wrap_err (str "op_query: collection")) (readCString body 4);
  if decide (pos + 8 > len body) then Err (Errorf (str "op_query: truncated skip/return") []) else
  numberToSkip ← Int32_at body pos;
  numberToReturn ← Int32_at body (pos + 4);
  rest ← slice_from body (pos + 8);
  '(query, _) ← map_err (wrap_err (str "op_query: query document")) (ReadBSONDocument rest);
  Ok (flags, fullCollection, numberToSkip, numberToReturn, query).

Definition EncodeOpReplyBody (responseFlags cursorID startingFrom : Z) (docs : list BSON) : bytes :=
  let b := le_bytes 4 (uint32 responseFlags) ++ le_bytes 8 (uint64 cursorID) ++ le_bytes 4 (uint32 startingFrom) ++
           le_bytes 4 (uint32 (len docs)) in
  fold_left AppendBSON docs b.

Arguments ParseOpMsg : simpl never.
Arguments ParseOpQuery : simpl never.

(** ** Framing *)

(** The bytes of a message. *)
Definition frame (requestID responseTo opCode : Z) (body : bytes) : bytes :=
  le_bytes 4 (16 + len body) ++ le_bytes 4 requestID ++ le_bytes 4 responseTo ++ le_bytes 4 opCode ++ body.
(** A header for [body]: the length is the body's plus the header's, within the
    cap, and the other fields are int32 values. *)
Definition header_for (h : MsgHeader) (body : bytes) : Prop :=
  MessageLength h = 16 + len body /\ 16 + len body <= MaxMessageSize /\
  in_int 32 (RequestID h) = true /\ in_int 32 (ResponseTo h) = true /\ in_int 32 (OpCode h) = true.
Definition frame_of (h : MsgHeader) (body : bytes) : bytes := frame (RequestID h) (ResponseTo h) (OpCode h) body.

Lemma WriteMongoMessage_healthy rid rto op body c : healthy c ->
  WriteMongoMessage rid rto op body c = (Ok tt, set_tx (tx c ++ frame rid rto op body) c).
Proof.
  intros Hc. unfold WriteMongoMessage. cbv zeta. rewrite !le_bytes_uint by done. erewrite M_bind_ok by (by apply Write_healthy).
  rewrite Write_healthy by auto. unfold frame, msgHeaderLen. cbn [set_tx tx]. by rewrite <- !app_assoc.
Qed.

Lemma int32_in_int z : in_int 32 (int32 z) = true.
Proof. pose proof (sint_range 32 z ltac:(lia)). unfold in_int. apply andb_true_iff. rewrite Z.leb_le, Z.ltb_lt. lia. Qed.

Lemma word_eq b : length b = 4%nat -> exists z, in_int 32 z = true /\ b = le_bytes 4 z.
Proof.
  intros Hb. exists (int32 (le_val b)). split; [apply int32_in_int|].
  rewrite <- (le_bytes_uint 4 (int32 _) 32) by done. unfold uint. rewrite sint_mod by lia.
  rewrite le_bytes_mod by done. symmetry. by apply le_bytes_le_val.
Qed.
Lemma header_words hdr : length hdr = 16%nat -> exists a b c d,
  (in_int 32 a = true /\ in_int 32 b = true /\ in_int 32 c = true /\ in_int 32 d = true) /\
  hdr = le_bytes 4 a ++ le_bytes 4 b ++ le_bytes 4 c ++ le_bytes 4 d.
Proof.
  intros Hl. destruct (word_eq (take 4 hdr)) as (a & Ha & Ea); [rewrite length_take; lia|].
  destruct (word_eq (take 4 (drop 4 hdr))) as (b & Hb & Eb); [rewrite length_take, length_drop; lia|].
  destruct (word_eq (take 4 (drop 8 hdr))) as (c & Hc & Ec); [rewrite length_take, length_drop; lia|].
  destruct (word_eq (drop 12 hdr)) as (d & Hd & Ed); [rewrite length_drop; lia|].
  exists a, b, c, d. split; [done|]. rewrite <- Ea, <- Eb, <- Ec, <- Ed.
  change (drop 8 hdr) with (drop (4 + 4) hdr). change (drop 12 hdr) with (drop (8 + 4) hdr).
  rewrite <- !drop_drop. change (drop 8 hdr) with (drop (4 + 4) hdr). rewrite <- !drop_drop. by rewrite !take_drop.
Qed.

(** The four fields of a header. *)
Lemma read_header a b c d : in_int 32 a = true -> in_int 32 b = true -> in_int 32 c = true -> in_int 32 d = true ->
  let hdr := le_bytes 4 a ++ le_bytes 4 b ++ le_bytes 4 c ++ le_bytes 4 d in
  Int32_at hdr 0 = Ok a /\ Int32_at hdr 4 = Ok b /\ Int32_at hdr 8 = Ok c /\ Int32_at hdr 12 = Ok d.
Proof.
  intros Ha%in_int_spec Hb%in_int_spec Hc%in_int_spec Hd%in_int_spec hdr. pose proof (at_start hdr) as A. unfold hdr at 2 in A.
  apply at_app in A as A1. apply at_app in A1 as A2. apply at_app in A2 as A3. rewrite <- (app_nil_r (le_bytes 4 d)) in A3.
  rewrite !len_le_bytes in A3. rewrite !len_le_bytes in A2. rewrite len_le_bytes in A1.
  change (0 + Z.of_nat 4) with 4 in *. change (4 + Z.of_nat 4) with 8 in *. change (8 + Z.of_nat 4) with 12 in *.
  rewrite (at_Int32 _ _ _ _ A), (at_Int32 _ _ _ _ A1), (at_Int32 _ _ _ _ A2), (at_Int32 _ _ _ _ A3), !sint_small by lia. done.
Qed.

Lemma le_bytes_inj32 a b : in_int 32 a = true -> in_int 32 b = true -> le_bytes 4 a = le_bytes 4 b -> a = b.
Proof.
  intros Ha%in_int_spec Hb%in_int_spec E. apply (f_equal le_val) in E. rewrite !le_val_le_bytes in E.
  change (2 ^ (8 * Z.of_nat 4)) with (2 ^ 32) in E. change (2 ^ (32 - 1)) with 2147483648 in *. change (2 ^ 32) with 4294967296 in E.
  pose proof (Z.div_mod a 4294967296 ltac:(lia)). pose proof (Z.div_mod b 4294967296 ltac:(lia)). lia.
Qed.

(** Frames are self-delimiting. *)
Lemma small_in_int z : 0 <= z < 2 ^ 31 -> in_int 32 z = true.
Proof. intros. unfold in_int. apply andb_true_iff. rewrite Z.leb_le, Z.ltb_lt. change (2 ^ (32 - 1)) with (2 ^ 31). lia. Qed.
Lemma frame_header h body : header_for h body ->
  in_int 32 (MessageLength h) = true /\
  frame_of h body = (le_bytes 4 (MessageLength h) ++ le_bytes 4 (RequestID h) ++ le_bytes 4 (ResponseTo h) ++ le_bytes 4 (OpCode h)) ++ body.
Proof.
  intros (Hl & Hm & _). split.
  - apply small_in_int. unfold MaxMessageSize in *. pose proof (len_nonneg body). lia.
  - unfold frame_of, frame. by rewrite Hl, <- !app_assoc.
Qed.
Lemma words_app_inj a b c d a' b' c' d' (r r' : bytes) :
  in_int 32 a = true -> in_int 32 b = true -> in_int 32 c = true -> in_int 32 d = true ->
  in_int 32 a' = true -> in_int 32 b' = true -> in_int 32 c' = true -> in_int 32 d' = true ->
  (le_bytes 4 a ++ le_bytes 4 b ++ le_bytes 4 c ++ le_bytes 4 d) ++ r = (le_bytes 4 a' ++ le_bytes 4 b' ++ le_bytes 4 c' ++ le_bytes 4 d') ++ r' ->
  a = a' /\ b = b' /\ c = c' /\ d = d' /\ r = r'.
Proof.
  intros. rewrite <- !app_assoc in *. 
  repeat match goal with E : le_bytes 4 _ ++ _ = le_bytes 4 _ ++ _ |- _ =>
    apply app_inj_1 in E as [?%le_bytes_inj32 E]; [|first [done|by rewrite !length_le_bytes]..] end. done.
Qed.
Lemma mongo_frame_inj h body h' body' rest rest' : header_for h body -> header_for h' body' ->
  frame_of h body ++ rest = frame_of h' body' ++ rest' -> h = h' /\ body = body' /\ rest = rest'.
Proof.
  intros H H' E. destruct (frame_header _ _ H) as [Hi Ef]. destruct (frame_header _ _ H') as [Hi' Ef']. rewrite Ef, Ef', <- 2!app_assoc in E.
  destruct H as (Hl & _ & ? & ? & ?), H' as (Hl' & _ & ? & ? & ?). apply words_app_inj in E as (? & ? & ? & ? & E); [|done..].
  apply app_inj_1 in E as [-> ->]; [|unfold len in *; lia]. destruct h, h'. cbn in *. subst. done.
Qed.

Section reader.
Context {R} `{ReaderLaws R}.

(** What one [ReadMongoMessage] does, on any input. *)
Lemma ReadMongoMessage_cases (r : R) : shut (under r) = false ->
  exists out r', ReadMongoMessage r = (out, r') /\ same_out (under r) (under r') /\
    match out with
    | Ok (h, body) => header_for h body /\ pending r = frame_of h body ++ pending r'
    | Err _ => forall h body rest, header_for h body -> pending r <> frame_of h body ++ rest
    | Panic | NoFuel => False
    end.
Proof.
  intros Hs. unfold ReadMongoMessage.
  destruct (ReadFull_cases 16 r Hs) as [(hdr & r1 & E & Hl & Hp & Ho)|(r1 & E & Hl & Hp & Ho)]; mrun E.
  2: { eexists _, r1. split; [done|]. split; [done|]. intros h body rest Hh Hp'. destruct (frame_header _ _ Hh) as [_ Ef].
       rewrite Hp', Ef, !length_app, !length_le_bytes in Hl. lia. }
  destruct (header_words hdr Hl) as (a & b & c & d & (Ha & Hb & Hc & Hd) & ->).
  destruct (read_header a b c d Ha Hb Hc Hd) as (Ea & Eb & Ec & Ed). mlift Ea. mlift Eb. mlift Ec. mlift Ed.
  assert (Hinv : forall h body rest, header_for h body -> pending r = frame_of h body ++ rest ->
    a = MessageLength h /\ pending r1 = body ++ rest).
  { intros h body rest Hh Hp'. destruct (frame_header _ _ Hh) as [Hi Ef]. destruct Hh as (Hm & _ & ? & ? & ?).
    rewrite Hp, Ef, <- app_assoc in Hp'. by apply words_app_inj in Hp' as (? & ? & ? & ? & ?). }
  case_decide as Hr.
  { eexists _, r1. split; [done|]. split; [done|]. intros h body rest Hh Hp'. destruct (Hinv _ _ _ Hh Hp') as [-> _].
    destruct Hh as (Hm & ? & _). unfold msgHeaderLen in Hr. pose proof (len_nonneg body). lia. }
  unfold msgHeaderLen in *. assert (shut (under r1) = false) as Hs1 by (by eapply same_out_shut).
  destruct (ReadFull_cases (Z.to_nat (a - 16)) r1 Hs1) as [(body & r2 & E2 & Hl2 & Hp2 & Ho2)|(r2 & E2 & Hl2 & Hp2 & Ho2)]; mrun E2.
  - eexists _, r2. split; [done|]. split; [by etrans|]. assert (a = 16 + len body) as Hab by (unfold len; lia).
    split; [split_and!; cbn; first [done|lia]|]. rewrite Hp, Hp2. unfold frame_of, frame. cbn [MessageLength RequestID ResponseTo OpCode]. by rewrite <- Hab, <- !app_assoc.
  - eexists _, r2. split; [done|]. split; [by etrans|]. intros h body rest Hh Hp'. destruct (Hinv _ _ _ Hh Hp') as [-> Hp1].
    destruct Hh as (Hm & _). rewrite Hp1, length_app in Hl2. unfold len in *. lia.
Qed.

Lemma ReadMongoMessage_frame (r : R) h body rest : shut (under r) = false -> header_for h body -> pending r = frame_of h body ++ rest ->
  exists r', ReadMongoMessage r = (Ok (h, body), r') /\ pending r' = rest /\ same_out (under r) (under r').
Proof.
  intros Hs Hh Hp. destruct (ReadMongoMessage_cases r Hs) as (out & r' & E & Ho & Hout). exists r'.
  destruct out as [[h' body']|e| |]; [|by edestruct Hout|done..]. destruct Hout as [Hh' Hp'].
  destruct (mongo_frame_inj h body h' body' rest (pending r') Hh Hh') as (-> & -> & ->); [congruence|done].
Qed.
End reader.

(** ** Bodies *)

Definition sequence (p : bytes) : bytes := Byte.x01 :: le_bytes 4 (4 + len p) ++ p.
Definition has_checksum (flags : Z) : bool := bool_decide (Z.land flags OpMsgFlagChecksumPresent <> 0).
(** An OP_MSG body: one command document among document sequences, and a
    checksum when the flags announce it. *)
Definition op_msg (flags : Z) (before : list bytes) (d : BSON) (after : list bytes) (checksum : bytes) : bytes :=
  le_bytes 4 flags ++ (concat (map sequence before) ++ Byte.x00 :: MarshalBSON d ++ concat (map sequence after)) ++ checksum.
Definition op_msg_ok (flags : Z) (before : list bytes) (d : BSON) (after : list bytes) (checksum : bytes) : bool :=
  in_uint 32 flags && forallb (fun p => 4 + len p <? 2 ^ 31) (before ++ after) && doc_ok d &&
  Nat.eqb (length checksum) (if has_checksum flags then 4 else 0).
(** An OP_QUERY body. *)
Definition op_query (flags : Z) (collection : bytes) (skip ret : Z) (d : BSON) (fields : bytes) : bytes :=
  le_bytes 4 flags ++ collection ++ Byte.x00 :: le_bytes 4 skip ++ le_bytes 4 ret ++ MarshalBSON d ++ fields.

(** The loop steps over a document sequence, and reads the body section. *)
Lemma parse_sequence fuel p rest found : 4 + len p < 2 ^ 31 ->
  parse_sections (S fuel) (sequence p ++ rest) found = parse_sections fuel rest found.
Proof.
  intros Hp. unfold sequence. cbn [parse_sections app]. rewrite decide_False, decide_True by done.
  set (b := (le_bytes 4 (4 + len p) ++ p) ++ rest). pose proof (at_start b) as A. unfold b at 2 in A. rewrite <- app_assoc in A.
  in_range A. rewrite (at_Int32 _ _ _ _ A). cbn [mbind res_bind]. pose proof (len_nonneg p).
  rewrite sint_small by (change (2 ^ (32 - 1)) with (2 ^ 31); lia). in_range A.
  apply at_app in A as A1. apply at_app in A1. rewrite len_le_bytes in A1. change (0 + Z.of_nat 4) with 4 in A1. by rewrite (at_slice_from _ _ _ A1).
Qed.
Lemma parse_sequences fuel ps rest found : (length ps <= fuel)%nat -> Forall (fun p => 4 + len p < 2 ^ 31) ps ->
  parse_sections fuel (concat (map sequence ps) ++ rest) found = parse_sections (fuel - length ps) rest found.
Proof.
  intros Hf Hp. revert fuel Hf. induction Hp as [|p ps Hp _ IH]; intros fuel Hf; [by rewrite Nat.sub_0_r|].
  cbn [length] in *. destruct fuel as [|fuel]; [lia|]. cbn [map concat]. rewrite <- app_assoc, parse_sequence by done. apply IH. lia.
Qed.
Lemma parse_body fuel d rest : doc_ok d = true ->
  parse_sections (S fuel) (Byte.x00 :: MarshalBSON d ++ rest) None = parse_sections fuel rest (Some (norm_doc d)).
Proof.
  intros Hd. cbn [parse_sections]. rewrite decide_True by done. unfold MarshalBSON. rewrite AppendBSON_eq. cbn [app].
  rewrite (ReadBSONDocument_ok _ _ Hd). cbn [map_err mbind res_bind].
  assert (at_pos (document (body d) ++ rest) (len (document (body d))) rest) as A by (by exists (document (body d))).
  by rewrite (at_slice_from _ _ _ A).
Qed.
Lemma parse_done fuel d : parse_sections (S fuel) [] (Some d) = Ok d.
Proof. done. Qed.

Lemma length_sequences ps : (length ps <= length (concat (map sequence ps)))%nat.
Proof. induction ps as [|p ps IH]; cbn [map concat length]; [lia|]. rewrite length_app. cbn. lia. Qed.

Lemma ParseOpMsg_ok flags before d after checksum : op_msg_ok flags before d after checksum = true ->
  ParseOpMsg (op_msg flags before d after checksum) = Ok (flags, norm_doc d).
Proof.
  unfold op_msg_ok. rewrite !andb_true_iff, Nat.eqb_eq. intros [[[Hf%in_uint_spec Hs%forallb_Forall] Hd] Hc].
  apply Forall_app in Hs as [Hb Ha]. unfold op_msg. set (ss := concat _ ++ _). unfold ParseOpMsg.
  set (b := le_bytes 4 flags ++ ss ++ checksum). pose proof (at_start b) as A. unfold b at 2 in A.
  assert (1 <= len ss) by (unfold ss; len_lia).
  in_range A. rewrite (at_Uint32 _ _ _ _ A) by done. cbn [mbind res_bind]. apply at_app in A as A1. rewrite len_le_bytes in A1.
  change (0 + Z.of_nat 4) with 4 in A1. rewrite (at_slice_from _ _ _ A1). cbn [mbind res_bind].
  assert ((if decide (Z.land flags OpMsgFlagChecksumPresent <> 0) then
     if decide (len (ss ++ checksum) < 4) then Err (Errorf (str "op_msg: checksum flag set but body too short") [])
     else slice (ss ++ checksum) 0 (len (ss ++ checksum) - 4) else Ok (ss ++ checksum)) = Ok ss) as ->.
  { revert Hc. unfold has_checksum. case_decide as Hk.
    - rewrite bool_decide_eq_true_2 by done. intros Hc. assert (len checksum = 4) as Hc4 by (unfold len; lia).
      rewrite decide_False by len_lia. apply (slice_mid []); len_lia.
    - rewrite bool_decide_eq_false_2 by (intros Hn; by apply Hn). intros Hc. apply nil_length_inv in Hc as ->. by rewrite app_nil_r. }
  cbn [mbind res_bind]. unfold ss.
  assert (Forall (fun p => 4 + len p < 2 ^ 31) before /\ Forall (fun p => 4 + len p < 2 ^ 31) after) as [Hb' Ha']
    by (split; (eapply Forall_impl; [eassumption|]; by intros p ?%Z.ltb_lt)).
  pose proof (length_sequences before). pose proof (length_sequences after).
  rewrite length_app. cbn [length]. rewrite length_app. rewrite parse_sequences by (done || lia).
  match goal with |- context [parse_sections ?n] => replace n with (S (S (length (concat (map sequence before)) - length before +
    length (MarshalBSON d) + length (concat (map sequence after)))))%nat by lia end.
  rewrite parse_body by done. rewrite <- (app_nil_r (concat (map sequence after))) at 2. rewrite parse_sequences by (done || lia).
  match goal with |- context [parse_sections ?n []] => destruct n eqn:En; [lia|] end. done.
Qed.

Lemma ParseOpQuery_ok flags coll skip ret d fields :
  in_int 32 flags = true -> in_int 32 skip = true -> in_int 32 ret = true -> Byte.x00 ∉ coll -> doc_ok d = true ->
  ParseOpQuery (op_query flags coll skip ret d fields) = Ok (flags, coll, skip, ret, norm_doc d).
Proof.
  intros Hf%in_int_spec Hs%in_int_spec Hr%in_int_spec Hc Hd. unfold ParseOpQuery. set (b := op_query _ _ _ _ _ _).
  pose proof (at_start b) as A. unfold b at 2, op_query in A. in_range A. rewrite (at_Int32 _ _ _ _ A), sint_small by lia.
  cbn [mbind res_bind]. apply at_app in A as A1. rewrite len_le_bytes in A1. change (0 + Z.of_nat 4) with 4 in A1.
  destruct (at_readCString _ _ _ _ A1 Hc) as [-> A2]. cbn [map_err mbind res_bind]. in_range A2.
  rewrite (at_Int32 _ _ _ _ A2), sint_small by lia. apply at_app in A2 as A3. rewrite len_le_bytes in A3. change (Z.of_nat 4) with 4 in A3.
  cbn [mbind res_bind]. rewrite (at_Int32 _ _ _ _ A3), sint_small by lia. cbn [mbind res_bind]. apply at_app in A3 as A4.
  rewrite len_le_bytes in A4. replace (4 + len coll + 1 + 4 + Z.of_nat 4) with (4 + len coll + 1 + 8) in A4 by lia.
  rewrite (at_slice_from _ _ _ A4). cbn [mbind res_bind]. unfold MarshalBSON. rewrite AppendBSON_eq. cbn [app].
  by rewrite (ReadBSONDocument_ok _ _ Hd).
Qed.

Lemma EncodeOpReplyBody_eq rf cid sf docs :
  EncodeOpReplyBody rf cid sf docs = le_bytes 4 rf ++ le_bytes 8 cid ++ le_bytes 4 sf ++ le_bytes 4 (len docs) ++ concat (map MarshalBSON docs).
Proof.
  unfold EncodeOpReplyBody. rewrite !le_bytes_uint by done.
  assert (forall b, fold_left AppendBSON docs b = b ++ concat (map MarshalBSON docs)) as ->; [|by rewrite <- !app_assoc].
  unfold MarshalBSON. induction docs as [|d docs IH]; intros b; cbn [fold_left map concat]; [by rewrite app_nil_r|].
  by rewrite IH, !AppendBSON_eq, <- app_assoc.
Qed.

Lemma EncodeOpMsgBody_eq flags d : EncodeOpMsgBody flags d = op_msg flags [] d [] [].
Proof. unfold EncodeOpMsgBody, op_msg, MarshalBSON. rewrite !AppendBSON_eq. cbn [map concat app]. by rewrite !app_nil_r, <- app_assoc. Qed.

(** Arbitrary bytes: an error or a value. *)
Lemma parse_sections_safe fuel ss found : (length ss < fuel)%nat -> safe (parse_sections fuel ss found).
Proof.
  revert ss found. induction fuel as [|fuel IH]; intros ss found Hf; [lia|]. cbn [parse_sections].
  destruct ss as [|k ss]; [by destruct found|]. cbn [length] in Hf. case_decide.
  - pose proof (ReadBSONDocument_within ss) as Hw. destruct (ReadBSONDocument ss) as [[d n]| | |]; [|done..]. cbn in Hw |- *.
    destruct found; [done|]. rewrite slice_suffix by lia. cbn [mbind res_bind]. apply IH. rewrite length_drop. lia.
  - case_decide; [|done]. case_decide; [done|]. apply safe_bind; [auto with bson|]. intros n _. case_decide; [done|].
    rewrite slice_suffix by lia. cbn [mbind res_bind]. apply IH. rewrite length_drop. lia.
Qed.
Lemma ParseOpMsg_safe b : safe (ParseOpMsg b).
Proof.
  unfold ParseOpMsg. case_decide; [done|]. apply safe_bind; [auto with bson|]. intros f _. rewrite slice_suffix by lia. cbn [mbind res_bind].
  apply safe_bind.
  - destruct (decide (Z.land f _ <> 0)); [|done]. case_decide; [done|]. apply safe_slice; len_lia.
  - intros ss _. apply safe_bind; [apply parse_sections_safe; lia|done].
Qed.
Lemma ParseOpQuery_safe b : safe (ParseOpQuery b).
Proof.
  unfold ParseOpQuery. case_decide; [done|]. apply safe_bind; [auto with bson|]. intros f _.
  pose proof (readCString_within b 4) as Hw. destruct (readCString b 4) as [[c p]| | |]; try (specialize (Hw ltac:(lia)); done).
  cbn in Hw |- *. specialize (Hw ltac:(lia)). case_decide; [done|]. apply safe_bind; [auto with bson|]. intros s _.
  apply safe_bind; [auto with bson|]. intros n _. rewrite slice_suffix by lia. cbn [mbind res_bind].
  pose proof (ReadBSONDocument_within (drop (Z.to_nat (p + 8)) b)) as Hd.
  by destruct (ReadBSONDocument _) as [[]| | |].
Qed.

(** MongoDB message framing.  A written message is exactly the 16-byte header
    -- with the true total length -- followed by the body.  On any reader and any
    input [ReadMongoMessage] returns a header and body precisely when the pending
    bytes start with a frame whose declared length is between 16 bytes and 64 MiB,
    and then it consumes that frame and nothing more; anything else is an error.
    So a message read and rewritten with its own ids is the same bytes. *)
Theorem mongo_message_codec {R} `{ReaderLaws R} (r : R) (c : conn) (Hr : shut (under r) = false) (Hc : healthy c) :
  exists out r', ReadMongoMessage r = (out, r') /\ same_out (under r) (under r') /\
    (forall h body, out = Ok (h, body) ->
       header_for h body /\ pending r = frame_of h body ++ pending r' /\
       WriteMongoMessage (RequestID h) (ResponseTo h) (OpCode h) body c = (Ok tt, set_tx (tx c ++ frame_of h body) c)) /\
    (forall h body rest, header_for h body -> pending r = frame_of h body ++ rest -> out = Ok (h, body) /\ pending r' = rest) /\
    out <> Panic /\ out <> NoFuel.
Proof.
  destruct (ReadMongoMessage_cases r Hr) as (out & r' & E & Ho & Hout). exists out, r'. split_and!; [done|done|..].
  - intros h body ->. destruct Hout as [Hh Hp]. split_and!; [done|done|]. by apply WriteMongoMessage_healthy.
  - intros h body rest Hh Hp. destruct (ReadMongoMessage_frame r h body rest Hr Hh Hp) as (r2 & E2 & Hp2 & _).
    rewrite E in E2. injection E2 as -> ->. done.
  - by intros ->.
  - by intros ->.
Qed.

(** OP_MSG, OP_QUERY and OP_REPLY bodies.  [ParseOpMsg] finds the command
    document wherever it stands among document sequences, with or without a
    checksum; what [EncodeOpMsgBody] builds is such a body; [ParseOpQuery] reads
    every field of a legacy query; an OP_REPLY body counts and concatenates its
    documents; and on arbitrary bytes the parsers neither panic nor loop. *)
Theorem mongo_body_codec flags before d after checksum coll skip ret fields rf cid sf docs b :
  op_msg_ok flags before d after checksum = true ->
  in_int 32 skip = true -> in_int 32 ret = true -> Byte.x00 ∉ coll ->
  ParseOpMsg (op_msg flags before d after checksum) = Ok (flags, norm_doc d) /\
  EncodeOpMsgBody flags d = op_msg flags [] d [] [] /\
  ParseOpQuery (op_query 0 coll skip ret d fields) = Ok (0, coll, skip, ret, norm_doc d) /\
  EncodeOpReplyBody rf cid sf docs
  = le_bytes 4 rf ++ le_bytes 8 cid ++ le_bytes 4 sf ++ le_bytes 4 (len docs) ++ concat (map MarshalBSON docs) /\
  ParseOpMsg b <> Panic /\ ParseOpMsg b <> NoFuel /\ ParseOpQuery b <> Panic /\ ParseOpQuery b <> NoFuel.
Proof.
  intros Hm Hs Hr Hc. assert (doc_ok d = true) as Hd.
  { unfold op_msg_ok in Hm. rewrite !andb_true_iff in Hm. tauto. }
  pose proof (safe_spec _ (ParseOpMsg_safe b)). pose proof (safe_spec _ (ParseOpQuery_safe b)).
  split_and!; try tauto.
  - by apply ParseOpMsg_ok.
  - apply EncodeOpMsgBody_eq.
  - by apply ParseOpQuery_ok.
  - apply EncodeOpReplyBody_eq.
Qed.

(** ** Witnesses *)

Definition mongo_conn (b : bytes) : conn := mkconn b EOF [] None false.
Definition ping_header : MsgHeader := mkMsgHeader (16 + 21) 7 (-1) OpMsg.
Definition ping_body : bytes := EncodeOpMsgBody 0 [(str "ping", VInt32 1)].
Lemma mongo_message_codec_witness : exists r',
  ReadMongoMessage (mongo_conn (frame_of ping_header ping_body ++ str "x")) = (Ok (mkMsgHeader (16 + len ping_body) 7 (-1) OpMsg, ping_body), r') /\
  pending r' = str "x".
Proof.
  destruct (@mongo_message_codec conn conn_Reader conn_ReaderLaws (mongo_conn (frame_of ping_header ping_body ++ str "x")) (mongo_conn []))
    as (out & r' & E & _ & _ & Hf & _); [reflexivity|split; reflexivity|]. exists r'. rewrite E.
  destruct (Hf (mkMsgHeader (16 + len ping_body) 7 (-1) OpMsg) ping_body (str "x")) as [-> ?];
    [repeat split; vm_compute; congruence|vm_compute; reflexivity|by split].
Defined.

Lemma mongo_body_codec_witness :
  ParseOpMsg (op_msg 1 [str "docs"] hello_example [str "more"] (str "crc!")) = Ok (1, norm_doc hello_example).
Proof.
  refine (proj1 (mongo_body_codec 1 [str "docs"] hello_example [str "more"] (str "crc!") (str "a.$cmd") 0 (-1) [] 0 0 0 [] [] _ _ _ _)).
  - vm_compute. reflexivity.
  - reflexivity.
  - reflexivity.
  - apply (bool_decide_unpack _). vm_compute. exact I.
Defined.
