(* ===== verification/MongoHandshake.v ===== *)
(** internal/proxy/mongohandshake.go and mongoadmin.go: decoding a client's
    command, the replies the proxy gives itself before it routes the
    connection, and their framing. *)
From Stdlib Require Import Strings.Byte.
From S2P Require Import Prelude Binary Fmt IO Net Vars Cursor Bson MongoWire.

(** ** mongohandshake.go *)

Definition float_1 : Z := 0x3FF0000000000000.
Definition mongoMaxBSONObjectSize : Z := 16 * 1024 * 1024.
Definition mongoMaxMessageSizeBytes : Z := 48 * 1000 * 1000.
Definition mongoMaxWriteBatchSize : Z := 100000.
Definition mongoLogicalSessionTTLMin : Z := 30.
Definition mongoMinWireVersion : Z := 0.
Definition mongoMaxWireVersion : Z := 17.

(** [strings.ToLower], as far as a comparison with an ASCII string can tell: the
    two letters beyond ASCII whose lower case is an ASCII one are U+0130 and the
    Kelvin sign; the other ones stay beyond ASCII and are kept. *)
Definition lower_byte (b : byte) : byte := if (65 <=? bval b) && (bval b <=? 90) then tobyte (bval b + 32) else b.
Fixpoint ToLower (s : bytes) : bytes :=
  match s with
  | Byte.xc4 :: Byte.xb0 :: s => "i"%byte :: ToLower s
  | Byte.xe2 :: Byte.x84 :: Byte.xaa :: s => "k"%byte :: ToLower s
  | b :: s => lower_byte b :: ToLower s
  | [] => []
  end.

Definition IsHelloCommand (doc : BSON) : bool :=
  match doc with
  | [] => false
  | (key, _) :: _ => bool_decide (ToLower key = str "hello" \/ ToLower key = str "ismaster")
  end.

(** [now] is [now.UnixMilli()]. *)
Definition BuildHelloReply (connectionID now : Z) : BSON :=
  [(str "isWritablePrimary", VBool true);
   (str "ismaster", VBool true);
   (str "helloOk", VBool true);
   (str "maxBsonObjectSize", VInt32 mongoMaxBSONObjectSize);
   (str "maxMessageSizeBytes", VInt32 mongoMaxMessageSizeBytes);
   (str "maxWriteBatchSize", VInt32 mongoMaxWriteBatchSize);
   (str "localTime", VDateTime now);
   (str "logicalSessionTimeoutMinutes", VInt32 mongoLogicalSessionTTLMin);
   (str "connectionId", VInt32 connectionID);
   (str "minWireVersion", VInt32 mongoMinWireVersion);
   (str "maxWireVersion", VInt32 mongoMaxWireVersion);
   (str "readOnly", VBool false);
   (str "ok", VDouble float_1)].

Record MongoCommand := mkMongoCommand {
  mc_Doc : BSON;
  mc_DB : bytes;
  mc_OpCode : Z;
  mc_RequestID : Z;
}.

Definition CommandName (c : MongoCommand) : bytes := match mc_Doc c with [] => [] | (key, _) :: _ => key end.

Definition lookupBSONString (doc : BSON) (key : bytes) : option bytes :=
  match Lookup doc key with
  | Some (VString s) => Some s
  | _ => None
  end.

(** The part before the first dot of [strings.Cut(s, ".")]. *)
Definition cut_dot (s : bytes) : bytes := match IndexByte s "."%byte with Some i => take i s | None => s end.

Definition decodeMongoCommand (hdr : MsgHeader) (body : bytes) : res MongoCommand :=
  if decide (OpCode hdr = OpMsg) then
    '(_, doc) ← ParseOpMsg body;
    Ok (mkMongoCommand doc (default [] (lookupBSONString doc (str "$db"))) OpMsg (RequestID hdr))
  else if decide (OpCode hdr = OpQuery) then
    '(_, fullCollection, _, _, query) ← ParseOpQuery body;
    Ok (mkMongoCommand query (cut_dot fullCollection) OpQuery (RequestID hdr))
  else Err (Errorf (str "mongo: unexpected opcode %d during handshake") [FInt (OpCode hdr)]).

Definition ReadMongoCommand {R} `{Reader R} : M R MongoCommand :=
  '(hdr, body) ← ReadMongoMessage;
  lift (decodeMongoCommand hdr body).

Definition WriteMongoReply (reqOpCode responseTo : Z) (doc : BSON) : M conn unit :=
  if decide (reqOpCode = OpMsg) then WriteMongoMessage 0 responseTo OpMsg (EncodeOpMsgBody 0 doc)
  else if decide (reqOpCode = OpQuery) then WriteMongoMessage 0 responseTo OpReply (EncodeOpReplyBody 0 0 0 [doc])
  else fail (Errorf (str "mongo: cannot reply to opcode %d") [FInt reqOpCode]).

(** ** mongoadmin.go *)

Definition mongoFakeVersion : bytes := str "6.0.0".
Definition mongoFakeFCV : bytes := str "6.0".

Definition mongoBuildInfoReply : BSON :=
  [(str "version", VString mongoFakeVersion);
   (str "versionArray", VArray [VInt32 6; VInt32 0; VInt32 0; VInt32 0]);
   (str "gitVersion", VString []);
   (str "maxBsonObjectSize", VInt32 mongoMaxBSONObjectSize);
   (str "bits", VInt32 64);
   (str "debug", VBool false);
   (str "ok", VDouble float_1)].

Definition mongoGetParameterReply (doc : BSON) : BSON :=
  let wantAll := match Lookup doc (str "getParameter") with Some (VString s) => bool_decide (s = str "*") | _ => false end in
  let out := if bool_decide (is_Some (Lookup doc (str "featureCompatibilityVersion"))) || wantAll
             then [(str "featureCompatibilityVersion", VDoc [(str "version", VString mongoFakeFCV)])] else [] in
  out ++ [(str "ok", VDouble float_1)].

Definition BuildAdminCommandReply (cmd : MongoCommand) (clientAddr : bytes) : option BSON :=
  let name := ToLower (CommandName cmd) in
  if decide (name = str "ping") then Some [(str "ok", VDouble float_1)]
  else if decide (name = str "buildinfo") then Some mongoBuildInfoReply
  else if decide (name = str "getparameter") then Some (mongoGetParameterReply (mc_Doc cmd))
  else if decide (name = str "getlog") then
    Some [(str "totalLinesWritten", VInt32 0); (str "log", VArray []); (str "ok", VDouble float_1)]
  else if decide (name = str "whatsmyuri") then Some [(str "you", VString clientAddr); (str "ok", VDouble float_1)]
  else if decide (name = str "connectionstatus") then
    Some [(str "authInfo", VDoc [(str "authenticatedUsers", VArray []); (str "authenticatedUserRoles", VArray [])]);
          (str "ok", VDouble float_1)]
  else if decide (name = str "getcmdlineopts") then
    Some [(str "argv", VArray []); (str "parsed", VDoc []); (str "ok", VDouble float_1)]
  else if decide (name = str "endsessions") then Some [(str "ok", VDouble float_1)]
  else None.

Arguments ToLower : simpl never.
Arguments BuildHelloReply : simpl never.

(** ** Names *)

Definition ascii (s : bytes) : bool := forallb (fun b => bval b <? 128) s.
Lemma ToLower_ascii s : ascii s = true -> ToLower s = map lower_byte s.
Proof.
  induction s as [|b s IH]; intros H; [done|]. cbn [ascii forallb] in H. apply andb_true_iff in H as [Hb Hs].
  specialize (IH Hs). cbn [map]. rewrite <- IH. destruct b; try discriminate Hb; done.
Qed.

(** ** Framing of replies *)

Definition reply_frame (reqOpCode responseTo : Z) (doc : BSON) : bytes :=
  if decide (reqOpCode = OpMsg) then frame 0 responseTo OpMsg (op_msg 0 [] doc [] [])
  else frame 0 responseTo OpReply (le_bytes 4 0 ++ le_bytes 8 0 ++ le_bytes 4 0 ++ le_bytes 4 1 ++ MarshalBSON doc).

Lemma WriteMongoReply_healthy op rto doc c : op = OpMsg \/ op = OpQuery -> healthy c ->
  WriteMongoReply op rto doc c = (Ok tt, set_tx (tx c ++ reply_frame op rto doc) c).
Proof.
  intros Hop Hc. unfold WriteMongoReply, reply_frame. case_decide.
  - rewrite WriteMongoMessage_healthy by done. by rewrite EncodeOpMsgBody_eq.
  - rewrite decide_True by tauto. rewrite WriteMongoMessage_healthy by done. rewrite EncodeOpReplyBody_eq.
    cbn [map concat]. by rewrite app_nil_r.
Qed.

Lemma decodeMongoCommand_opcode h body cmd : decodeMongoCommand h body = Ok cmd ->
  (OpCode h = OpMsg \/ OpCode h = OpQuery) /\ mc_OpCode cmd = OpCode h /\ mc_RequestID cmd = RequestID h.
Proof.
  unfold decodeMongoCommand. case_decide as H1; [|case_decide as H2; [|done]].
  - destruct (ParseOpMsg body) as [[]| | |]; cbn; [|done..]. intros [= <-]. auto.
  - destruct (ParseOpQuery body) as [[[[[]]]]| | |]; cbn; [|done..]. intros [= <-]. auto.
Qed.
Lemma decodeMongoCommand_safe h body : safe (decodeMongoCommand h body).
Proof.
  unfold decodeMongoCommand. case_decide; [|case_decide; [|done]].
  - apply safe_bind; [apply ParseOpMsg_safe|]. by intros [].
  - apply safe_bind; [apply ParseOpQuery_safe|]. by intros [[[[]]]].
Qed.

(** ** The replies *)

(** What a driver reads: the document of a reply, from the raw bytes. *)
Definition driver_reads (op rid : Z) (doc : BSON) (bs : bytes) : Prop :=
  forall rest (c : conn), shut c = false -> rx c = bs ++ rest ->
  exists h body, ReadMongoMessage c = (Ok (h, body), set_rx rest c) /\ ResponseTo h = rid /\
    if decide (op = OpMsg) then OpCode h = OpMsg /\ ParseOpMsg body = Ok (0, doc)
    else OpCode h = OpReply /\ exists pre, body = pre ++ MarshalBSON doc /\ len pre = 20 /\
           ReadBSONDocument (MarshalBSON doc) = Ok (doc, len (MarshalBSON doc)).

Lemma reply_readable op rid doc : op = OpMsg \/ op = OpQuery -> in_int 32 rid = true -> doc_ok doc = true -> norm_doc doc = doc ->
  len (MarshalBSON doc) + 36 <= MaxMessageSize -> driver_reads op rid doc (reply_frame op rid doc).
Proof.
  intros Hop Hrid Hd Hn Hl rest c Hs Hrx. unfold reply_frame in Hrx.
  assert (Hread : forall opc body, in_int 32 opc = true -> 16 + len body <= MaxMessageSize -> rx c = frame 0 rid opc body ++ rest ->
    ReadMongoMessage c = (Ok (mkMsgHeader (16 + len body) 0 rid opc, body), set_rx rest c)).
  { intros opc body Ho Hb Hc. destruct (ReadMongoMessage_frame (R := conn) c (mkMsgHeader (16 + len body) 0 rid opc) body rest)
      as (c' & E & Hp & Hso); [done|by split_and!|done|].
    apply (same_out_set_rx c c') in Hso. change (rx c' = rest) in Hp. rewrite Hp in Hso. by rewrite E, Hso. }
  destruct (decide (op = OpMsg)) as [->|Hne].
  - assert (op_msg_ok 0 [] doc [] [] = true) as Hok by (unfold op_msg_ok; cbn [forallb app length has_checksum]; by rewrite Hd).
    eexists _, _. split; [apply (Hread OpMsg); [done| |done]|].
    + unfold op_msg. cbn [map concat app]. rewrite app_nil_r. len_lia.
    + split; [done|]. split; [done|]. rewrite <- Hn at 2. by apply ParseOpMsg_ok.
  - eexists _, _. split; [apply (Hread OpReply); [done| |done]; len_lia|]. split; [done|]. split; [done|].
    eexists. rewrite !app_assoc. split; [done|]. split; [len_lia|]. rewrite <- Hn at 2. rewrite <- (app_nil_r (MarshalBSON doc)) at 1.
    unfold MarshalBSON. rewrite AppendBSON_eq. by apply ReadBSONDocument_ok.
Qed.

(** A document that can be sent as it is. *)
Definition sendable (doc : BSON) : Prop :=
  doc_ok doc = true /\ norm_doc doc = doc /\ len (MarshalBSON doc) + 36 <= MaxMessageSize.
Lemma sendable_intro (doc : BSON) : forallb (fun kv => key_ok kv.1 && value_ok kv.2) doc = true -> norm_doc doc = doc ->
  len (document (body doc)) + 36 <= MaxMessageSize -> sendable doc.
Proof.
  intros H1 H2 H3. split_and!; [|done|unfold MarshalBSON; by rewrite AppendBSON_eq]. unfold doc_ok. cbn [value_ok]. rewrite H1, payload_doc.
  apply Z.ltb_lt. unfold MaxMessageSize in H3. lia.
Qed.
Lemma sendable_readable op rid doc : op = OpMsg \/ op = OpQuery -> in_int 32 rid = true -> sendable doc ->
  driver_reads op rid doc (reply_frame op rid doc).
Proof. intros Ho Hr (H1 & H2 & H3). by apply reply_readable. Qed.

Lemma hello_sendable connectionID now : in_int 32 connectionID = true -> in_int 64 now = true ->
  sendable (BuildHelloReply connectionID now).
Proof.
  intros Hc Hn. apply sendable_intro; [|done|vm_compute; congruence].
  unfold BuildHelloReply. cbn [forallb value_ok snd fst]. rewrite Hc, Hn. vm_compute. reflexivity.
Qed.
Definition fixed_replies : list BSON :=
  [[(str "ok", VDouble float_1)]; mongoBuildInfoReply; mongoGetParameterReply []; mongoGetParameterReply [(str "getParameter", VString (str "*"))];
   [(str "totalLinesWritten", VInt32 0); (str "log", VArray []); (str "ok", VDouble float_1)];
   [(str "authInfo", VDoc [(str "authenticatedUsers", VArray []); (str "authenticatedUserRoles", VArray [])]); (str "ok", VDouble float_1)];
   [(str "argv", VArray []); (str "parsed", VDoc []); (str "ok", VDouble float_1)]].
Lemma fixed_sendable doc : doc ∈ fixed_replies -> sendable doc.
Proof.
  intros H. assert (forallb (fun doc : BSON => forallb (fun kv => key_ok kv.1 && value_ok kv.2) doc &&
    (len (document (body doc)) + 36 <=? MaxMessageSize)) fixed_replies = true) as Hall by (vm_compute; reflexivity).
  rewrite forallb_forall in Hall. apply list_elem_of_In in H as Hin. specialize (Hall doc Hin).
  apply andb_true_iff in Hall as [H1 H2%Z.leb_le]. apply sendable_intro; [done| |done].
  unfold fixed_replies in H. set_unfold in H. repeat destruct H as [->|H]; done.
Qed.
Lemma mongoGetParameterReply_fixed doc : mongoGetParameterReply doc ∈ fixed_replies.
Proof. unfold mongoGetParameterReply. destruct (_ || _); set_solver. Qed.
Lemma whatsmyuri_sendable addr : len addr < 2 ^ 20 -> sendable [(str "you", VString addr); (str "ok", VDouble float_1)].
Proof.
  intros Ha. apply sendable_intro; [|done|].
  - cbn [forallb value_ok snd fst]. rewrite (proj2 (Z.ltb_lt _ _)) by (change (2 ^ 20) with 1048576 in Ha; lia). vm_compute. reflexivity.
  - unfold document, body, element. cbn [map concat fst snd payload tag]. change (2 ^ 20) with 1048576 in Ha.
    assert (len (str "you") = 3) by done. assert (len (str "ok") = 2) by done. unfold MaxMessageSize. len_lia.
Qed.

(** What can be said of each admin command. *)
Definition admin_commands : list bytes :=
  [str "ping"; str "buildinfo"; str "getparameter"; str "getlog"; str "whatsmyuri"; str "connectionstatus";
   str "getcmdlineopts"; str "endsessions"].
Lemma BuildAdminCommandReply_cases cmd addr :
  (ToLower (CommandName cmd) ∉ admin_commands /\ BuildAdminCommandReply cmd addr = None) \/
  (ToLower (CommandName cmd) ∈ admin_commands /\ exists doc, BuildAdminCommandReply cmd addr = Some doc /\
     (doc ∈ fixed_replies \/ doc = [(str "you", VString addr); (str "ok", VDouble float_1)])).
Proof.
  pose proof (mongoGetParameterReply_fixed (mc_Doc cmd)). unfold BuildAdminCommandReply, admin_commands. set (n := ToLower _).
  repeat (case_decide; [right; split; [set_solver|]; eexists; split; [done|]; first [by left|by right|left; set_solver]|]).
  left. set_solver.
Qed.

(** Before routing, the proxy answers handshake and admin chatter in a form
    the driver accepts.  A command is a handshake iff its name is hello or
    ismaster in any letter case, and an admin command iff its name is one of the
    eight known ones; the replies -- framed as OP_MSG or, for a legacy probe, as
    OP_REPLY -- carry the request's id, decode back to the very document built,
    report ok 1.0 and never advertise SASL mechanisms; and the hello reply echoes
    the connection id and a wire-version range of 0 to 17. *)
Theorem local_replies_correct cmd addr connID now op rid c :
  len addr < 2 ^ 20 -> in_int 32 connID = true -> in_int 64 now = true -> op = OpMsg \/ op = OpQuery -> in_int 32 rid = true -> healthy c ->
  (forall key v d, ascii key = true ->
     IsHelloCommand ((key, v) :: d) = true <-> map lower_byte key = str "hello" \/ map lower_byte key = str "ismaster") /\
  (is_Some (BuildAdminCommandReply cmd addr) <-> ToLower (CommandName cmd) ∈ admin_commands) /\
  Lookup (BuildHelloReply connID now) (str "connectionId") = Some (VInt32 connID) /\
  Lookup (BuildHelloReply connID now) (str "maxWireVersion") = Some (VInt32 17) /\
  forall reply, reply = BuildHelloReply connID now \/ BuildAdminCommandReply cmd addr = Some reply ->
    Lookup reply (str "ok") = Some (VDouble float_1) /\ Lookup reply (str "saslSupportedMechs") = None /\
    exists bs, WriteMongoReply op rid reply c = (Ok tt, set_tx (tx c ++ bs) c) /\ driver_reads op rid reply bs.
Proof.
  intros Ha Hid Hnow Hop Hrid Hc. pose proof (BuildAdminCommandReply_cases cmd addr) as Hadmin. split_and!.
  - intros key v d Hk. cbn [IsHelloCommand]. rewrite bool_decide_eq_true, ToLower_ascii by done. done.
  - destruct Hadmin as [[? ->]|(? & doc & -> & _)]; [|naive_solver]. split; [by intros []|done].
  - vm_compute. reflexivity.
  - vm_compute. reflexivity.
  - intros reply Hreply. assert (sendable reply /\ Lookup reply (str "ok") = Some (VDouble float_1) /\
      Lookup reply (str "saslSupportedMechs") = None) as (Hs & Hok & Hsasl).
    { destruct Hreply as [->|Hr]; [split_and!; [by apply hello_sendable|vm_compute; reflexivity..]|].
      destruct Hadmin as [[_ ?]|(_ & doc & E & Hdoc)]; [congruence|]. rewrite Hr in E. injection E as <-.
      destruct Hdoc as [Hdoc| ->]; [|split_and!; [by apply whatsmyuri_sendable|vm_compute; reflexivity..]].
      split; [by apply fixed_sendable|]. unfold fixed_replies in Hdoc. set_unfold in Hdoc. repeat destruct Hdoc as [->|Hdoc]; done. }
    split_and!; [done..|]. exists (reply_frame op rid reply). split; [by apply WriteMongoReply_healthy|by apply sendable_readable].
Qed.

Definition build_info : MongoCommand := mkMongoCommand [(str "buildInfo", VInt32 1); (str "$db", VString (str "admin"))] (str "admin") OpMsg 10.
Lemma local_replies_correct_witness : exists bs,
  WriteMongoReply OpQuery 9 (BuildHelloReply 3 1700000000000) (mongo_conn []) = (Ok tt, set_tx bs (mongo_conn [])) /\
  driver_reads OpQuery 9 (BuildHelloReply 3 1700000000000) bs.
Proof.
  destruct (local_replies_correct build_info (str "127.0.0.1:5") 3 1700000000000 OpQuery 9 (mongo_conn [])) as (_ & _ & _ & _ & H);
    [vm_compute; reflexivity..|right; reflexivity|reflexivity|split; reflexivity|].
  destruct (H _ (or_introl eq_refl)) as (_ & _ & bs & H1 & H2). exists bs. split; assumption.
Defined.
