(* ===== verification/MongoAuth.v ===== *)
(** internal/proxy/mongoauth.go: the handshake and SCRAM-SHA-256 login on the
    upstream connection of the MongoDB adapter.

    [mongo_accepts] is the contract of the login: the transcripts on which it
    succeeds, and what it sends in each. *)
From Stdlib Require Import Strings.Byte.
From S2P Require Import Prelude Binary Fmt IO Net Vars Cursor Bson MongoWire MongoHandshake.

(** What the build target decides: [runtime.GOOS], and the conversion to int32
    of a float64 whose integer part does not fit. *)
Class Target_arch := { GOOS : bytes; int32_of_large_float : Z -> Z }.

(** The integer part of the float64 with the given bits, if it has one. *)
Definition float_trunc (bits : Z) : option Z :=
  let exponent := Z.land (Z.shiftr bits 52) 0x7FF in
  let fraction := Z.land bits (2 ^ 52 - 1) in
  if decide (exponent = 0x7FF) then None else
  let mantissa := if decide (exponent = 0) then fraction else fraction + 2 ^ 52 in
  let magnitude := Z.shiftl mantissa (Z.max 1 exponent - 1075) in
  Some (if Z.testbit bits 63 then - magnitude else magnitude).

Definition mongoScramMechanism : bytes := str "SCRAM-SHA-256".
Definition mongoProxyDriverVersion : bytes := str "1.0".

(** [%T]. *)
Definition go_type (v : value) : bytes :=
  match v with
  | VDouble _ => str "float64" | VString _ => str "string" | VDoc _ => str "proxy.BSON" | VArray _ => str "[]interface {}"
  | VBinary _ _ => str "proxy.BSONBinary" | VObjectID _ => str "proxy.BSONObjectID" | VBool _ => str "bool"
  | VDateTime _ => str "proxy.BSONDateTime" | VNull => str "<nil>" | VInt32 _ => str "int32" | VInt _ => str "int"
  | VTimestamp _ _ => str "proxy.BSONTimestamp" | VInt64 _ => str "int64"
  end.

Definition mongoReplyOK (doc : BSON) : bool :=
  match Lookup doc (str "ok") with
  | Some (VDouble bits) => bool_decide (bits = float_1)
  | Some (VInt32 n) | Some (VInt64 n) | Some (VInt n) => bool_decide (n = 1)
  | _ => false
  end.

Definition mongoCommandRoundTrip (cmd : BSON) : M conn BSON :=
  with_err (wrap_err (str "write command")) (WriteMongoMessage 0 0 OpMsg (EncodeOpMsgBody 0 cmd));;
  '(hdr, body) ← with_err (wrap_err (str "read reply")) ReadMongoMessage;
  if decide (OpCode hdr <> OpMsg) then fail (Errorf (str "expected OP_MSG reply, got opcode %d") [FInt (OpCode hdr)]) else
  '(_, doc) ← with_err (wrap_err (str "parse reply")) (lift (ParseOpMsg body));
  mret doc.

Section auth.
Context {Arch : Target_arch} {Scram_ : Scram}.

Definition mongoToInt32 (v : value) : Z :=
  match v with
  | VInt32 n => n
  | VInt64 n | VInt n => int32 n
  | VDouble bits =>
      match float_trunc bits with
      | Some n => if in_int 32 n then n else int32_of_large_float bits
      | None => int32_of_large_float bits
      end
  | _ => 0
  end.

Definition mongoReplyError (doc : BSON) : error :=
  let msg := match lookupBSONString doc (str "errmsg") with
             | Some s => if decide (s <> []) then s else str "command failed"
             | None => str "command failed"
             end in
  match Lookup doc (str "code") with
  | Some v => if decide (mongoToInt32 v <> 0) then Errorf (str "%s (code %d)") [FStr msg; FInt (mongoToInt32 v)]
              else Errorf (str "%s") [FStr msg]
  | None => Errorf (str "%s") [FStr msg]
  end.

Definition parseMongoSaslReply (doc : BSON) : res (Z * bytes * bool) :=
  if negb (mongoReplyOK doc) then Err (mongoReplyError doc) else
  let convID := match Lookup doc (str "conversationId") with Some v => mongoToInt32 v | None => 0 end in
  payload ← match Lookup doc (str "payload") with
            | Some (VBinary _ data) => Ok data
            | Some v => Err (Errorf (str "sasl reply payload is %T, want binary") [FStr (go_type v)])
            | None => Ok []
            end;
  let done := match Lookup doc (str "done") with Some (VBool b) => b | _ => false end in
  Ok (convID, payload, done).

Definition mongoUpstreamClientMetadata : BSON :=
  [(str "driver", VDoc [(str "name", VString (str "dbpivot")); (str "version", VString mongoProxyDriverVersion)]);
   (str "os", VDoc [(str "type", VString GOOS)])].

Definition hello_command (db : bytes) : BSON :=
  [(str "hello", VInt32 1); (str "client", VDoc mongoUpstreamClientMetadata); (str "$db", VString db)].
Definition mongoUpstreamHandshake (db : bytes) : M conn unit :=
  reply ← mongoCommandRoundTrip (hello_command db);
  if negb (mongoReplyOK reply) then fail (mongoReplyError reply) else mret tt.

(** The documents of the SASL exchange. *)
Definition sasl_start (authDB clientFirst : bytes) : BSON :=
  [(str "saslStart", VInt32 1); (str "mechanism", VString mongoScramMechanism);
   (str "payload", VBinary BinarySubtypeGeneric clientFirst);
   (str "options", VDoc [(str "skipEmptyExchange", VBool true)]); (str "$db", VString authDB)].
Definition sasl_continue (authDB : bytes) (convID : Z) (payload : bytes) : BSON :=
  [(str "saslContinue", VInt32 1); (str "conversationId", VInt32 convID);
   (str "payload", VBinary BinarySubtypeGeneric payload); (str "$db", VString authDB)].

(** A command and the parse of its reply, the errors of both wrapped with [ctx]. *)
Definition sasl_round (ctx : bytes) (cmd : BSON) : M conn (Z * bytes * bool) :=
  reply ← with_err (wrap_err ctx) (mongoCommandRoundTrip cmd);
  with_err (wrap_err ctx) (lift (parseMongoSaslReply reply)).

(** [for !done { ... }]. *)
Fixpoint finalize_loop (fuel : nat) (authDB : bytes) (convID : Z) (finished : bool) : M conn unit :=
  if finished then mret tt else
  match fuel with
  | O => lift NoFuel
  | S fuel =>
      '(_, _, finished) ← sasl_round (str "mongo saslContinue (finalize)") (sasl_continue authDB convID []);
      finalize_loop fuel authDB convID finished
  end.
(** Every round consumes a reply, so the pending bytes bound them. *)
Definition finalize (authDB : bytes) (convID : Z) (finished : bool) : M conn unit := fun c =>
  finalize_loop (S (length (rx c))) authDB convID finished c.

Definition AuthenticateUpstreamMongo (user password authDB : bytes) : M conn unit :=
  let authDB := if decide (authDB = []) then str "admin" else authDB in
  with_err (wrap_err (str "mongo upstream handshake")) (mongoUpstreamHandshake authDB);;
  conv ← with_err (wrap_err (str "mongo scram client")) (lift (of_sum (NewConversation user password)));
  '(clientFirst, conv) ← with_err (wrap_err (str "mongo scram client-first")) (lift (of_sum (Step conv [])));
  '(convID, serverFirst, _) ← sasl_round (str "mongo saslStart") (sasl_start authDB clientFirst);
  '(clientFinal, conv) ← with_err (wrap_err (str "mongo scram client-final")) (lift (of_sum (Step conv serverFirst)));
  '(_, serverFinal, finished) ← sasl_round (str "mongo saslContinue") (sasl_continue authDB convID clientFinal);
  '(_, conv) ← with_err (wrap_err (str "mongo scram verify server signature")) (lift (of_sum (Step conv serverFinal)));
  if negb (Valid conv) then fail (Errorf (str "mongo scram conversation did not validate") []) else
  finalize authDB convID finished.

(** ** The contract *)

(** The bytes of a command, and a reply at the head of the stream. *)
Definition command (cmd : BSON) : bytes := frame 0 0 OpMsg (op_msg 0 [] cmd [] []).
Definition reply_next (b : bytes) (doc : BSON) (rest : bytes) : Prop :=
  exists h body flags, header_for h body /\ OpCode h = OpMsg /\ b = frame_of h body ++ rest /\ ParseOpMsg body = Ok (flags, doc).
(** A field of a document: the first one of its name. *)
Inductive field (k : bytes) : BSON -> value -> Prop :=
  | field_here v d : field k ((k, v) :: d) v
  | field_later k' v' d v : k' <> k -> field k d v -> field k ((k', v') :: d) v.
Definition absent_field (k : bytes) (d : BSON) : Prop := k ∉ map fst d.
(** The number one in any of the numeric types: as a float64 it is 1.0, sign 0,
    exponent 1023, fraction 0. *)
Inductive is_one : value -> Prop :=
  | one_double : is_one (VDouble (Z.shiftl 1023 52))
  | one_int32 : is_one (VInt32 1)
  | one_int64 : is_one (VInt64 1)
  | one_int : is_one (VInt 1).
(** The command succeeded. *)
Definition ok_reply (doc : BSON) : Prop := exists v, field (str "ok") doc v /\ is_one v.
(** An int32 as it is, an integer of another type by its low 32 bits, the integer
    part of a float64 (what the build target makes of one that does not fit), and
    0 for what is no number. *)
Inductive as_int32 : value -> Z -> Prop :=
  | int32_same n : as_int32 (VInt32 n) n
  | int32_long n z : z mod 2 ^ 32 = n mod 2 ^ 32 -> - 2 ^ 31 <= z < 2 ^ 31 -> as_int32 (VInt64 n) z
  | int32_int n z : z mod 2 ^ 32 = n mod 2 ^ 32 -> - 2 ^ 31 <= z < 2 ^ 31 -> as_int32 (VInt n) z
  | int32_float bits n : float_trunc bits = Some n -> - 2 ^ 31 <= n < 2 ^ 31 -> as_int32 (VDouble bits) n
  | int32_large bits : (forall n, float_trunc bits = Some n -> ~ - 2 ^ 31 <= n < 2 ^ 31) -> as_int32 (VDouble bits) (int32_of_large_float bits)
  | int32_other v : (match v with VInt32 _ | VInt64 _ | VInt _ | VDouble _ => False | _ => True end) -> as_int32 v 0.
(** The reply to a SASL command: the command succeeded, and the reply carries the
    conversation id (0 when it has none), the server's SCRAM message, which must be
    binary (empty when there is none), and whether the conversation is done. *)
Record sasl_reply (doc : BSON) (convID : Z) (payload : bytes) (finished : bool) : Prop := {
  sr_ok : ok_reply doc;
  sr_id : (exists v, field (str "conversationId") doc v /\ as_int32 v convID) \/ (absent_field (str "conversationId") doc /\ convID = 0);
  sr_payload : (exists st, field (str "payload") doc (VBinary st payload)) \/ (absent_field (str "payload") doc /\ payload = []);
  sr_done : finished = true <-> field (str "done") doc (VBool true);
}.
Definition sasl_next (b : bytes) (r : Z * bytes * bool) (rest : bytes) : Prop :=
  exists doc, reply_next b doc rest /\ let '(convID, payload, finished) := r in sasl_reply doc convID payload finished.

(** Empty rounds until the server reports the conversation done. *)
Inductive finalizes (authDB : bytes) (convID : Z) : bool -> bytes -> bytes -> bytes -> Prop :=
  | finalizes_done b : finalizes authDB convID true b [] b
  | finalizes_more b id payload finished b' sent rest :
      sasl_next b (id, payload, finished) b' -> finalizes authDB convID finished b' sent rest ->
      finalizes authDB convID false b (command (sasl_continue authDB convID []) ++ sent) rest.

(** What the server sends, what it is sent, and what is left unread. *)
Inductive mongo_accepts (user password authDB : bytes) : bytes -> bytes -> bytes -> Prop :=
  | mongo_exchange b doc b1 k0 clientFirst k1 convID serverFirst f b2 clientFinal k2 id serverFinal finished b3 out k3 sent rest :
      reply_next b doc b1 -> ok_reply doc ->
      NewConversation user password = inr k0 -> Step k0 [] = inr (clientFirst, k1) ->
      sasl_next b1 (convID, serverFirst, f) b2 -> Step k1 serverFirst = inr (clientFinal, k2) ->
      sasl_next b2 (id, serverFinal, finished) b3 -> Step k2 serverFinal = inr (out, k3) -> Valid k3 = true ->
      finalizes authDB convID finished b3 sent rest ->
      mongo_accepts user password authDB b
        (command (hello_command authDB) ++ command (sasl_start authDB clientFirst) ++
         command (sasl_continue authDB convID clientFinal) ++ sent) rest.

(** ** Proofs *)

Lemma Lookup_field d k v : Lookup d k = Some v <-> field k d v.
Proof.
  split.
  - induction d as [|[k' v'] d IH]; cbn; [done|]. case_decide as Hk; [intros [= <-]; subst; constructor|]. intros H. by apply field_later, IH.
  - induction 1 as [v d|k' v' d v Hk _ IH]; cbn; [by rewrite decide_True|by rewrite decide_False].
Qed.
Lemma Lookup_absent d k : Lookup d k = None <-> absent_field k d.
Proof.
  unfold absent_field. induction d as [|[k' v'] d IH]; cbn; [set_solver|]. rewrite not_elem_of_cons, <- IH. case_decide; naive_solver.
Qed.
Lemma mongoReplyOK_spec doc : mongoReplyOK doc = true <-> ok_reply doc.
Proof.
  unfold mongoReplyOK, ok_reply. setoid_rewrite <- Lookup_field. destruct (Lookup doc (str "ok")) as [v|]; [|naive_solver].
  split; [intros H; exists v; split; [done|]|intros (v' & [= <-] & []); by apply bool_decide_eq_true].
  destruct v; try done; apply bool_decide_eq_true in H; subst; constructor.
Qed.
Lemma int32_unique n z : z mod 2 ^ 32 = n mod 2 ^ 32 -> - 2 ^ 31 <= z < 2 ^ 31 -> int32 n = z.
Proof. intros Hm Hz. rewrite <- (sint_small 32 z) by (done || lia). unfold sint. by rewrite Hm. Qed.
Lemma int32_in_range n : - 2 ^ 31 <= n < 2 ^ 31 -> in_int 32 n = true.
Proof. intros H. unfold in_int. apply andb_true_iff. rewrite Z.leb_le, Z.ltb_lt. exact H. Qed.
Lemma mongoToInt32_unique v z : as_int32 v z -> mongoToInt32 v = z.
Proof.
  intros [n|n z' Hm Hr|n z' Hm Hr|bits n Hf Hr|bits Hno|v' Hv]; cbn [mongoToInt32]; [done|by apply int32_unique..| | |by destruct v'].
  - by rewrite Hf, (int32_in_range n Hr).
  - destruct (float_trunc bits) as [n|]; [|done]. destruct (in_int 32 n) eqn:Ei; [|done]. apply in_int_spec in Ei. by destruct (Hno n).
Qed.
Lemma mongoToInt32_spec v : as_int32 v (mongoToInt32 v).
Proof.
  destruct v as [bits| | | | | | | | |n|n| |n]; cbn [mongoToInt32]; try (by apply int32_other).
  - destruct (float_trunc bits) as [n|] eqn:Ef; [destruct (in_int 32 n) eqn:Ei|]; [apply int32_float; [done|by apply in_int_spec in Ei]|apply int32_large..].
    + intros n' E H%int32_in_range. congruence.
    + intros n' E. congruence.
  - constructor.
  - apply int32_int; [by apply sint_mod|exact (sint_range 32 n eq_refl)].
  - apply int32_long; [by apply sint_mod|exact (sint_range 32 n eq_refl)].
Qed.
Lemma parseMongoSaslReply_spec doc convID payload finished :
  parseMongoSaslReply doc = Ok (convID, payload, finished) <-> sasl_reply doc convID payload finished.
Proof.
  assert (forall k, (exists v, field k doc v /\ Lookup doc k = Some v) \/ (absent_field k doc /\ Lookup doc k = None)) as Hf.
  { intros k. destruct (Lookup doc k) as [v|] eqn:E; [left; exists v; by rewrite <- Lookup_field|right; by rewrite <- Lookup_absent]. }
  assert (forall k v v', field k doc v -> field k doc v' -> v = v') as Hd by (intros k v v'; rewrite <- !Lookup_field; congruence).
  assert (forall k v, field k doc v -> ~ absent_field k doc) as Hna by (intros k v; rewrite <- Lookup_field, <- Lookup_absent; congruence).
  unfold parseMongoSaslReply. pose proof (mongoReplyOK_spec doc) as Hok.
  destruct (mongoReplyOK doc); cbn [negb]; [|split; [done|intros [?%Hok _ _ _]; done]].
  split.
  - intros H. assert (match Lookup doc (str "payload") with Some (VBinary _ data) => data | _ => [] end = payload /\
      match Lookup doc (str "payload") with Some (VBinary _ _) | None => True | _ => False end) as [Hp Hpb].
    { destruct (Lookup doc (str "payload")) as [[]|]; try done; by injection H. }
    assert (convID = match Lookup doc (str "conversationId") with Some v => mongoToInt32 v | None => 0 end /\
      finished = match Lookup doc (str "done") with Some (VBool b) => b | _ => false end) as [-> ->]
      by (destruct (Lookup doc (str "payload")) as [[]|]; try done; injection H as <- <- <-; done).
    split; [by apply Hok| | |].
    + destruct (Hf (str "conversationId")) as [(v & Hv & ->)|[Hv ->]]; [left; eauto using mongoToInt32_spec|by right].
    + destruct (Hf (str "payload")) as [(v & Hv & E)|[Hv E]]; rewrite E in Hp, Hpb; [left|by right]. destruct v; try done. subst. eauto.
    + destruct (Hf (str "done")) as [(v & Hv & ->)|[Hv ->]]; [|split; [done|]; by intros ?%Hna].
      split; [by destruct v as [| | | | | |[]| | | | | |]|]. intros Ht. by rewrite (Hd _ _ _ Hv Ht).
  - intros [_ Hid Hp Hdone].
    assert (match Lookup doc (str "conversationId") with Some v => mongoToInt32 v | None => 0 end = convID) as ->.
    { destruct Hid as [(v & ->%Lookup_field & Hz)|[->%Lookup_absent ->]]; [|done]. by apply mongoToInt32_unique. }
    assert (match Lookup doc (str "done") with Some (VBool b) => b | _ => false end = finished) as ->.
    { rewrite <- Lookup_field in Hdone. destruct (Lookup doc (str "done")) as [[| | | | | |[]| | | | | |]|], finished; try done; naive_solver congruence. }
    by destruct Hp as [(st & ->%Lookup_field)|[->%Lookup_absent ->]].
Qed.
Lemma reply_next_inj b d r d' r' : reply_next b d r -> reply_next b d' r' -> d = d' /\ r = r'.
Proof.
  intros (h & body & f & Hh & _ & -> & Ep) (h' & body' & f' & Hh' & _ & E & Ep').
  apply mongo_frame_inj in E as (_ & <- & ->); [|done..]. rewrite Ep in Ep'. by injection Ep' as _ ->.
Qed.
Lemma sasl_next_inj b x r x' r' : sasl_next b x r -> sasl_next b x' r' -> x = x' /\ r = r'.
Proof.
  destruct x as [[i p] f], x' as [[i' p'] f']. intros (d & Hd & E) (d' & Hd' & E'). destruct (reply_next_inj _ _ _ _ _ Hd Hd') as [<- ->].
  apply parseMongoSaslReply_spec in E, E'. rewrite E in E'. by injection E' as -> -> ->.
Qed.
Lemma reply_next_shorter b d r : reply_next b d r -> (length r < length b)%nat.
Proof.
  intros (h & body & f & _ & _ & -> & _). unfold frame_of, frame. rewrite !length_app, !length_le_bytes. lia.
Qed.

(** The outcome of a step that sends [sent] and reads a value described by [next]. *)
Definition exchange {A} (next : bytes -> A -> bytes -> Prop) (sent : bytes) (m : M conn A) (c : conn) : Prop :=
  (exists a rest, next (rx c) a rest /\ m c = (Ok a, set_tx (tx c ++ sent) (set_rx rest c))) \/
  ((exists e c', m c = (Err e, c')) /\ forall a rest, ~ next (rx c) a rest).

Lemma mongoCommandRoundTrip_cases cmd c : healthy c -> exchange reply_next (command cmd) (mongoCommandRoundTrip cmd) c.
Proof.
  intros Hc. unfold exchange, mongoCommandRoundTrip.
  mrun (with_err_ok (wrap_err (str "write command")) _ _ _ _ (WriteMongoMessage_healthy 0 0 OpMsg (EncodeOpMsgBody 0 cmd) c Hc)).
  rewrite EncodeOpMsgBody_eq. fold (command cmd). set (c1 := set_tx _ c).
  destruct (ReadMongoMessage_cases (R := conn) c1) as (out & c2 & E & Ho & Hout); [apply Hc|].
  apply (same_out_set_rx c1 c2) in Ho. change (pending c1) with (rx c) in Hout. change (pending c2) with (rx c2) in Hout.
  destruct out as [[h body]|e| |]; [| |done..].
  2: { mrun (with_err_err (wrap_err (str "read reply")) _ _ _ _ E). right. split; [eauto|].
       intros doc rest (h & body & f & Hh & _ & Hr & _). by eapply Hout. }
  mrun (with_err_ok (wrap_err (str "read reply")) _ _ _ _ E). destruct Hout as [Hh Hr].
  assert (Hinv : forall doc rest, reply_next (rx c) doc rest -> OpCode h = OpMsg /\ exists f, ParseOpMsg body = Ok (f, doc)).
  { intros doc rest (h' & body' & f & Hh' & Hop & Hr' & Ep). rewrite Hr in Hr'. apply mongo_frame_inj in Hr' as (-> & -> & _); [eauto|done..]. }
  case_decide as Hop; [right; split; [unfold fail; eauto|]; by intros doc rest [? _]%Hinv|].
  pose proof (ParseOpMsg_safe body) as Hs. destruct (ParseOpMsg body) as [[f doc]|e| |] eqn:Ep; [| |done..].
  - left. exists doc, (rx c2). split; [by exists h, body, f|]. rewrite Ho. done.
  - right. split; [eexists _, _; reflexivity|]. intros doc rest (_ & f & ?)%Hinv. congruence.
Qed.

Lemma parseMongoSaslReply_safe doc : safe (parseMongoSaslReply doc).
Proof.
  unfold parseMongoSaslReply. destruct (negb _); [done|]. apply safe_bind; [|done].
  by destruct (Lookup doc (str "payload")) as [[]|].
Qed.
Lemma sasl_round_cases ctx cmd c : healthy c -> exchange sasl_next (command cmd) (sasl_round ctx cmd) c.
Proof.
  intros Hc. unfold sasl_round. destruct (mongoCommandRoundTrip_cases cmd c Hc) as [(doc & rest & Hn & E)|[(e & c' & E) Hn]].
  - unfold exchange. mrun (with_err_ok (wrap_err ctx) _ _ _ _ E).
    pose proof (parseMongoSaslReply_safe doc) as Hs. destruct (parseMongoSaslReply doc) as [r|e| |] eqn:Ep; [| |done..].
    + left. exists r, rest. split; [exists doc; split; [done|]|done]. destruct r as [[i p] f]. by apply parseMongoSaslReply_spec.
    + right. split; [eexists _, _; reflexivity|]. intros [[i p] f] rest' (doc' & Hn' & Ep').
      destruct (reply_next_inj _ _ _ _ _ Hn Hn') as [<- _]. apply parseMongoSaslReply_spec in Ep'. congruence.
  - right. mrun (with_err_err (wrap_err ctx) _ _ _ _ E). split; [eauto|]. intros r rest (doc & Hn' & _). by eapply Hn.
Qed.
Lemma mongoUpstreamHandshake_cases db c : healthy c ->
  exchange (fun b (_ : unit) rest => exists doc, reply_next b doc rest /\ ok_reply doc)
    (command (hello_command db)) (mongoUpstreamHandshake db) c.
Proof.
  intros Hc. unfold exchange, mongoUpstreamHandshake.
  destruct (mongoCommandRoundTrip_cases (hello_command db) c Hc) as [(doc & rest & Hn & E)|[(e & c' & E) Hn]]; mrun E.
  - destruct (mongoReplyOK doc) eqn:Ek; cbn [negb].
    + left. exists tt, rest. split; [exists doc; by rewrite <- mongoReplyOK_spec|done].
    + right. split; [unfold fail; eauto|]. intros _ rest' (doc' & Hn' & Hk). destruct (reply_next_inj _ _ _ _ _ Hn Hn') as [<- _]. apply mongoReplyOK_spec in Hk. congruence.
  - right. split; [eauto|]. intros _ rest (doc & Hn' & _). by eapply Hn.
Qed.

Lemma finalize_loop_cases authDB convID fuel finished c : healthy c -> (length (rx c) < fuel)%nat ->
  auth_outcome (finalizes authDB convID finished (rx c)) (finalize_loop fuel authDB convID finished) c.
Proof.
  revert finished c. induction fuel as [|fuel IH]; intros finished c Hc Hf; [lia|]. unfold auth_outcome. cbn [finalize_loop].
  destruct finished.
  { left. exists [], (rx c). split; [constructor|]. rewrite app_nil_r. by destruct c. }
  destruct (sasl_round_cases (str "mongo saslContinue (finalize)") (sasl_continue authDB convID []) c Hc)
    as [([[id p] fin] & b' & Hn & E)|[(e & c' & E) Hn]]; mrun E.
  2: { right. split; [eauto|]. intros sent rest Ha. inversion Ha; subst. by eapply Hn. }
  assert (length b' < length (rx c))%nat as Hl by (destruct Hn as (d & Hd & _); by eapply reply_next_shorter).
  set (c1 := set_tx _ _). destruct (IH fin c1) as [(sent & rest & Ha & Er)|[Her Hno]]; [by unfold c1; auto|cbn; lia| |].
  - left. exists (command (sasl_continue authDB convID []) ++ sent), rest. split; [by econstructor|]. rewrite Er. unfold c1, set_tx, set_rx. cbn [tx rx rend wleft shut]. by rewrite <- app_assoc.
  - right. split; [done|]. intros sent rest Ha. inversion Ha as [|? id' p' fin' b'' sent' ? Hn' Ha']; subst.
    destruct (sasl_next_inj _ _ _ _ _ Hn Hn') as [[= <- <- <-] <-]. by eapply Hno.
Qed.

(** No transcript is accepted: an earlier step determines the later ones, up to
    the one that failed. *)
Ltac mongo_reject :=
  right; split; [unfold fail; by eauto|]; intros ? ? Hacc; inversion Hacc; clear Hacc; subst; simplify_eq; try congruence;
  repeat match goal with
  | H1 : reply_next ?b ?d ?r, H2 : reply_next ?b ?d' ?r' |- _ =>
      destruct (reply_next_inj b d r d' r' H1 H2) as [? ?]; clear H1; simplify_eq
  | H1 : sasl_next ?b ?d ?r, H2 : sasl_next ?b ?d' ?r' |- _ =>
      destruct (sasl_next_inj b d r d' r' H1 H2) as [? ?]; clear H1; simplify_eq
  end; try congruence; try naive_solver.

Definition auth_db (authDB : bytes) : bytes := if decide (authDB = []) then str "admin" else authDB.

Lemma AuthenticateUpstreamMongo_cases user password authDB c : healthy c ->
  auth_outcome (mongo_accepts user password (auth_db authDB) (rx c)) (AuthenticateUpstreamMongo user password authDB) c.
Proof.
  intros Hc. unfold auth_outcome, AuthenticateUpstreamMongo. cbv zeta. fold (auth_db authDB). set (db := auth_db authDB).
  destruct (mongoUpstreamHandshake_cases db c Hc) as [([] & b1 & (doc & N0 & Hok) & E)|[(e & c' & E) N0]];
    [mrun (with_err_ok (wrap_err (str "mongo upstream handshake")) _ _ _ _ E)|
     mrun (with_err_err (wrap_err (str "mongo upstream handshake")) _ _ _ _ E); mongo_reject].
  clear E. set (c1 := set_tx _ _). assert (Hc1 : healthy c1) by (unfold c1; auto).
  destruct (with_err_of_sum (wrap_err (str "mongo scram client")) (NewConversation user password) c1) as [(k0 & E0 & E)|(e & e' & E0 & E)];
    mrun E; [clear E|mongo_reject].
  destruct (with_err_of_sum (wrap_err (str "mongo scram client-first")) (Step k0 []) c1) as [([cf k1] & E1 & E)|(e & e' & E1 & E)];
    mrun E; [clear E|mongo_reject].
  destruct (sasl_round_cases (str "mongo saslStart") (sasl_start db cf) c1 Hc1) as [([[cid sf] f1] & b2 & N1 & E)|[(e & c' & E) N1]];
    change (rx c1) with b1 in N1; mrun E; [|mongo_reject].
  clear E. set (c2 := set_tx _ (set_rx b2 c1)). assert (Hc2 : healthy c2) by (unfold c2; auto).
  destruct (with_err_of_sum (wrap_err (str "mongo scram client-final")) (Step k1 sf) c2) as [([cfin k2] & E2 & E)|(e & e' & E2 & E)];
    mrun E; [clear E|mongo_reject].
  destruct (sasl_round_cases (str "mongo saslContinue") (sasl_continue db cid cfin) c2 Hc2) as [([[id sfin] fin] & b3 & N2 & E)|[(e & c' & E) N2]];
    change (rx c2) with b2 in N2; mrun E; [|mongo_reject].
  clear E. set (c3 := set_tx _ (set_rx b3 c2)). assert (Hc3 : healthy c3) by (unfold c3; auto).
  destruct (with_err_of_sum (wrap_err (str "mongo scram verify server signature")) (Step k2 sfin) c3) as [([out k3] & E3 & E)|(e & e' & E3 & E)];
    mrun E; [clear E|mongo_reject].
  destruct (Valid k3) eqn:EV; cbn [negb]; [|mongo_reject].
  destruct (finalize_loop_cases db cid (S (length (rx c3))) fin c3 Hc3 ltac:(lia)) as [(sent & rest & Ha & E)|[(e & c' & E) Hno]];
    change (rx c3) with b3 in *; unfold finalize; change (rx c3) with b3.
  - left. eexists _, rest. split; [by econstructor|]. rewrite E. unfold c3, c2, c1, set_tx, set_rx. cbn [tx rx rend wleft shut].
    by rewrite <- !app_assoc.
  - rewrite E. mongo_reject.
Qed.

(** C30: the MongoDB upstream login succeeds exactly on the transcripts of the
    protocol.  On a connection that accepts writes, whatever the upstream sends
    and however the SCRAM client behaves, [AuthenticateUpstreamMongo] neither
    panics nor runs forever; it succeeds iff the upstream's bytes are an ok
    reply to the handshake, two SASL replies whose SCRAM messages the client
    accepts -- ending in a validated server signature -- and further ok replies
    until one says done.  It then has sent the handshake first, then saslStart,
    then saslContinue with the server's conversation id, all against the
    authentication database ("admin" by default), and left the rest unread. *)
Theorem AuthenticateUpstreamMongo_correct user password authDB c : healthy c ->
  let '(out, c') := AuthenticateUpstreamMongo user password authDB c in
  out <> Panic /\ out <> NoFuel /\
  (out = Ok tt <-> exists sent rest, mongo_accepts user password (auth_db authDB) (rx c) sent rest) /\
  (out = Ok tt -> exists sent rest, mongo_accepts user password (auth_db authDB) (rx c) sent rest /\
     c' = mkconn rest (rend c) (tx c ++ sent) None false).
Proof.
  intros Hc. apply auth_outcome_spec; [done|]. by apply AuthenticateUpstreamMongo_cases.
Qed.
End auth.

(** ** Witness *)

Definition toy_arch : Target_arch := {| GOOS := str "linux"; int32_of_large_float _ := 0 |}.
Definition toy_reply (doc : BSON) : bytes := frame 1 0 OpMsg (EncodeOpMsgBody 0 doc).
Definition toy_sasl (payload : bytes) (finished : bool) : bytes :=
  toy_reply [(str "conversationId", VInt32 7); (str "done", VBool finished); (str "payload", VBinary Byte.x00 payload);
             (str "ok", VDouble float_1)].
Definition toy_mongod : conn := mongo_conn
  (toy_reply [(str "ok", VDouble float_1)] ++ toy_sasl (str "server-first") false ++ toy_sasl (str "server-final") false ++
   toy_sasl [] true ++ str "z").

Lemma AuthenticateUpstreamMongo_correct_witness :
  exists sent rest, @mongo_accepts toy_arch toy_scram (str "u") (str "p") (str "admin") (rx toy_mongod) sent rest.
Proof.
  pose proof (@AuthenticateUpstreamMongo_correct toy_arch toy_scram (str "u") (str "p") [] toy_mongod (conj eq_refl eq_refl)) as H.
  destruct (@AuthenticateUpstreamMongo toy_arch toy_scram (str "u") (str "p") [] toy_mongod) as [out c'] eqn:E.
  destruct H as (_ & _ & [H _] & _). apply H. apply (f_equal (fun x => is_ok x.1)) in E. cbn [fst] in E.
  destruct out as [[]|e| |]; [reflexivity|exfalso; revert E; vm_compute; discriminate..].
Defined.
