(* ===== verification/MongoServer.v ===== *)
(** internal/proxy/mongoserver.go: the handler of a MongoDB client connection up
    to the raw pipe: local answers until a command names a configured database,
    then the dial, the login and the forwarding of that command. *)
From Stdlib Require Import Strings.Byte.
From S2P Require Import Prelude Binary Fmt IO Net Vars Config Database Server Session Cursor Bson MongoWire MongoHandshake MongoAuth.

Definition mongoErrInternalError : Z := 1.
Definition mongoErrHostUnreachable : Z := 6.
Definition mongoErrInvalidNamespace : Z := 73.

Definition mongoErrorReply (errmsg : bytes) (code : Z) : BSON :=
  [(str "ok", VDouble 0)] ++ (if decide (errmsg <> []) then [(str "errmsg", VString errmsg)] else []) ++
  (if decide (code <> 0) then [(str "code", VInt32 code)] else []).

(** What the handler asks of its environment: the n-th reading of the clock
    ([time.Now().UnixMilli()]) and [client.RemoteAddr().String()]. *)
Class ClientEnv := { UnixMilli : nat -> Z; RemoteAddr : bytes }.

Section server.
Context {U : Unicode} {D : Dialer} {Arch : Target_arch} {Scram_ : Scram} {Env : ClientEnv}.

(** [_ = WriteMongoReply(client, hdr.OpCode, hdr.RequestID, mongoErrorReply(msg, code))]. *)
Definition mongo_refuse (hdr : MsgHeader) (msg : bytes) (code : Z) : M session unit :=
  ignore (on_client (WriteMongoReply (OpCode hdr) (RequestID hdr) (mongoErrorReply msg code))).

(** [true] when the raw pipe starts. *)
Definition routeMongo (name db : bytes) (hdr : MsgHeader) (body : bytes) : M session bool :=
  s ← gets ss_srv;
  match current_of name (s_store s) with
  | None =>
      mongo_refuse hdr (Sprintf (str "database %q has no active target") [RText db]) mongoErrInternalError;; mret false
  | Some rt =>
      r ← try_ (dial (JoinHostPort (rt_Host rt) (rt_Port rt)));
      match r with
      | inl e => mongo_refuse hdr (str "upstream dial failed: " ++ Error e) mongoErrHostUnreachable;; fail e
      | inr _ =>
          a ← try_ (on_up (AuthenticateUpstreamMongo (rt_User rt) (rt_Password rt) (rt_AuthSource rt)));
          match a with
          | inl e =>
              mongo_refuse hdr (str "upstream auth failed: " ++ Error e) mongoErrHostUnreachable;;
              close_up;; fail e
          | inr _ =>
              w ← try_ (on_up (WriteMongoMessage (RequestID hdr) (ResponseTo hdr) (OpCode hdr) body));
              match w with
              | inl e => close_up;; fail (wrap_err (str "mongo forward first command") e)
              | inr _ => register name rt;; mret true
              end
          end
      end
  end.

(** The answer to a command that names no configured database, and the context
    of an error writing it. *)
Definition local_reply (connID : Z) (i : nat) (cmd : MongoCommand) : BSON * bytes :=
  if IsHelloCommand (mc_Doc cmd) then (BuildHelloReply connID (UnixMilli i), str "mongo write hello reply")
  else match BuildAdminCommandReply cmd RemoteAddr with
       | Some reply => (reply, str "mongo write admin reply")
       | None =>
           (mongoErrorReply (Sprintf (str "dbpivot: database %q is not configured for mongodb") [RText (mc_DB cmd)])
              mongoErrInvalidNamespace, str "mongo write error reply")
       end.

(** The loop of [dispatchMongo]; [i] counts its iterations. *)
Fixpoint dispatchMongo_loop (fuel i : nat) (connID : Z) : M session bool :=
  match fuel with
  | O => lift NoFuel
  | S fuel =>
      '(hdr, body) ← with_err (wrap_err (str "mongo read command")) (on_client ReadMongoMessage);
      cmd ← lift (decodeMongoCommand hdr body);
      s ← gets ss_srv;
      match lookupDatabase s AdapterMongo (mc_DB cmd) with
      | Some name => routeMongo name (mc_DB cmd) hdr body
      | None =>
          let '(reply, ctx) := local_reply connID i cmd in
          with_err (wrap_err ctx) (on_client (WriteMongoReply (OpCode hdr) (RequestID hdr) reply));;
          dispatchMongo_loop fuel (S i) connID
      end
  end.
(** Every iteration consumes a message header, so the client's bytes bound them. *)
Definition serve_mongo (connID : Z) : M session bool := fun s =>
  dispatchMongo_loop (S (length (rx (client_conn s)))) 0 connID s.
Definition dispatchMongo : M session bool :=
  n ← connSeq_Add1;
  serve_mongo (int32 n).

(** ** The contract *)

(** A client stream starts with commands that name no configured database; what
    they are answered, and the rest of the stream. *)
Inductive chatter (srv : Server) (connID : Z) : nat -> bytes -> bytes -> nat -> bytes -> Prop :=
  | chatter_end i b : chatter srv connID i b [] i b
  | chatter_command i h body cmd b replies j tail :
      header_for h body -> decodeMongoCommand h body = Ok cmd -> lookupDatabase srv AdapterMongo (mc_DB cmd) = None ->
      chatter srv connID (S i) b replies j tail ->
      chatter srv connID i (frame_of h body ++ b)
        (reply_frame (OpCode h) (RequestID h) (local_reply connID i cmd).1 ++ replies) j tail.

(** The session after the client was sent [replies], with [rest] still to read. *)
Definition answered_session (replies rest : bytes) (s : session) : session :=
  set_client_conn (set_tx (tx (client_conn s) ++ replies) (set_rx rest (client_conn s))) s.

Definition mongo_piping (name : bytes) (rt : ResolvedTarget) (up : conn) (s : session) : session :=
  mkSession (registered name rt s) (ss_client s) (Some up) (ss_dialed s ++ [JoinHostPort (rt_Host rt) (rt_Port rt)])
    (ss_obj s) (ss_client_sock s) (ss_up_sock s).

(** [u] accepts the login of [rt] and ends up as [u'], having been sent exactly
    the login and then the client's message. *)
Definition mongo_connects (rt : ResolvedTarget) (msg : bytes) (u u' : conn) : Prop :=
  exists sent rest, mongo_accepts (rt_User rt) (rt_Password rt) (auth_db (rt_AuthSource rt)) (rx u) sent rest /\
    u' = set_tx ((tx u ++ sent) ++ msg) (set_rx rest u).

(** What becomes of the command [h], [body] that named the database [name]. *)
Definition mongo_routed (name : bytes) (h : MsgHeader) (body : bytes) (s : session) (out : res bool) (s' : session) : Prop :=
  match current_of name (s_store (ss_srv s)) with
  | None => out = Ok false /\ exists msg, s' = replied (reply_frame (OpCode h) (RequestID h) (mongoErrorReply msg 1)) s
  | Some rt =>
      (exists u u', DialTimeout (JoinHostPort (rt_Host rt) (rt_Port rt)) = inr u /\ mongo_connects rt (frame_of h body) u u' /\
         out = Ok true /\ s' = mongo_piping name rt u' s) \/
      (exists e msg, out = Err e /\ refused_with (reply_frame (OpCode h) (RequestID h) (mongoErrorReply msg 6)) s s' /\
         forall u u', DialTimeout (JoinHostPort (rt_Host rt) (rt_Port rt)) = inr u -> ~ mongo_connects rt (frame_of h body) u u')
  end.

Hypothesis (dialed_healthy : forall addr c, DialTimeout addr = inr c -> healthy c).

Lemma mongo_refuse_eq h msg code s : OpCode h = OpMsg \/ OpCode h = OpQuery -> healthy (client_conn s) ->
  mongo_refuse h msg code s = (Ok tt, replied (reply_frame (OpCode h) (RequestID h) (mongoErrorReply msg code)) s).
Proof.
  intros Hop Hc. unfold mongo_refuse. erewrite ignore_ok; [done|]. apply on_client_eq. by apply WriteMongoReply_healthy.
Qed.

Lemma routeMongo_cases name db h body s : OpCode h = OpMsg \/ OpCode h = OpQuery -> healthy (client_conn s) -> ss_up s = None ->
  exists out s', routeMongo name db h body s = (out, s') /\ mongo_routed name h body s out s'.
Proof.
  intros Hop Hc Hu. unfold routeMongo, mongo_routed. rewrite M_bind_gets. destruct (current_of name _) as [rt|].
  2: { erewrite M_bind_ok by (by apply mongo_refuse_eq). eexists _, _. split; [done|]. split; [done|]. by eexists. }
  set (addr := JoinHostPort _ _). destruct (DialTimeout addr) as [e|u] eqn:Ed.
  { assert (dial addr s = (Err e, log_dial addr s)) as E by (unfold dial; by rewrite Ed). mrun (try_err _ _ _ _ E).
    erewrite M_bind_ok by (by apply mongo_refuse_eq). eexists _, _. split; [done|]. right. eexists e, _. split; [done|].
    split; [|done]. unfold refused_with. cbn. by rewrite Hu. }
  assert (dial addr s = (Ok tt, set_up (Some u) (log_dial addr s))) as E by (unfold dial; by rewrite Ed).
  mrun (try_ok _ _ _ _ E). set (s1 := set_up (Some u) (log_dial addr s)). clear E.
  destruct (AuthenticateUpstreamMongo_cases (rt_User rt) (rt_Password rt) (rt_AuthSource rt) u) as [(sent & rest & Ha & E)|[(e & u2 & E) Hno]];
    [by eapply dialed_healthy|..].
  - mrun (try_ok _ _ _ _ (on_up_eq _ s1 u _ _ eq_refl E)). set (u2 := set_tx (tx u ++ sent) (set_rx rest u)).
    assert (healthy u2) as Hu2 by (unfold u2; apply dialed_healthy in Ed; auto).
    pose proof (WriteMongoMessage_healthy (RequestID h) (ResponseTo h) (OpCode h) body u2 Hu2) as Ew.
    mrun (try_ok _ _ _ _ (on_up_eq _ (set_up (Some u2) s1) u2 _ _ eq_refl Ew)).
    eexists _, _. split; [reflexivity|]. left. exists u. eexists. split_and!; [done|by exists sent, rest|done|done].
  - mrun (try_err _ _ _ _ (on_up_eq _ s1 u _ _ eq_refl E)). erewrite M_bind_ok by (by apply mongo_refuse_eq).
    erewrite M_bind_ok by (by apply (close_up_eq u2)). eexists _, _. split; [done|]. right. eexists e, _. split; [done|]. split.
    + unfold refused_with. cbn. split_and!; [done..|]. by intros u0 [= <-].
    + intros u0 u' [= <-] (sent & rest & Ha & _). by eapply Hno.
Qed.

(** How the handler ends once the client was sent [replies] and [tail] is what
    follows: the next command names a configured database, or there is none. *)
Definition mongo_ends (s : session) (replies tail : bytes) (out : res bool) (s' : session) : Prop :=
  (exists h body cmd rest name, header_for h body /\ tail = frame_of h body ++ rest /\ decodeMongoCommand h body = Ok cmd /\
     lookupDatabase (ss_srv s) AdapterMongo (mc_DB cmd) = Some name /\
     mongo_routed name h body (answered_session replies rest s) out s') \/
  (exists e, out = Err e /\
     (forall h body rest cmd, header_for h body -> tail = frame_of h body ++ rest -> decodeMongoCommand h body <> Ok cmd) /\
     ss_srv s' = ss_srv s /\ ss_up s' = None /\ ss_dialed s' = ss_dialed s /\ tx (client_conn s') = tx (client_conn s) ++ replies).

Lemma answered_twice r1 b1 r2 b2 s : answered_session r2 b2 (answered_session r1 b1 s) = answered_session (r1 ++ r2) b2 s.
Proof. unfold answered_session, set_client_conn, client_conn, set_br_conn, set_tx, set_rx. cbn. by rewrite app_assoc. Qed.

(** Reading one command from the client. *)
Lemma read_command s : healthy (client_conn s) ->
  (exists h body cmd rest, header_for h body /\ rx (client_conn s) = frame_of h body ++ rest /\ decodeMongoCommand h body = Ok cmd /\
     on_client ReadMongoMessage s = (Ok (h, body), answered_session [] rest s)) \/
  ((forall h body rest cmd, header_for h body -> rx (client_conn s) = frame_of h body ++ rest -> decodeMongoCommand h body <> Ok cmd) /\
   exists c', same_out (client_conn s) c' /\
   ((exists e, on_client ReadMongoMessage s = (Err e, set_client_conn c' s)) \/
    (exists h body e, on_client ReadMongoMessage s = (Ok (h, body), set_client_conn c' s) /\ decodeMongoCommand h body = Err e))).
Proof.
  intros [Hs _]. destruct (ReadMongoMessage_cases (R := conn) (client_conn s)) as (out & c' & E & Ho & Hout); [done|].
  change (same_out (client_conn s) c') in Ho. change (pending (client_conn s)) with (rx (client_conn s)) in Hout.
  change (pending c') with (rx c') in Hout. destruct out as [[h body]|e| |]; [| |done..].
  2: { right. split; [intros h body rest cmd Hh Hr; by destruct (Hout h body rest Hh)|]. exists c'. split; [done|]. left. exists e. by apply on_client_eq. }
  destruct Hout as [Hh Hr]. pose proof (decodeMongoCommand_safe h body) as Hd.
  destruct (decodeMongoCommand h body) as [cmd|e| |] eqn:Ed; [| |done..].
  - left. exists h, body, cmd, (rx c'). split_and!; [done..|]. erewrite on_client_eq by exact E. f_equal.
    unfold answered_session. rewrite app_nil_r. f_equal. rewrite (same_out_set_rx _ _ Ho) at 1. by destruct (client_conn s).
  - right. split.
    + intros h' body' rest cmd Hh' Hr'. rewrite Hr in Hr'. apply mongo_frame_inj in Hr' as (<- & <- & _); [congruence|done..].
    + exists c'. split; [done|]. right. exists h, body, e. split; [by apply on_client_eq|done].
Qed.

Lemma frame_of_length h body : (16 <= length (frame_of h body))%nat.
Proof. unfold frame_of, frame. rewrite !length_app, !length_le_bytes. lia. Qed.

Lemma dispatchMongo_loop_cases fuel i connID s : healthy (client_conn s) -> ss_up s = None -> (length (rx (client_conn s)) < fuel)%nat ->
  exists replies j tail out s', chatter (ss_srv s) connID i (rx (client_conn s)) replies j tail /\
    dispatchMongo_loop fuel i connID s = (out, s') /\ mongo_ends s replies tail out s'.
Proof.
  revert i s. induction fuel as [|fuel IH]; intros i s Hc Hu Hf; [lia|]. cbn [dispatchMongo_loop].
  destruct (read_command s Hc) as [(h & body & cmd & rest & Hh & Hr & Ed & E)|(Hno & c' & Ho & Hcase)].
  2: { exists [], i, (rx (client_conn s)). destruct Hcase as [(e & E)|(h & body & e & E & Ed)].
       - mrun (with_err_err (wrap_err (str "mongo read command")) _ _ _ _ E). eexists _, _. split_and!; [constructor|done|].
         right. eexists. destruct Ho as (Htx & _). cbn. rewrite Htx, app_nil_r. done.
       - mrun (with_err_ok (wrap_err (str "mongo read command")) _ _ _ _ E). mlift Ed. eexists _, _. split_and!; [constructor|done|].
         right. eexists. destruct Ho as (Htx & _). cbn. rewrite Htx, app_nil_r. done. }
  mrun (with_err_ok (wrap_err (str "mongo read command")) _ _ _ _ E). mlift Ed. rewrite M_bind_gets.
  destruct (decodeMongoCommand_opcode _ _ _ Ed) as (Hop & _ & _). set (s1 := answered_session [] rest s) in *.
  assert (Hc1 : healthy (client_conn s1)) by done. change (ss_srv s1) with (ss_srv s).
  destruct (lookupDatabase (ss_srv s) AdapterMongo (mc_DB cmd)) as [name|] eqn:El.
  - destruct (routeMongo_cases name (mc_DB cmd) h body s1 Hop Hc1 Hu) as (out & s' & E2 & Hr2).
    exists [], i, (rx (client_conn s)), out, s'. split_and!; [constructor|done|]. left. exists h, body, cmd, rest, name. done.
  - destruct (local_reply connID i cmd) as [reply ctx] eqn:Elr.
    pose proof (WriteMongoReply_healthy (OpCode h) (RequestID h) reply _ Hop Hc1) as Ew.
    mrun (with_err_ok (wrap_err ctx) _ _ _ _ (on_client_eq _ s1 _ _ Ew)).
    set (bs := reply_frame (OpCode h) (RequestID h) reply). set (s2 := set_client_conn _ s1).
    assert (s2 = answered_session bs rest s) as Hs2.
    { unfold s2, s1, answered_session, set_client_conn, client_conn, set_br_conn, set_tx, set_rx. cbn. by rewrite app_nil_r. }
    rewrite Hs2. pose proof (frame_of_length h body) as Hl.
    destruct (IH (S i) (answered_session bs rest s)) as (replies & j & tail & out & s' & Hch & E3 & Hend); [done|done|cbn; rewrite Hr, length_app in Hf; lia|].
    exists (bs ++ replies), j, tail, out, s'. split_and!; [|done|].
    + rewrite Hr. unfold bs. change reply with (reply, ctx).1. rewrite <- Elr. by constructor.
    + destruct Hend as [(h2 & body2 & cmd2 & rest2 & n2 & H1 & H2 & H3 & H4 & H5)|(e & H1 & H2 & H3 & H4 & H5 & H6)].
      * left. exists h2, body2, cmd2, rest2, n2. rewrite answered_twice in H5. done.
      * right. exists e. split_and!; [done..|]. rewrite H6. cbn. by rewrite app_assoc.
Qed.

Lemma mongo_ends_safe s replies tail out s' : mongo_ends s replies tail out s' -> safe out.
Proof.
  intros [(? & ? & ? & ? & n & _ & _ & _ & _ & H)|(? & -> & _)]; [|done]. revert H. unfold mongo_routed.
  destruct (current_of _ _); [intros [(? & ? & _ & _ & -> & _)|(? & ? & -> & _)]|intros [-> _]]; done.
Qed.

(** The session once the connection got its id. *)
Definition numbered (s : session) : session := set_srv (set_connSeq (uint32 (connSeq (ss_srv s) + 1)) (ss_srv s)) s.
Lemma dispatchMongo_safe s : healthy (client_conn s) -> ss_up s = None -> safe (dispatchMongo s).1.
Proof.
  intros Hc Hu. destruct (dispatchMongo_loop_cases (S (length (rx (client_conn s)))) 0 (int32 (uint32 (connSeq (ss_srv s) + 1))) (numbered s))
    as (replies & j & tail & out & s' & _ & E & Hend); [done|done|apply Nat.lt_succ_diag_r|].
  change (safe (dispatchMongo_loop (S (length (rx (client_conn s)))) 0 (int32 (uint32 (connSeq (ss_srv s) + 1))) (numbered s)).1).
  rewrite E. by eapply mongo_ends_safe.
Qed.

(** C24: a MongoDB client connection, whatever the client sends, goes exactly like
    this.  Commands that name no configured database are answered locally, one
    reply each, in order and with the request's id.  The first command that names
    one decides: without an active target the client gets an error reply and
    nothing is dialed; otherwise the active target is dialed and logged in to,
    and if that succeeds the upstream is sent, after the login, precisely the
    bytes of that command's message, the connection is registered and piped,
    and what the client sent after it is still unread; if it fails the client gets
    one error reply, nothing is registered and the upstream connection is closed.
    When the stream ends or is malformed first, the handler returns an error
    having sent only those replies, dialed nothing and registered nothing.  The
    handler always terminates and never panics. *)
Theorem dispatchMongo_correct s : healthy (client_conn s) -> ss_up s = None ->
  exists replies j tail out s',
    chatter (ss_srv s) (int32 (connSeq (ss_srv s) + 1)) 0 (rx (client_conn s)) replies j tail /\
    dispatchMongo s = (out, s') /\ mongo_ends (numbered s) replies tail out s' /\ out <> Panic /\ out <> NoFuel.
Proof.
  intros Hc Hu. destruct (dispatchMongo_loop_cases (S (length (rx (client_conn s)))) 0 (int32 (uint32 (connSeq (ss_srv s) + 1))) (numbered s))
    as (replies & j & tail & out & s' & Hch & E & Hend); [done|done|apply Nat.lt_succ_diag_r|]. rewrite sint_uint in Hch.
  exists replies, j, tail, out, s'. split; [|split; [exact E|split; [done|by eapply safe_spec, mongo_ends_safe]]].
  clear -Hch. change (rx (client_conn (numbered s))) with (rx (client_conn s)) in Hch. revert Hch.
  generalize (rx (client_conn s)), 0%nat. intros b i H. induction H; [constructor|by econstructor].
Qed.
End server.

(** ** Witness *)

Definition mg_rt : ResolvedTarget :=
  mkResolvedTarget (str "local") (str "127.0.0.1") 27017 (str "app") (str "secret") (str "app_dev") (str "disable") [].
Definition mg_server : Server :=
  mkServer ∅ 0 ∅ (mkStore {[str "appdb" := mkDb (str "appdb") AdapterMongo [] ∅ ∅ (Some mg_rt) ∅]} ∅ ∅)
    sample_config (str "local") None false.
Definition mg_request (rid : Z) (doc : BSON) : bytes := frame rid 0 OpMsg (EncodeOpMsgBody 0 doc).
Definition mg_sent : bytes :=
  mg_request 1 [(str "hello", VInt32 1); (str "$db", VString (str "admin"))] ++
  mg_request 2 [(str "find", VString (str "users")); (str "$db", VString (str "appdb"))] ++ str "next".
Definition mg_session : session := mkSession mg_server (NewReader (mongo_conn mg_sent) []) None [] 0 1 2.
Definition mg_dialer : Dialer := Build_Dialer (fun _ => inr toy_mongod).
Definition mg_unicode : Unicode := Build_Unicode (fun _ => true).
Definition mg_env : ClientEnv := {| UnixMilli _ := 1700000000000; RemoteAddr := str "127.0.0.1:5555" |}.

Lemma dispatchMongo_correct_witness : exists replies tail s',
  @mongo_ends mg_dialer toy_arch toy_scram (numbered mg_session) replies tail (Ok true) s'.
Proof.
  destruct (@dispatchMongo_correct mg_unicode mg_dialer toy_arch toy_scram mg_env) with (s := mg_session)
    as (replies & j & tail & out & s' & _ & E & Hend & _); [intros addr c [= <-]; split; reflexivity|split; reflexivity|reflexivity|].
  assert (out = Ok true) as ->.
  { apply (f_equal (fun x => match x.1 with Ok b => b | _ => false end)) in E. destruct out as [[]|e| |]; vm_compute in E; congruence. }
  exists replies, tail, s'. exact Hend.
Defined.
