(* ===== verification/Probe.v ===== *)
(** internal/proxy/probe.go: the health probe of the active targets.

    A probe works on a connection of its own; it is modelled as a computation
    on the dialed connection, closed at the end.  The deadline set on it shows
    as one of the ways the peer's stream can end. *)
From Stdlib Require Import Strings.Byte.
From S2P Require Import Prelude Binary Fmt IO Net Vars Config Database Server Session PgWire PgAuth PgServer Cursor MysqlWire MysqlHandshake MysqlAuth MongoWire MongoAuth MongoServer.

Definition comQuery : byte := Byte.x03.

Record ProbeResult := mkProbeResult {
  pr_VirtualName : bytes;
  pr_Target : bytes;
  pr_Database : bytes;
  pr_Addr : bytes;
  pr_OK : bool;
  pr_Err : bytes;
}.

(** The loop of [pgWaitReady]: every round consumes a message. *)
Fixpoint pgWaitReady_loop (fuel : nat) : M conn unit :=
  match fuel with
  | O => lift NoFuel
  | S fuel =>
      '(typ, body) ← with_err (wrap_err (str "read")) ReadMessage;
      if decide (typ = "E"%byte) then text ← lift (ParseErrorResponse body); fail (Errorf (str "%s") [FStr text])
      else if decide (typ = "Z"%byte) then mret tt
      else pgWaitReady_loop fuel
  end.
Definition pgWaitReady : M conn unit := fun c => pgWaitReady_loop (S (length (rx c))) c.

Section probe.
Context {U : Unicode} {D : Dialer} {TLS_ : TLS} {Scram_ : Scram} {RSA_ : RSA} {Rand_ : Rand}.

(** Dial, run [m] on the connection and close it; the connection is returned
    beside the outcome. *)
Definition on_dialed (rt : ResolvedTarget) (m : M conn unit) : res unit * option conn :=
  match DialTimeout (JoinHostPort (rt_Host rt) (rt_Port rt)) with
  | inl e => (Err (wrap_err (str "dial") e), None)
  | inr c => let '(r, c') := m c in (r, Some (Close c').2)
  end.

Definition probe_params (rt : ResolvedTarget) : list KV :=
  [mkKV (str "user") (rt_User rt)] ++ (if decide (rt_Database rt <> []) then [mkKV (str "database") (rt_Database rt)] else []).

(** [probePostgres] on the dialed connection. *)
Definition probe_pg (rt : ResolvedTarget) : M conn unit :=
  (if decide (rt_SSLMode rt = SSLModeRequire) then with_err (wrap_err (str "tls")) (NegotiateUpstreamTLS (rt_Host rt)) else mret tt);;
  startup ← lift (EncodeStartup (probe_params rt));
  with_err (wrap_err (str "write startup")) (Write startup);;
  with_err (wrap_err (str "auth")) (AuthenticateUpstream (rt_User rt) (rt_Password rt));;
  with_err (wrap_err (str "post-auth")) pgWaitReady;;
  with_err (wrap_err (str "write query")) (WriteMessage "Q"%byte (str "select 1" ++ [Byte.x00]));;
  with_err (wrap_err (str "query")) pgWaitReady.
Definition probePostgres (rt : ResolvedTarget) : res unit * option conn := on_dialed rt (probe_pg rt).

(** [probeMySQL] on the dialed connection. *)
Definition probe_mysql (rt : ResolvedTarget) : M conn unit :=
  let tlsName := if decide (rt_SSLMode rt = SSLModeRequire) then Some (rt_Host rt) else None in
  _ ← with_err (wrap_err (str "auth")) (AuthenticateUpstreamMySQL (rt_User rt) (rt_Password rt) (rt_Database rt) false tlsName);
  _ ← with_err (wrap_err (str "write query")) (WritePacket Byte.x00 ([comQuery] ++ str "select 1"));
  '(_, resp) ← with_err (wrap_err (str "read")) ReadPacket;
  if IsErrPacket resp then text ← lift (ParseERRPacket resp); fail (Errorf (str "%s") [FStr text]) else mret tt.
Definition probeMySQL (rt : ResolvedTarget) : res unit * option conn := on_dialed rt (probe_mysql rt).

Definition probeTarget (adapter_ : bytes) (rt : ResolvedTarget) : res unit * option conn :=
  if decide (adapter_ = AdapterMySQL) then probeMySQL rt else probePostgres rt.

(** One goroutine of [ProbeActive]; a panic in it would end the process. *)
Definition probe_one (name : bytes) (adapter_ : bytes) (rt : ResolvedTarget) : res ProbeResult :=
  let result := mkProbeResult name (rt_Name rt) (rt_Database rt) (JoinHostPort (rt_Host rt) (rt_Port rt)) in
  match (probeTarget adapter_ rt).1 with
  | Ok _ => Ok (result true [])
  | Err e => Ok (result false (Error e))
  | Panic => Panic
  | NoFuel => NoFuel
  end.

(** The jobs, in the map order [o], and their results. *)
Definition probe_jobs (o : list bytes) (s : Server) : list (bytes * bytes * ResolvedTarget) :=
  omap (fun name => d ← s_databases s !! name; rt ← Current d; Some (name, adapter d, rt)) o.
Fixpoint probe_all (jobs : list (bytes * bytes * ResolvedTarget)) : res (list ProbeResult) :=
  match jobs with
  | [] => Ok []
  | (name, adapter_, rt) :: jobs => r ← probe_one name adapter_ rt; rs ← probe_all jobs; Ok (r :: rs)
  end.
Definition ProbeActive (o : list bytes) (s : Server) : res (list ProbeResult) := probe_all (probe_jobs o s).

(** ** The contract *)

(** Messages up to and including a ReadyForQuery, none of them an error. *)
Inductive ready : bytes -> bytes -> Prop :=
  | ready_now body rest : len body <= MaxStartupLen -> ready (message "Z"%byte body ++ rest) rest
  | ready_later typ body b rest : typ <> "E"%byte -> typ <> "Z"%byte -> len body <= MaxStartupLen ->
      ready b rest -> ready (message typ body ++ b) rest.

(** The upstream [u] is a healthy PostgreSQL or MySQL server: it accepts the login
    and answers a query. *)
Definition pg_alive (rt : ResolvedTarget) (u : conn) : Prop :=
  exists up b rest, login rt (startup_message (probe_params rt)) u up /\ ready (rx up) b /\ ready b rest.
Definition mysql_alive (rt : ResolvedTarget) (u : conn) : Prop :=
  exists hs up resp seq bs rest,
    AuthenticateUpstreamMySQL (rt_User rt) (rt_Password rt) (rt_Database rt) false
      (if decide (rt_SSLMode rt = SSLModeRequire) then Some (rt_Host rt) else None) u = (Ok hs, up) /\
    frames resp seq bs /\ rx up = bs ++ rest /\ IsErrPacket resp = false.
(** The target of a database with the given adapter is healthy: it can be dialed and
    its server is healthy in that adapter's protocol.  (The program has no check of
    MongoDB targets to compare with one.) *)
Definition dialed_and (rt : ResolvedTarget) (healthy_ : conn -> Prop) : Prop :=
  exists u, DialTimeout (JoinHostPort (rt_Host rt) (rt_Port rt)) = inr u /\ healthy_ u.
Inductive alive (rt : ResolvedTarget) : bytes -> Prop :=
  | alive_postgres : dialed_and rt (pg_alive rt) -> alive rt AdapterPostgres
  | alive_mysql : dialed_and rt (mysql_alive rt) -> alive rt AdapterMySQL.

Lemma message_longer typ body rest : (length rest < length (message typ body ++ rest))%nat.
Proof. unfold message. rewrite length_app. cbn. lia. Qed.
Lemma message_cap_inj typ1 body1 r1 typ2 body2 r2 : len body1 <= MaxStartupLen -> len body2 <= MaxStartupLen ->
  message typ1 body1 ++ r1 = message typ2 body2 ++ r2 -> typ1 = typ2 /\ body1 = body2 /\ r1 = r2.
Proof. unfold MaxStartupLen. intros H1 H2. apply message_inj; lia. Qed.

(** A step that succeeds with a connection described by [P], the only such one,
    or fails with an error when there is none. *)
Definition decides (P : conn -> Prop) (m : M conn unit) (c : conn) : Prop :=
  (exists c', P c' /\ (forall c2, P c2 -> c2 = c') /\ m c = (Ok tt, c')) \/
  ((exists e c', m c = (Err e, c')) /\ forall c', ~ P c').

Lemma decides_ctx P f m c : decides P m c -> decides P (with_err f m) c.
Proof.
  intros [(c' & HP & Hu & E)|[(e & c' & E) Hno]]; [left|right].
  - exists c'. split_and!; [done..|]. by apply with_err_ok.
  - split; [|done]. exists (f e), c'. by apply with_err_err.
Qed.
Lemma decides_bind P (Q : conn -> conn -> Prop) m k c : decides P m c -> (forall c', P c' -> decides (Q c') (k tt) c') ->
  decides (fun c2 => exists c1, P c1 /\ Q c1 c2) (m ≫= k) c.
Proof.
  intros [(c' & HP & Hu & E)|[(e & c' & E) Hno]] Hk; unfold decides; mrun E.
  - destruct (Hk c' HP) as [(c2 & HQ & Hu2 & E2)|[(e & c2 & E2) Hno]]; rewrite E2; [left|right].
    + exists c2. split_and!; [eauto| |done]. intros c3 (c1 & HP1 & HQ1). rewrite (Hu c1 HP1) in HQ1. by apply Hu2.
    + split; [eauto|]. intros c3 (c1 & HP1 & HQ1). rewrite (Hu c1 HP1) in HQ1. by eapply Hno.
  - right. split; [eauto|]. intros c2 (c1 & HP1 & _). by eapply Hno.
Qed.
Lemma decides_det (P : conn -> Prop) m c : (forall c1 c2, P c1 -> P c2 -> c1 = c2) ->
  (exists c', P c' /\ m c = (Ok tt, c')) \/ ((exists e c', m c = (Err e, c')) /\ forall c', ~ P c') -> decides P m c.
Proof. intros Hd [(c' & HP & E)|H]; [left|by right]. exists c'. split_and!; auto. Qed.
(** A step that cannot fail. *)
Lemma decides_always m c c' : m c = (Ok tt, c') -> decides (fun c2 => c2 = c') m c.
Proof. intros E. left. eauto. Qed.
Lemma decides_lift {A} P (r : res A) a k c : r = Ok a -> decides P (k a) c -> decides P (lift r ≫= k) c.
Proof. by intros ->. Qed.

Lemma ready_inv b rest : ready b rest -> exists typ body b', typ <> "E"%byte /\ len body <= MaxStartupLen /\ b = message typ body ++ b' /\
  ((typ = "Z"%byte /\ b' = rest) \/ (typ <> "Z"%byte /\ ready b' rest)).
Proof. intros []; eexists _, _, _; split_and!; [|done|done|auto|done|done|done|auto]; done. Qed.
(** The first message determines how reading on goes. *)
Lemma ready_head typ body b rest : len body <= MaxStartupLen ->
  ready (message typ body ++ b) rest <-> typ <> "E"%byte /\ ((typ = "Z"%byte /\ b = rest) \/ (typ <> "Z"%byte /\ ready b rest)).
Proof.
  intros Hl. split.
  - intros (typ' & body' & b' & HE & Hl' & E & H)%ready_inv. by apply message_cap_inj in E as (-> & -> & ->).
  - intros (HE & [[-> ->]|[HZ Hr]]); by constructor.
Qed.
Lemma ready_det b r1 r2 : ready b r1 -> ready b r2 -> r1 = r2.
Proof.
  intros H. revert r2. induction H as [body rest Hl|typ body b rest HE HZ Hl _ IH]; intros r2 H2; apply ready_head in H2 as [_ H2]; try done.
  - naive_solver.
  - destruct H2 as [[? _]|[_ H2]]; [done|]. by apply IH.
Qed.
(** The connection after a ReadyForQuery was awaited. *)
Definition at_ready (c c' : conn) : Prop := exists rest, ready (rx c) rest /\ c' = set_rx rest c.
Lemma at_ready_det c c1 c2 : at_ready c c1 -> at_ready c c2 -> c1 = c2.
Proof. intros (r1 & H1 & ->) (r2 & H2 & ->). by rewrite (ready_det _ _ _ H1 H2). Qed.

Lemma pgWaitReady_loop_decides fuel c : healthy c -> (length (rx c) < fuel)%nat ->
  decides (at_ready c) (pgWaitReady_loop fuel) c.
Proof.
  revert c. induction fuel as [|fuel IH]; intros c Hc Hf; [lia|].
  apply decides_det; [apply at_ready_det|]. cbn [pgWaitReady_loop].
  destruct (ReadMessage_cases (R := conn) c) as (out & c1 & E & Ho & Hout); [apply Hc|]. apply (same_out_set_rx c c1) in Ho.
  change (pending c) with (rx c) in Hout. change (pending c1) with (rx c1) in Hout.
  destruct out as [[typ body]|e| |]; [| |done..].
  2: { mrun (with_err_err (wrap_err (str "read")) _ _ _ _ E). right. split; [eauto|]. intros c' (rest & Hr & _).
       apply ready_inv in Hr as (? & ? & ? & _ & ? & Hx & _). by eapply Hout. }
  mrun (with_err_ok (wrap_err (str "read")) _ _ _ _ E). destruct Hout as [Hp Hl].
  pose proof (fun rest => ready_head typ body (rx c1) rest Hl) as Hinv. rewrite <- Hp in Hinv.
  case_decide as HE.
  { subst. destruct (ParseErrorResponse_clean body) as (t & Et & _). mlift Et. right. split; [unfold fail; eauto|].
    intros c' (rest & [? _]%Hinv & _); done. }
  case_decide as HZ.
  { subst. left. exists c1. split; [|done]. exists (rx c1). split; [|done]. apply Hinv. auto. }
  rewrite Ho. pose proof (message_longer typ body (rx c1)) as Hlen.
  destruct (IH (set_rx (rx c1) c)) as [(c' & (rest & Hr & ->) & _ & E2)|[He Hno]]; [auto|cbn; rewrite Hp in Hf; lia| |].
  - left. eexists. split; [|exact E2]. exists rest. split; [|done]. apply Hinv. auto.
  - right. split; [done|]. intros c' (rest & (_ & [[? _]|[_ Hr]])%Hinv & ->); [done|]. eapply Hno. exists rest. done.
Qed.
Lemma pgWaitReady_decides c : healthy c ->
  decides (at_ready c) pgWaitReady c.
Proof. intros Hc. apply (pgWaitReady_loop_decides (S (length (rx c)))); [done|lia]. Qed.

(** ** PostgreSQL *)

Lemma auth_accepts_det user password b s1 r1 s2 r2 :
  auth_accepts user password b s1 r1 -> auth_accepts user password b s2 r2 -> s1 = s2 /\ r1 = r2.
Proof.
  intros H1 H2. inversion H1 as [? ? ? N|? ? ? ? ? N A]; inversion H2 as [? ? ? N'|? ? ? ? ? N' A']; subst;
    (edestruct auth_next_inj as (? & ? & ?); [| |exact N|exact N'|]; [lia|lia|]); simplify_eq; [done|].
  inversion A; inversion A'; subst; simplify_eq.
  repeat match goal with
  | Ha : auth_next ?b ?c1 ?d1 ?r1, Hb : auth_next ?b ?c2 ?d2 ?r2 |- _ =>
      destruct (auth_next_inj b c1 d1 r1 c2 d2 r2) as (_ & ? & ?); [lia|lia|exact Ha|exact Hb|]; clear Ha; simplify_eq
  | Ha : ?x = inr _, Hb : ?x = inr _ |- _ => rewrite Ha in Hb; simplify_eq
  end; done.
Qed.

Definition logged_in (rt : ResolvedTarget) (c c' : conn) : Prop :=
  exists sent rest, auth_accepts (rt_User rt) (rt_Password rt) (rx c) sent rest /\ c' = set_tx (tx c ++ sent) (set_rx rest c).
Lemma AuthenticateUpstream_decides rt c : healthy c -> decides (logged_in rt c) (AuthenticateUpstream (rt_User rt) (rt_Password rt)) c.
Proof.
  intros Hc. apply decides_det.
  - intros c1 c2 (s1 & r1 & A1 & ->) (s2 & r2 & A2 & ->). by destruct (auth_accepts_det _ _ _ _ _ _ _ A1 A2) as [-> ->].
  - destruct (AuthenticateUpstream_cases (rt_User rt) (rt_Password rt) c Hc) as [(sent & rest & A & E)|[He Hno]]; [left|right].
    + eexists. split; [by exists sent, rest|done].
    + split; [done|]. intros c' (sent & rest & A & _). by eapply Hno.
Qed.
Lemma upgrade_decides rt u : healthy u ->
  decides (upgraded rt u)
    (if decide (rt_SSLMode rt = SSLModeRequire) then with_err (wrap_err (str "tls")) (NegotiateUpstreamTLS (rt_Host rt)) else mret tt) u.
Proof.
  intros Hu. apply decides_det; [apply upgraded_inj|]. unfold upgraded. case_decide as Hd; [|left; exists u; auto].
  destruct (NegotiateUpstreamTLS_cases (rt_Host rt) u Hu) as [(rest & t & Hx & Ht & E)|[(e & t & E) Hno]]; [left|right].
  - exists t. split; [|by apply with_err_ok]. right. eauto.
  - split; [eexists _, _; by apply with_err_err|]. intros c' [[? _]|(_ & rest & Hx & Ht)]; [done|]. by eapply Hno.
Qed.
Lemma upgraded_healthy rt u t : network_ok -> healthy u -> upgraded rt u t -> healthy t.
Proof. intros Hn Hu [[_ ->]|(_ & rest & _ & Ht)]; [done|by eapply tls_healthy]. Qed.

Lemma probe_pg_decides rt u : network_ok -> healthy u ->
  (pg_alive rt u /\ exists c', probe_pg rt u = (Ok tt, c')) \/ (~ pg_alive rt u /\ exists e c', probe_pg rt u = (Err e, c')).
Proof.
  intros Hn Hu. set (startup := startup_message (probe_params rt)). set (query := message "Q"%byte (str "select 1" ++ [Byte.x00])).
  set (started := fun t => set_tx (tx t ++ startup) t). set (asked := fun c => set_tx (tx c ++ query) c).
  assert (decides (fun c5 => exists t, upgraded rt u t /\ exists c1, c1 = started t /\ exists c2, logged_in rt c1 c2 /\
    exists c3, at_ready c2 c3 /\ exists c4, c4 = asked c3 /\ at_ready c4 c5) (probe_pg rt) u) as Hd.
  { unfold probe_pg. apply decides_bind; [by apply upgrade_decides|]. intros t Ht.
    assert (healthy t) as Hht by (by eapply upgraded_healthy).
    eapply decides_lift; [apply EncodeStartup_eq|].
    apply decides_bind; [apply decides_ctx, decides_always; by apply Write_healthy|]. intros c1 ->.
    apply decides_bind; [apply decides_ctx, AuthenticateUpstream_decides; unfold started; auto|]. intros c2 (sent & r & _ & ->).
    apply decides_bind; [apply decides_ctx, pgWaitReady_decides; unfold started; auto|]. intros c3 (r3 & _ & ->).
    apply decides_bind; [apply decides_ctx, decides_always; apply WriteMessage_healthy; unfold started; auto|]. intros c4 ->.
    apply decides_ctx, pgWaitReady_decides. unfold asked, started. auto. }
  assert (Halive : pg_alive rt u <-> exists c5 t, upgraded rt u t /\ exists c1, c1 = started t /\ exists c2, logged_in rt c1 c2 /\
    exists c3, at_ready c2 c3 /\ exists c4, c4 = asked c3 /\ at_ready c4 c5).
  { unfold pg_alive. setoid_rewrite login_upgraded. split.
    - intros (up & b & rest & (t & sent & r & Ht & Ha & ->) & Hr1 & Hr2). eexists _, t. split; [done|]. eexists. split; [done|].
      eexists. split; [by exists sent, r|]. eexists. split; [exists b; split; [exact Hr1|done]|]. eexists. split; [done|]. exists rest. split; [exact Hr2|done].
    - intros (c5 & t & Ht & c1 & -> & c2 & (sent & r & Ha & ->) & c3 & (b & Hr1 & ->) & c4 & -> & rest & Hr2 & ->).
      eexists _, b, rest. split; [by exists t, sent, r|]. done. }
  destruct Hd as [(c' & HP & _ & E)|[(e & c' & E) Hno]]; [left|right].
  - split; [apply Halive; eauto|eauto].
  - split; [|eauto]. intros (c5 & HP)%Halive. by eapply Hno.
Qed.

(** ** MySQL *)

Lemma probe_mysql_decides rt u : network_ok -> healthy u ->
  (mysql_alive rt u /\ exists c', probe_mysql rt u = (Ok tt, c')) \/ (~ mysql_alive rt u /\ exists e c', probe_mysql rt u = (Err e, c')).
Proof.
  intros Hn Hu. unfold probe_mysql, mysql_alive. cbv zeta. set (tn := if decide (rt_SSLMode rt = _) then _ else _).
  destruct (AuthenticateUpstreamMySQL_cases (rt_User rt) (rt_Password rt) (rt_Database rt) tn u Hu (tls_healthy Hn))
    as (out & up & E & Hs & Hout).
  destruct out as [hs|e| |]; [| |done..].
  2: { mrun (with_err_err (wrap_err (str "auth")) _ _ _ _ E). right. split; [|eauto]. intros (? & ? & ? & ? & ? & ? & E' & _). congruence. }
  mrun (with_err_ok (wrap_err (str "auth")) _ _ _ _ E).
  assert (healthy up) as Hup.
  { destruct tn; [destruct Hout as [[? _]|(? & ? & ? & ? & ? & _ & _ & _ & _ & H)]|destruct Hout as [[? _]|(? & ? & ? & ? & _ & _ & _ & H)]];
      [done|by apply H|done|by apply H]. }
  destruct (WritePacket_healthy Byte.x00 ([comQuery] ++ str "select 1") up Hup) as (last & bs & _ & Ew).
  mrun (with_err_ok (wrap_err (str "write query")) _ _ _ _ Ew).
  destruct (ReadPacket_cases (R := conn) (set_tx (tx up ++ bs) up)) as (out & c2 & Er & _ & Hr); [apply Hup|].
  change (pending (set_tx (tx up ++ bs) up)) with (rx up) in Hr.
  destruct out as [[seq resp]|e| |]; [| |done..].
  2: { mrun (with_err_err (wrap_err (str "read")) _ _ _ _ Er). right. split; [|eauto].
       intros (hs' & up' & ? & ? & ? & ? & E' & Hf & Hp & _). rewrite E in E'. injection E' as -> ->. by eapply Hr. }
  mrun (with_err_ok (wrap_err (str "read")) _ _ _ _ Er). destruct Hr as (bs' & Hf & Hp). destruct (IsErrPacket resp) eqn:Ee.
  - destruct (ParseERRPacket_total resp) as [t Et]. mlift Et. right. split; [|unfold fail; eauto].
    intros (hs' & up' & resp' & seq' & bs2 & rest & E' & Hf' & Hp' & Hk). rewrite E in E'. injection E' as <- <-. rewrite Hp in Hp'.
    destruct (frames_inj _ _ _ _ _ _ _ _ Hf Hf' Hp') as (<- & <- & _). congruence.
  - left. split; [|eexists; reflexivity]. exists hs, up, resp, seq, bs', (rx c2). done.
Qed.

(** ** All probes *)

Lemma on_dialed_decides rt P m : network_ok ->
  (forall u, healthy u -> (P u /\ exists c', m u = (Ok tt, c')) \/ (~ P u /\ exists e c', m u = (Err e, c'))) ->
  (dialed_and rt P /\ (on_dialed rt m).1 = Ok tt) \/ (~ dialed_and rt P /\ exists e, (on_dialed rt m).1 = Err e).
Proof.
  intros Hn Hm. unfold on_dialed, dialed_and. destruct (DialTimeout _) as [e|u] eqn:Ed; [right; split; [by intros (? & ? & _)|cbn; eauto]|].
  destruct (Hm u (dial_healthy Hn _ _ Ed)) as [[Ha (c' & ->)]|[Ha (e & c' & ->)]]; [left; eauto|right].
  split; [by intros (u' & [= <-] & ?)|cbn; eauto].
Qed.
(** What the probe of an adapter finds out. *)
Definition probed (adapter_ : bytes) (rt : ResolvedTarget) : Prop :=
  dialed_and rt (if decide (adapter_ = AdapterMySQL) then mysql_alive rt else pg_alive rt).
Lemma probeTarget_decides adapter_ rt : network_ok ->
  (probed adapter_ rt /\ (probeTarget adapter_ rt).1 = Ok tt) \/ (~ probed adapter_ rt /\ exists e, (probeTarget adapter_ rt).1 = Err e).
Proof.
  intros Hn. unfold probeTarget, probeMySQL, probePostgres, probed. case_decide; apply on_dialed_decides; try done; intros u.
  - by apply probe_mysql_decides.
  - by apply probe_pg_decides.
Qed.
Lemma probeTarget_closes adapter_ rt c : (probeTarget adapter_ rt).2 = Some c -> shut c = true.
Proof.
  unfold probeTarget, probeMySQL, probePostgres, on_dialed. destruct (DialTimeout _) as [e|u]; [by case_decide|].
  case_decide; [destruct (probe_mysql rt u)|destruct (probe_pg rt u)]; by intros [= <-].
Qed.

(** What the line [r] says about the job: whether the target of a PostgreSQL or
    MySQL database is healthy.  There is no MongoDB probe: of the target of a MongoDB
    database the line says whether a PostgreSQL server answers there. *)
Definition reports (job : bytes * bytes * ResolvedTarget) (r : ProbeResult) : Prop :=
  let '(name, adapter_, rt) := job in
  pr_VirtualName r = name /\ pr_Target r = rt_Name rt /\ pr_Database r = rt_Database rt /\
  pr_Addr r = JoinHostPort (rt_Host rt) (rt_Port rt) /\ (pr_OK r = true -> pr_Err r = []) /\
  (adapter_ = AdapterPostgres \/ adapter_ = AdapterMySQL -> (pr_OK r = true <-> alive rt adapter_)) /\
  (adapter_ = AdapterMongo -> (pr_OK r = true <-> alive rt AdapterPostgres)).
Lemma probed_alive adapter_ rt :
  (adapter_ = AdapterPostgres \/ adapter_ = AdapterMySQL -> (probed adapter_ rt <-> alive rt adapter_)) /\
  (adapter_ = AdapterMongo -> (probed adapter_ rt <-> alive rt AdapterPostgres)).
Proof.
  unfold probed. split; [intros [-> | ->]|intros ->]; cbn.
  - split; [by constructor|by inversion 1].
  - split; [by constructor|by inversion 1].
  - split; [by constructor|by inversion 1].
Qed.

Lemma probe_all_reports jobs : network_ok -> exists rs, probe_all jobs = Ok rs /\ Forall2 reports jobs rs.
Proof.
  intros Hn. induction jobs as [|[[name a] rt] jobs (rs & E & Hrs)]; [by exists []|]. cbn [probe_all]. unfold probe_one.
  destruct (probed_alive a rt) as [H1 H2].
  destruct (probeTarget_decides a rt Hn) as [[Ha ->]|[Ha (e & ->)]]; cbn [mbind res_bind]; rewrite E; cbn [mbind res_bind];
    eexists; (split; [done|]); constructor; try done; unfold reports; cbn; (split_and!; [done..| |]); naive_solver.
Qed.

Lemma probe_jobs_elem o s name a rt : enumerates o s ->
  (name, a, rt) ∈ probe_jobs o s <-> exists d, s_databases s !! name = Some d /\ current d = Some rt /\ adapter d = a.
Proof.
  intros Ho. unfold probe_jobs. rewrite list_elem_of_omap. split.
  - intros (n & _ & H). apply bind_Some in H as (d & Hd & H). apply bind_Some in H as (rt' & Hrt & [= <- <- <-]). eauto.
  - intros (d & Hd & Hc & <-). exists name. split; [by apply (enumerates_elem _ _ _ Ho); eauto|]. rewrite Hd. cbn. unfold Current. by rewrite Hc.
Qed.

End probe.

(** ** Witnesses *)

Definition probed_pg : conn := mkconn
  (message "R"%byte (be_bytes 4 0) ++ message "S"%byte (str "x") ++ message "Z"%byte (str "I") ++
   message "T"%byte (str "columns") ++ message "Z"%byte (str "I")) EOF [] None false.


(** A MongoDB target is probed with the PostgreSQL protocol: a server that the
    proxy logs in to and pipes clients to is reported as failing. *)
Theorem mongo_probe_misreports :
  (forall D T S R rt, @probeTarget D T S R AdapterMongo rt = @probePostgres D T S rt) /\
  (exists c', @AuthenticateUpstreamMongo toy_arch toy_scram (rt_User mg_rt) (rt_Password mg_rt) (rt_AuthSource mg_rt) toy_mongod = (Ok tt, c')) /\
  exists r, @ProbeActive toy_unicode mg_dialer (toy_tls toy_mongod) toy_scram toy_rsa [str "appdb"] mg_server = Ok [r] /\ pr_OK r = false.
Proof.
  split_and!; [done| |].
  - destruct (@AuthenticateUpstreamMongo toy_arch toy_scram (rt_User mg_rt) (rt_Password mg_rt) (rt_AuthSource mg_rt) toy_mongod) as [out c'] eqn:E.
    exists c'. apply (f_equal (fun x => is_ok x.1)) in E. destruct out as [[]|e| |]; [done|exfalso; revert E; vm_compute; discriminate..].
  - destruct (@ProbeActive toy_unicode mg_dialer (toy_tls toy_mongod) toy_scram toy_rsa [str "appdb"] mg_server) as [rs|e| |] eqn:E.
    all: apply (f_equal (fun x => match x with Ok [r] => negb (pr_OK r) | _ => false end)) in E.
    2-4: exfalso; revert E; vm_compute; discriminate.
    destruct rs as [|r [|]]; [exfalso; revert E; vm_compute; discriminate| |exfalso; revert E; vm_compute; discriminate].
    exists r. split; [done|]. destruct (pr_OK r) eqn:Er; [|done]. exfalso. revert E. vm_compute. discriminate.
Qed.
