(* ===== verification/Protocol.v ===== *)
(** internal/control/protocol.go: the requests and responses of the control
    socket and their JSON encoding ([omitempty] included). *)
From Stdlib Require Import Strings.Byte.
From S2P Require Import Prelude Fmt Vars Json Config.

Definition CmdUse : bytes := str "use".
Definition CmdStatus : bytes := str "status".

(** [Variables] distinguishes a nil map ([None]) from an empty one. *)
Record Request := mkRequest {
  rq_Cmd : bytes;
  rq_Target : bytes;
  rq_Variables : option (gmap bytes bytes);
}.
Record WireSwitch := mkWireSwitch {
  ws_VirtualName : bytes;
  ws_Previous : bytes;
  ws_PreviousDatabase : bytes;
  ws_Current : bytes;
  ws_CurrentDatabase : bytes;
  ws_ClosedConns : Z;
  ws_Skipped : bool;
}.
Record WireProbe := mkWireProbe {
  wp_VirtualName : bytes;
  wp_Target : bytes;
  wp_Database : bytes;
  wp_Addr : bytes;
  wp_OK : bool;
  wp_Err : bytes;
}.
Record DatabaseStatus := mkDatabaseStatus {
  ds_VirtualName : bytes;
  ds_Adapter : bytes;
  ds_Current : bytes;
  ds_CurrentDatabase : bytes;
  ds_CurrentHost : bytes;
  ds_CurrentPort : Z;
  ds_ActiveConns : Z;
  ds_Inactive : bool;
}.
Record Response := mkResponse {
  rp_OK : bool;
  rp_Error : bytes;
  rp_Target : bytes;
  rp_Switched : list WireSwitch;
  rp_Missing : list bytes;
  rp_Probes : list WireProbe;
  rp_Ports : option (gmap bytes Z);
  rp_CurrentTarget : bytes;
  rp_Databases : list DatabaseStatus;
}.
Definition zeroRequest : Request := mkRequest [] [] None.
Definition zeroSwitch : WireSwitch := mkWireSwitch [] [] [] [] [] 0 false.
Definition zeroProbe : WireProbe := mkWireProbe [] [] [] [] false [].
Definition zeroStatus : DatabaseStatus := mkDatabaseStatus [] [] [] [] [] 0 0 false.
Definition zeroResponse : Response := mkResponse false [] [] [] [] [] None [] [].

(** ** Encoding: struct fields in order, maps by sorted key *)

Definition fld (name : bytes) (v : json) : list (bytes * json) := [(name, v)].
Definition fld_str (name s : bytes) : list (bytes * json) := if decide (s = []) then [] else [(name, JStr s)].
Definition fld_int (name : bytes) (z : Z) : list (bytes * json) := if decide (z = 0) then [] else [(name, JNum (Itoa z))].
Definition fld_true (name : bytes) (b : bool) : list (bytes * json) := if b then [(name, JBool true)] else [].
Definition fld_list {A} (enc : A -> json) (name : bytes) (l : list A) : list (bytes * json) :=
  match l with [] => [] | _ => [(name, JArr (map enc l))] end.
Definition map_json {A} (enc : A -> json) (m : gmap bytes A) : json :=
  JObj (omap (fun k => x ← m !! k; Some (k, enc x)) (sort_Strings (elements (dom m)))).
Definition fld_map {A} (enc : A -> json) (name : bytes) (m : option (gmap bytes A)) : list (bytes * json) :=
  match m with
  | Some m => if decide (m = ∅) then [] else [(name, map_json enc m)]
  | None => []
  end.
Definition int_json (z : Z) : json := JNum (Itoa z).

Definition Request_json (r : Request) : json :=
  JObj (fld (str "cmd") (JStr (rq_Cmd r)) ++ fld_str (str "target") (rq_Target r) ++
        fld_map JStr (str "variables") (rq_Variables r)).
Definition Switch_json (r : WireSwitch) : json :=
  JObj (fld (str "virtual_name") (JStr (ws_VirtualName r)) ++ fld_str (str "previous") (ws_Previous r) ++
        fld_str (str "previous_database") (ws_PreviousDatabase r) ++ fld_str (str "current") (ws_Current r) ++
        fld_str (str "current_database") (ws_CurrentDatabase r) ++ fld (str "closed_conns") (int_json (ws_ClosedConns r)) ++
        fld_true (str "skipped") (ws_Skipped r)).
Definition Probe_json (r : WireProbe) : json :=
  JObj (fld (str "virtual_name") (JStr (wp_VirtualName r)) ++ fld_str (str "target") (wp_Target r) ++
        fld_str (str "database") (wp_Database r) ++ fld_str (str "addr") (wp_Addr r) ++ fld (str "ok") (JBool (wp_OK r)) ++
        fld_str (str "err") (wp_Err r)).
Definition Status_json (r : DatabaseStatus) : json :=
  JObj (fld (str "virtual_name") (JStr (ds_VirtualName r)) ++ fld_str (str "adapter") (ds_Adapter r) ++
        fld_str (str "current") (ds_Current r) ++ fld_str (str "current_database") (ds_CurrentDatabase r) ++
        fld_str (str "current_host") (ds_CurrentHost r) ++ fld_int (str "current_port") (ds_CurrentPort r) ++
        fld (str "active_conns") (int_json (ds_ActiveConns r)) ++ fld_true (str "inactive") (ds_Inactive r)).
Definition Response_json (r : Response) : json :=
  JObj (fld (str "ok") (JBool (rp_OK r)) ++ fld_str (str "error") (rp_Error r) ++ fld_str (str "target") (rp_Target r) ++
        fld_list Switch_json (str "switched") (rp_Switched r) ++ fld_list JStr (str "missing") (rp_Missing r) ++
        fld_list Probe_json (str "probes") (rp_Probes r) ++ fld_map int_json (str "ports") (rp_Ports r) ++
        fld_str (str "current_target") (rp_CurrentTarget r) ++ fld_list Status_json (str "databases") (rp_Databases r)).

(** ** Decoding *)

(** Decode into one field of a struct. *)
Definition into {T A} (get : T -> A) (set : A -> T -> T) (dec : decoder A) : decoder T := fun j t =>
  (fun a => set a t) <$> dec j (get t).

Definition request_fields : list (bytes * decoder Request) :=
  [(str "cmd", into rq_Cmd (fun x r => mkRequest x (rq_Target r) (rq_Variables r)) dec_string);
   (str "target", into rq_Target (fun x r => mkRequest (rq_Cmd r) x (rq_Variables r)) dec_string);
   (str "variables", into rq_Variables (fun x r => mkRequest (rq_Cmd r) (rq_Target r) x) (dec_map [] dec_string))].
Definition switch_fields : list (bytes * decoder WireSwitch) :=
  [(str "virtual_name", into ws_VirtualName (fun x r => mkWireSwitch x (ws_Previous r) (ws_PreviousDatabase r) (ws_Current r) (ws_CurrentDatabase r) (ws_ClosedConns r) (ws_Skipped r)) dec_string);
   (str "previous", into ws_Previous (fun x r => mkWireSwitch (ws_VirtualName r) x (ws_PreviousDatabase r) (ws_Current r) (ws_CurrentDatabase r) (ws_ClosedConns r) (ws_Skipped r)) dec_string);
   (str "previous_database", into ws_PreviousDatabase (fun x r => mkWireSwitch (ws_VirtualName r) (ws_Previous r) x (ws_Current r) (ws_CurrentDatabase r) (ws_ClosedConns r) (ws_Skipped r)) dec_string);
   (str "current", into ws_Current (fun x r => mkWireSwitch (ws_VirtualName r) (ws_Previous r) (ws_PreviousDatabase r) x (ws_CurrentDatabase r) (ws_ClosedConns r) (ws_Skipped r)) dec_string);
   (str "current_database", into ws_CurrentDatabase (fun x r => mkWireSwitch (ws_VirtualName r) (ws_Previous r) (ws_PreviousDatabase r) (ws_Current r) x (ws_ClosedConns r) (ws_Skipped r)) dec_string);
   (str "closed_conns", into ws_ClosedConns (fun x r => mkWireSwitch (ws_VirtualName r) (ws_Previous r) (ws_PreviousDatabase r) (ws_Current r) (ws_CurrentDatabase r) x (ws_Skipped r)) dec_int);
   (str "skipped", into ws_Skipped (fun x r => mkWireSwitch (ws_VirtualName r) (ws_Previous r) (ws_PreviousDatabase r) (ws_Current r) (ws_CurrentDatabase r) (ws_ClosedConns r) x) dec_bool)].
Definition probe_fields : list (bytes * decoder WireProbe) :=
  [(str "virtual_name", into wp_VirtualName (fun x r => mkWireProbe x (wp_Target r) (wp_Database r) (wp_Addr r) (wp_OK r) (wp_Err r)) dec_string);
   (str "target", into wp_Target (fun x r => mkWireProbe (wp_VirtualName r) x (wp_Database r) (wp_Addr r) (wp_OK r) (wp_Err r)) dec_string);
   (str "database", into wp_Database (fun x r => mkWireProbe (wp_VirtualName r) (wp_Target r) x (wp_Addr r) (wp_OK r) (wp_Err r)) dec_string);
   (str "addr", into wp_Addr (fun x r => mkWireProbe (wp_VirtualName r) (wp_Target r) (wp_Database r) x (wp_OK r) (wp_Err r)) dec_string);
   (str "ok", into wp_OK (fun x r => mkWireProbe (wp_VirtualName r) (wp_Target r) (wp_Database r) (wp_Addr r) x (wp_Err r)) dec_bool);
   (str "err", into wp_Err (fun x r => mkWireProbe (wp_VirtualName r) (wp_Target r) (wp_Database r) (wp_Addr r) (wp_OK r) x) dec_string)].
Definition status_fields : list (bytes * decoder DatabaseStatus) :=
  [(str "virtual_name", into ds_VirtualName (fun x r => mkDatabaseStatus x (ds_Adapter r) (ds_Current r) (ds_CurrentDatabase r) (ds_CurrentHost r) (ds_CurrentPort r) (ds_ActiveConns r) (ds_Inactive r)) dec_string);
   (str "adapter", into ds_Adapter (fun x r => mkDatabaseStatus (ds_VirtualName r) x (ds_Current r) (ds_CurrentDatabase r) (ds_CurrentHost r) (ds_CurrentPort r) (ds_ActiveConns r) (ds_Inactive r)) dec_string);
   (str "current", into ds_Current (fun x r => mkDatabaseStatus (ds_VirtualName r) (ds_Adapter r) x (ds_CurrentDatabase r) (ds_CurrentHost r) (ds_CurrentPort r) (ds_ActiveConns r) (ds_Inactive r)) dec_string);
   (str "current_database", into ds_CurrentDatabase (fun x r => mkDatabaseStatus (ds_VirtualName r) (ds_Adapter r) (ds_Current r) x (ds_CurrentHost r) (ds_CurrentPort r) (ds_ActiveConns r) (ds_Inactive r)) dec_string);
   (str "current_host", into ds_CurrentHost (fun x r => mkDatabaseStatus (ds_VirtualName r) (ds_Adapter r) (ds_Current r) (ds_CurrentDatabase r) x (ds_CurrentPort r) (ds_ActiveConns r) (ds_Inactive r)) dec_string);
   (str "current_port", into ds_CurrentPort (fun x r => mkDatabaseStatus (ds_VirtualName r) (ds_Adapter r) (ds_Current r) (ds_CurrentDatabase r) (ds_CurrentHost r) x (ds_ActiveConns r) (ds_Inactive r)) dec_int);
   (str "active_conns", into ds_ActiveConns (fun x r => mkDatabaseStatus (ds_VirtualName r) (ds_Adapter r) (ds_Current r) (ds_CurrentDatabase r) (ds_CurrentHost r) (ds_CurrentPort r) x (ds_Inactive r)) dec_int);
   (str "inactive", into ds_Inactive (fun x r => mkDatabaseStatus (ds_VirtualName r) (ds_Adapter r) (ds_Current r) (ds_CurrentDatabase r) (ds_CurrentHost r) (ds_CurrentPort r) (ds_ActiveConns r) x) dec_bool)].
Definition response_fields : list (bytes * decoder Response) :=
  [(str "ok", into rp_OK (fun x r => mkResponse x (rp_Error r) (rp_Target r) (rp_Switched r) (rp_Missing r) (rp_Probes r) (rp_Ports r) (rp_CurrentTarget r) (rp_Databases r)) dec_bool);
   (str "error", into rp_Error (fun x r => mkResponse (rp_OK r) x (rp_Target r) (rp_Switched r) (rp_Missing r) (rp_Probes r) (rp_Ports r) (rp_CurrentTarget r) (rp_Databases r)) dec_string);
   (str "target", into rp_Target (fun x r => mkResponse (rp_OK r) (rp_Error r) x (rp_Switched r) (rp_Missing r) (rp_Probes r) (rp_Ports r) (rp_CurrentTarget r) (rp_Databases r)) dec_string);
   (str "switched", into rp_Switched (fun x r => mkResponse (rp_OK r) (rp_Error r) (rp_Target r) x (rp_Missing r) (rp_Probes r) (rp_Ports r) (rp_CurrentTarget r) (rp_Databases r)) (dec_list zeroSwitch (dec_struct switch_fields)));
   (str "missing", into rp_Missing (fun x r => mkResponse (rp_OK r) (rp_Error r) (rp_Target r) (rp_Switched r) x (rp_Probes r) (rp_Ports r) (rp_CurrentTarget r) (rp_Databases r)) (dec_list [] dec_string));
   (str "probes", into rp_Probes (fun x r => mkResponse (rp_OK r) (rp_Error r) (rp_Target r) (rp_Switched r) (rp_Missing r) x (rp_Ports r) (rp_CurrentTarget r) (rp_Databases r)) (dec_list zeroProbe (dec_struct probe_fields)));
   (str "ports", into rp_Ports (fun x r => mkResponse (rp_OK r) (rp_Error r) (rp_Target r) (rp_Switched r) (rp_Missing r) (rp_Probes r) x (rp_CurrentTarget r) (rp_Databases r)) (dec_map 0 dec_int));
   (str "current_target", into rp_CurrentTarget (fun x r => mkResponse (rp_OK r) (rp_Error r) (rp_Target r) (rp_Switched r) (rp_Missing r) (rp_Probes r) (rp_Ports r) x (rp_Databases r)) dec_string);
   (str "databases", into rp_Databases (fun x r => mkResponse (rp_OK r) (rp_Error r) (rp_Target r) (rp_Switched r) (rp_Missing r) (rp_Probes r) (rp_Ports r) (rp_CurrentTarget r) x) (dec_list zeroStatus (dec_struct status_fields)))].

Section codec.
Context `{JsonText}.
Definition Marshal_Request (r : Request) : bytes := Marshal (Request_json r).
Definition Marshal_Response (r : Response) : bytes := Marshal (Response_json r).
Definition Unmarshal_Request (b : bytes) : res Request := Unmarshal (dec_struct request_fields) zeroRequest b.
Definition Unmarshal_Response (b : bytes) : res Response := Unmarshal (dec_struct response_fields) zeroResponse b.
End codec.

(** ** Reading back a field *)

(** The machine's [int]. *)
Definition int_range (z : Z) : Prop := - 2 ^ 63 <= z < 2 ^ 63.

Section fields.
Context {T : Type} (fields : list (bytes * decoder T)).

Lemma dec_here {A} k (get : T -> A) set dec v a rest t : find_field fields k = Some (into get set dec) -> dec v (get t) = Some a ->
  dec_fields fields (fld k v ++ rest) t = dec_fields fields rest (set a t).
Proof. intros Hf Hd. cbn. rewrite Hf. unfold into. by rewrite Hd. Qed.
(** An omitted field keeps the zero value. *)
Lemma dec_str k (get : T -> bytes) set s rest t : find_field fields k = Some (into get set dec_string) -> set [] t = t ->
  dec_fields fields (fld_str k s ++ rest) t = dec_fields fields rest (set s t).
Proof. intros Hf Hz. unfold fld_str. case_decide as Hs; [by rewrite Hs, Hz|]. by eapply dec_here. Qed.
Lemma dec_opt_int k (get : T -> Z) set z rest t : find_field fields k = Some (into get set dec_int) -> set 0 t = t -> int_range z ->
  dec_fields fields (fld_int k z ++ rest) t = dec_fields fields rest (set z t).
Proof. intros Hf Hz Hr. unfold fld_int. case_decide as Hs; [by rewrite Hs, Hz|]. eapply dec_here; [done|]. by apply parse_int_Itoa. Qed.
Lemma dec_true k (get : T -> bool) set b rest t : find_field fields k = Some (into get set dec_bool) -> set false t = t ->
  dec_fields fields (fld_true k b ++ rest) t = dec_fields fields rest (set b t).
Proof. intros Hf Hz. unfold fld_true. destruct b; [by eapply dec_here|by rewrite Hz]. Qed.
Lemma dec_all {A} (enc : A -> json) (zero : A) (dec : decoder A) (k : bytes) (get : T -> list A) set l rest t :
  find_field fields k = Some (into get set (dec_list zero dec)) -> set [] t = t -> Forall (fun a => dec (enc a) zero = Some a) l ->
  dec_fields fields (fld_list enc k l ++ rest) t = dec_fields fields rest (set l t).
Proof.
  intros Hf Hz Hl. unfold fld_list. destruct l as [|a l]; [by rewrite Hz|]. eapply (dec_here k get set); [done|]. cbn [dec_list].
  revert Hl. generalize (a :: l). clear. intros l Hl. induction Hl as [|a l Ha _ IH]; [done|]. cbn [map mapM]. by rewrite Ha, IH.
Qed.

(** Folding the members of an encoded map. *)
Lemma dec_map_keys {A} (enc : A -> json) (zero : A) (dec : decoder A) (m : gmap bytes A) (ks : list bytes) (m0 : gmap bytes A) : (forall k a, m !! k = Some a -> dec (enc a) zero = Some a) ->
  exists m', foldr (fun kv k m => x ← dec kv.2 zero; k (<[kv.1 := x]> m)) Some (omap (fun k => x ← m !! k; Some (k, enc x)) ks) m0 = Some m' /\
    forall k, m' !! k = if decide (k ∈ ks /\ is_Some (m !! k)) then m !! k else m0 !! k.
Proof.
  intros Hd. revert m0. induction ks as [|k ks IH]; intros m0.
  { exists m0. split; [done|]. intros k. rewrite decide_False by set_solver. done. }
  cbn [omap list_omap]. destruct (m !! k) as [a|] eqn:Ek; cbn [mbind option_bind].
  - destruct (IH (<[k := a]> m0)) as (m' & E & Hm'). exists m'. split; [cbn; by rewrite (Hd k a Ek)|]. intros k'. rewrite Hm'.
    destruct (decide (k' = k)) as [->|Hne].
    + rewrite (decide_True (P := k ∈ k :: ks /\ _)) by (split; [set_solver|eauto]). case_decide; [done|]. by rewrite lookup_insert_eq, Ek.
    + rewrite lookup_insert_ne by done. destruct (decide (k' ∈ ks /\ _)) as [[Hin Hs]|Hn].
      * rewrite decide_True; [done|]. split; [set_solver|done].
      * rewrite decide_False; [done|]. intros [Hin Hs]. apply Hn. split; [set_solver|done].
  - destruct (IH m0) as (m' & E & Hm'). exists m'. split; [done|]. intros k'. rewrite Hm'. destruct (decide (k' ∈ ks /\ _)) as [[Hin Hs]|Hn].
    + rewrite decide_True; [done|]. split; [set_solver|done].
    + rewrite decide_False; [done|]. intros [Hin Hs]. apply Hn. split; [|done]. apply elem_of_cons in Hin as [->|]; [|done]. rewrite Ek in Hs. by destruct Hs.
Qed.
Lemma dec_map_json {A} (enc : A -> json) (zero : A) (dec : decoder A) (m : gmap bytes A) : (forall k a, m !! k = Some a -> dec (enc a) zero = Some a) ->
  dec_map zero dec (map_json enc m) None = Some (Some m).
Proof.
  intros Hd. unfold map_json. cbn [dec_map default]. destruct (dec_map_keys enc zero dec m (sort_Strings (elements (dom m))) ∅ Hd) as (m' & -> & Hm').
  cbn. do 2 f_equal. apply map_eq. intros k. rewrite Hm'. case_decide as Hk; [done|]. rewrite lookup_empty. symmetry. apply eq_None_not_Some.
  intros Hs. apply Hk. split; [|done]. unfold sort_Strings. rewrite (sorting.merge_sort_Permutation str_le). by apply elem_of_elements, elem_of_dom.
Qed.
(** An empty map comes back as nil. *)
Definition nonempty {A} (m : option (gmap bytes A)) : option (gmap bytes A) :=
  match m with Some m => if decide (m = ∅) then None else Some m | None => None end.
Lemma dec_mapping {A} (enc : A -> json) (zero : A) (dec : decoder A) (k : bytes) (get : T -> option (gmap bytes A)) (set : option (gmap bytes A) -> T -> T) (m : option (gmap bytes A)) (rest : list (bytes * json)) (t : T) :
  find_field fields k = Some (into get set (dec_map zero dec)) -> get t = None -> set None t = t ->
  (forall m', m = Some m' -> forall k a, m' !! k = Some a -> dec (enc a) zero = Some a) ->
  dec_fields fields (fld_map enc k m ++ rest) t = dec_fields fields rest (set (nonempty m) t).
Proof.
  intros Hf Hg Hz Hm. unfold fld_map, nonempty. destruct m as [m|]; [|by rewrite Hz]. case_decide; [by rewrite Hz|].
  eapply (dec_here k get set); [done|]. rewrite Hg. by apply dec_map_json, (Hm m).
Qed.
End fields.

(** ** What the program writes *)

(** Valid UTF-8. *)
Definition utf8 (s : bytes) : Prop := ToValidUTF8 s = s.

(** A document that is written as JSON and comes back unchanged; [n] bounds its
    nesting. *)
Record good (n : Z) (j : json) : Prop := { good_ok : json_ok j; good_valid : valid_json j = j; good_height : height j <= n }.
Definition good_members (n : Z) (l : list (bytes * json)) : Prop := Forall (fun kv => utf8 kv.1 /\ good n kv.2) l.

Create HintDb wire.

Lemma good_str n s : 0 <= n -> utf8 s -> good n (JStr s).
Proof. intros Hn Hs. split; cbn; [done|by rewrite Hs|done]. Qed.
Lemma good_bool n b : 0 <= n -> good n (JBool b).
Proof. by split. Qed.
Lemma good_int n z : 0 <= n -> good n (int_json z).
Proof. split; cbn; [eauto|done|done]. Qed.
Lemma good_arr {A} n (enc : A -> json) l : 0 <= n -> Forall (fun a => good n (enc a)) l -> good (n + 1) (JArr (map enc l)).
Proof.
  intros Hn Hl. split; cbn.
  - induction Hl as [|a l Ha _ IH]; cbn; [done|]. split; [apply Ha|done].
  - f_equal. induction Hl as [|a l Ha _ IH]; cbn; [done|]. by rewrite (good_valid _ _ Ha), IH.
  - rewrite Z.add_comm. apply Z.add_le_mono_r. induction Hl as [|a l Ha _ IH]; cbn; [done|]. pose proof (good_height _ _ Ha). lia.
Qed.
Lemma good_obj n l : 0 <= n -> good_members n l -> good (n + 1) (JObj l).
Proof.
  intros Hn Hl. split; cbn.
  - induction Hl as [|[k v] l [Hk Hv] _ IH]; cbn; [done|]. split; [apply Hv|done].
  - f_equal. induction Hl as [|[k v] l [Hk Hv] _ IH]; [done|]. cbn [map fst snd] in *. by rewrite (good_valid _ _ Hv), IH, Hk.
  - rewrite Z.add_comm. apply Z.add_le_mono_r. induction Hl as [|[k v] l [Hk Hv] _ IH]; cbn; [done|]. pose proof (good_height _ _ Hv). cbn in *. lia.
Qed.

Lemma good_app n l1 l2 : good_members n l1 -> good_members n l2 -> good_members n (l1 ++ l2).
Proof. apply Forall_app_2. Qed.
Lemma good_fld n k v : utf8 k -> good n v -> good_members n (fld k v).
Proof. intros. by apply Forall_singleton. Qed.
Lemma good_fld_str n k s : 0 <= n -> utf8 k -> utf8 s -> good_members n (fld_str k s).
Proof. intros. unfold fld_str. case_decide; [by constructor|]. apply good_fld; [done|by apply good_str]. Qed.
Lemma good_fld_int n k z : 0 <= n -> utf8 k -> good_members n (fld_int k z).
Proof. intros. unfold fld_int. case_decide; [by constructor|]. apply good_fld; [done|by apply good_int]. Qed.
Lemma good_fld_true n k b : 0 <= n -> utf8 k -> good_members n (fld_true k b).
Proof. intros. destruct b; [|by constructor]. apply good_fld; [done|by apply good_bool]. Qed.
Lemma good_fld_list {A} n (enc : A -> json) k l : 0 <= n -> utf8 k -> Forall (fun a => good n (enc a)) l -> good_members (n + 1) (fld_list enc k l).
Proof. intros Hn Hk Hl. destruct l; [by constructor|]. apply good_fld; [done|by apply good_arr]. Qed.
Lemma good_map_json {A} (n : Z) (enc : A -> json) (m : gmap bytes A) : 0 <= n -> (forall k a, m !! k = Some a -> utf8 k /\ good n (enc a)) ->
  good (n + 1) (map_json enc m).
Proof.
  intros Hn Hm. apply good_obj; [done|]. apply Forall_forall. intros [k v] (k' & _ & H)%list_elem_of_omap.
  apply bind_Some in H as (a & Ha & [= <- <-]). by apply Hm.
Qed.
Lemma good_fld_map {A} (n : Z) (enc : A -> json) (k : bytes) (m : option (gmap bytes A)) : 0 <= n -> utf8 k ->
  (forall m', m = Some m' -> forall k a, m' !! k = Some a -> utf8 k /\ good n (enc a)) -> good_members (n + 1) (fld_map enc k m).
Proof.
  intros Hn Hk Hm. destruct m as [m|]; [|by constructor]. unfold fld_map. case_decide; [by constructor|].
  apply good_fld; [done|]. apply good_map_json; eauto.
Qed.

(** The records whose strings are valid UTF-8 and whose numbers are machine
    integers. *)
Record ok_switch (r : WireSwitch) : Prop := {
  oks_name : utf8 (ws_VirtualName r); oks_prev : utf8 (ws_Previous r); oks_prevdb : utf8 (ws_PreviousDatabase r);
  oks_cur : utf8 (ws_Current r); oks_curdb : utf8 (ws_CurrentDatabase r); oks_closed : int_range (ws_ClosedConns r) }.
Record ok_probe (r : WireProbe) : Prop := {
  okp_name : utf8 (wp_VirtualName r); okp_target : utf8 (wp_Target r); okp_db : utf8 (wp_Database r);
  okp_addr : utf8 (wp_Addr r); okp_err : utf8 (wp_Err r) }.
Record ok_status (r : DatabaseStatus) : Prop := {
  okd_name : utf8 (ds_VirtualName r); okd_adapter : utf8 (ds_Adapter r); okd_cur : utf8 (ds_Current r);
  okd_curdb : utf8 (ds_CurrentDatabase r); okd_host : utf8 (ds_CurrentHost r);
  okd_port : int_range (ds_CurrentPort r); okd_active : int_range (ds_ActiveConns r) }.
Definition ok_map {A} (P : A -> Prop) (m : option (gmap bytes A)) : Prop :=
  forall m', m = Some m' -> forall k a, m' !! k = Some a -> utf8 k /\ P a.
Record ok_request (r : Request) : Prop := {
  okq_cmd : utf8 (rq_Cmd r); okq_target : utf8 (rq_Target r); okq_vars : ok_map utf8 (rq_Variables r) }.
Record ok_response (r : Response) : Prop := {
  okr_error : utf8 (rp_Error r); okr_target : utf8 (rp_Target r); okr_switched : Forall ok_switch (rp_Switched r);
  okr_missing : Forall utf8 (rp_Missing r); okr_probes : Forall ok_probe (rp_Probes r); okr_ports : ok_map int_range (rp_Ports r);
  okr_current : utf8 (rp_CurrentTarget r); okr_databases : Forall ok_status (rp_Databases r) }.

#[export] Hint Resolve good_str good_bool good_int good_app good_fld good_fld_str good_fld_int good_fld_true : wire.
#[export] Hint Resolve oks_name oks_prev oks_prevdb oks_cur oks_curdb oks_closed okp_name okp_target okp_db okp_addr okp_err
  okd_name okd_adapter okd_cur okd_curdb okd_host okd_port okd_active okq_cmd okq_target okq_vars
  okr_error okr_target okr_switched okr_missing okr_probes okr_ports okr_current okr_databases : wire.
#[export] Hint Extern 1 (utf8 (str _)) => exact eq_refl : wire.
#[export] Hint Extern 1 (Z.le 0 _) => lia : wire.

Lemma good_switch r : ok_switch r -> good 1 (Switch_json r).
Proof. intros. apply (good_obj 0); [lia|]. auto 20 with wire. Qed.
Lemma good_probe r : ok_probe r -> good 1 (Probe_json r).
Proof. intros. apply (good_obj 0); [lia|]. auto 20 with wire. Qed.
Lemma good_status r : ok_status r -> good 1 (Status_json r).
Proof. intros. apply (good_obj 0); [lia|]. auto 20 with wire. Qed.
Lemma good_request r : ok_request r -> good 2 (Request_json r).
Proof.
  intros Hr. apply (good_obj 1); [lia|]. repeat apply good_app; [eauto with wire..|]. apply (good_fld_map 0); [lia|done|].
  intros m Hm k a Ha. destruct (okq_vars r Hr m Hm k a Ha). eauto with wire.
Qed.
Lemma Forall_good {A} (P : A -> Prop) n enc l : (forall a, P a -> good n (enc a)) -> Forall P l -> Forall (fun a => good n (enc a)) l.
Proof. intros H Hl. eapply Forall_impl; [exact Hl|exact H]. Qed.
#[export] Hint Resolve good_switch good_probe good_status Forall_good : wire.
Lemma good_response r : ok_response r -> good 3 (Response_json r).
Proof.
  intros Hr. apply (good_obj 2); [lia|]. repeat apply good_app; [eauto with wire..| | | | | |].
  all: try (apply (good_fld_list 1); [lia|done|]; eapply Forall_good; eauto with wire).
  all: eauto with wire.
  apply (good_fld_map 1); [lia|done|]. intros m Hm k a Ha. destruct (okr_ports r Hr m Hm k a Ha). eauto with wire.
Qed.

(** Every response is written with integers for numbers, whatever its strings. *)
Definition ok_members (l : list (bytes * json)) : Prop := foldr (fun kv P => json_ok kv.2 /\ P) True l.
Lemma ok_obj l : ok_members l -> json_ok (JObj l).
Proof. done. Qed.
Lemma ok_app l1 l2 : ok_members l1 -> ok_members l2 -> ok_members (l1 ++ l2).
Proof. intros H1 H2. induction l1 as [|x l1 IH]; [done|]. destruct H1 as [Hx H1]. split; [done|by apply IH]. Qed.
Lemma ok_fld k v : json_ok v -> ok_members (fld k v).
Proof. by split. Qed.
Lemma ok_fld_str k s : ok_members (fld_str k s).
Proof. unfold fld_str. by case_decide. Qed.
Lemma ok_fld_int k z : ok_members (fld_int k z).
Proof. unfold fld_int. case_decide; cbn; eauto. Qed.
Lemma ok_fld_true k b : ok_members (fld_true k b).
Proof. by destruct b. Qed.
Lemma ok_fld_list {A} (enc : A -> json) k l : (forall a, json_ok (enc a)) -> ok_members (fld_list enc k l).
Proof. intros He. destruct l as [|a l]; cbn; [done|]. split_and!; [done| |done]. induction l; cbn; auto. Qed.
Lemma ok_int z : json_ok (int_json z).
Proof. by exists z. Qed.
#[export] Hint Resolve ok_app ok_fld ok_fld_str ok_fld_int ok_fld_true ok_fld_list ok_int : wire.
#[export] Hint Extern 1 (json_ok _) => exact I : wire.
Lemma Response_json_ok r : json_ok (Response_json r).
Proof.
  assert (forall r, json_ok (Switch_json r)) as H1 by (intros; apply ok_obj; auto 20 with wire).
  assert (forall r, json_ok (Probe_json r)) as H2 by (intros; apply ok_obj; auto 20 with wire).
  assert (forall r, json_ok (Status_json r)) as H3 by (intros; apply ok_obj; auto 20 with wire).
  assert (ok_members (fld_map int_json (str "ports") (rp_Ports r))) as H4.
  { unfold fld_map. destruct (rp_Ports r) as [m|]; [|done]. case_decide; [done|]. cbn. split; [|done].
    induction (sort_Strings _) as [|k l IH]; cbn; [done|]. destruct (m !! k); cbn; eauto. }
  apply ok_obj. auto 20 with wire.
Qed.

(** ** Reading the records back *)

Lemma dec_int_json z old : int_range z -> dec_int (int_json z) old = Some z.
Proof. apply parse_int_Itoa. Qed.

(** Keep the partly read record in constructor form. *)
Ltac tidy := cbn [rq_Cmd rq_Target rq_Variables ws_VirtualName ws_Previous ws_PreviousDatabase ws_Current ws_CurrentDatabase ws_ClosedConns ws_Skipped wp_VirtualName wp_Target wp_Database wp_Addr wp_OK wp_Err ds_VirtualName ds_Adapter ds_Current ds_CurrentDatabase ds_CurrentHost ds_CurrentPort ds_ActiveConns ds_Inactive rp_OK rp_Error rp_Target rp_Switched rp_Missing rp_Probes rp_Ports rp_CurrentTarget rp_Databases zeroRequest zeroSwitch zeroProbe zeroStatus zeroResponse].
(** Read the field in front. *)
Ltac read_field := lazymatch goal with
  | |- dec_fields _ (fld _ _ ++ _) _ = _ =>
      erewrite dec_here; [|reflexivity|lazymatch goal with |- _ (int_json _) _ = _ => apply dec_int_json; auto with wire | _ => reflexivity end]
  | |- dec_fields _ (fld_str _ _ ++ _) _ = _ => erewrite dec_str; [|reflexivity|reflexivity]
  | |- dec_fields _ (fld_int _ _ ++ _) _ = _ => erewrite dec_opt_int; [|reflexivity|reflexivity|auto with wire]
  | |- dec_fields _ (fld_true _ _ ++ _) _ = _ => erewrite dec_true; [|reflexivity|reflexivity]
  | |- dec_fields _ (fld_list _ _ _ ++ _) _ = _ => erewrite dec_all; [|reflexivity|reflexivity|]
  | |- dec_fields _ (fld_map _ _ _ ++ _) _ = _ => erewrite dec_mapping; [|reflexivity|reflexivity|reflexivity|]
  end.
(** Read the fields one by one. *)
Ltac read_fields :=
  match goal with |- dec_struct _ ?j _ = _ => let j' := eval hnf in j in change j with j' end; cbn [dec_struct];
  match goal with |- dec_fields ?f ?l ?t = _ => rewrite <- (app_nil_r l); rewrite <- ?app_assoc end;
  repeat (read_field; tidy).
Lemma dec_switch r : ok_switch r -> dec_struct switch_fields (Switch_json r) zeroSwitch = Some r.
Proof. intros Hr. read_fields. by destruct r. Qed.
Lemma dec_probe r : ok_probe r -> dec_struct probe_fields (Probe_json r) zeroProbe = Some r.
Proof. intros Hr. read_fields. by destruct r. Qed.
Lemma dec_status r : ok_status r -> dec_struct status_fields (Status_json r) zeroStatus = Some r.
Proof. intros Hr. read_fields. by destruct r. Qed.
#[export] Hint Resolve dec_switch dec_probe dec_status dec_int_json : wire.

(** What the peer reads: an empty map is omitted and comes back nil. *)
Definition sent_request (r : Request) : Request := mkRequest (rq_Cmd r) (rq_Target r) (nonempty (rq_Variables r)).
Definition sent_response (r : Response) : Response :=
  mkResponse (rp_OK r) (rp_Error r) (rp_Target r) (rp_Switched r) (rp_Missing r) (rp_Probes r) (nonempty (rp_Ports r))
    (rp_CurrentTarget r) (rp_Databases r).

Lemma dec_request r : ok_request r -> dec_struct request_fields (Request_json r) zeroRequest = Some (sent_request r).
Proof. intros Hr. read_fields; done. Qed.
Lemma Forall_dec {A} (P : A -> Prop) (dec : decoder A) enc zero l : (forall a, P a -> dec (enc a) zero = Some a) -> Forall P l ->
  Forall (fun a => dec (enc a) zero = Some a) l.
Proof. intros H Hl. eapply Forall_impl; [exact Hl|exact H]. Qed.
Lemma dec_response r : ok_response r -> dec_struct response_fields (Response_json r) zeroResponse = Some (sent_response r).
Proof.
  intros Hr. read_fields; [done|eapply Forall_dec; eauto with wire| |by eapply (Forall_dec ok_probe); eauto with wire
    |by eapply (Forall_dec utf8); eauto with wire|eapply Forall_dec; eauto with wire].
  intros m Hm k a Ha. apply dec_int_json. by eapply (okr_ports r Hr).
Qed.

Section roundtrip.
Context `{JsonText}.

Lemma Unmarshal_Marshal {T} (dec : decoder T) zero n j w : good n j -> n <= maxNestingDepth -> forallb is_ws w = true ->
  Unmarshal dec zero (Marshal j ++ w) = match dec j zero with Some t => Ok t | None => Err (type_error (Marshal j ++ w)) end.
Proof.
  intros [Hok Hv Hh] Hn Hw. unfold Unmarshal. rewrite parse_Marshal by (done || lia). by rewrite Hv.
Qed.
Lemma request_roundtrip r w : ok_request r -> forallb is_ws w = true -> Unmarshal_Request (Marshal_Request r ++ w) = Ok (sent_request r).
Proof.
  intros Hr Hw. unfold Unmarshal_Request, Marshal_Request. rewrite (Unmarshal_Marshal _ _ 2) by (done || by apply good_request).
  by rewrite dec_request.
Qed.
Lemma response_roundtrip r w : ok_response r -> forallb is_ws w = true -> Unmarshal_Response (Marshal_Response r ++ w) = Ok (sent_response r).
Proof.
  intros Hr Hw. unfold Unmarshal_Response, Marshal_Response. rewrite (Unmarshal_Marshal _ _ 3) by (done || by apply good_response).
  by rewrite dec_response.
Qed.

(** C29: the control protocol is faithful.  A request or a response whose strings
    are valid UTF-8 is written as one line -- its text contains no newline -- and
    what the peer reads from that line is the same record, field by field, with
    every omitted field at its zero value and an empty map as nil.  And whatever
    bytes a peer sends instead, decoding them ends with a record or an error. *)
Theorem protocol_roundtrip rq rp b : ok_request rq -> ok_response rp ->
  Byte.x0a ∉ Marshal_Request rq /\ Unmarshal_Request (Marshal_Request rq ++ [Byte.x0a]) = Ok (sent_request rq) /\
  Byte.x0a ∉ Marshal_Response rp /\ Unmarshal_Response (Marshal_Response rp ++ [Byte.x0a]) = Ok (sent_response rp) /\
  safe (Unmarshal_Request b) /\ safe (Unmarshal_Response b).
Proof.
  intros Hq Hp. split_and!; [apply Marshal_line, (good_ok 2), good_request, Hq|by apply request_roundtrip
    |apply Marshal_line, (good_ok 3), good_response, Hp|by apply response_roundtrip|apply Unmarshal_safe..].
Qed.
End roundtrip.

(** ** Witness *)

Definition toy_text : JsonText := {| syntax_error _ := ESys (str "syntax"); type_error _ := ESys (str "type") |}.
Definition sample_request : Request := mkRequest CmdUse (str "staging") (Some {[str "USER" := str "a<b\c"]}).
Definition sample_response : Response := mkResponse true [] (str "staging")
  [mkWireSwitch (str "appdb") (str "local") (str "app") (str "staging") (str "app_staging") 2 false] []
  [mkWireProbe (str "appdb") (str "staging") (str "app_staging") (str "db:5432") true []]
  (Some {[str "postgres" := 5432]}) [] [mkDatabaseStatus (str "appdb") (str "postgres") [] [] [] 0 0 true].

Lemma sample_request_ok : ok_request sample_request.
Proof. split; [done..|]. by intros m [= <-] k a [<- <-]%lookup_singleton_Some. Qed.
Lemma sample_response_ok : ok_response sample_response.
Proof.
  split; [done|done| |constructor| | |done|].
  1,2,4: apply Forall_singleton; split; done.
  intros m [= <-] k a [<- <-]%lookup_singleton_Some. done.
Qed.
Lemma protocol_roundtrip_witness :
  @Unmarshal_Request toy_text (Marshal_Request sample_request ++ [Byte.x0a]) = Ok sample_request /\
  @Unmarshal_Response toy_text (Marshal_Response sample_response ++ [Byte.x0a]) = Ok sample_response.
Proof.
  destruct (@protocol_roundtrip toy_text sample_request sample_response [] sample_request_ok sample_response_ok) as (_ & H1 & _ & H2 & _).
  split; [exact H1|exact H2].
Defined.
