(* ===== verification/Control.v ===== *)
(** internal/control/server.go and client.go: the control socket.

    The handler is written against the class [Daemon], the source's interface
    of the same name; [DaemonLaws] states what it relies on, and the proxy
    server is shown to satisfy it.  [handle] runs on one accepted connection;
    [o] is the order in which a [status] visits the databases and [chunks] the
    pieces in which the socket hands over the bytes. *)
From Stdlib Require Import Strings.Byte.
From S2P Require Import Prelude Fmt IO Net Vars Config Database Server Session PgAuth PgServer MysqlAuth Probe Json Protocol.

Definition newline : byte := Byte.x0a.

(** ** bufio's ReadBytes *)

(** Search the buffer, else collect it and refill. *)
Fixpoint ReadBytes_loop (fuel : nat) (delim : byte) (acc : bytes) (r : bufr) : res bytes * bufr :=
  match IndexByte (br_buf r) delim with
  | Some i => (Ok (acc ++ take (S i) (br_buf r)), Bufr (drop (S i) (br_buf r)) (br_chunks r) (br_conn r))
  | None =>
      let r0 := Bufr [] (br_chunks r) (br_conn r) in
      match fuel with
      | O => (NoFuel, r)
      | S fuel =>
          if shut (br_conn r) then (Err ErrClosed, r0) else
          if decide (rx (br_conn r) = []) then (Err (rend (br_conn r)), r0) else
          let '(data, r1) := raw_read bufsize r0 in
          ReadBytes_loop fuel delim (acc ++ br_buf r) (Bufr data (br_chunks r1) (br_conn r1))
      end
  end.
Definition ReadBytes (delim : byte) : M bufr bytes := fun r => ReadBytes_loop (S (length (rx (br_conn r)))) delim [] r.
(** The line read by a reader made for it; what it buffered beyond is dropped. *)
Definition read_line (chunks : list nat) : M conn bytes := fun c =>
  let '(r, b) := ReadBytes newline (NewReader c chunks) in (r, br_conn b).

(** [strings.Contains]. *)
Fixpoint HasPrefix (s p : bytes) : bool :=
  match p, s with
  | [], _ => true
  | x :: p, y :: s => bool_decide (x = y) && HasPrefix s p
  | _ :: _, [] => false
  end.
Fixpoint Contains (s sub : bytes) : bool :=
  HasPrefix s sub || match s with [] => false | _ :: s => Contains s sub end.

(** [errors.As(err, *proxy.SwitchPlanError)]: its missing variables; a wrapped
    error is the argument of a %w. *)
Fixpoint as_plan_error (e : error) : option (list bytes) :=
  match e with
  | ESwitchPlan _ missing _ => Some missing
  | Errorf f args =>
      if Contains f (str "%w") then
        (fix go l := match l with x :: l => match x with Some r => r | None => go l end | [] => None end) (map as_plan_arg args)
      else None
  | _ => None
  end
with as_plan_arg (a : farg) : option (option (list bytes)) :=
  match a with FErr e => Some (as_plan_error e) | _ => None end.

(** ** The daemon behind the socket *)

Class Daemon (D : Type) := {
  dm_Databases : D -> gmap bytes Database;
  dm_CurrentTarget : D -> bytes * option (gmap bytes bytes);
  dm_SwitchAll : bytes -> option (gmap bytes bytes) -> M D (list SwitchResult);
  dm_ProbeActive : D -> res (list ProbeResult);
  dm_Addrs : D -> gmap bytes bytes;
  dm_IsClosed : D -> bool;
}.
(** What the handler relies on: a switch succeeds or leaves the daemon alone,
    and the probes return. *)
Class DaemonLaws (D : Type) `{Daemon D} := {
  dm_ok : D -> Prop;
  switch_law : forall t v d, dm_ok d ->
    (exists rs d', dm_SwitchAll t v d = (Ok rs, d') /\ dm_ok d') \/ (exists e, dm_SwitchAll t v d = (Err e, d));
  probe_law : forall d, dm_ok d -> exists ps, dm_ProbeActive d = Ok ps;
}.

Record ctl (D : Type) := mkCtl { ct_daemon : D; ct_conn : conn }.
Arguments mkCtl {D} _ _.
Arguments ct_daemon {D} _.
Arguments ct_conn {D} _.

Section control.
Context {U : Unicode} {J : JsonText} {D : Type} `{Daemon D}.

Definition on_conn {A} (m : M conn A) : M (ctl D) A := zoom ct_conn (fun c s => mkCtl (ct_daemon s) c) m.
Definition on_daemon {A} (m : M D A) : M (ctl D) A := zoom ct_daemon (fun d s => mkCtl d (ct_conn s)) m.

(** [Response{OK: false, Error: msg}]. *)
Definition refusal (msg : bytes) : Response := mkResponse false msg [] [] [] [] None [] [].

Definition writeResp (resp : Response) : M (ctl D) unit :=
  ignore (on_conn (Write (Marshal_Response resp ++ [newline]))).

Definition wire_switch (r : SwitchResult) : WireSwitch :=
  mkWireSwitch (sr_VirtualName r) (sr_Previous r) (sr_PreviousDatabase r) (sr_Current r) (sr_CurrentDatabase r) (sr_ClosedConns r) (sr_Skipped r).
Definition wire_probe (p : ProbeResult) : WireProbe :=
  mkWireProbe (pr_VirtualName p) (pr_Target p) (pr_Database p) (pr_Addr p) (pr_OK p) (pr_Err p).

Definition handleUse (req : Request) : M (ctl D) unit :=
  if decide (rq_Target req = []) then writeResp (refusal (str "target is required")) else
  out ← try_ (on_daemon (dm_SwitchAll (rq_Target req) (rq_Variables req)));
  match out with
  | inl err =>
      let missing := match as_plan_error err with Some m => m | None => [] end in
      writeResp (mkResponse false (Error err) [] [] missing [] None [] [])
  | inr results =>
      d ← gets ct_daemon;
      probes ← lift (dm_ProbeActive d);
      writeResp (mkResponse true [] (rq_Target req) (map wire_switch results) [] (map wire_probe probes) None [] [])
  end.

Definition status_of (name : bytes) (d : Database) : DatabaseStatus :=
  match Current d with
  | Some cur => mkDatabaseStatus name (adapter d) (rt_Name cur) (rt_Database cur) (rt_Host cur) (rt_Port cur) (ActiveConns d) false
  | None => mkDatabaseStatus name (adapter d) [] [] [] 0 (ActiveConns d) true
  end.
Definition handleStatus (cfg : Config) (o : list bytes) : M (ctl D) unit :=
  d ← gets ct_daemon;
  writeResp (mkResponse true [] [] [] [] [] (Some (ListenPorts cfg)) (dm_CurrentTarget d).1
    (omap (fun name => status_of name <$> dm_Databases d !! name) o)).

(** [handle] up to its deferred [Close]. *)
Definition handle_request (cfg : Config) (o : list bytes) (chunks : list nat) : M (ctl D) unit :=
  out ← try_ (on_conn (read_line chunks));
  match out with
  | inl _ => mret tt
  | inr line =>
      match Unmarshal_Request line with
      | Err err => writeResp (refusal (Sprintf (str "parse: %v") [RText (Error err)]))
      | Panic => lift Panic
      | NoFuel => lift NoFuel
      | Ok req =>
          closed ← gets (fun s => dm_IsClosed (ct_daemon s));
          if closed : bool then writeResp (refusal (str "shutting down")) else
          if decide (rq_Cmd req = CmdUse) then handleUse req
          else if decide (rq_Cmd req = CmdStatus) then handleStatus cfg o
          else writeResp (refusal (Sprintf (str "unknown command: %s") [RText (rq_Cmd req)]))
      end
  end.
Definition handle (cfg : Config) (o : list bytes) (chunks : list nat) : M (ctl D) unit := fun s =>
  let '(r, s1) := handle_request cfg o chunks s in (r, (on_conn Close s1).2).
End control.

(** ** The client *)

(** [net.Dial("unix", path)] and [errors.Is(err, os.ErrNotExist)]. *)
Class UnixSocket := { net_Dial : bytes -> error + conn; is_not_exist : error -> bool }.

Section client.
Context {U : Unicode} {J : JsonText} {X : UnixSocket}.

(** [Call] and [TryProbe] on the dialed connection. *)
Definition call_on (chunks : list nat) (req : Request) : M conn Response :=
  Write (Marshal_Request req ++ [newline]);;
  line ← with_err (wrap_err (str "read response")) (read_line chunks);
  with_err (fun e => Errorf (str "parse response: %w (raw=%s)") [FErr e; FStr line]) (lift (Unmarshal_Response line)).
Definition dq (s : bytes) : bytes := [quote_byte] ++ s ++ [quote_byte].
Definition status_ping : bytes := str "{" ++ dq (str "cmd") ++ str ":" ++ dq (str "status") ++ str "}".
Definition try_on (chunks : list nat) : M conn Response :=
  Write (status_ping ++ [newline]);;
  line ← read_line chunks;
  lift (Unmarshal_Response line).

Definition Call (chunks : list nat) (socketPath : bytes) (req : Request) : res Response * option conn :=
  match net_Dial socketPath with
  | inl err => (Err (Errorf (str "dial %s: %w") [FStr socketPath; FErr err]), None)
  | inr c => let '(r, c') := call_on chunks req c in (r, Some (Close c').2)
  end.
Definition TryProbe (chunks : list nat) (socketPath : bytes) : res Response * option conn :=
  match net_Dial socketPath with
  | inl err => (Err err, None)
  | inr c => let '(r, c') := try_on chunks c in (r, Some (Close c').2)
  end.
Definition IsRefused (err : option error) : bool :=
  match err with None => false | Some e => Contains (Error e) (str "connection refused") end.
Definition IsMissing (err : option error) : bool :=
  match err with None => false | Some e => is_not_exist e || Contains (Error e) (str "no such file") end.
End client.

(** ** Reading a line *)

Lemma IndexByte_app_eq s1 s2 c : IndexByte (s1 ++ s2) c =
  match IndexByte s1 c with Some i => Some i | None => Nat.add (length s1) <$> IndexByte s2 c end.
Proof.
  induction s1 as [|x s1 IH]; cbn; [by destruct (IndexByte s2 c)|]. case_decide; [done|]. rewrite IH.
  destruct (IndexByte s1 c); [done|]. by destruct (IndexByte s2 c).
Qed.
Lemma IndexByte_absent s c : c ∉ s -> IndexByte s c = None.
Proof. induction s as [|x s IH]; cbn; [done|]. intros H. rewrite decide_False, IH by set_solver. done. Qed.
Lemma IndexByte_bound s c i : IndexByte s c = Some i -> (i < length s)%nat.
Proof.
  revert i. induction s as [|x s IH]; cbn; intros i; [done|]. case_decide; [intros [= <-]; lia|].
  intros (k & Hk & ->)%fmap_Some. specialize (IH k Hk). lia.
Qed.

Lemma ReadBytes_loop_spec fuel delim acc r : shut (br_conn r) = false -> (length (rx (br_conn r)) < fuel)%nat ->
  exists r', same_out (br_conn r) (br_conn r') /\
  ReadBytes_loop fuel delim acc r =
    (match IndexByte (pending r) delim with Some i => Ok (acc ++ take (S i) (pending r)) | None => Err (rend (br_conn r)) end, r').
Proof.
  revert acc r. induction fuel as [|fuel IH]; intros acc r Hs Hf; [lia|]. cbn [ReadBytes_loop]. cbn [pending bufr_Reader] in *.
  rewrite IndexByte_app_eq. destruct (IndexByte (br_buf r) delim) as [i|] eqn:Ei.
  { eexists. split; [|by rewrite take_app_le by (apply IndexByte_bound in Ei; lia)]. done. }
  cbv zeta. rewrite Hs. destruct (decide (rx (br_conn r) = [])) as [Ex|Hx]; [rewrite Ex; eexists; split; [|reflexivity]; done|].
  destruct (raw_read bufsize _) as [data r1] eqn:Er. apply raw_read_split in Er as (Hr & _ & Ho & Hd); [|unfold bufsize; lia].
  cbn [br_conn] in *. specialize (Hd Hx).
  destruct (IH (acc ++ br_buf r) (Bufr data (br_chunks r1) (br_conn r1))) as (r' & Ho' & E).
  - cbn. by eapply same_out_shut.
  - cbn. assert (length (rx (br_conn r)) = length data + length (rx (br_conn r1)))%nat as Hl by (rewrite Hr at 1; apply length_app).
    destruct data; [done|]. cbn in Hl. lia.
  - exists r'. split; [by etrans|]. rewrite E. cbn [br_buf br_conn]. rewrite <- Hr.
    destruct (IndexByte (rx (br_conn r)) delim) as [i|]; cbn [fmap option_fmap option_map].
    + rewrite <- app_assoc, <- Nat.add_succ_r, take_app_add. done.
    + destruct Ho as (_ & _ & _ & ->). done.
Qed.
Lemma read_line_spec chunks c : healthy c ->
  exists rest, read_line chunks c =
    (match IndexByte (rx c) newline with Some i => Ok (take (S i) (rx c)) | None => Err (rend c) end, set_rx rest c).
Proof.
  intros [Hs _]. unfold read_line, ReadBytes.
  destruct (ReadBytes_loop_spec (S (length (rx c))) newline [] (NewReader c chunks)) as (r' & Ho & E); [done|cbn; lia|].
  cbn [NewReader br_conn] in *. exists (rx (br_conn r')). rewrite E. by rewrite (same_out_set_rx _ _ Ho).
Qed.
Lemma read_line_ok chunks c line rest : healthy c -> rx c = line ++ newline :: rest -> newline ∉ line ->
  exists rest', read_line chunks c = (Ok (line ++ [newline]), set_rx rest' c).
Proof.
  intros Hc Hx Hl. destruct (read_line_spec chunks c Hc) as (rest' & E). exists rest'. rewrite E, Hx.
  rewrite IndexByte_app by done. by rewrite <- Nat.add_1_r, take_app_add.
Qed.
Lemma read_line_none chunks c : healthy c -> newline ∉ rx c -> exists rest', read_line chunks c = (Err (rend c), set_rx rest' c).
Proof.
  intros Hc Hx. destruct (read_line_spec chunks c Hc) as (rest' & E). exists rest'. by rewrite E, IndexByte_absent.
Qed.

(** ** One request, one answer *)

(** The line that carries a response. *)
Definition line_of (resp : Response) : bytes := Marshal_Response resp ++ [newline].
Lemma line_single resp : newline ∉ Marshal_Response resp.
Proof. apply Marshal_line, Response_json_ok. Qed.

Section handler.
Context {U : Unicode} {J : JsonText} {D : Type} `{DaemonLaws D}.

Lemma on_conn_eq {A} (m : M conn A) (d : D) c r c' : m c = (r, c') -> on_conn m (mkCtl d c) = (r, mkCtl d c').
Proof. intros E. unfold on_conn, zoom. cbn. by rewrite E. Qed.
Lemma on_daemon_eq {A} (m : M D A) d c r d' : m d = (r, d') -> on_daemon m (mkCtl d c) = (r, mkCtl d' c).
Proof. intros E. unfold on_daemon, zoom. cbn. by rewrite E. Qed.
Lemma writeResp_eq resp (d : D) c : healthy c ->
  writeResp resp (mkCtl d c) = (Ok tt, mkCtl d (set_tx (tx c ++ line_of resp) c)).
Proof. intros Hc. unfold writeResp. eapply ignore_ok, on_conn_eq. by apply Write_healthy. Qed.

(** The daemon was left alone, or the line was a [use] that switched it. *)
Definition changed_by (line : bytes) (resp : Response) (d d' : D) : Prop :=
  d' = d \/ exists req rs, Unmarshal_Request line = Ok req /\ rq_Cmd req = CmdUse /\ rq_Target req <> [] /\
    dm_IsClosed d = false /\ dm_SwitchAll (rq_Target req) (rq_Variables req) d = (Ok rs, d') /\ rp_OK resp = true.
(** A positive answer is for a well-formed [use] or [status] to an open daemon. *)
Definition justified (line : bytes) (resp : Response) (d : D) : Prop :=
  rp_OK resp = true -> dm_IsClosed d = false /\
    exists req, Unmarshal_Request line = Ok req /\ (rq_Cmd req = CmdUse \/ rq_Cmd req = CmdStatus).

Lemma handleUse_cases req d c : dm_ok d -> healthy c -> exists resp d', dm_ok d' /\
  handleUse req (mkCtl d c) = (Ok tt, mkCtl d' (set_tx (tx c ++ line_of resp) c)) /\
  (d' = d \/ (rq_Target req <> [] /\ rp_OK resp = true /\ exists rs, dm_SwitchAll (rq_Target req) (rq_Variables req) d = (Ok rs, d'))).
Proof.
  intros Hd Hc. unfold handleUse. case_decide as Ht; [eexists _, d; rewrite writeResp_eq by done; auto|].
  destruct (switch_law (rq_Target req) (rq_Variables req) d Hd) as [(rs & d' & E & Hd')|(e & E)].
  - mrun (try_ok _ _ _ _ (on_daemon_eq _ _ c _ _ E)). rewrite M_bind_gets. destruct (probe_law d' Hd') as (ps & Ep). mlift Ep.
    eexists _, d'. rewrite writeResp_eq by done. split_and!; [done|done|]. right. eauto.
  - mrun (try_err _ _ _ _ (on_daemon_eq _ _ c _ _ E)). eexists _, d. rewrite writeResp_eq by done. auto.
Qed.

Lemma handle_request_line cfg o chunks d c line rest : dm_ok d -> healthy c -> rx c = line ++ newline :: rest -> newline ∉ line ->
  exists resp d' rest', dm_ok d' /\
  handle_request cfg o chunks (mkCtl d c) = (Ok tt, mkCtl d' (set_tx (tx c ++ line_of resp) (set_rx rest' c))) /\
  changed_by (line ++ [newline]) resp d d' /\ justified (line ++ [newline]) resp d.
Proof.
  intros Hd Hc Hx Hl. unfold handle_request. destruct (read_line_ok chunks c line rest Hc Hx Hl) as (rest' & E).
  mrun (try_ok _ _ _ _ (on_conn_eq _ d _ _ _ E)). assert (healthy (set_rx rest' c)) as Hc' by (by apply set_rx_healthy).
  assert (forall resp, rp_OK resp = false -> exists resp' d' rest'0, dm_ok d' /\
    writeResp resp (mkCtl d (set_rx rest' c)) = (Ok tt, mkCtl d' (set_tx (tx c ++ line_of resp') (set_rx rest'0 c))) /\
    changed_by (line ++ [newline]) resp' d d' /\ justified (line ++ [newline]) resp' d) as Hrefuse.
  { intros resp Hr. exists resp, d, rest'. rewrite writeResp_eq by done. split_and!; [done|done|by left|unfold justified; congruence]. }
  pose proof (Unmarshal_safe (dec_struct request_fields) zeroRequest (line ++ [newline])) as Hs.
  fold (Unmarshal_Request (line ++ [newline])) in Hs.
  destruct (Unmarshal_Request (line ++ [newline])) as [req|e| |] eqn:Er; [|by apply Hrefuse|done..].
  rewrite M_bind_gets. cbn [ct_daemon]. destruct (dm_IsClosed d) eqn:Ec; [by apply Hrefuse|].
  case_decide as Hu; [|case_decide as Hst; [|by apply Hrefuse]].
  - destruct (handleUse_cases req d (set_rx rest' c) Hd Hc') as (resp & d' & Hd' & -> & Hch). exists resp, d', rest'.
    split_and!; [done|done| |unfold justified; eauto]. unfold changed_by. destruct Hch as [?|(? & ? & rs & ?)]; [by left|right; eauto 10].
  - unfold handleStatus. rewrite M_bind_gets. eexists _, d, rest'. rewrite writeResp_eq by done.
    split_and!; [done|done|by left|unfold justified; eauto].
Qed.

(** C25: the control socket survives anything and answers everything.  Whatever
    bytes come in -- no line, junk, an unknown command -- the handler returns,
    closes the connection and has sent exactly one line for a received line
    (none without one); the daemon's state changes only when the line is a
    well-formed [use] of a non-empty target, the daemon is not shutting down,
    its [SwitchAll] succeeded, and then the answer says OK; and only such a [use]
    or a [status] to an open daemon is ever answered with OK. *)
Theorem handle_correct cfg o chunks d c : dm_ok d -> healthy c ->
  exists d' c', handle cfg o chunks (mkCtl d c) = (Ok tt, mkCtl d' c') /\ dm_ok d' /\ shut c' = true /\
    ((newline ∉ rx c /\ tx c' = tx c /\ d' = d) \/
     exists line rest resp, rx c = line ++ newline :: rest /\ newline ∉ line /\
       tx c' = tx c ++ Marshal_Response resp ++ [newline] /\ newline ∉ Marshal_Response resp /\
       changed_by (line ++ [newline]) resp d d' /\ justified (line ++ [newline]) resp d).
Proof.
  intros Hd Hc. unfold handle. destruct (IndexByte (rx c) newline) as [i|] eqn:Ei.
  - apply IndexByte_Some in Ei as (Hx & Hl & _). set (line := take i (rx c)) in *.
    destruct (handle_request_line cfg o chunks d c line _ Hd Hc Hx Hl) as (resp & d' & rest' & Hd' & -> & H1 & H2).
    eexists d', _. split; [reflexivity|]. split_and!; [done|done|]. right. exists line. eexists _, resp. split_and!; try done. apply line_single.
  - apply IndexByte_None in Ei. destruct (read_line_none chunks c Hc Ei) as (rest' & E). unfold handle_request.
    mrun (try_err _ _ _ _ (on_conn_eq _ d _ _ _ E)). eexists d, _. split; [reflexivity|]. split_and!; [done|done|]. by left.
Qed.
End handler.

(** ** The proxy is such a daemon *)

Section proxy.
Context {U : Unicode} {J : JsonText} {Di : Dialer} {T : TLS} {Scram_ : Scram} {RSA_ : RSA} {Rand_ : Rand}.
(** The orders in which the switch and the probes visit the databases. *)
Context (o1 o2 o3 : list bytes).

#[local] Instance proxy_daemon : Daemon Server := {|
  dm_Databases := s_databases; dm_CurrentTarget := CurrentTarget; dm_SwitchAll := SwitchAll o1 o2;
  dm_ProbeActive := ProbeActive o3; dm_Addrs := Addrs; dm_IsClosed := IsClosed |}.

Definition proxy_ok (s : Server) : Prop := server_ok s /\ enumerates o1 s /\ enumerates o2 s /\ enumerates o3 s.

(** A switch of the proxy: what it leaves and reports, or nothing. *)
Lemma proxy_switch target vars s : proxy_ok s ->
  (switchable target (default ∅ vars) s /\ exists rs s', SwitchAll o1 o2 target vars s = (Ok rs, s') /\ proxy_ok s' /\
     s_databases s' = next_db target (default ∅ vars) <$> s_databases s /\ CurrentTarget s' = (target, vars) /\
     (forall r, r ∈ rs <-> exists n d, s_databases s !! n = Some d /\ r = result_for target (default ∅ vars) n d) /\
     NoDup (map sr_VirtualName rs)) \/
  (~ switchable target (default ∅ vars) s /\ exists e, SwitchAll o1 o2 target vars s = (Err e, s)).
Proof.
  intros (Hok & E1 & E2 & E3).
  destruct (SwitchAll_cases o1 o2 target vars s (so_wf s Hok) E1 E2) as [(Hs & st' & E & _ & Hc)|Hno]; [left|by right].
  destruct (committed_all o2 target _ s st' E2 Hc) as [Hd _]. split; [done|]. do 2 eexists. split; [exact E|].
  assert (forall o, enumerates o s -> enumerates o (set_target target vars (set_store st' s))) as Hen.
  { intros o. unfold enumerates, s_databases. cbn. by rewrite Hd, dom_fmap_L. }
  destruct (SwitchAll_report _ _ _ _ _ _ _ (so_wf s Hok) E1 E2 E) as [Hnd Hel].
  split_and!; [|done|done|exact Hel|exact Hnd].
  split_and!; [eapply SwitchAll_server_ok; [exact Hok|exact E1|exact E2|exact E]|by apply Hen..].
Qed.

#[local] Instance proxy_laws (Hn : network_ok) : DaemonLaws Server.
Proof.
  refine {| dm_ok := proxy_ok |}.
  - intros t v s Hs. destruct (proxy_switch t v s Hs) as [(_ & rs & s' & E & Hs' & _)|(_ & e & E)]; [left|right]; eauto.
  - intros s _. destruct (probe_all_reports (probe_jobs o3 s) Hn) as (ps & E & _). by exists ps.
Defined.

(** *** Both ends together *)

(** A new connection on which the peer will have sent [b]. *)
Definition fresh (b : bytes) : conn := mkconn b EOF [] None false.
Definition request_line (req : Request) : bytes := Marshal_Request req ++ [newline].

Lemma fresh_healthy b : healthy (fresh b).
Proof. done. Qed.
Lemma Call_reads (X : UnixSocket) chunks path req resp : net_Dial path = inr (fresh (line_of resp)) -> ok_response resp ->
  exists c, Call chunks path req = (Ok (sent_response resp), Some c) /\ tx c = request_line req /\ shut c = true.
Proof.
  intros Hd Hr. unfold Call. rewrite Hd. unfold call_on. mrun (Write_healthy (request_line req) _ (fresh_healthy (line_of resp))).
  destruct (read_line_ok chunks (set_tx (request_line req) (fresh (line_of resp))) (Marshal_Response resp) []) as (rest & E);
    [done|done|apply line_single|]. cbn [fresh tx app]. mrun (with_err_ok (wrap_err (str "read response")) _ _ _ _ E).
  unfold with_err, lift. rewrite response_roundtrip by done. by eexists.
Qed.
Lemma TryProbe_reads (X : UnixSocket) chunks path resp : net_Dial path = inr (fresh (line_of resp)) -> ok_response resp ->
  exists c, TryProbe chunks path = (Ok (sent_response resp), Some c) /\ tx c = status_ping ++ [newline] /\ shut c = true.
Proof.
  intros Hd Hr. unfold TryProbe. rewrite Hd. unfold try_on. mrun (Write_healthy (status_ping ++ [newline]) _ (fresh_healthy (line_of resp))).
  destruct (read_line_ok chunks (set_tx (status_ping ++ [newline]) (fresh (line_of resp))) (Marshal_Response resp) []) as (rest & E);
    [done|done|apply line_single|]. cbn [fresh tx app]. mrun E.
  unfold lift. rewrite response_roundtrip by done. by eexists.
Qed.

(** The handler on a line that decodes to a request. *)
Lemma handle_decoded cfg o chunks s line req : IsClosed s = false -> newline ∉ line -> Unmarshal_Request (line ++ [newline]) = Ok req ->
  exists rest, handle cfg o chunks (mkCtl s (fresh (line ++ [newline]))) =
    let '(r, s1) := (if decide (rq_Cmd req = CmdUse) then handleUse req
          else if decide (rq_Cmd req = CmdStatus) then handleStatus cfg o
          else writeResp (refusal (Sprintf (str "unknown command: %s") [RText (rq_Cmd req)]))) (mkCtl s (set_rx rest (fresh (line ++ [newline]))))
    in (r, (on_conn Close s1).2).
Proof.
  intros Hc Hl Hu. destruct (read_line_ok chunks (fresh (line ++ [newline])) line []) as (rest & E); [done..|]. exists rest.
  unfold handle, handle_request. mrun (try_ok _ _ _ _ (on_conn_eq _ s _ _ _ E)). rewrite Hu, M_bind_gets. cbn [ct_daemon dm_IsClosed proxy_daemon].
  by rewrite Hc.
Qed.

(** [dbpivot use], end to end.  The client of [Call] and the daemon's handler
    on the two ends of one connection: the daemon reads exactly the bytes the
    client wrote, the client reads the daemon's answer back field by field, and
    that answer tells the truth.  When every database can follow the switch, the
    answer is OK, all databases have moved to the target with the client's
    variables, and it carries one line per database with its previous and new
    target and the number of closed connections, and one accurate health line
    per active database; otherwise it is an error and nothing has changed. *)
Theorem use_exchange cfg o chunks s target vars : network_ok -> proxy_ok s -> IsClosed s = false ->
  ok_request (mkRequest CmdUse target vars) -> target <> [] ->
  let req := mkRequest CmdUse target vars in
  exists resp s' c', handle cfg o chunks (mkCtl s (fresh (request_line req))) = (Ok tt, mkCtl s' c') /\ proxy_ok s' /\
    tx c' = line_of resp /\
    (forall (X : UnixSocket) chunks' path, net_Dial path = inr (fresh (tx c')) -> ok_response resp ->
       exists c, Call chunks' path req = (Ok (sent_response resp), Some c) /\ tx c = request_line req /\ shut c = true) /\
    ((switchable target (default ∅ vars) s /\ rp_OK resp = true /\ rp_Error resp = [] /\ rp_Target resp = target /\
      s_databases s' = next_db target (default ∅ vars) <$> s_databases s /\ CurrentTarget s' = (target, nonempty vars) /\
      (forall w, w ∈ rp_Switched resp <-> exists n d, s_databases s !! n = Some d /\ w = wire_switch (result_for target (default ∅ vars) n d)) /\
      NoDup (map ws_VirtualName (rp_Switched resp)) /\
      exists ps, rp_Probes resp = map wire_probe ps /\ Forall2 reports (probe_jobs o3 s') ps) \/
     (~ switchable target (default ∅ vars) s /\ rp_OK resp = false /\ s' = s)).
Proof.
  intros Hn Hs Hc Hq Ht req. change (fresh (request_line req)) with (fresh (Marshal_Request req ++ [newline])).
  destruct (handle_decoded cfg o chunks s (Marshal_Request req) (sent_request req)) as (rest & ->);
    [done|apply Marshal_line, (good_ok 2), good_request, Hq|by apply request_roundtrip|].
  cbn [sent_request rq_Cmd rq_Target rq_Variables req]. rewrite decide_True by done. unfold handleUse.
  cbn [rq_Target rq_Variables]. rewrite decide_False by done. set (c0 := set_rx rest _).
  assert (default ∅ (nonempty vars) = default ∅ vars) as Hv by (destruct vars as [m|]; [cbn; by case_decide|done]).
  destruct (proxy_switch target (nonempty vars) s Hs) as [(Hsw & rs & s' & E & Hs' & Hd & Ht' & Hrs & Hnd)|(Hno & e & E)]; rewrite Hv in *.
  - mrun (try_ok _ _ _ _ (on_daemon_eq (dm_SwitchAll target (nonempty vars)) _ c0 _ _ E)). rewrite M_bind_gets. cbn [ct_daemon].
    destruct (probe_all_reports (probe_jobs o3 s') Hn) as (ps & Ep & Hps). change (probe_all (probe_jobs o3 s')) with (dm_ProbeActive s') in Ep.
    mlift Ep. rewrite writeResp_eq by done. eexists _, s', _. split_and!; [reflexivity|done|reflexivity| |left].
    + intros X ch path Hd' Hr. by eapply Call_reads.
    + cbn [rp_OK rp_Error rp_Target rp_Switched rp_Probes]. split_and!; try done.
      * intros w. rewrite list_elem_of_fmap. setoid_rewrite Hrs. naive_solver.
      * rewrite map_map. exact Hnd.
      * by exists ps.
  - mrun (try_err _ _ _ _ (on_daemon_eq (dm_SwitchAll target (nonempty vars)) _ c0 _ _ E)). rewrite writeResp_eq by done.
    eexists _, s, _. split_and!; [reflexivity|done|reflexivity| |by right].
    intros X ch path Hd' Hr. by eapply Call_reads.
Qed.

Lemma ping_line : newline ∉ status_ping /\ Unmarshal_Request (status_ping ++ [newline]) = Ok (mkRequest CmdStatus [] None).
Proof. split; [absent|reflexivity]. Qed.

(** The status lines, by database. *)
Lemma status_lines s o : enumerates o s ->
  let l := omap (fun name => status_of name <$> s_databases s !! name) o in
  (forall x, x ∈ l <-> exists n d, s_databases s !! n = Some d /\ x = status_of n d) /\ NoDup (map ds_VirtualName l).
Proof.
  intros Ho l. split.
  - intros x. unfold l. rewrite list_elem_of_omap. split.
    + intros (n & _ & (d & Hd & ->)%fmap_Some). eauto.
    + intros (n & d & Hd & ->). exists n. split; [apply (enumerates_elem _ _ _ Ho); eauto|]. by rewrite Hd.
  - pose proof (enumerates_nodup _ _ Ho) as Hnd. subst l. clear Ho. induction Hnd as [|n l Hn _ IH]; [constructor|]. cbn.
    destruct (s_databases s !! n) as [d|]; [|done]. cbn. constructor; [|done]. intros (x & Hx & Hin)%list_elem_of_fmap.
    apply list_elem_of_omap in Hin as (n' & Hn' & (d' & _ & ->)%fmap_Some). apply Hn.
    assert (forall n d, ds_VirtualName (status_of n d) = n) as Hname by (intros; unfold status_of; by destruct (Current _)).
    rewrite !Hname in Hx. by subst.
Qed.

(** C26: [dbpivot status] and the check for a running daemon, end to end.  The
    daemon's answer to the client's [status] and to the bytes [TryProbe] sends is
    the same and tells its state: the global target, the configured ports, and
    exactly one line per database, with the target it currently forwards to (or
    that it is inactive) and its number of open connections.  Nothing changes,
    and the client and [TryProbe] both read that answer back as it was sent,
    with OK set: a second daemon sees that the first one is alive. *)
Theorem status_end_to_end cfg o chunks s : IsClosed s = false -> enumerates o s ->
  exists resp, rp_OK resp = true /\ rp_CurrentTarget resp = (CurrentTarget s).1 /\ rp_Ports resp = Some (ListenPorts cfg) /\
    (forall x, x ∈ rp_Databases resp <-> exists n d, s_databases s !! n = Some d /\ x = status_of n d) /\
    NoDup (map ds_VirtualName (rp_Databases resp)) /\
    (forall line, line = Marshal_Request (mkRequest CmdStatus [] None) \/ line = status_ping ->
       exists c', handle cfg o chunks (mkCtl s (fresh (line ++ [newline]))) = (Ok tt, mkCtl s c') /\ tx c' = line_of resp /\ shut c' = true) /\
    (forall (X : UnixSocket) chunks' path, net_Dial path = inr (fresh (line_of resp)) -> ok_response resp ->
       (exists c, Call chunks' path (mkRequest CmdStatus [] None) = (Ok (sent_response resp), Some c) /\
          tx c = Marshal_Request (mkRequest CmdStatus [] None) ++ [newline] /\ shut c = true) /\
       (exists c, TryProbe chunks' path = (Ok (sent_response resp), Some c) /\ tx c = status_ping ++ [newline] /\ shut c = true)).
Proof.
  intros Hc Ho. destruct (status_lines s o Ho) as [Hel Hnd]. eexists (mkResponse true [] [] [] [] [] (Some (ListenPorts cfg)) _ _).
  cbn [rp_OK rp_CurrentTarget rp_Ports rp_Databases]. split_and!; [done|done|done|exact Hel|exact Hnd| |].
  - intros line Hline. assert (newline ∉ line /\ Unmarshal_Request (line ++ [newline]) = Ok (mkRequest CmdStatus [] None)) as [Hnl Hu].
    { destruct Hline as [-> | ->]; [|apply ping_line]. split; [absent|reflexivity]. }
    destruct (handle_decoded cfg o chunks s line _ Hc Hnl Hu) as (rest & ->). cbn [rq_Cmd].
    rewrite decide_False, decide_True by done. unfold handleStatus. rewrite M_bind_gets, writeResp_eq by done.
    eexists. split; [reflexivity|]. done.
  - intros X ch path Hd Hr. split; [by eapply Call_reads|by eapply TryProbe_reads].
Qed.
End proxy.

(** ** Witnesses *)

Lemma sample_server_ok : server_ok sample_server.
Proof.
  split; [apply sample_wf|]. intros n d Hd. unfold next_target. change (currentTarget sample_server) with (@nil byte).
  assert (map_Forall (fun _ d => HasTarget d [] = false) (new_databases sample_config)) as Hf by (apply (bool_decide_unpack _); vm_compute; exact I).
  rewrite (Hf n d Hd). by destruct (NewDatabase_empty _ _ _ Hd) as [-> _].
Qed.
Lemma sample_proxy_ok : proxy_ok sample_orders sample_orders sample_orders sample_server.
Proof. split; [apply sample_server_ok|]. split_and!; exact (reflexivity _). Qed.

Definition toy_socket (c : conn) : UnixSocket := {| net_Dial _ := inr c; is_not_exist _ := false |}.
(** The proxy behind the control socket, its upstreams answering as [probed_pg]. *)
Definition sample_handle (line : bytes) : res unit * ctl Server :=
  @handle toy_unicode toy_text Server
    (@proxy_daemon toy_unicode (toy_dialer probed_pg) (toy_tls probed_pg) toy_scram toy_rsa sample_orders sample_orders sample_orders)
    sample_config sample_orders [3; 1; 50]%nat (mkCtl sample_server (fresh line)).

Lemma handle_correct_witness : exists d' c', sample_handle (str "junk" ++ [newline]) = (Ok tt, mkCtl d' c') /\ shut c' = true /\ tx c' <> [].
Proof.
  destruct (@handle_correct toy_unicode toy_text Server _
    (@proxy_laws toy_unicode (toy_dialer probed_pg) (toy_tls probed_pg) toy_scram toy_rsa sample_orders sample_orders sample_orders
      (toy_network probed_pg (conj eq_refl eq_refl)))
    sample_config sample_orders [3; 1; 50]%nat sample_server (fresh (str "junk" ++ [newline])) sample_proxy_ok (fresh_healthy _))
    as (d' & c' & E & _ & Hs & [(Hno & _)|(line & rest & resp & _ & _ & Ht & _)]).
  - exfalso. apply Hno. apply (bool_decide_unpack _). vm_compute. exact I.
  - exists d', c'. split; [exact E|]. split; [exact Hs|]. rewrite Ht. cbn [fresh tx app]. intros Habs. by destruct (Marshal_Response resp).
Defined.

Definition sample_use : Request := mkRequest CmdUse (str "local") None.
Lemma sample_use_ok : ok_request sample_use.
Proof. by split. Qed.
Lemma use_exchange_witness : exists resp s' c', sample_handle (request_line sample_use) = (Ok tt, mkCtl s' c') /\
  rp_OK resp = true /\ CurrentTarget s' = (str "local", None) /\
  match (@Call toy_text (toy_socket (fresh (tx (ct_conn (sample_handle (request_line sample_use)).2)))) [] (str "sock") sample_use).1 with
  | Ok r => rp_OK r | _ => false end = true.
Proof.
  destruct (@use_exchange toy_unicode toy_text (toy_dialer probed_pg) (toy_tls probed_pg) toy_scram toy_rsa sample_orders sample_orders sample_orders
    sample_config sample_orders [3; 1; 50]%nat sample_server (str "local") None (toy_network probed_pg (conj eq_refl eq_refl))
    sample_proxy_ok eq_refl sample_use_ok ltac:(discriminate))
    as (resp & s' & c' & E & _ & _ & _ & [(_ & Hok & _ & _ & _ & Ht & _)|(Hno & _)]).
  - exists resp, s', c'. split; [exact E|]. split; [exact Hok|]. split; [exact Ht|]. vm_compute. reflexivity.
  - exfalso. apply Hno, sample_switchable.
Defined.

Lemma status_end_to_end_witness : exists resp c',
  sample_handle (status_ping ++ [newline]) = (Ok tt, mkCtl sample_server c') /\ tx c' = line_of resp /\ rp_OK resp = true /\
  match (@TryProbe toy_text (toy_socket (fresh (tx (ct_conn (sample_handle (status_ping ++ [newline])).2)))) [7]%nat (str "sock")).1 with
  | Ok r => rp_OK r | _ => false end = true.
Proof.
  destruct (@status_end_to_end toy_unicode toy_text (toy_dialer probed_pg) (toy_tls probed_pg) toy_scram toy_rsa sample_orders sample_orders sample_orders
    sample_config sample_orders [3; 1; 50]%nat sample_server eq_refl (reflexivity _)) as (resp & Hok & _ & _ & _ & _ & Hh & _).
  destruct (Hh status_ping (or_intror eq_refl)) as (c' & E & Ht & _). exists resp, c'. split; [exact E|]. split; [exact Ht|].
  split; [exact Hok|]. vm_compute. reflexivity.
Defined.
