(* ===== verification/Pipe.v ===== *)
(** internal/proxy/server.go's [pipeBidi]: the two goroutines that copy between
    the client [a] and the upstream [b], as a step relation.

    [work x] is one action of the goroutine that copies what it reads from [x]
    to the other side: a [Read], a [Write], or one of the two [Close] calls after
    its [io.Copy] returned.  [world] is everything else that can happen to the
    two connections: their peers send, stop sending, stop or resume taking data
    or break, and another goroutine (a switch, a shutdown) closes one of them.
    A [Read] of an open connection with nothing to deliver blocks, and so does a
    [Write] to an open one whose peer takes nothing.  On a broken connection a
    [Write] fails, and a [Read] may still deliver what has arrived or fail. *)
From Stdlib Require Import Relations.Relation_Operators.
From S2P Require Import Prelude.

Inductive side : Type := SA | SB.
Definition other (x : side) : side := match x with SA => SB | SB => SA end.

(** One connection: [e_sent] is what its peer has sent in all, [e_unread] the
    part not yet read, [e_out] what was written to it by the copying. *)
Record endp := mkEnd {
  e_sent : bytes;
  e_unread : bytes;
  e_ended : bool;
  e_out : bytes;
  e_blocked : bool;
  e_broken : bool;
  e_closed : bool;
}.
(** Where a goroutine is: in [Read], in [Write] of some data, before the first
    or the second [Close], or past [wg.Done]. *)
Inductive phase : Type := Reading | Writing (data : bytes) | Closing_a | Closing_b | Finished.

Record pipe := mkPipe { ends : side -> endp; phases : side -> phase }.

#[export] Instance side_eq_dec : EqDecision side.
Proof. solve_decision. Defined.
#[export] Instance phase_eq_dec : EqDecision phase.
Proof. solve_decision. Defined.

Definition upd {A} (f : side -> A) (x : side) (a : A) : side -> A := fun y =>
  match x, y with SA, SA | SB, SB => a | _, _ => f y end.
Definition set_end (x : side) (e : endp) (p : pipe) : pipe := mkPipe (upd (ends p) x e) (phases p).
Definition set_phase (x : side) (ph : phase) (p : pipe) : pipe := mkPipe (ends p) (upd (phases p) x ph).

Definition took (rest : bytes) (e : endp) : endp :=
  mkEnd (e_sent e) rest (e_ended e) (e_out e) (e_blocked e) (e_broken e) (e_closed e).
Definition wrote (data : bytes) (e : endp) : endp :=
  mkEnd (e_sent e) (e_unread e) (e_ended e) (e_out e ++ data) (e_blocked e) (e_broken e) (e_closed e).
Definition shut_down (e : endp) : endp :=
  mkEnd (e_sent e) (e_unread e) (e_ended e) (e_out e) (e_blocked e) (e_broken e) true.
Definition received (data : bytes) (e : endp) : endp :=
  mkEnd (e_sent e ++ data) (e_unread e ++ data) (e_ended e) (e_out e) (e_blocked e) (e_broken e) (e_closed e).
Definition hung_up (e : endp) : endp :=
  mkEnd (e_sent e) (e_unread e) true (e_out e) (e_blocked e) (e_broken e) (e_closed e).
Definition congested (b : bool) (e : endp) : endp :=
  mkEnd (e_sent e) (e_unread e) (e_ended e) (e_out e) b (e_broken e) (e_closed e).
Definition lost (e : endp) : endp :=
  mkEnd (e_sent e) (e_unread e) (e_ended e) (e_out e) (e_blocked e) true (e_closed e).

(** One action of the goroutine that reads from [x]. *)
Inductive work (x : side) (p : pipe) : pipe -> Prop :=
  | work_read data rest : phases p x = Reading -> e_closed (ends p x) = false -> data <> [] -> e_unread (ends p x) = data ++ rest ->
      work x p (set_phase x (Writing data) (set_end x (took rest (ends p x)) p))
  | work_eof : phases p x = Reading -> e_closed (ends p x) = false -> e_unread (ends p x) = [] -> e_ended (ends p x) = true ->
      work x p (set_phase x Closing_a p)
  | work_read_closed : phases p x = Reading -> e_closed (ends p x) = true -> work x p (set_phase x Closing_a p)
  | work_read_fails : phases p x = Reading -> e_closed (ends p x) = false -> e_broken (ends p x) = true ->
      work x p (set_phase x Closing_a p)
  | work_write data : phases p x = Writing data -> e_closed (ends p (other x)) = false -> e_broken (ends p (other x)) = false ->
      e_blocked (ends p (other x)) = false ->
      work x p (set_phase x Reading (set_end (other x) (wrote data (ends p (other x))) p))
  | work_write_fails data part rest : phases p x = Writing data -> data = part ++ rest ->
      e_closed (ends p (other x)) = true \/ e_broken (ends p (other x)) = true ->
      work x p (set_phase x Closing_a (set_end (other x) (wrote part (ends p (other x))) p))
  | work_close_a : phases p x = Closing_a -> work x p (set_phase x Closing_b (set_end SA (shut_down (ends p SA)) p))
  | work_close_b : phases p x = Closing_b -> work x p (set_phase x Finished (set_end SB (shut_down (ends p SB)) p)).

(** Everything else. *)
Inductive world (p : pipe) : pipe -> Prop :=
  | world_send x data : e_ended (ends p x) = false -> world p (set_end x (received data (ends p x)) p)
  | world_end x : world p (set_end x (hung_up (ends p x)) p)
  | world_congest x b : world p (set_end x (congested b (ends p x)) p)
  | world_break x : world p (set_end x (lost (ends p x)) p)
  | world_close x : world p (set_end x (shut_down (ends p x)) p).

Definition goroutines (p p' : pipe) : Prop := exists x, work x p p'.
Definition step (p p' : pipe) : Prop := goroutines p p' \/ world p p'.

(** [pipeBidi] starts with both goroutines about to read, and returns when both
    are done. *)
Definition starting (p : pipe) : Prop :=
  forall x, phases p x = Reading /\ e_out (ends p x) = [] /\ e_unread (ends p x) = e_sent (ends p x).
Definition returned (p : pipe) : Prop := forall x, phases p x = Finished.

(** ** Nothing is lost, reordered or made up *)

Definition carried (ph : phase) : bytes := match ph with Writing data => data | _ => [] end.
Definition copying (ph : phase) : bool := match ph with Reading | Writing _ => true | _ => false end.

Record lane_ok (x : side) (p : pipe) : Prop := {
  lane_flow : copying (phases p x) = true ->
    e_sent (ends p x) = e_out (ends p (other x)) ++ carried (phases p x) ++ e_unread (ends p x);
  lane_prefix : e_out (ends p (other x)) `prefix_of` e_sent (ends p x);
  (** The copying stops early only on a closed or broken connection. *)
  lane_done : copying (phases p x) = false ->
    e_closed (ends p x) = true \/ e_closed (ends p (other x)) = true \/ e_broken (ends p x) = true \/ e_broken (ends p (other x)) = true \/
    (e_ended (ends p x) = true /\ e_out (ends p (other x)) = e_sent (ends p x));
}.
Definition pipe_ok (p : pipe) : Prop := forall x, lane_ok x p.

(** Look up the sides. *)
Ltac look := cbn [ends phases set_end set_phase other upd e_sent e_unread e_ended e_out e_blocked e_broken e_closed
  took wrote shut_down received hung_up congested lost] in *.
(** Use what is known of the phases. *)
Ltac phases_known :=
  repeat match goal with
  | H : phases ?p ?x = _, K : context [phases ?p ?x] |- _ => lazymatch K with H => fail | _ => rewrite H in K end
  | H : phases ?p ?x = _ |- context [phases ?p ?x] => rewrite H
  end; cbn [copying carried app] in *;
  repeat match goal with H : true = true -> _ |- _ => specialize (H eq_refl) | H : false = false -> _ |- _ => specialize (H eq_refl) end.

Lemma work_ok x p p' : pipe_ok p -> work x p p' -> pipe_ok p'.
Proof.
  intros Hp Hw y. pose proof (Hp SA) as [A1 A2 A3]. pose proof (Hp SB) as [B1 B2 B3]. clear Hp.
  destruct Hw, x, y; constructor; look; phases_known; try assumption; try discriminate; try tauto.
  all: intros; subst; try match goal with H : e_unread _ = _ |- _ => rewrite H in * end; cbn [app] in *; rewrite ?app_nil_r, <- ?app_assoc in *.
  all: try congruence; try (eexists; eassumption).
  1,2: do 4 right; by split.
  1,3: eexists; rewrite A1; by rewrite <- app_assoc.
  all: eexists; rewrite B1; by rewrite <- app_assoc.
Qed.
Lemma world_ok p p' : pipe_ok p -> world p p' -> pipe_ok p'.
Proof.
  intros Hp Hw y. pose proof (Hp SA) as [A1 A2 A3]. pose proof (Hp SB) as [B1 B2 B3]. clear Hp.
  destruct Hw as [x data He|x|x b|x|x], x, y; constructor; look; try assumption; try tauto.
  1,4: intros Hc; first [rewrite A1 by done|rewrite B1 by done]; by rewrite <- !app_assoc.
  1,3: by apply prefix_app_r.
  1,2: intros Hc; first [specialize (A3 Hc)|specialize (B3 Hc)]; destruct_or?; naive_solver congruence.
Qed.
Lemma step_ok p p' : pipe_ok p -> step p p' -> pipe_ok p'.
Proof. intros Hp [[x Hw]|Hw]; [by eapply work_ok|by eapply world_ok]. Qed.
Lemma starting_ok p : starting p -> pipe_ok p.
Proof.
  intros Hs x. destruct (Hs x) as (Hr & _ & Hu), (Hs (other x)) as (_ & Ho & _). constructor; rewrite ?Hr; cbn; [|rewrite Ho; apply prefix_nil|done].
  by rewrite Ho, Hu.
Qed.
Lemma steps_ok p p' : pipe_ok p -> rtc step p p' -> pipe_ok p'.
Proof. intros Hp Hr. induction Hr; [done|]. eauto using step_ok. Qed.

(** ** It ends *)

Definition weight (ph : phase) : nat :=
  match ph with Reading => 3 | Writing _ => 4 | Closing_a => 2 | Closing_b => 1 | Finished => 0 end.
Definition rank (p : pipe) : nat := (weight (phases p SA) + weight (phases p SB))%nat.
(** Left to do: read what has arrived, then finish. *)
Definition load (p : pipe) : nat := (2 * (length (e_unread (ends p SA)) + length (e_unread (ends p SB))) + rank p)%nat.

Lemma work_load x p p' : work x p p' -> (load p' < load p)%nat.
Proof.
  unfold load, rank. intros Hw. destruct Hw, x; look; phases_known; cbn [weight] in *;
    repeat match goal with H : e_unread _ = _ |- _ => rewrite H end; rewrite ?length_app; try lia;
    (destruct data; [done|]); cbn [length]; lia.
Qed.
(** The goroutines alone cannot run forever. *)
Lemma goroutines_sn p : sn goroutines p.
Proof.
  induction (Nat.lt_wf_0_projected load p) as [p _ IH]. constructor. intros p' [x Hw]. apply IH. by eapply work_load.
Qed.

(** A finished goroutine has closed both connections. *)
Definition closes_ok (p : pipe) : Prop := forall x,
  (phases p x = Closing_b \/ phases p x = Finished -> e_closed (ends p SA) = true) /\
  (phases p x = Finished -> e_closed (ends p SB) = true).
Lemma step_closes p p' : closes_ok p -> step p p' -> closes_ok p'.
Proof.
  intros Hp Hs y. pose proof (Hp SA) as [A1 A2]. pose proof (Hp SB) as [B1 B2]. clear Hp.
  destruct Hs as [[x Hw]|Hw]; destruct Hw; destruct x, y; look; phases_known; split; intros; destruct_or?; auto; congruence.
Qed.
Lemma steps_closes p p' : closes_ok p -> rtc step p p' -> closes_ok p'.
Proof. intros Hp Hr. induction Hr; [done|]. eauto using step_closes. Qed.
Lemma starting_closes p : starting p -> closes_ok p.
Proof. intros Hs x. destruct (Hs x) as (-> & _). split; [by intros [?|?]|done]. Qed.

(** What makes the copying end: somebody closed both connections, or one of them
    is closed, broken or at its end and neither peer holds up a [Write]. *)
Definition ending (p : pipe) : Prop :=
  (forall x, e_closed (ends p x) = true) \/
  ((exists x, e_closed (ends p x) = true \/ e_broken (ends p x) = true \/ e_ended (ends p x) = true) /\ forall x, e_blocked (ends p x) = false).
Lemma work_ending x p p' : ending p -> work x p p' -> ending p'.
Proof.
  unfold ending. intros Hp Hw. destruct Hp as [Hc|[[y Hy] Hb]]; [left|right].
  - intros z. pose proof (Hc SA). pose proof (Hc SB). destruct Hw, x, z; look; auto.
  - pose proof (Hb SA). pose proof (Hb SB). split; [exists y|intros z; destruct Hw, x, z; look; auto].
    destruct Hw, x, y; look; auto.
Qed.
Definition stuck (p : pipe) : Prop := forall p', ~ goroutines p p'.

(** A goroutine that cannot move is done, waits for data or waits to write. *)
Lemma stuck_lane x p : stuck p ->
  phases p x = Finished \/
  (phases p x = Reading /\ e_closed (ends p x) = false /\ e_unread (ends p x) = [] /\ e_ended (ends p x) = false /\ e_broken (ends p x) = false) \/
  (e_closed (ends p (other x)) = false /\ e_blocked (ends p (other x)) = true).
Proof.
  intros Hs. assert (forall p', ~ work x p p') as Hx by (intros p' Hw; by apply (Hs p'); exists x).
  destruct (phases p x) as [|data| | |] eqn:Ep; [| | | |by left]; right.
  - left. destruct (e_closed (ends p x)) eqn:Ec; [exfalso; by eapply Hx, work_read_closed|].
    destruct (e_unread (ends p x)) as [|b rest] eqn:Eu; [|exfalso; by eapply Hx, (work_read x p [b] rest)].
    destruct (e_ended (ends p x)) eqn:Ee; [exfalso; by eapply Hx, work_eof|].
    destruct (e_broken (ends p x)) eqn:Eb; [exfalso; by eapply Hx, work_read_fails|done].
  - right. destruct (e_closed (ends p (other x))) eqn:Ec; [exfalso; eapply Hx, (work_write_fails x p data [] data); auto|].
    destruct (e_broken (ends p (other x))) eqn:Eb; [exfalso; eapply Hx, (work_write_fails x p data [] data); auto|].
    destruct (e_blocked (ends p (other x))) eqn:El; [done|exfalso; by eapply Hx, (work_write x p data)].
  - exfalso. by eapply Hx, work_close_a.
  - exfalso. by eapply Hx, work_close_b.
Qed.
Lemma stuck_returned p : closes_ok p -> ending p -> stuck p -> returned p.
Proof.
  intros Hc He Hs.
  assert (exists x, phases p x = Finished) as [x Hx].
  { destruct He as [Hall|[[x Hx] Hb]].
    - exists SA. destruct (stuck_lane SA p Hs) as [?|[(_ & Ha & _)|(Hb & _)]]; [done|by rewrite Hall in Ha|by rewrite Hall in Hb].
    - exists x. destruct (stuck_lane x p Hs) as [?|[(_ & ? & _ & ? & ?)|(_ & Hb')]]; [done|destruct_or?; congruence|by rewrite Hb in Hb']. }
  assert (forall y, e_closed (ends p y) = true) as Hall by (intros []; apply (Hc x); auto).
  intros y. destruct (stuck_lane y p Hs) as [?|[(_ & Ha & _)|(Hb & _)]]; [done|by rewrite Hall in Ha|by rewrite Hall in Hb].
Qed.
Lemma goroutines_steps p p' : rtc goroutines p p' -> rtc step p p'.
Proof. intros H. induction H; [done|]. eapply rtc_l; [by left|done]. Qed.
Lemma ending_steps p p' : ending p -> rtc goroutines p p' -> ending p'.
Proof. intros He H. induction H as [|p1 p2 p3 [x Hw] _ IH]; [done|]. by eapply IH, work_ending. Qed.

(** Whether the goroutine that reads from [x] can move. *)
Definition ready (x : side) (p : pipe) : bool :=
  match phases p x with
  | Reading => e_closed (ends p x) || e_broken (ends p x) || e_ended (ends p x) || negb (bool_decide (e_unread (ends p x) = []))
  | Writing _ => e_closed (ends p (other x)) || e_broken (ends p (other x)) || negb (e_blocked (ends p (other x)))
  | Closing_a | Closing_b => true
  | Finished => false
  end.
Lemma work_ready x p p' : work x p p' -> ready x p = true.
Proof.
  intros Hw. unfold ready. destruct Hw; phases_known; rewrite ?orb_true_iff, ?negb_true_iff, ?bool_decide_eq_false; try done.
  - right. intros E. rewrite E in *. by destruct data.
  - tauto.
  - tauto.
  - tauto.
  - tauto.
  - tauto.
Qed.
Lemma ready_work x p : ready x p = true -> exists p', work x p p'.
Proof.
  unfold ready. destruct (phases p x) as [|data| | |] eqn:Ep; [| |eauto using work|eauto using work|done].
  - destruct (e_closed (ends p x)) eqn:Ec; [eauto using work|]. destruct (e_unread (ends p x)) as [|b rest] eqn:Eu.
    + destruct (e_ended (ends p x)) eqn:Ee; [eauto using work|]. destruct (e_broken (ends p x)) eqn:Eb; [eauto using work|done].
    + intros _. eexists. by apply (work_read x p [b] rest).
  - destruct (e_closed (ends p (other x))) eqn:Ec; [intros _; eexists; apply (work_write_fails x p data [] data); auto|].
    destruct (e_broken (ends p (other x))) eqn:Eb; [intros _; eexists; apply (work_write_fails x p data [] data); auto|].
    destruct (e_blocked (ends p (other x))) eqn:El; [done|]. intros _. eexists. by apply (work_write x p data).
Qed.
Lemma stuck_or_moves p : stuck p \/ exists p', goroutines p p'.
Proof.
  destruct (ready SA p) eqn:EA; [right; destruct (ready_work _ _ EA) as [p' ?]; exists p'; by exists SA|].
  destruct (ready SB p) eqn:EB; [right; destruct (ready_work _ _ EB) as [p' ?]; exists p'; by exists SB|].
  left. intros p' [[] Hw%work_ready]; congruence.
Qed.
Lemma reaches_stuck p : exists p', rtc goroutines p p' /\ stuck p'.
Proof.
  induction (goroutines_sn p) as [p _ IH]. destruct (stuck_or_moves p) as [Hs|[p1 Hg]]; [by exists p|].
  destruct (IH p1 Hg) as (p' & Hr & Hs). exists p'. split; [by eapply rtc_l|done].
Qed.

(** A run in which the goroutines act [n] times, the world in between. *)
Inductive run : nat -> pipe -> pipe -> Prop :=
  | run_nil p : run 0 p p
  | run_work n x p p1 p2 : work x p p1 -> run n p1 p2 -> run (S n) p p2
  | run_world n p p1 p2 : world p p1 -> run n p1 p2 -> run n p p2.

Definition both_closed (p : pipe) : Prop := forall x, e_closed (ends p x) = true.
Lemma step_both_closed p p' : both_closed p -> step p p' -> both_closed p'.
Proof.
  intros Hc Hs z. pose proof (Hc SA). pose proof (Hc SB). destruct Hs as [[x Hw]|Hw]; destruct Hw, x, z; look; auto.
Qed.
Lemma closed_work_rank x p p' : both_closed p -> work x p p' -> (rank p' < rank p)%nat.
Proof.
  intros Hc Hw. pose proof (Hc x). pose proof (Hc (other x)). unfold rank.
  destruct Hw, x; look; phases_known; cbn [weight]; try congruence; lia.
Qed.
Lemma world_rank p p' : world p p' -> rank p' = rank p.
Proof. by intros []. Qed.
Lemma closed_run n p p' : both_closed p -> run n p p' -> both_closed p' /\ (n + rank p' <= rank p)%nat.
Proof.
  intros Hc Hr. induction Hr as [p|n x p p1 p2 Hw _ IH|n p p1 p2 Hw _ IH]; [split; [done|lia]| |].
  - destruct IH as [Hc' Hn]; [eapply step_both_closed; [done|by left; exists x]|]. split; [done|].
    pose proof (closed_work_rank _ _ _ Hc Hw). lia.
  - destruct IH as [Hc' Hn]; [eapply step_both_closed; [done|by right]|]. split; [done|]. by rewrite <- (world_rank _ _ Hw).
Qed.
Lemma rank_bound p : (rank p <= 8)%nat.
Proof. unfold rank. destruct (phases p SA), (phases p SB); cbn; lia. Qed.
Lemma closed_ready p : both_closed p -> returned p \/ exists x, ready x p = true.
Proof.
  intros Hc. unfold ready, returned. destruct (phases p SA) eqn:EA.
  1-4: right; exists SA; rewrite EA, ?Hc; done.
  destruct (phases p SB) eqn:EB; [..|left; by intros []]; right; exists SB; rewrite EB, ?Hc; done.
Qed.

(** C5: the proxy forwards faithfully.  In every interleaving of the two copying
    goroutines with the peers and with a switch that closes the connections, what
    was written to one side is a prefix of what the other side sent -- nothing is
    reordered, duplicated or made up -- and while a direction is being copied
    nothing of it is lost: sent is delivered, in flight, or still to be read.
    A direction whose copying has stopped on connections that are still open and
    unbroken has delivered everything its sender sent before ending its stream. *)
Theorem pipeBidi_faithful p p' x : starting p -> rtc step p p' ->
  e_out (ends p' (other x)) `prefix_of` e_sent (ends p' x) /\
  (copying (phases p' x) = true ->
     e_sent (ends p' x) = e_out (ends p' (other x)) ++ carried (phases p' x) ++ e_unread (ends p' x)) /\
  (copying (phases p' x) = false -> e_closed (ends p' x) = false -> e_closed (ends p' (other x)) = false ->
     e_broken (ends p' x) = false -> e_broken (ends p' (other x)) = false -> e_ended (ends p' x) = true /\ e_out (ends p' (other x)) = e_sent (ends p' x)).
Proof.
  intros Hs Hr. destruct (steps_ok _ _ (starting_ok _ Hs) Hr x) as [H1 H2 H3]. split_and!; [done..|].
  intros Hc Ha Hb Hk1 Hk2. destruct (H3 Hc) as [?|[?|[?|[?|?]]]]; congruence || done.
Qed.

(** C6: [pipeBidi] returns.  Left to themselves its goroutines cannot run forever,
    and once the copying has a reason to end -- a switch closed both connections, or
    one side is closed, broken or at its end and no peer holds up a write -- every way they
    can run on leads to the return of [pipeBidi] with both connections closed.  And
    when both connections are closed, it returns after at most eight more actions
    of its goroutines, whatever the peers do meanwhile: an old connection does not
    outlive the switch that closed it. *)
Theorem pipeBidi_returns p p1 : starting p -> rtc step p p1 -> ending p1 ->
  sn goroutines p1 /\
  (exists p2, rtc goroutines p1 p2 /\ returned p2) /\
  (forall p2, rtc goroutines p1 p2 -> (forall p3, ~ goroutines p2 p3) -> returned p2 /\ both_closed p2) /\
  (both_closed p1 -> forall n p2, run n p1 p2 ->
     (n <= 8)%nat /\ both_closed p2 /\ (returned p2 \/ exists x p3, work x p2 p3)).
Proof.
  intros Hs Hr He. pose proof (steps_closes _ _ (starting_closes _ Hs) Hr) as Hc.
  assert (forall p2, rtc goroutines p1 p2 -> stuck p2 -> returned p2 /\ both_closed p2) as Hend.
  { intros p2 Hg Hst. pose proof (steps_closes _ _ Hc (goroutines_steps _ _ Hg)) as Hc2.
    pose proof (stuck_returned _ Hc2 (ending_steps _ _ He Hg) Hst) as Hret. split; [done|]. intros []; apply (Hc2 SA); auto. }
  split_and!; [apply goroutines_sn| |exact Hend|].
  - destruct (reaches_stuck p1) as (p2 & Hg & Hst). exists p2. split; [done|]. by apply Hend.
  - intros Hb n p2 Hrun. destruct (closed_run _ _ _ Hb Hrun) as [Hb2 Hn]. pose proof (rank_bound p1). split_and!; [lia|done|].
    destruct (closed_ready _ Hb2) as [?|[x Hx]]; [by left|right]. destruct (ready_work _ _ Hx) as [p3 ?]. eauto.
Qed.

(** ** Witnesses: the client sends a query and hangs up *)

Definition quiet_end (sent : bytes) (ended : bool) : endp := mkEnd sent sent ended [] false false false.
Definition piped : pipe :=
  mkPipe (fun x => match x with SA => quiet_end (str "query") true | SB => quiet_end (str "rows") false end) (fun _ => Reading).

Lemma piped_starting : starting piped.
Proof. by intros []. Qed.
Definition piped_mid : pipe := set_phase SA (Writing (str "que")) (set_end SA (took (str "ry") (ends piped SA)) piped).
Lemma piped_steps : rtc step piped piped_mid.
Proof. apply rtc_once. left. exists SA. by apply (work_read SA piped (str "que") (str "ry")). Qed.

Lemma pipeBidi_faithful_witness : e_sent (ends piped_mid SA) = [] ++ str "que" ++ str "ry".
Proof. exact (proj1 (proj2 (pipeBidi_faithful piped piped_mid SA piped_starting piped_steps)) eq_refl). Defined.
Lemma pipeBidi_returns_witness : exists p2, rtc goroutines piped_mid p2 /\ returned p2.
Proof.
  apply (pipeBidi_returns piped piped_mid piped_starting piped_steps). right. split; [exists SA; by do 2 right|by intros []].
Defined.
