(* ===== verification/Failing.v ===== *)
(** Connections that fail.

    The theorems that give the exact bytes of an exchange assume that writes on the
    connections involved succeed ([healthy], [network_ok]).  Here nothing is
    assumed: any write to the client or the upstream may fail at any point, and so
    may what TLS makes of a connection.  A handler then still returns without a
    panic -- but for the parser of the MySQL login packet -- and unless it registered
    its connection, no upstream connection stays open. *)
From Stdlib Require Import Strings.Byte.
From S2P Require Import Prelude Binary Fmt IO Net Vars Config Database Server Session PgWire PgAuth PgServer Cursor MysqlWire MysqlHandshake MysqlAuth MysqlServer Bson MongoWire MongoHandshake MongoAuth MongoServer.

(** ** A failing connection only adds errors *)

(** The connection as it would be if nothing failed. *)
Definition heal (c : conn) : conn := mkconn (rx c) (rend c) (tx c) None false.
(** [m] does the same on [c] as on the healed [c], or returns an error. *)
Definition degrades {A} (m : M conn A) : Prop := forall c,
  (exists r c', m c = (r, c') /\ m (heal c) = (r, heal c')) \/ (exists e c', m c = (Err e, c')).

Create HintDb failing.
Lemma degrades_lift {A} (r : res A) : degrades (lift r).
Proof. intros c. left. by exists r, c. Qed.
Lemma degrades_ret {A} (a : A) : degrades (mret a).
Proof. intros c. left. by exists (Ok a), c. Qed.
Lemma degrades_fail {A} e : degrades (@fail conn A e).
Proof. intros c. left. by exists (Err e), c. Qed.
Lemma degrades_bind {A B} (m : M conn A) (k : A -> M conn B) : degrades m -> (forall a, degrades (k a)) -> degrades (m ≫= k).
Proof.
  intros Hm Hk c. unfold mbind, M_bind. destruct (Hm c) as [(r & c1 & E & Eh)|(e & c1 & E)]; rewrite E; [|by right; exists e, c1].
  rewrite Eh. destruct r as [a|e| |]; [|left; by eexists _, c1..].
  destruct (Hk a c1) as [(r & c2 & E2 & Eh2)|(e & c2 & E2)]; rewrite E2; [left; rewrite Eh2; by exists r, c2|right; by exists e, c2].
Qed.
Lemma degrades_with_err {A} f (m : M conn A) : degrades m -> degrades (with_err f m).
Proof.
  intros Hm c. unfold with_err. destruct (Hm c) as [(r & c1 & E & Eh)|(e & c1 & E)]; rewrite E; [left; rewrite Eh; by eexists _, c1|right].
  by exists (f e), c1.
Qed.
(** The fuel of a loop is taken from what the peer sends. *)
Lemma degrades_fuel {A} (F : nat -> M conn A) : (forall n, degrades (F n)) -> degrades (fun c => F (S (length (rx c))) c).
Proof. intros HF c. apply (HF (S (length (rx c))) c). Qed.
Lemma degrades_Write b : degrades (Write b).
Proof.
  intros c. unfold Write. cbn. destruct (shut c); [right; by eexists _, c|].
  destruct (wleft c) as [[|k]|]; [right; by eexists _, c|left; by eexists _, _..].
Qed.
Lemma degrades_ReadFull n : degrades (@ReadFull conn _ n).
Proof.
  intros c. cbn. unfold conn_read_full. cbn. case_decide; [left; by eexists _, c|]. destruct (shut c); [right; by eexists _, c|].
  case_decide; left; by eexists _, _.
Qed.
#[export] Hint Resolve degrades_lift degrades_ret degrades_fail degrades_with_err degrades_Write degrades_ReadFull : failing.

Ltac degrade :=
  repeat first
    [ progress auto with failing
    | apply degrades_bind; [|intros ?]
    | apply degrades_with_err
    | case_decide
    | match goal with |- degrades (match ?x with _ => _ end) => destruct x end ].

(** Never a panic, whatever the connection does. *)
Definition tame {A} (m : M conn A) : Prop := forall c, safe (m c).1.
Lemma heal_healthy c : healthy (heal c).
Proof. done. Qed.
Lemma degrades_tame {A} (m : M conn A) : degrades m -> (forall c, healthy c -> safe (m c).1) -> tame m.
Proof.
  intros Hd Hs c. destruct (Hd c) as [(r & c1 & E & Eh)|(e & c1 & E)]; rewrite E; [|done].
  specialize (Hs (heal c) (heal_healthy c)). by rewrite Eh in Hs.
Qed.
Lemma tame_bind {A B} (m : M conn A) (k : A -> M conn B) : tame m -> (forall a, tame (k a)) -> tame (m ≫= k).
Proof. intros Hm Hk c. unfold mbind, M_bind. specialize (Hm c). destruct (m c) as [[a|e| |] c1]; [apply Hk|done..]. Qed.
Lemma tame_with_err {A} f (m : M conn A) : tame m -> tame (with_err f m).
Proof. intros Hm c. unfold with_err. specialize (Hm c). destruct (m c) as [r c1]. by apply safe_map_err. Qed.
Lemma tame_lift {A} (r : res A) : safe r -> tame (lift r).
Proof. by intros Hr c. Qed.
Lemma tame_ret {A} (a : A) : tame (mret a).
Proof. by intros c. Qed.
Lemma tame_fail {A} e : tame (@fail conn A e).
Proof. by intros c. Qed.
Lemma tame_Write b : tame (Write b).
Proof. intros c. by destruct (Write_cases b c) as [(c' & -> & _)|[e ->]]. Qed.
