(* ===== verification/Handler.v ===== *)
(** internal/proxy/server.go's [handleConn], [acceptLoop] and [Start]: one
    accepted connection from its dispatch to the end of its handler, and the
    loops that start the handlers.

    The handlers of the three adapters are computations on a [session]; once one
    of them has registered its connection it runs [pipeBidi] (Pipe.v, which shows
    that it returns with both connections closed) and its deferred [conn.Close]. *)
From Stdlib Require Import Strings.Byte.
From S2P Require Import Prelude Fmt IO Net Vars Config Database Server Session PgWire PgAuth PgServer MysqlWire MysqlHandshake MysqlAuth MysqlServer Bson MongoWire MongoHandshake MongoAuth MongoServer.

Section handler.
Context {U : Unicode} {Di : Dialer} {TLS_ : TLS} {Scram_ : Scram} {RSA_ : RSA} {Rand_ : Rand} {Arch : Target_arch} {Env : ClientEnv}.

Definition dispatch_for (adapter_ : bytes) : M session bool :=
  if decide (adapter_ = AdapterMySQL) then dispatchMySQL
  else if decide (adapter_ = AdapterMongo) then dispatchMongo
  else dispatch.
(** The rest of a registered connection: [pipeBidi], while which the rest of the
    program does [during] to the shared store, then the deferred [conn.Close()]. *)
Definition close_registered (during : store -> store) (s : session) : session :=
  set_srv (set_store (Conn_Close (ss_obj s) (during (s_store (ss_srv s)))) (ss_srv s)) s.
(** [client.Close] is deferred first, so it runs last, also after a panic. *)
Definition handleConn (during : store -> store) (adapter_ : bytes) : M session unit := fun s =>
  let '(r, s1) := dispatch_for adapter_ s in
  let s2 := match r with Ok true => close_registered during s1 | _ => s1 end in
  (match r with Panic => Panic | NoFuel => NoFuel | _ => Ok tt end, (on_client Close s2).2).
End handler.

(** What a listener reports: a connection, or an error with the state of the
    server's closed flag when it came. *)
Inductive accepted : Type := Accepted (c : conn) | AcceptFailed (err : error) (closed : bool).
(** [acceptLoop]: the connections whose handlers were started, and the return
    value ([None] while the loop is still accepting). *)
Fixpoint acceptLoop (l : list accepted) : list conn * option (option error) :=
  match l with
  | [] => ([], None)
  | Accepted c :: l => let '(cs, r) := acceptLoop l in (c :: cs, r)
  | AcceptFailed err closed :: _ => ([], Some (if closed then None else Some err))
  end.
(** [Start] once its listeners are bound: the first error its loops sent, in the
    order they sent it. *)
Definition Start_wait (returns : list (option error)) : option error := head (omap id returns).

(** ** The handlers leave the registry as they found it *)

(** The connection's identities and the store. *)
Definition same_seat (s s' : session) : Prop :=
  s_store (ss_srv s') = s_store (ss_srv s) /\ ss_obj s' = ss_obj s /\ ss_client_sock s' = ss_client_sock s /\ ss_up_sock s' = ss_up_sock s.
#[export] Instance same_seat_preorder : PreOrder same_seat.
Proof. unfold same_seat. split; [done|]. intros s1 s2 s3. naive_solver congruence. Qed.

Definition keeps {A} (m : M session A) : Prop := forall s, same_seat s (m s).2.
(** The database [n] speaks the adapter [ad] and its current target is [rt]. *)
Definition routed (ad : bytes) (st : store) (n : bytes) (rt : ResolvedTarget) : Prop :=
  (exists d, dbs st !! n = Some d /\ adapter d = ad) /\ current_of n st = Some rt.
(** A handler for [ad] on the store [st]: it registers its connection last, under a
    database of its adapter with that database's current target, and returns
    true; or it leaves the store alone. *)
Definition seats (ad : bytes) (st : store) (m : M session bool) : Prop := forall s, s_store (ss_srv s) = st ->
  match m s with
  | (Ok true, s') => exists n rt, routed ad st n rt /\ ss_obj s' = ss_obj s /\
      s_store (ss_srv s') = register_new n (ss_obj s) (ss_client_sock s) (ss_up_sock s) rt st
  | (_, s') => same_seat s s'
  end.

Create HintDb keeps.
Lemma keeps_ret {A} (a : A) : keeps (mret a).
Proof. by intros s. Qed.
Lemma keeps_fail {A} e : keeps (@fail session A e).
Proof. by intros s. Qed.
Lemma keeps_lift {A} (r : res A) : keeps (lift r).
Proof. by intros s. Qed.
Lemma keeps_gets {A} (f : session -> A) : keeps (gets f).
Proof. by intros s. Qed.
Lemma keeps_on_br {A} (m : M bufr A) : keeps (on_br m).
Proof. intros s. unfold on_br, zoom. by destruct (m _). Qed.
Lemma keeps_on_client {A} (m : M conn A) : keeps (on_client m).
Proof. intros s. unfold on_client, zoom. by destruct (m _). Qed.
Lemma keeps_on_up {A} (m : M conn A) : keeps (on_up m).
Proof. intros s. unfold on_up. destruct (ss_up s); [|done]. by destruct (m _). Qed.
Lemma keeps_dial `{Dialer} addr : keeps (dial addr).
Proof. intros s. unfold dial. by destruct (DialTimeout addr). Qed.
Lemma keeps_connSeq : keeps connSeq_Add1.
Proof. by intros s. Qed.
Lemma keeps_discard : keeps (modify (fun s => set_client (Discard_all (ss_client s)) s)).
Proof. by intros s. Qed.
Lemma seat_bind {A B} (m : M session A) (k : A -> M session B) : keeps m -> (forall a, keeps (k a)) -> keeps (m ≫= k).
Proof.
  intros Hm Hk s. specialize (Hm s). unfold mbind, M_bind. destruct (m s) as [[a|e| |] s1]; [|done..]. cbn in Hm. etrans; [done|apply Hk].
Qed.
Lemma keeps_try {A} (m : M session A) : keeps m -> keeps (try_ m).
Proof. intros Hm s. specialize (Hm s). unfold try_. by destruct (m s) as [[a|e| |] s1]. Qed.
Lemma keeps_with_err {A} f (m : M session A) : keeps m -> keeps (with_err f m).
Proof. intros Hm s. specialize (Hm s). unfold with_err. by destruct (m s). Qed.
#[local] Hint Resolve keeps_ret keeps_fail keeps_lift keeps_gets keeps_on_br keeps_on_client keeps_on_up keeps_dial keeps_connSeq
  keeps_discard keeps_try keeps_with_err : keeps.
Lemma keeps_ignore {A} (m : M session A) : keeps m -> keeps (ignore m).
Proof. intros Hm. apply seat_bind; auto with keeps. Qed.
#[local] Hint Resolve keeps_ignore : keeps.
Lemma keeps_close_up : keeps close_up.
Proof. unfold close_up. auto with keeps. Qed.
#[local] Hint Resolve keeps_close_up : keeps.

Lemma seats_bind {A} ad st (m : M session A) (k : A -> M session bool) : keeps m -> (forall a, seats ad st (k a)) -> seats ad st (m ≫= k).
Proof.
  intros Hm Hk s Hst. specialize (Hm s). unfold mbind, M_bind. destruct (m s) as [[a|e| |] s1]; [|done..]. cbn in Hm.
  assert (forall s2, same_seat s1 s2 -> same_seat s s2) as Htr by (intros s2 H; by etrans).
  destruct Hm as (H1 & H2 & H3 & H4). specialize (Hk a s1). rewrite H1, H2, H3, H4 in Hk. specialize (Hk Hst).
  destruct (k a s1) as [[[]|e| |] s2]; auto.
Qed.
(** The server as the handler reads it. *)
Lemma seats_server ad st (k : Server -> M session bool) : (forall srv, s_store srv = st -> seats ad st (k srv)) -> seats ad st (s ← gets ss_srv; k s).
Proof. intros Hk s Hst. exact (Hk (ss_srv s) Hst s Hst). Qed.
Lemma seats_fail ad st e : seats ad st (fail e).
Proof. by intros s. Qed.
Lemma seats_false ad st : seats ad st (mret false).
Proof. by intros s. Qed.
Lemma seats_lift ad st (e : res bool) : e <> Ok true -> seats ad st (lift e).
Proof. intros He s _. unfold lift. by destruct e as [[]|e| |]. Qed.
Lemma seats_register ad st n rt : routed ad st n rt -> seats ad st (register n rt;; mret true).
Proof. intros Hr s <-. exists n, rt. done. Qed.
#[local] Hint Resolve seats_fail seats_false seats_register : keeps.
(** What the routing of a client gives. *)
Lemma lookup_adapter srv st ad q n : s_store srv = st -> lookupDatabase srv ad q = Some n -> exists d, dbs st !! n = Some d /\ adapter d = ad.
Proof.
  intros <- Hl. unfold lookupDatabase, s_databases in Hl. destruct (dbs (s_store srv) !! q) as [d|] eqn:Ed; [|done].
  destruct (decide (adapter d <> ad)) as [?|Ha%dec_stable]; [done|]. injection Hl as <-. eauto.
Qed.
Lemma lookup_routed srv st ad q n rt : s_store srv = st -> lookupDatabase srv ad q = Some n -> current_of n (s_store srv) = Some rt -> routed ad st n rt.
Proof. intros <- Hl Hc. split; [by eapply lookup_adapter|done]. Qed.
#[local] Hint Extern 1 (routed _ _ _ _) => eapply lookup_routed; eassumption : keeps.
#[local] Hint Extern 1 (exists d, dbs _ !! _ = Some d /\ adapter d = _) => eapply lookup_adapter; eassumption : keeps.
(** Walk through a handler. *)
Ltac walk :=
  repeat first
    [ progress auto with keeps
    | apply seats_server; intros ? ?
    | apply seats_bind; [|intros ?]
    | apply seat_bind; [|intros ?]
    | case_decide
    | match goal with
      | |- seats _ _ (match ?x with _ => _ end) => destruct x eqn:?
      | |- keeps (match ?x with _ => _ end) => destruct x
      end ].

Section dispatchers.
Context {U : Unicode} {Di : Dialer} {TLS_ : TLS} {Scram_ : Scram} {RSA_ : RSA} {Rand_ : Rand} {Arch : Target_arch} {Env : ClientEnv}.

Lemma keeps_refuse code msg : keeps (refuse code msg).
Proof. unfold refuse. auto with keeps. Qed.
#[local] Hint Resolve keeps_refuse : keeps.
Lemma keeps_or_refuse {A} (m : M session A) code msg : keeps m -> keeps (or_refuse m code msg).
Proof. intros Hm. unfold or_refuse. walk. Qed.
#[local] Hint Resolve keeps_or_refuse : keeps.
Lemma keeps_flush : keeps flush_buffered.
Proof. unfold flush_buffered. walk. Qed.
#[local] Hint Resolve keeps_flush : keeps.
Lemma seats_connect_upstream ad st n rt b : routed ad st n rt -> seats ad st (connect_upstream n rt b).
Proof. intros Hr. unfold connect_upstream. walk. Qed.
#[local] Hint Resolve seats_connect_upstream : keeps.
Lemma seats_connect_mysql ad st login n rt : routed ad st n rt -> seats ad st (connect_mysql login n rt).
Proof. intros Hr. unfold connect_mysql, mysql_refuse. walk. Qed.
#[local] Hint Resolve seats_connect_mysql : keeps.
Lemma seats_routeMongo ad st n db hdr body : (exists d, dbs st !! n = Some d /\ adapter d = ad) -> seats ad st (routeMongo n db hdr body).
Proof.
  intros Hd. unfold routeMongo, mongo_refuse. apply seats_server. intros srv Hs. rewrite Hs.
  destruct (current_of n st) as [rt|] eqn:Ec; [|walk]. assert (routed ad st n rt) by done. walk.
Qed.
#[local] Hint Resolve seats_routeMongo : keeps.
Lemma seats_dispatch st : seats AdapterPostgres st dispatch.
Proof.
  unfold dispatch. generalize 2%nat as k. intros k. induction k as [|k IH]; cbn [dispatch_loop]; [auto with keeps|].
  unfold handleStartup, serve_startup. walk.
Qed.
Lemma seats_dispatchMySQL st : seats AdapterMySQL st dispatchMySQL.
Proof.
  unfold dispatchMySQL, serve_mysql, mysql_refuse. walk.
Qed.
Lemma seats_dispatchMongo st : seats AdapterMongo st dispatchMongo.
Proof.
  unfold dispatchMongo. apply seats_bind; [auto with keeps|]. intros n s. unfold serve_mongo. generalize (S (length (rx (client_conn s)))), 0%nat.
  intros fuel i. revert i s. enough (forall i, seats AdapterMongo st (dispatchMongo_loop fuel i (int32 n))) as H by (intros i s; apply (H i s)).
  induction fuel as [|fuel IH]; intros i; cbn [dispatchMongo_loop]; [by apply seats_lift|].
  walk.
Qed.
(** The adapter whose handler serves a listener of [adapter_]. *)
Definition served_adapter (adapter_ : bytes) : bytes :=
  if decide (adapter_ = AdapterMySQL) then AdapterMySQL else if decide (adapter_ = AdapterMongo) then AdapterMongo else AdapterPostgres.
Lemma seats_for st adapter_ : seats (served_adapter adapter_) st (dispatch_for adapter_).
Proof. unfold dispatch_for, served_adapter. repeat case_decide; auto using seats_dispatch, seats_dispatchMySQL, seats_dispatchMongo. Qed.
(** Only the handler of a MySQL client can panic. *)
Lemma dispatch_for_panics adapter_ s : network_ok -> healthy (client_conn s) -> ss_up s = None ->
  (dispatch_for adapter_ s).1 = Panic -> adapter_ = AdapterMySQL.
Proof.
  intros Hn Hc Hu Hp. unfold dispatch_for in Hp. case_decide; [done|]. case_decide; exfalso.
  - pose proof (dispatchMongo_safe (dial_healthy Hn) s Hc Hu) as Hs. by rewrite Hp in Hs.
  - pose proof (dispatch_ends s Hn Hc Hu) as Hs. destruct (dispatch s) as [r s']. by destruct Hs as [? _].
Qed.
End dispatchers.

(** ** No handler leaves its connection behind *)

Lemma close_unregisters c st n d : store_wf st -> dbs (Conn_Close c st) !! n = Some d -> c ∉ conns d.
Proof.
  intros W. rewrite (cl_dbs _ _ _ (Conn_Close_closes c st W)), lookup_fmap. intros (d0 & _ & ->)%fmap_Some. cbn. set_solver.
Qed.
Lemma register_close n c cl up rt st : store_wf st -> heap st !! c = None ->
  dbs (Conn_Close c (register_new n c cl up rt st)) = dbs st.
Proof.
  intros W Hc. rewrite (cl_dbs _ _ _ (Conn_Close_closes c _ (register_new_wf n c cl up rt st Hc W))), register_new_dbs.
  assert (forall n' d, dbs st !! n' = Some d -> c ∉ conns d) as Hfree.
  { intros n' d Hd Hin. destruct (wf_registered _ W n' d c Hd Hin) as (o & Ho & _). congruence. }
  apply map_eq. intros n'. rewrite lookup_fmap, lookup_alter. destruct (decide (n = n')) as [<-|].
  - destruct (dbs st !! n) as [d|] eqn:Ed; [|done]. cbn. f_equal. specialize (Hfree n d Ed). destruct d. unfold set_conns. cbn in *. f_equal. set_solver.
  - destruct (dbs st !! n') as [d|] eqn:Ed; [|done]. cbn. f_equal. apply set_conns_id. specialize (Hfree n' d Ed). set_solver.
Qed.

Section connections.
Context {U : Unicode} {Di : Dialer} {TLS_ : TLS} {Scram_ : Scram} {RSA_ : RSA} {Rand_ : Rand} {Arch : Target_arch} {Env : ClientEnv}.

(** C16: no handler leaves anything behind.  Whatever adapter a connection arrives
    on, whatever its client and its upstream send, and whatever switches and other
    handlers do to the shared state while it is piped: when its handler ends -- by
    returning, with an error or in a panic -- the client connection is closed, the
    registry is well formed and the connection is registered nowhere; a connection
    that got as far as being registered is closed on both sides.  If nothing else
    happened meanwhile, all databases are as they were. *)
Theorem handleConn_leaves_nothing during adapter_ s : store_wf (s_store (ss_srv s)) -> heap (s_store (ss_srv s)) !! ss_obj s = None ->
  (forall st, store_wf st -> store_wf (during st)) ->
  let '(_, s') := handleConn during adapter_ s in
  let st' := s_store (ss_srv s') in
  shut (client_conn s') = true /\ store_wf st' /\ (forall n d, dbs st' !! n = Some d -> ss_obj s ∉ conns d) /\
  ((forall st, during st = st) -> dbs st' = dbs (s_store (ss_srv s))) /\
  ((dispatch_for adapter_ s).1 = Ok true -> forall o k, heap st' !! ss_obj s = Some o -> conn_sock o k -> k ∈ closed_socks st').
Proof.
  intros W Hf Hd. unfold handleConn. pose proof (seats_for _ adapter_ s eq_refl) as Hs. destruct (dispatch_for adapter_ s) as [r s1].
  assert (Hsame : same_seat s s1 -> let s' := (on_client Close s1).2 in let st' := s_store (ss_srv s') in
    shut (client_conn s') = true /\ store_wf st' /\ (forall n d, dbs st' !! n = Some d -> ss_obj s ∉ conns d) /\
    ((forall st, during st = st) -> dbs st' = dbs (s_store (ss_srv s)))).
  { intros (E & _). cbv zeta. change (s_store (ss_srv (on_client Close s1).2)) with (s_store (ss_srv s1)). rewrite E. split_and!; [done|done| |done].
    intros n d Hn Hin. destruct (wf_registered _ W n d _ Hn Hin) as (o & Ho & _). congruence. }
  destruct r as [[]|e| |]; cbn [fst] in *; [|destruct (Hsame Hs) as (? & ? & ? & ?); split_and!; done..].
  destruct Hs as (n & rt & _ & Ho & Est).
  change (s_store (ss_srv (on_client Close (close_registered during s1)).2)) with (Conn_Close (ss_obj s1) (during (s_store (ss_srv s1)))).
  rewrite Ho, Est. set (st1 := register_new _ _ _ _ _ _). assert (store_wf (during st1)) as W1 by (apply Hd; by apply register_new_wf).
  pose proof (Conn_Close_closes (ss_obj s) _ W1) as Hc. pose proof (closes_wf _ _ _ W1 Hc) as W2. split_and!; [done|done| | |].
  - intros n' d'. by apply close_unregisters.
  - intros ->. by apply register_close.
  - intros _ o k Hk Hsock. eapply wf_closed; [exact W2|exact Hk| |exact Hsock]. rewrite (cl_heap _ _ _ Hc), decide_True in Hk by set_solver.
    by apply fmap_Some in Hk as (o' & _ & ->).
Qed.
End connections.

(** ** Witness: a client that logs in and is piped *)

Lemma toy_wf adapter_ : store_wf (s_store (toy_server adapter_)).
Proof. apply fresh_wf. intros n d [_ <-]%lookup_singleton_Some. done. Qed.
Lemma handleConn_leaves_nothing_witness :
  let r := @handleConn toy_unicode (toy_dialer toy_upstream) (toy_tls toy_upstream) toy_scram toy_rsa toy_rand toy_arch mg_env id AdapterPostgres toy_client in
  (@dispatch toy_unicode (toy_dialer toy_upstream) (toy_tls toy_upstream) toy_scram toy_client).1 = Ok true /\
  r.1 = Ok tt /\ shut (client_conn r.2) = true /\ dbs (s_store (ss_srv r.2)) = dbs (s_store (ss_srv toy_client)).
Proof.
  pose proof (@handleConn_leaves_nothing toy_unicode (toy_dialer toy_upstream) (toy_tls toy_upstream) toy_scram toy_rsa toy_rand toy_arch mg_env
    id AdapterPostgres toy_client (toy_wf AdapterPostgres) eq_refl (fun st H => H)) as H.
  cbv zeta. split; [vm_compute; reflexivity|]. split; [vm_compute; reflexivity|].
  destruct (@handleConn _ _ _ _ _ _ _ _ id AdapterPostgres toy_client) as [out s'].
  destruct H as (H1 & _ & _ & H4 & _). split; [exact H1|]. apply H4. reflexivity.
Defined.
