(* ===== verification/Race.v ===== *)
(** The daemon's goroutines, interleaved: connection handlers
    (handleStartup, dispatchMySQL, routeMongo in internal/proxy) and switches
    (SwitchAll called from internal/control, one goroutine per control
    connection), with what [Start] and [Shutdown] do to the shared state.

    A [step] is one access to shared state that the code makes atomic by a
    mutex or an atomic pointer; everything between two steps is local to its
    goroutine.  Handlers read the current target, dial and authenticate, then
    register; switches store each database's new target, snapshot its
    registry, and close the snapshot one connection at a time. *)
From Stdlib Require Import Strings.Byte.
From S2P Require Import Prelude Fmt Vars Config Database Server.

Inductive handler : Type :=
  | HDialing (n : bytes) (rt : ResolvedTarget) (* Current() returned rt *)
  | HPiping (c : nat) (* registered, inside pipeBidi *)
  | HDone.

(** Where a [SwitchAll] call is in its commit phase. *)
Inductive sw_phase : Type :=
  | SwCommit (todo : list bytes)
  | SwStored (n : bytes) (todo : list bytes)
  | SwDrain (l : list nat) (todo : list bytes).
Record switcher := mkSw {
  sw_target : bytes;
  sw_vars : option (gmap bytes bytes);
  sw_plans : gmap bytes plan;
  sw_phase_of : sw_phase;
}.
Definition at_phase (p : sw_phase) (k : switcher) : switcher :=
  mkSw (sw_target k) (sw_vars k) (sw_plans k) p.

Record world := mkWorld {
  w_srv : Server;
  w_handlers : gmap nat handler;
  w_switchers : gmap nat switcher;
}.
Definition w_store (w : world) : store := s_store (w_srv w).
Definition with_store (st : store) (w : world) : world :=
  mkWorld (set_store st (w_srv w)) (w_handlers w) (w_switchers w).
Definition with_srv (s : Server) (w : world) : world := mkWorld s (w_handlers w) (w_switchers w).
Definition with_handler (h : nat) (hs : handler) (w : world) : world :=
  mkWorld (w_srv w) (<[h := hs]> (w_handlers w)) (w_switchers w).
Definition with_switcher (k : nat) (sw : switcher) (w : world) : world :=
  mkWorld (w_srv w) (w_handlers w) (<[k := sw]> (w_switchers w)).

(** The target a plan stores: none for a skipped database. *)
Definition planned_target (plans : gmap bytes plan) (n : bytes) : option ResolvedTarget :=
  match plans !! n with
  | Some p => if p_skip p then None else Some (p_rt p)
  | None => Some zeroResolvedTarget
  end.

Arguments Conn_Close : simpl never.

Inductive step : world -> world -> Prop :=
  | step_current w h n rt :
      w_handlers w !! h = None -> current_of n (w_store w) = Some rt ->
      step w (with_handler h (HDialing n rt) w)
  | step_dial_fails w h n rt :
      w_handlers w !! h = Some (HDialing n rt) -> step w (with_handler h HDone w)
  | step_register w h n rt c cl up :
      w_handlers w !! h = Some (HDialing n rt) ->
      heap (w_store w) !! c = None -> cl ∉ closed_socks (w_store w) -> up ∉ closed_socks (w_store w) ->
      step w (with_handler h (HPiping c) (with_store (register_new n c cl up rt (w_store w)) w))
  | step_pipe_ends w h c :
      w_handlers w !! h = Some (HPiping c) ->
      step w (with_handler h HDone (with_store (Conn_Close c (w_store w)) w))
  | step_use w k target vars o1 o2 plans declared :
      w_switchers w !! k = None -> enumerates o1 (w_srv w) -> enumerates o2 (w_srv w) ->
      plan_all (s_databases (w_srv w)) target (default ∅ vars) o1 ∅ 0 = Ok (plans, declared) -> declared <> 0 ->
      step w (with_switcher k (mkSw target vars plans (SwCommit o2)) w)
  | step_store w k sw n todo :
      w_switchers w !! k = Some sw -> sw_phase_of sw = SwCommit (n :: todo) ->
      step w (with_switcher k (at_phase (SwStored n todo) sw)
                (with_store (on_dbs (alter (set_current (planned_target (sw_plans sw) n)) n) (w_store w)) w))
  | step_snapshot w k sw n todo :
      w_switchers w !! k = Some sw -> sw_phase_of sw = SwStored n todo ->
      step w (with_switcher k (at_phase (SwDrain (snapshot n (w_store w)) todo) sw) w)
  | step_close w k sw c l todo :
      w_switchers w !! k = Some sw -> sw_phase_of sw = SwDrain (c :: l) todo ->
      step w (with_switcher k (at_phase (SwDrain l todo) sw) (with_store (Conn_Close c (w_store w)) w))
  | step_next w k sw todo :
      w_switchers w !! k = Some sw -> sw_phase_of sw = SwDrain [] todo ->
      step w (with_switcher k (at_phase (SwCommit todo) sw) w)
  | step_finish w k sw :
      w_switchers w !! k = Some sw -> sw_phase_of sw = SwCommit [] ->
      step w (mkWorld (set_target (sw_target sw) (cloneVars (sw_vars sw)) (w_srv w))
                (w_handlers w) (delete k (w_switchers w)))
  (** [Start] and [Shutdown] (Life.v says when). *)
  | step_bound w ls : step w (with_srv (set_listeners ls (w_srv w)) w)
  | step_mark w : step w (with_srv (set_closed (w_srv w)) w)
  | step_drop w c : step w (with_store (Conn_Close c (w_store w)) w).

Definition start (s : Server) : world := mkWorld s ∅ ∅.
Definition reachable (s : Server) (w : world) : Prop := rtc step (start s) w.

(** No goroutine is in the middle of anything but piping. *)
Definition quiet (w : world) : Prop :=
  w_switchers w = ∅ /\ forall h hs, w_handlers w !! h = Some hs -> hs = HDone \/ exists c, hs = HPiping c.

(** ** Invariant *)

Record inv (w : world) : Prop := {
  i_wf : store_wf (w_store w);
  i_owner : forall n d c, dbs (w_store w) !! n = Some d -> c ∈ conns d ->
    exists h, w_handlers w !! h = Some (HPiping c);
}.

(** A closed connection is registered nowhere; the others keep their place. *)
Lemma Conn_Close_conns c st n d' c' : store_wf st ->
  dbs (Conn_Close c st) !! n = Some d' -> c' ∈ conns d' ->
  c' <> c /\ exists d, dbs st !! n = Some d /\ c' ∈ conns d.
Proof.
  intros W. destruct (Conn_Close_closes c st W) as [-> _ _]. rewrite lookup_fmap.
  intros (d & Hd & ->)%fmap_Some. cbn. intros Hin. split; [set_solver|]. exists d. set_solver.
Qed.

Lemma inv_step w w' : inv w -> step w w' -> inv w'.
Proof.
  intros [W Ho] Hs. destruct Hs as [w h n rt Hh Hc|w h n rt Hh|w h n rt c cl up Hh Hc Hcl Hup|w h c Hh
    |w k target vars o1 o2 plans declared Hk E1 E2 Hp Hd|w k sw n todo Hk Hph|w k sw n todo Hk Hph
    |w k sw c l todo Hk Hph|w k sw todo Hk Hph|w k sw Hk Hph|w ls|w|w c]; split; cbn; try done.
  - intros n' d c Hd Hin. destruct (Ho n' d c Hd Hin) as [h' Hh']. exists h'.
    rewrite lookup_insert_ne; [done|congruence].
  - intros n' d c Hd Hin. destruct (Ho n' d c Hd Hin) as [h' Hh']. exists h'.
    rewrite lookup_insert_ne; [done|congruence].
  - by apply register_new_wf.
  - intros n' d' c'. fold (w_store w). rewrite register_new_dbs, lookup_alter_Some. intros Hd' Hin.
    destruct (decide (c' = c)) as [->|Hne]; [exists h; by rewrite lookup_insert_eq|].
    assert (exists d, dbs (w_store w) !! n' = Some d /\ c' ∈ conns d) as (d & Hd & Hin').
    { destruct Hd' as [(<- & d & Hd & ->)|[_ Hd]]; [exists d; set_solver|eauto]. }
    destruct (Ho n' d c' Hd Hin') as [h' Hh']. exists h'. rewrite lookup_insert_ne; [done|congruence].
  - by eapply closes_wf; [|apply Conn_Close_closes].
  - intros n' d' c' Hd' Hin. destruct (Conn_Close_conns c (w_store w) n' d' c' W Hd' Hin) as (Hne & d & Hd & Hin').
    destruct (Ho n' d c' Hd Hin') as [h' Hh']. exists h'. rewrite lookup_insert_ne; [done|congruence].
  - by apply set_current_wf.
  - intros n' d' c'. fold (w_store w). rewrite lookup_alter_Some.
    intros [(<- & d & Hd & ->)|[_ Hd]] Hin; by eapply Ho.
  - by eapply closes_wf; [|apply Conn_Close_closes].
  - intros n' d' c' Hd' Hin. destruct (Conn_Close_conns c (w_store w) n' d' c' W Hd' Hin) as (Hne & d & Hd & Hin').
    by eapply Ho.
  - by eapply closes_wf; [|apply Conn_Close_closes].
  - intros n' d' c' Hd' Hin. destruct (Conn_Close_conns c (w_store w) n' d' c' W Hd' Hin) as (Hne & d & Hd & Hin').
    by eapply Ho.
Qed.

Lemma inv_steps w w' : inv w -> rtc step w w' -> inv w'.
Proof. intros Hi Hs. induction Hs; [done|]. eauto using inv_step. Qed.

(** A server whose databases have no connections yet. *)
Definition idle (s : Server) : Prop :=
  store_wf (s_store s) /\ forall n d, s_databases s !! n = Some d -> conns d = ∅.

Lemma inv_start s : idle s -> inv (start s).
Proof.
  intros [W He]. split; [done|]. intros n d c Hd Hc. rewrite (He n d Hd) in Hc. set_solver.
Qed.

(** ** A switch closes what was registered when it snapshots *)

Definition conn_closed (c : nat) (st : store) : Prop := exists o, heap st !! c = Some o /\ c_once o = true.

(** The switch [k] still has to deal with connection [c] of database [n]. *)
Definition to_be_closed (k c : nat) (n : bytes) (todo : list bytes) (w : world) : Prop :=
  is_Some (heap (w_store w) !! c) /\ exists sw, w_switchers w !! k = Some sw /\
    ((sw_phase_of sw = SwStored n todo /\ c ∈ live n (w_store w)) \/
     exists l, sw_phase_of sw = SwDrain l todo /\ c ∈ l).

Lemma Conn_Close_heap c c' st : store_wf st ->
  heap (Conn_Close c st) !! c' = (if decide (c' = c) then set_c_once else id) <$> heap st !! c'.
Proof.
  intros W. destruct (Conn_Close_closes c st W) as [_ -> _].
  destruct (decide (c' ∈ [c])) as [Hi|Hi], (decide (c' = c)); set_solver.
Qed.

Lemma conn_closed_close c c' st : store_wf st -> conn_closed c st -> conn_closed c (Conn_Close c' st).
Proof.
  intros W (o & Ho & Hc). unfold conn_closed. rewrite Conn_Close_heap, Ho by done. case_decide; by eexists.
Qed.

Lemma live_close c c' n st : store_wf st -> c ∈ live n st -> c <> c' -> c ∈ live n (Conn_Close c' st).
Proof.
  intros W. unfold live. destruct (Conn_Close_closes c' st W) as [-> _ _]. rewrite lookup_fmap.
  destruct (dbs st !! n); [|done]. cbn. set_solver.
Qed.

Lemma live_register c n n' c' cl up rt st : c ∈ live n st -> c ∈ live n (register_new n' c' cl up rt st).
Proof.
  unfold live. rewrite register_new_dbs, lookup_alter. case_decide; [subst|done].
  destruct (dbs st !! n); cbn; set_solver.
Qed.

Lemma live_set_current n n' cur st : live n (on_dbs (alter (set_current cur) n') st) = live n st.
Proof.
  unfold live. cbn. rewrite lookup_alter. case_decide; [subst|done]. by destruct (dbs st !! n).
Qed.

Lemma heap_grows w w' c : inv w -> step w w' -> is_Some (heap (w_store w) !! c) -> is_Some (heap (w_store w') !! c).
Proof.
  intros [W _] Hs Hc. destruct Hs; cbn; try done; fold (w_store w).
  - rewrite register_new_heap. by case_decide.
  - rewrite Conn_Close_heap by done. by apply fmap_is_Some.
  - rewrite Conn_Close_heap by done. by apply fmap_is_Some.
  - rewrite Conn_Close_heap by done. by apply fmap_is_Some.
Qed.

Lemma conn_closed_step w w' c : inv w -> step w w' -> conn_closed c (w_store w) -> conn_closed c (w_store w').
Proof.
  intros [W _] Hs Hc. destruct Hs; cbn; try done; fold (w_store w); try by apply conn_closed_close.
  destruct Hc as (o & Ho & Honce). unfold conn_closed. rewrite register_new_heap, decide_False by congruence. eauto.
Qed.

(** A possible switch can begin. *)
Lemma switch_begins w k target vars : w_switchers w !! k = None -> switchable target (default ∅ vars) (w_srv w) ->
  exists sw, step w (with_switcher k sw w).
Proof.
  intros Hk [(n & d & Hd & Ht) Hall]. set (o := elements (dom (s_databases (w_srv w)))).
  assert (enumerates o (w_srv w)) as Eo by (unfold enumerates; reflexivity).
  destruct (plan_all_cases (s_databases (w_srv w)) target (default ∅ vars) o ∅ 0) as [[[plans j] E]|(n' & d' & _ & _ & _ & Hd' & Hf & _)];
    [|by destruct (Hall n' d')].
  eexists. eapply (step_use w k target vars o o plans j); try done. intros ->.
  destruct (plan_all_ok _ _ _ _ _ _ _ _ E) as (_ & _ & _ & Hno).
  rewrite (proj1 Hno eq_refl n d) in Ht; [done| |done]. apply (enumerates_elem _ _ _ Eo). eauto.
Qed.

(** What the switch goroutine [sw] does next. *)
Definition next_phase (sw : switcher) (st : store) : option switcher :=
  match sw_phase_of sw with
  | SwCommit [] => None
  | SwCommit (n :: todo) => Some (at_phase (SwStored n todo) sw)
  | SwStored n todo => Some (at_phase (SwDrain (snapshot n st) todo) sw)
  | SwDrain (_ :: l) todo => Some (at_phase (SwDrain l todo) sw)
  | SwDrain [] todo => Some (at_phase (SwCommit todo) sw)
  end.
(** Nobody else moves it, and it closes the connection it takes off its list. *)
Lemma switch_moves w w' k sw : step w w' -> w_switchers w !! k = Some sw ->
  w_switchers w' !! k = Some sw \/
  (w_switchers w' !! k = next_phase sw (w_store w) /\
   forall c l todo, sw_phase_of sw = SwDrain (c :: l) todo -> w_store w' = Conn_Close c (w_store w)).
Proof.
  intros Hs Hk. unfold next_phase. destruct Hs as [| | | |w k0 target vars o1 o2 plans declared Hk0 E1 E2 Hp Hd|w k0 sw0 n todo Hk0 Hph|w k0 sw0 n todo Hk0 Hph
    |w k0 sw0 c l todo Hk0 Hph|w k0 sw0 todo Hk0 Hph|w k0 sw0 Hk0 Hph| | |]; try by left.
  all: (destruct (decide (k0 = k)) as [->|Hn]; [|left; cbn; by rewrite ?lookup_insert_ne, ?lookup_delete_ne]).
  { congruence. }
  all: rewrite Hk in Hk0; injection Hk0 as <-; right; rewrite Hph; cbn; rewrite ?lookup_insert_eq, ?lookup_delete_eq.
  all: split; [done|]; intros c' l' todo' [= -> -> ->] || intros ? ? ? [=]; done.
Qed.
(** A registered connection stays registered until it is closed. *)
Lemma live_step w w' c n : inv w -> step w w' -> c ∈ live n (w_store w) ->
  (exists c', c = c' /\ w_store w' = Conn_Close c' (w_store w)) \/ c ∈ live n (w_store w').
Proof.
  intros [W _] Hs Hl. destruct Hs as [| |w h n0 rt c0 cl up Hh Hc Hcl Hup|w h c0 Hh| |w k0 sw0 n0 todo0 Hk Hph| |w k0 sw0 c0 l0 todo0 Hk Hph| | | | |w c0]; try by right.
  - right. by apply live_register.
  - destruct (decide (c = c0)) as [->|Hne]; [left; by exists c0|right; by apply live_close].
  - right. unfold w_store, with_switcher, with_store. cbn. by rewrite live_set_current.
  - destruct (decide (c = c0)) as [->|Hne]; [left; by exists c0|right; by apply live_close].
  - destruct (decide (c = c0)) as [->|Hne]; [left; by exists c0|right; by apply live_close].
Qed.

(** The effect of one step of anybody on the switch [k]'s obligation. *)
Lemma to_be_closed_step k c n todo w w' : inv w -> step w w' -> to_be_closed k c n todo w ->
  conn_closed c (w_store w') \/ to_be_closed k c n todo w'.
Proof.
  intros Hi Hs (Hheap & sw & Hsw & Hph). pose proof (heap_grows w w' c Hi Hs Hheap) as Hheap'.
  assert (Hclose : w_store w' = Conn_Close c (w_store w) -> conn_closed c (w_store w')).
  { intros E. unfold conn_closed. rewrite E, Conn_Close_heap, decide_True by (done || apply Hi). destruct Hheap as [o ->]. by eexists. }
  destruct (switch_moves w w' k sw Hs Hsw) as [E|[E Hc]].
  - destruct Hph as [[Hp Hl]|Hp]; [|right; split; [done|]; exists sw; split; [done|by right]].
    destruct (live_step w w' c n Hi Hs Hl) as [(c' & <- & ?)|Hl']; [left; auto|right]. split; [done|]. exists sw. split; [done|by left].
  - unfold next_phase in E. destruct Hph as [[Hp Hl]|(l & Hp & Hl)]; rewrite Hp in E.
    + right. split; [done|]. eexists. split; [done|]. right. exists (snapshot n (w_store w)). split; [done|by apply snapshot_live].
    + destruct l as [|c0 l]; [set_solver|]. destruct (decide (c = c0)) as [->|Hne]; [left; by eapply Hclose, Hc|right].
      split; [done|]. eexists. split; [done|]. right. exists l. split; [done|set_solver].
Qed.

Lemma to_be_closed_steps k c n todo w w' : inv w -> rtc step w w' ->
  conn_closed c (w_store w) \/ to_be_closed k c n todo w ->
  conn_closed c (w_store w') \/ to_be_closed k c n todo w'.
Proof.
  intros Hi Hs. revert Hi. induction Hs as [|w w1 w' Hst Hs IH]; intros Hi H; [done|].
  apply IH; [by eapply inv_step|]. destruct H; [left; by eapply conn_closed_step|by eapply to_be_closed_step].
Qed.

(** ** Uninterrupted, the steps of a switch are the function [SwitchAll] *)

Definition sw_at (k : nat) (sw : switcher) (p : sw_phase) (st : store) (w : world) : world :=
  with_switcher k (at_phase p sw) (with_store st w).

Lemma set_store_set_store st st' s : set_store st (set_store st' s) = set_store st s.
Proof. done. Qed.

Lemma sw_at_sw_at k sw p st p' st' w : sw_at k sw p st (sw_at k sw p' st' w) = sw_at k sw p st w.
Proof. unfold sw_at, with_switcher, with_store. cbn. by rewrite insert_insert_eq. Qed.

Lemma at_phase_twice p p' sw : at_phase p (at_phase p' sw) = at_phase p sw.
Proof. done. Qed.

Lemma drain_steps k sw l todo st w :
  rtc step (sw_at k sw (SwDrain l todo) st w) (sw_at k sw (SwDrain [] todo) (close_all l st) w).
Proof.
  revert st. induction l as [|c l IH]; intros st; [done|].
  eapply rtc_l; [|apply IH].
  rewrite <- (sw_at_sw_at k sw _ (Conn_Close c st) (SwDrain (c :: l) todo) st w).
  apply (step_close (sw_at k sw (SwDrain (c :: l) todo) st w) k (at_phase (SwDrain (c :: l) todo) sw) c l todo);
    [apply lookup_insert_eq|done].
Qed.

Lemma commit_one_store plans n st :
  (commit_one plans n st).2 =
  let st1 := on_dbs (alter (set_current (planned_target plans n)) n) st in close_all (snapshot n st1) st1.
Proof.
  unfold commit_one, planned_target, Clear, Apply, dropAll.
  destruct (plans !! n) as [p|]; [|done]. cbn [default from_option id]. by destruct (p_skip p).
Qed.

Lemma commit_one_steps k sw n todo st w :
  rtc step (sw_at k sw (SwCommit (n :: todo)) st w) (sw_at k sw (SwCommit todo) (commit_one (sw_plans sw) n st).2 w).
Proof.
  rewrite commit_one_store. cbn zeta.
  set (st1 := on_dbs (alter (set_current (planned_target (sw_plans sw) n)) n) st).
  eapply rtc_l.
  { apply (step_store (sw_at k sw (SwCommit (n :: todo)) st w) k (at_phase (SwCommit (n :: todo)) sw) n todo);
      [apply lookup_insert_eq|done]. }
  match goal with |- rtc _ ?a _ =>
    replace a with (sw_at k sw (SwStored n todo) st1 w) by (by rewrite <- (sw_at_sw_at k sw _ st1 (SwCommit (n :: todo)) st w)) end.
  eapply rtc_l.
  { apply (step_snapshot (sw_at k sw (SwStored n todo) st1 w) k (at_phase (SwStored n todo) sw) n todo);
      [apply lookup_insert_eq|done]. }
  match goal with |- rtc _ ?a _ =>
    replace a with (sw_at k sw (SwDrain (snapshot n st1) todo) st1 w)
      by (by rewrite <- (sw_at_sw_at k sw _ st1 (SwStored n todo) st1 w)) end.
  eapply rtc_r; [apply drain_steps|].
  set (st2 := close_all (snapshot n st1) st1).
  rewrite <- (sw_at_sw_at k sw (SwCommit todo) st2 (SwDrain [] todo) st2 w).
  apply (step_next (sw_at k sw (SwDrain [] todo) st2 w) k (at_phase (SwDrain [] todo) sw) todo);
    [apply lookup_insert_eq|done].
Qed.

Lemma commit_all_steps k sw l todo st w :
  rtc step (sw_at k sw (SwCommit (l ++ todo)) st w) (sw_at k sw (SwCommit todo) (commit_all (sw_plans sw) l st).2 w).
Proof.
  revert st. induction l as [|n l IH]; intros st; [done|].
  etrans; [apply commit_one_steps|]. cbn [commit_all].
  destruct (commit_one (sw_plans sw) n st) as [r st1]. specialize (IH st1).
  destruct (commit_all (sw_plans sw) l st1) as [rs st2]. done.
Qed.

Lemma finish_step k sw st w : w_switchers w !! k = None ->
  step (sw_at k sw (SwCommit []) st w)
       (mkWorld (set_target (sw_target sw) (sw_vars sw) (set_store st (w_srv w))) (w_handlers w) (w_switchers w)).
Proof.
  intros Hk. set (w1 := sw_at k sw (SwCommit []) st w).
  replace (mkWorld _ _ (w_switchers w)) with
    (mkWorld (set_target (sw_target sw) (cloneVars (sw_vars sw)) (w_srv w1)) (w_handlers w1) (delete k (w_switchers w1))).
  - apply (step_finish w1 k (at_phase (SwCommit []) sw)); [apply lookup_insert_eq|done].
  - unfold w1, sw_at. cbn. f_equal. by apply delete_insert_id.
Qed.

Lemma with_store_id w : with_store (w_store w) w = w.
Proof. by destruct w as [[] ? ?]. Qed.

Lemma use_step w k o1 o2 target vars plans declared : w_switchers w !! k = None ->
  enumerates o1 (w_srv w) -> enumerates o2 (w_srv w) ->
  plan_all (s_databases (w_srv w)) target (default ∅ vars) o1 ∅ 0 = Ok (plans, declared) -> declared <> 0 ->
  let sw := mkSw target vars plans (SwCommit o2) in
  step w (sw_at k sw (SwCommit o2) (w_store w) w).
Proof.
  intros Hk E1 E2 Hp Hd sw. unfold sw_at. rewrite with_store_id. by apply (step_use w k target vars o1 o2 plans declared).
Qed.

Lemma SwitchAll_steps_aux w k o1 o2 target vars rs s' : w_switchers w !! k = None ->
  enumerates o1 (w_srv w) -> enumerates o2 (w_srv w) ->
  SwitchAll o1 o2 target vars (w_srv w) = (Ok rs, s') ->
  rtc step w (mkWorld s' (w_handlers w) (w_switchers w)).
Proof.
  intros Hk E1 E2. unfold SwitchAll, gets, lift, mbind, M_bind, zoom, modify, mret, M_ret.
  destruct (plan_all _ _ _ _ _ _) as [[plans declared]| | |] eqn:Hp; [|done..].
  destruct (decide (declared = 0)); [done|].
  destruct (commit_all plans o2 (s_store (w_srv w))) as [rs0 st'] eqn:Ec. intros [= <- <-].
  eapply rtc_l; [by apply (use_step w k o1 o2 target vars plans declared)|].
  pose proof (commit_all_steps k (mkSw target vars plans (SwCommit o2)) o2 [] (w_store w) w) as Hc.
  rewrite app_nil_r in Hc. eapply rtc_r; [exact Hc|].
  cbn [sw_plans]. unfold w_store. rewrite Ec. by apply finish_step.
Qed.

(** ** Properties *)

(** In every interleaving of handlers and switches, the registry invariant
    holds and every registered connection belongs to a handler that is still
    piping it (and will close it when the pipe ends): nothing leaks. *)
Theorem reachable_invariant s w : idle s -> reachable s w ->
  store_wf (w_store w) /\
  forall n d c, dbs (w_store w) !! n = Some d -> c ∈ conns d -> exists h, w_handlers w !! h = Some (HPiping c).
Proof. intros Hi Hr. destruct (inv_steps _ _ (inv_start s Hi) Hr). by split. Qed.

(** C7: a switch cuts every connection registered when it stored the new target:
    whatever handlers and other switches do meanwhile, once the switch has
    moved on to the next database (or finished), that connection has been
    closed on both sides. *)
Theorem switch_closes_registered s w w' k sw n todo c :
  idle s -> reachable s w -> w_switchers w !! k = Some sw -> sw_phase_of sw = SwStored n todo ->
  c ∈ live n (w_store w) -> rtc step w w' ->
  (w_switchers w' !! k = None \/
   exists sw', w_switchers w' !! k = Some sw' /\ sw_phase_of sw' = SwCommit todo) ->
  exists o, heap (w_store w') !! c = Some o /\ c_once o = true /\
    forall i, conn_sock o i -> i ∈ closed_socks (w_store w').
Proof.
  intros Hi Hr Hsw Hph Hl Hs Hdone. pose proof (inv_steps _ _ (inv_start s Hi) Hr) as Hinv.
  assert (Hheap : is_Some (heap (w_store w) !! c)).
  { unfold live in Hl. destruct (dbs (w_store w) !! n) as [d|] eqn:Ed; [|set_solver].
    destruct (wf_registered _ (i_wf _ Hinv) n d c Ed Hl) as (o & -> & _). by eexists. }
  destruct (to_be_closed_steps k c n todo w w' Hinv Hs) as [(o & Ho & Hc)|(_ & sw' & Hsw' & H)].
  - right. split; [done|]. exists sw. split; [done|]. by left.
  - exists o. split_and!; [done..|]. intros i. by apply (wf_closed _ (i_wf _ (inv_steps _ _ Hinv Hs)) c).
  - destruct Hdone as [?|(sw2 & E & E2)]; [congruence|]. rewrite Hsw' in E. injection E as <-.
    destruct H as [[? _]|(l & ? & _)]; congruence.
Qed.

(** Run without interference, the atomic steps of a switch take the world
    exactly from the server before to the server after the function
    [SwitchAll]: the step model refines to it. *)
Theorem SwitchAll_steps w k o1 o2 target vars rs s' :
  w_switchers w !! k = None -> enumerates o1 (w_srv w) -> enumerates o2 (w_srv w) ->
  SwitchAll o1 o2 target vars (w_srv w) = (Ok rs, s') ->
  rtc step w (mkWorld s' (w_handlers w) (w_switchers w)).
Proof. apply SwitchAll_steps_aux. Qed.

(** ** Races *)

(** C37: the window between a handler's [Current()] and its [Register]: for any
    switch that succeeds on an idle server there is an interleaving that ends
    with every goroutine at rest (the switch finished, the handler piping) and
    the database on its new target, yet with an open, registered connection
    that still goes to the old target. *)
Theorem stale_connection_survives s o1 o2 target vars rs s' n rt :
  idle s -> enumerates o1 s -> enumerates o2 s ->
  SwitchAll o1 o2 target vars s = (Ok rs, s') -> current_of n (s_store s) = Some rt ->
  exists w d c o, reachable s w /\ quiet w /\ currentTarget (w_srv w) = target /\
    dbs (w_store w) !! n = Some d /\ current d = current_of n (s_store s') /\
    c ∈ conns d /\ heap (w_store w) !! c = Some o /\ c_once o = false /\
    c_Resolved o = rt /\ (forall i, conn_sock o i -> i ∉ closed_socks (w_store w)).
Proof.
  intros [W He] E1 E2 Hsw Hcur. pose proof (SwitchAll_ok_inv _ _ _ _ _ _ _ W E1 E2 Hsw) as (st' & -> & _ & _ & Hc & _).
  destruct (committed_all o2 target _ s st' E2 Hc) as [Hd _].
  unfold current_of in Hcur. apply bind_Some in Hcur as (d0 & Hd0 & Hc0).
  set (w1 := with_handler 0 (HDialing n rt) (start s)).
  set (w2 := mkWorld (set_target target vars (set_store st' s)) (w_handlers w1) (w_switchers w1)).
  set (c := fresh (dom (heap st'))). set (i := fresh (closed_socks st')).
  assert (Hfresh : heap st' !! c = None) by (apply not_elem_of_dom, is_fresh).
  exists (with_handler 0 (HPiping c) (with_store (register_new n c i i rt st') w2)).
  assert (Hreg : dbs (register_new n c i i rt st') !! n
    = Some (set_conns (fun x => {[c]} ∪ x) (next_db target (default ∅ vars) d0))).
  { rewrite register_new_dbs, lookup_alter_eq, Hd, lookup_fmap. unfold s_databases. by rewrite Hd0. }
  assert (Hheap : heap (register_new n c i i rt st') !! c = Some (mkConn (Some i) (Some i) rt false (Some n)))
    by (by rewrite register_new_heap, decide_True).
  do 3 eexists. split_and!; [| | |exact Hreg| | |exact Hheap|done|done|].
  - eapply rtc_l; [apply (step_current (start s) 0 n rt); [done|unfold current_of, w_store; cbn [start w_srv]; rewrite Hd0; exact Hc0]|].
    eapply rtc_r; [by apply (SwitchAll_steps_aux w1 0 o1 o2 target vars rs)|].
    apply (step_register w2 0 n rt c i i); [apply lookup_insert_eq|done|apply is_fresh..].
  - split; [done|]. intros h hs. cbn. rewrite insert_insert_eq.
    intros [<- <-]%lookup_singleton_Some. right. by eexists.
  - done.
  - unfold current_of. cbn. rewrite Hd, lookup_fmap. unfold s_databases. by rewrite Hd0.
  - cbn. set_solver.
  - intros j [[= <-]|[= <-]]; apply is_fresh.
Qed.

(** Two databases with the same two targets. *)
Definition race_targets (db : bytes) : list Target :=
  [sample_target (str "local") (str "127.0.0.1") db; sample_target (str "staging") (str "10.0.0.1") db].
Definition race_config : Config :=
  mkConfig [] {[str "postgres" := 6432]} (str "/tmp/dbpivot.sock") ∅
    [mkDatabase (str "postgres") (str "appdb") (race_targets (str "app"));
     mkDatabase (str "postgres") (str "analytics") (race_targets (str "an"))].
Definition race_order : list bytes := [str "appdb"; str "analytics"].
Definition race_server : Server :=
  mkServer ∅ 0 ∅ (mkStore (next_db (str "local") ∅ <$> new_databases race_config) ∅ ∅) race_config (str "local") None false.

Definition plans_for (target : bytes) (st : store) : gmap bytes plan :=
  match plan_all (dbs st) target ∅ race_order ∅ 0 with Ok p => p.1 | _ => ∅ end.

Lemma plans_for_ok target st :
  (match plan_all (dbs st) target ∅ race_order ∅ 0 with Ok p => p.2 | _ => 0 end) = 2 ->
  plan_all (dbs st) target ∅ race_order ∅ 0 = Ok (plans_for target st, 2).
Proof. unfold plans_for. destruct (plan_all _ _ _ _ _ _) as [[p k]| | |]; cbn; congruence. Qed.

(** [use staging] commits appdb; then [use local] runs from start to end; then
    [use staging] commits analytics and finishes. *)
Definition race_store0 : store := s_store race_server.
Definition swA : switcher := mkSw (str "staging") None (plans_for (str "staging") race_store0) (SwCommit race_order).
Definition race_store1 : store := (commit_one (sw_plans swA) (str "appdb") race_store0).2.
Definition swB : switcher := mkSw (str "local") None (plans_for (str "local") race_store1) (SwCommit race_order).
Definition race_store2 : store := (commit_all (sw_plans swB) race_order race_store1).2.
Definition race_store3 : store := (commit_all (sw_plans swA) [str "analytics"] race_store2).2.
Definition race_final : Server := set_target (str "staging") None (set_store race_store3 race_server).

Lemma race_server_idle : idle race_server.
Proof.
  assert (H : forall n d, s_databases race_server !! n = Some d -> conns d = ∅).
  { intros n d. unfold s_databases. cbn. rewrite lookup_fmap. by intros (d0 & _ & ->)%fmap_Some. }
  split; [|done]. apply fresh_wf. exact H.
Qed.

Lemma race_reachable : reachable race_server (start race_final).
Proof.
  unfold reachable. set (w0 := start race_server).
  eapply rtc_l; [apply (use_step w0 1 race_order race_order (str "staging") None (sw_plans swA) 2);
    [done|vm_compute; apply Permutation_swap|vm_compute; apply Permutation_swap|apply plans_for_ok; vm_compute; reflexivity|done]|].
  etrans; [apply (commit_all_steps 1 swA [str "appdb"] [str "analytics"])|].
  set (w1 := sw_at 1 swA (SwCommit [str "analytics"]) race_store1 w0).
  eapply rtc_l; [apply (use_step w1 2 race_order race_order (str "local") None (sw_plans swB) 2);
    [done|vm_compute; apply Permutation_swap|vm_compute; apply Permutation_swap|apply plans_for_ok; vm_compute; reflexivity|done]|].
  etrans; [apply (commit_all_steps 2 swB race_order [])|].
  eapply rtc_l; [by apply (finish_step 2 swB race_store2 w1)|].
  set (w2 := mkWorld (set_target (str "local") None race_server) ∅ ∅).
  etrans; [apply (commit_all_steps 1 swA [str "analytics"] [] race_store2 w2)|].
  eapply rtc_l; [by apply (finish_step 1 swA race_store3 w2)|]. done.
Qed.

(** C38: two concurrent [use] commands are not serialised: there is an
    interleaving of [use staging] and [use local] that ends, with no switch in
    progress, with one database on each target, so the databases no longer
    follow the one global target. *)
Theorem concurrent_switches_mix : exists w, reachable race_server w /\ quiet w /\
  currentTarget (w_srv w) = str "staging" /\
  (rt_Name <$> current_of (str "appdb") (w_store w)) = Some (str "local") /\
  (rt_Name <$> current_of (str "analytics") (w_store w)) = Some (str "staging") /\
  ~ coherent (w_srv w).
Proof.
  exists (start race_final). split_and!; [exact race_reachable|done|done|vm_compute; reflexivity..|].
  intros H.
  assert (Hf : match s_databases race_final !! str "appdb" with
    | Some d => bool_decide (next_target (str "staging") ∅ d = Some (current d)) | None => true end = false)
    by (vm_compute; reflexivity).
  destruct (s_databases race_final !! str "appdb") as [d|] eqn:E; [|discriminate Hf].
  apply bool_decide_eq_false in Hf. apply Hf. exact (H _ d E).
Qed.

(** ** Witnesses: one client connected to appdb while [use staging] runs *)

Definition race_rt : ResolvedTarget := default zeroResolvedTarget (current_of (str "appdb") race_store0).
Definition client_store : store := register_new (str "appdb") 1 2 3 race_rt race_store0.
Definition client_world : world :=
  with_handler 0 (HPiping 1) (with_store client_store (with_handler 0 (HDialing (str "appdb") race_rt) (start race_server))).
Definition clientA : switcher := mkSw (str "staging") None (plans_for (str "staging") client_store) (SwCommit race_order).
Definition stored_store : store :=
  on_dbs (alter (set_current (planned_target (sw_plans clientA) (str "appdb"))) (str "appdb")) client_store.
Definition stored_world : world :=
  sw_at 1 clientA (SwStored (str "appdb") [str "analytics"]) stored_store client_world.

Lemma client_reachable : reachable race_server client_world.
Proof.
  eapply rtc_l; [apply (step_current (start race_server) 0 (str "appdb") race_rt); [done|vm_compute; reflexivity]|].
  apply rtc_once. apply (step_register (with_handler 0 (HDialing (str "appdb") race_rt) (start race_server))
    0 (str "appdb") race_rt 1 2 3); [apply lookup_insert_eq|done|vm_compute; done..].
Qed.

Lemma stored_reachable : reachable race_server stored_world.
Proof.
  unfold reachable. etrans; [apply client_reachable|].
  eapply rtc_l; [apply (use_step client_world 1 race_order race_order (str "staging") None (sw_plans clientA) 2);
    [done|vm_compute; apply Permutation_swap|vm_compute; apply Permutation_swap|apply plans_for_ok; vm_compute; reflexivity|done]|].
  apply rtc_once. unfold stored_world.
  rewrite <- (sw_at_sw_at 1 clientA _ stored_store (SwCommit race_order) client_store client_world).
  apply (step_store (sw_at 1 clientA (SwCommit race_order) client_store client_world) 1
    (at_phase (SwCommit race_order) clientA)); [apply lookup_insert_eq|done].
Qed.

Lemma stored_drained : rtc step stored_world
  (sw_at 1 clientA (SwCommit [str "analytics"]) (close_all (snapshot (str "appdb") stored_store) stored_store) client_world).
Proof.
  set (l := snapshot (str "appdb") stored_store). set (todo := [str "analytics"]).
  eapply rtc_l; [apply (step_snapshot stored_world 1 (at_phase (SwStored (str "appdb") todo) clientA));
    [apply lookup_insert_eq|done]|].
  match goal with |- rtc _ ?a _ => replace a with (sw_at 1 clientA (SwDrain l todo) stored_store client_world)
    by (by rewrite <- (sw_at_sw_at 1 clientA _ stored_store (SwStored (str "appdb") todo) stored_store client_world)) end.
  eapply rtc_r; [apply drain_steps|].
  rewrite <- (sw_at_sw_at 1 clientA (SwCommit todo) (close_all l stored_store) (SwDrain [] todo) (close_all l stored_store)).
  apply (step_next _ 1 (at_phase (SwDrain [] todo) clientA)); [apply lookup_insert_eq|done].
Qed.

Lemma reachable_invariant_witness :
  store_wf (w_store client_world) /\ 1%nat ∈ live (str "appdb") (w_store client_world).
Proof.
  split; [exact (proj1 (reachable_invariant race_server client_world race_server_idle client_reachable))|].
  vm_compute. reflexivity.
Defined.

Lemma switch_closes_registered_witness : exists o,
  heap (close_all (snapshot (str "appdb") stored_store) stored_store) !! 1%nat = Some o /\ c_once o = true.
Proof.
  destruct (switch_closes_registered race_server stored_world
    (sw_at 1 clientA (SwCommit [str "analytics"]) (close_all (snapshot (str "appdb") stored_store) stored_store) client_world)
    1 (at_phase (SwStored (str "appdb") [str "analytics"]) clientA) (str "appdb") [str "analytics"] 1
    race_server_idle stored_reachable (lookup_insert_eq _ _ _) (eq_refl _)) as (o & E & H & _).
  - vm_compute. reflexivity.
  - exact stored_drained.
  - right. eexists. split; [apply lookup_insert_eq|reflexivity].
  - exists o. split; [exact E|exact H].
Defined.

(** The switch of the idle server to staging. *)
Lemma race_switch_ok : exists rs s', SwitchAll race_order race_order (str "staging") None race_server = (Ok rs, s') /\
  currentTarget s' = str "staging".
Proof.
  destruct (SwitchAll race_order race_order (str "staging") None race_server) as [r s'] eqn:E.
  pose proof (f_equal (fun x => is_ok x.1) E) as Hok. pose proof (f_equal (fun x => currentTarget x.2) E) as Ht.
  destruct r as [rs| | |]; [|exfalso; vm_compute in Hok; discriminate Hok..].
  exists rs, s'. split; [reflexivity|]. vm_compute in Ht. vm_compute. symmetry. exact Ht.
Qed.

Lemma race_enumerates : enumerates race_order race_server.
Proof. vm_compute. apply Permutation_swap. Qed.

Lemma SwitchAll_steps_witness : exists rs s',
  SwitchAll race_order race_order (str "staging") None race_server = (Ok rs, s') /\
  rtc step (start race_server) (mkWorld s' ∅ ∅).
Proof.
  destruct race_switch_ok as (rs & s' & E & _). exists rs, s'. split; [exact E|].
  exact (SwitchAll_steps (start race_server) 1 race_order race_order (str "staging") None rs s'
    (eq_refl _) race_enumerates race_enumerates E).
Defined.

Lemma stale_connection_survives_witness : exists w d c, reachable race_server w /\
  dbs (w_store w) !! str "appdb" = Some d /\ c ∈ conns d /\
  (c_Resolved <$> heap (w_store w) !! c) = Some race_rt.
Proof.
  destruct race_switch_ok as (rs & s' & E & _).
  destruct (stale_connection_survives race_server race_order race_order (str "staging") None rs s' (str "appdb") race_rt
    race_server_idle race_enumerates race_enumerates E) as (w & d & c & o & H1 & _ & _ & H2 & _ & H3 & H4 & _ & H5 & _).
  - vm_compute. reflexivity.
  - exists w, d, c. split_and!; [exact H1|exact H2|exact H3|]. rewrite H4. cbn. f_equal. exact H5.
Defined.
