(* ===== verification/Fair.v ===== *)
(** Executions of a step relation and fair scheduling of its goroutines, shared
    by the liveness theorems of System.v and Life.v.

    An execution is a function from time to states.  A goroutine (a role) is
    scheduled fairly when, whenever it can act, it later acts or can no longer
    act.  [fair_reaches] is the proof rule: as long as the goal is not reached,
    some role is responsible, it can act, its action lowers a rank, and every
    other step lowers the rank too or leaves rank and responsibility alone. *)
From S2P Require Import Prelude.

(** Ranks: pairs in lexicographic order. *)
Definition lex (a b : nat * nat) : Prop := (a.1 < b.1)%nat \/ (a.1 = b.1 /\ (a.2 < b.2)%nat).
Lemma lex_wf : well_founded lex.
Proof.
  intros [a b]. revert b. induction (lt_wf a) as [a _ IHa]. intros b. induction (lt_wf b) as [b _ IHb].
  constructor. intros [a' b'] [H|[E H]]; cbn in *; [by apply IHa|subst; by apply IHb].
Qed.

Section fair.
Context {St Role : Type} (step : St -> St -> Prop) (acts : Role -> St -> St -> Prop).

Definition execution (f : nat -> St) : Prop := forall i, f (S i) = f i \/ step (f i) (f (S i)).
Definition enabled (r : Role) (s : St) : Prop := exists s', acts r s s'.
Definition fair (r : Role) (f : nat -> St) : Prop := forall i, enabled r (f i) ->
  exists j, (i <= j)%nat /\ (acts r (f j) (f (S j)) \/ ~ enabled r (f j)).
Definition leads_to (f : nat -> St) (P Q : St -> Prop) : Prop :=
  forall i, P (f i) -> exists j, (i <= j)%nat /\ Q (f j).

Lemma leads_to_trans f P Q R : leads_to f P Q -> leads_to f Q R -> leads_to f P R.
Proof. intros H1 H2 i Hi. destruct (H1 i Hi) as (j & Hj & Hq), (H2 j Hq) as (l & Hl & Hr). exists l. split; [lia|done]. Qed.
Lemma leads_to_now f (P Q : St -> Prop) : (forall s, P s -> Q s) -> leads_to f P Q.
Proof. intros H i Hi. exists i. auto. Qed.

Lemma execution_steps f i j : execution f -> (i <= j)%nat -> rtc step (f i) (f j).
Proof.
  intros He Hij. induction Hij as [|j _ IH]; [done|]. destruct (He j) as [->|Hs]; [done|by eapply rtc_r].
Qed.

(** A property that steps preserve holds from then on. *)
Lemma execution_invariant f (P : St -> Prop) i j : execution f -> (forall s s', P s -> step s s' -> P s') ->
  (i <= j)%nat -> P (f i) -> P (f j).
Proof.
  intros He Hp Hij Hi. pose proof (execution_steps f i j He Hij) as Hs. clear Hij. revert Hi. induction Hs; eauto.
Qed.

Record progress (good goal : St -> Prop) (rank : St -> nat * nat) (role : St -> option Role) : Prop := {
  pr_goal : forall s, good s -> role s = None -> goal s;
  pr_enabled : forall s r, good s -> role s = Some r -> enabled r s;
  pr_acts : forall s s' r, good s -> role s = Some r -> acts r s s' -> lex (rank s') (rank s);
  pr_step : forall s s' r, good s -> role s = Some r -> step s s' ->
    good s' /\ (lex (rank s') (rank s) \/ (rank s' = rank s /\ role s' = Some r));
}.

Lemma fair_reaches f good goal rank role : execution f -> (forall s r, good s -> role s = Some r -> fair r f) ->
  progress good goal rank role -> leads_to f good goal.
Proof.
  intros He Hf [Hgoal Hen Hact Hstep] i. remember (rank (f i)) as m eqn:Em. revert i Em.
  induction (lex_wf m) as [m _ IH]. intros i -> Hg. destruct (role (f i)) as [r|] eqn:Er; [|exists i; auto].
  destruct (Hf _ r Hg Er i (Hen _ _ Hg Er)) as (j & Hij & Hj).
  assert (forall d, (exists i', (i <= i')%nat /\ good (f i') /\ lex (rank (f i')) (rank (f i))) \/
    (good (f (i + d)%nat) /\ rank (f (i + d)%nat) = rank (f i) /\ role (f (i + d)%nat) = Some r)) as Hd.
  { induction d as [|d [?|(Hgd & Hrd & Hod)]]; [right; by rewrite Nat.add_0_r|by left|]. rewrite Nat.add_succ_r.
    destruct (He (i + d)%nat) as [->|Hs]; [by right|]. destruct (Hstep _ _ _ Hgd Hod Hs) as (Hg' & [Hlt|[Heq Hr']]).
    - left. exists (S (i + d)). rewrite <- Hrd. split_and!; [lia|done|done].
    - right. by rewrite Heq. }
  enough (exists i', (i <= i')%nat /\ good (f i') /\ lex (rank (f i')) (rank (f i))) as (i' & Hi' & Hg' & Hlt).
  { destruct (IH _ Hlt i' eq_refl Hg') as (l & Hl & Hgl). exists l. split; [lia|done]. }
  destruct (Hd (j - i)%nat) as [?|(Hgj & Hrj & Hoj)]; [done|]. replace (i + (j - i))%nat with j in * by lia.
  destruct Hj as [Ha|Hne]; [|by destruct Hne; eauto].
  exists (S j). rewrite <- Hrj. split; [lia|]. split; [|by eapply Hact].
  destruct (He j) as [->|Hs]; [done|by eapply Hstep].
Qed.

(** ** Finite executions, extended by resting *)

Lemma path_execution s s' : rtc step s s' -> exists f N, f 0%nat = s /\ execution f /\ forall i, (N <= i)%nat -> f i = s'.
Proof.
  intros Hr. induction Hr as [s|s s1 s' Hs _ (f & N & H0 & He & HN)]; [exists (fun _ => s), 0%nat; by split_and!; [|left|]|].
  exists (fun i => match i with O => s | S i => f i end), (S N). split_and!; [done| |intros [|i] Hi; [lia|apply HN; lia]].
  intros [|i]; [right; by rewrite H0|apply He].
Qed.
(** A path to a state, and one from there to a state where nobody can act. *)
Lemma path_fair_execution s s1 s2 : rtc step s s1 -> rtc step s1 s2 -> (forall r, ~ enabled r s2) ->
  exists f i, f 0%nat = s /\ execution f /\ (forall r, fair r f) /\ f i = s1.
Proof.
  intros H1 H2 Hn. destruct (path_execution s1 s2 H2) as (f & N & H0 & He & HN).
  enough (exists f' i, f' 0%nat = s /\ execution f' /\ forall j, f' (i + j)%nat = f j) as (f' & i & H0' & He' & Hf').
  { exists f', i. split_and!; [done..| |]; [|replace i with (i + 0)%nat by lia; by rewrite Hf'].
    intros r j _. exists (i + (j + N))%nat. split; [lia|right]. rewrite Hf', HN by lia. apply Hn. }
  clear H2 HN Hn. revert f H0 He. induction H1 as [s|s s' s1 Hs _ IH]; intros f H0 He; [by exists f, 0%nat|].
  destruct (IH f H0 He) as (f' & i & H0' & He' & Hi). exists (fun i => match i with O => s | S i => f' i end), (S i).
  split_and!; [done| |done]. intros [|j]; [right; by rewrite H0'|apply He'].
Qed.
End fair.
