(* ===== verification/System.v ===== *)
(** Race.v and Pipe.v put together: the goroutines of the daemon with the
    copying of every registered connection.

    A handler enters [pipeBidi] when it registers its connection and leaves it
    when both copying goroutines are done; [Conn.Close] closes the very
    connections they copy between.  Every execution of the system is one of
    Race.v and, for each handler, one of Pipe.v, so their theorems hold of it; with
    fair scheduling a switch always finishes, and the connections it found end. *)
From Stdlib Require Import Strings.Byte.
From S2P Require Import Prelude Fmt IO Net Vars Config Database Server Session PgWire PgAuth PgServer MysqlWire MysqlHandshake MysqlAuth MysqlServer Bson MongoWire MongoHandshake MongoAuth MongoServer Handler Pipe Race Fair.

Record system := mkSystem { y_world : Race.world; y_pipes : gmap nat pipe }.

(** Inside [pipeBidi], and [Conn.Close] was called on the connection. *)
Definition piping (w : Race.world) (h : nat) : bool :=
  match w_handlers w !! h with Some (HPiping _) => true | _ => false end.
Definition conn_done (w : Race.world) (h : nat) : bool :=
  match w_handlers w !! h with
  | Some (HPiping c) => match heap (w_store w) !! c with Some o => c_once o | None => false end
  | _ => false
  end.
Definition shut_both (p : pipe) : pipe :=
  set_end SB (shut_down (ends p SB)) (set_end SA (shut_down (ends p SA)) p).

(** What a step of the daemon from [w] to [w'] does to the copying of handler
    [h]: [pipeBidi] starts, goes on (its connections closed if [Conn.Close] was
    called) or has returned. *)
Definition follows (w w' : Race.world) (h : nat) (o o' : option pipe) : Prop :=
  match piping w h, piping w' h with
  | false, true => exists p, starting p /\ o' = Some p
  | true, true => o' = (if conn_done w' h then shut_both else id) <$> o
  | true, false => (exists p, o = Some p /\ returned p) /\ o' = None
  | false, false => o' = o
  end.

Inductive step : system -> system -> Prop :=
  | step_race w w' ps ps' : Race.step w w' -> (forall h, follows w w' h (ps !! h) (ps' !! h)) ->
      step (mkSystem w ps) (mkSystem w' ps')
  | step_pipe w ps h p p' : ps !! h = Some p -> Pipe.step p p' ->
      step (mkSystem w ps) (mkSystem w (<[h := p']> ps)).

Definition start (s : Server) : system := mkSystem (Race.start s) ∅.
Definition reachable (s : Server) (y : system) : Prop := rtc step (start s) y.

(** ** How the goroutines of Race.v move *)

Lemma handler_moves w w' h : Race.step w w' ->
  match w_handlers w !! h with
  | None => piping w' h = false
  | Some (HDialing _ _) => forall c, w_handlers w' !! h = Some (HPiping c) -> exists o, heap (w_store w') !! c = Some o /\ c_once o = false
  | Some (HPiping c) => w_handlers w' !! h = Some (HPiping c) \/ w_handlers w' !! h = Some HDone
  | Some HDone => w_handlers w' !! h = Some HDone
  end.
Proof.
  assert (forall v, w_handlers v = w_handlers w -> match w_handlers w !! h with
    | None => piping v h = false | Some (HDialing _ _) => forall c, w_handlers v !! h = Some (HPiping c) -> exists o, heap (w_store v) !! c = Some o /\ c_once o = false
    | Some (HPiping c) => w_handlers v !! h = Some (HPiping c) \/ w_handlers v !! h = Some HDone
    | Some HDone => w_handlers v !! h = Some HDone end) as Hsame.
  { intros v Hv. unfold piping. rewrite Hv. destruct (w_handlers w !! h) as [[| |]|]; auto; done. }
  assert (forall h0 hs, w_handlers w' = <[h0 := hs]> (w_handlers w) -> h0 <> h -> w_handlers w' !! h = w_handlers w !! h) as Hne
    by (intros h0 hs -> ?; by rewrite lookup_insert_ne).
  intros Hs. destruct Hs as [w h0 n rt Hh Hc|w h0 n rt Hh|w h0 n rt c cl up Hh Hc Hcl Hup|w h0 c Hh| | | | | | | | |]; try by apply Hsame.
  all: destruct (decide (h0 = h)) as [->|Hn]; [|specialize (Hne _ _ eq_refl Hn); unfold piping; rewrite Hne;
    destruct (w_handlers w !! h) as [[| |]|]; auto; done].
  all: rewrite Hh; unfold piping; cbn [w_handlers with_handler with_store]; rewrite lookup_insert_eq; try done; auto.
  intros c' [= <-]. change (w_store _) with (register_new n c cl up rt (w_store w)). rewrite register_new_heap, decide_True by done. by eexists.
Qed.

Lemma switch_can_move w k sw : w_switchers w !! k = Some sw ->
  exists w', Race.step w w' /\ w_switchers w' = partial_alter (fun _ => next_phase sw (w_store w)) k (w_switchers w) /\ w_handlers w' = w_handlers w.
Proof.
  intros Hk. unfold next_phase. destruct (sw_phase_of sw) as [[|n todo]|n todo|[|c l] todo] eqn:Hph.
  - eexists. by split; [eapply step_finish|].
  - eexists. by split; [eapply step_store|].
  - eexists. by split; [eapply step_snapshot|].
  - eexists. by split; [eapply step_next|].
  - eexists. by split; [eapply step_close|].
Qed.

(** ** A handler run as a function is a handler run in steps *)

Section handlers.
Context {U : Unicode} {Di : Dialer} {TLS_ : TLS} {Scram_ : Scram} {RSA_ : RSA} {Rand_ : Rand} {Arch : Target_arch} {Env : ClientEnv}.

(** C20: the handlers of the three adapters are the handlers of the concurrent model.
    Run without interference, a handler either leaves the shared state alone, or it
    routes its client to a database of its listener's adapter and goes through
    the steps of Race.v: it takes that database's current target, registers its
    connection with it -- which is the state [dispatch] leaves -- and, when the
    piping ends, closes it -- which is the state [handleConn] leaves. *)
Theorem handleConn_steps adapter_ s w h : w_store w = s_store (ss_srv s) -> w_handlers w !! h = None ->
  heap (w_store w) !! ss_obj s = None -> ss_client_sock s ∉ closed_socks (w_store w) -> ss_up_sock s ∉ closed_socks (w_store w) ->
  let '(r, s1) := dispatch_for adapter_ s in
  let s2 := (handleConn id adapter_ s).2 in
  match r with
  | Ok true => exists n rt d, dbs (w_store w) !! n = Some d /\ adapter d = served_adapter adapter_ /\ current d = Some rt /\
      let piping := with_handler h (HPiping (ss_obj s)) (with_store (s_store (ss_srv s1)) w) in
      c_Resolved <$> heap (w_store piping) !! ss_obj s = Some rt /\
      rtc Race.step w piping /\
      rtc Race.step piping (with_handler h HDone (with_store (s_store (ss_srv s2)) w))
  | _ => s_store (ss_srv s2) = w_store w
  end.
Proof.
  intros Hw Hh Ho Hc Hu. unfold handleConn. pose proof (seats_for _ adapter_ s (eq_sym Hw)) as Hs.
  destruct (dispatch_for adapter_ s) as [r s1].
  assert (same_seat s s1 -> s_store (ss_srv (on_client Close s1).2) = w_store w) as Hsame by (intros (E & _); by rewrite Hw, <- E).
  destruct r as [[]|e| |]; [|by apply Hsame..]. destruct Hs as (n & rt & [(d & Hd & Ha) Hcur] & Ho1 & Est).
  exists n, rt, d. split; [done|]. split; [done|]. split; [unfold current_of in Hcur; by rewrite Hd in Hcur|]. cbv beta iota zeta delta [snd].
  change (s_store (ss_srv (let (_, y) := on_client Close (close_registered id s1) in y))) with (Conn_Close (ss_obj s1) (s_store (ss_srv s1))). rewrite Ho1, Est.
  split; [|split].
  - change (w_store _) with (register_new n (ss_obj s) (ss_client_sock s) (ss_up_sock s) rt (w_store w)). by rewrite register_new_heap, decide_True.
  - set (w1 := with_handler h (HDialing n rt) w). eapply rtc_l; [by apply step_current|]. apply rtc_once.
    pose proof (step_register w1 h n rt (ss_obj s) (ss_client_sock s) (ss_up_sock s) (lookup_insert_eq _ _ _) Ho Hc Hu) as Hst.
    unfold w1, with_handler, with_store in Hst |- *. cbn in Hst |- *. by rewrite insert_insert_eq in Hst.
  - apply rtc_once. set (w1 := with_handler h (HPiping (ss_obj s)) _).
    pose proof (step_pipe_ends w1 h (ss_obj s) (lookup_insert_eq _ _ _)) as Hst.
    unfold w1, with_handler, with_store in Hst |- *. cbn in Hst |- *. by rewrite insert_insert_eq in Hst.
Qed.
End handlers.

(** ** Invariant *)

(** A pipe that came about as [pipeBidi] makes them. *)
Definition copied (p : pipe) : Prop := exists p0, starting p0 /\ rtc Pipe.step p0 p.

Record linked (y : system) : Prop := {
  k_inv : Race.inv (y_world y);
  k_heap : forall h c, w_handlers (y_world y) !! h = Some (HPiping c) -> is_Some (heap (w_store (y_world y)) !! c);
  k_pipe : forall h, match y_pipes y !! h with
    | Some p => piping (y_world y) h = true /\ copied p /\ (conn_done (y_world y) h = true -> both_closed p)
    | None => piping (y_world y) h = false
    end;
}.

Lemma copied_step p p' : copied p -> Pipe.step p p' -> copied p'.
Proof. intros (p0 & Hs & Hr) Hp. exists p0. split; [done|by eapply rtc_r]. Qed.
Lemma shut_both_steps p : rtc Pipe.step p (shut_both p).
Proof.
  eapply rtc_l; [right; apply (world_close p SA)|]. apply rtc_once. right. exact (world_close (set_end SA _ p) SB).
Qed.
Lemma shut_both_closed p : both_closed (shut_both p).
Proof. by intros []. Qed.

(** [Conn.Close] is for good. *)
Lemma conn_done_step w w' h : Race.inv w -> Race.step w w' -> conn_done w h = true -> piping w' h = true -> conn_done w' h = true.
Proof.
  intros Hi Hs. unfold conn_done, piping. pose proof (handler_moves w w' h Hs) as Hm.
  destruct (w_handlers w !! h) as [[|c|]|]; [done| |done..]. destruct Hm as [->| ->]; [|done]. intros Hd _.
  destruct (heap (w_store w) !! c) as [o|] eqn:Eo; [|done].
  destruct (conn_closed_step w w' c Hi Hs) as (o' & -> & ?); [by exists o|done].
Qed.
Lemma linked_race w w' ps ps' : linked (mkSystem w ps) -> Race.step w w' ->
  (forall h, follows w w' h (ps !! h) (ps' !! h)) -> linked (mkSystem w' ps').
Proof.
  intros [Hi Hh Hp] Hs Hf. cbn in *. split; cbn; [by eapply inv_step| |].
  - intros h c Hc. pose proof (handler_moves w w' h Hs) as Hm.
    destruct (w_handlers w !! h) as [[n rt|c0|]|] eqn:E; [by destruct (Hm c Hc) as (o & -> & _)| |congruence|unfold piping in Hm; by rewrite Hc in Hm].
    eapply heap_grows, (Hh h); [done..|]. destruct Hm; congruence.
  - intros h. specialize (Hf h). specialize (Hp h). unfold follows in Hf. pose proof (handler_moves w w' h Hs) as Hm.
    destruct (piping w h) eqn:E1, (piping w' h) eqn:E2.
    + destruct (ps !! h) as [p|]; [|done]. rewrite Hf. cbn. destruct Hp as (_ & (p0 & H0 & Hr) & Hc).
      split; [done|]. destruct (conn_done w' h) eqn:Ed; cbn.
      * split; [|intros _; apply shut_both_closed]. exists p0. split; [done|]. etrans; [done|apply shut_both_steps].
      * split; [by exists p0|done].
    + by destruct Hf as [_ ->].
    + destruct Hf as (p & Hst & ->). split; [done|]. split; [by exists p|]. unfold piping, conn_done in *.
      destruct (w_handlers w' !! h) as [[|c|]|]; [done| |done..].
      destruct (w_handlers w !! h) as [[| |]|]; [by destruct (Hm c eq_refl) as (o & -> & ->)|done..].
    + rewrite Hf. destruct (ps !! h); [by destruct Hp|done].
Qed.
Lemma linked_step y y' : linked y -> step y y' -> linked y'.
Proof.
  intros Hl Hs. destruct Hs as [w w' ps ps' Hs Hf|w ps h p p' Hp Hs]; [by eapply linked_race|].
  destruct Hl as [Hi Hh Hk]. split; [done..|]. intros h'. specialize (Hk h'). cbn in *. rewrite lookup_insert. case_decide; [subst|done].
  rewrite Hp in Hk. destruct Hk as (H1 & H2 & H3). split_and!; [done|by eapply copied_step|]. intros Hd. by eapply step_both_closed, Hs; auto.
Qed.
Lemma linked_start s : idle s -> linked (start s).
Proof. intros Hi. split; [by apply inv_start|done|done]. Qed.
Lemma linked_steps y y' : linked y -> rtc step y y' -> linked y'.
Proof. intros Hl Hr. induction Hr; eauto using linked_step. Qed.
Lemma steps_race y y' : rtc step y y' -> rtc Race.step (y_world y) (y_world y').
Proof. intros Hr. induction Hr as [|y1 y2 y3 Hs _ IH]; [done|]. destruct Hs; [by eapply rtc_l|done]. Qed.

(** ** The goroutines and their scheduling *)

Inductive goroutine : Type :=
  | GSwitch (k : nat) (* a [SwitchAll] call *)
  | GCopy (h : nat) (x : side) (* one of the two copying goroutines of a handler *)
  | GHandler (h : nat) (* a handler waiting in [pipeBidi] *).
Definition acts (g : goroutine) (y y' : system) : Prop :=
  match g with
  | GSwitch k => step y y' /\ is_Some (w_switchers (y_world y) !! k) /\ w_switchers (y_world y') !! k <> w_switchers (y_world y) !! k
  | GCopy h x => exists p p', y_pipes y !! h = Some p /\ work x p p' /\ y' = mkSystem (y_world y) (<[h := p']> (y_pipes y))
  | GHandler h => step y y' /\ piping (y_world y) h = true /\ w_handlers (y_world y') !! h = Some HDone
  end.
Definition fairly (g : goroutine) (f : nat -> system) : Prop := fair acts g f.

(** The pipes after a step in which no handler entered or left [pipeBidi]. *)
Definition sync (w : Race.world) (ps : gmap nat pipe) : gmap nat pipe :=
  map_imap (fun h p => Some (if conn_done w h then shut_both p else p)) ps.
Lemma follows_sync w w' ps h : piping w' h = piping w h -> follows w w' h (ps !! h) (sync w' ps !! h).
Proof.
  intros E. unfold follows, sync. rewrite E, map_lookup_imap. destruct (piping w h) eqn:Ep; [by destruct (ps !! h), (conn_done w' h)|].
  destruct (ps !! h) as [p|]; [|done]. cbn. unfold conn_done. unfold piping in E. by destruct (w_handlers w' !! h) as [[| |]|].
Qed.

(** What the switch [k] still has to do. *)
Definition left_of (p : sw_phase) : nat * nat :=
  match p with
  | SwCommit todo => (S (3 * length todo), 0)
  | SwStored _ todo => (S (3 * length todo + 2), 0)
  | SwDrain l todo => (S (3 * length todo + 1), length l)
  end%nat.
Definition switch_left (k : nat) (y : system) : nat * nat :=
  match w_switchers (y_world y) !! k with Some sw => left_of (sw_phase_of sw) | None => (0, 0)%nat end.
Lemma next_left sw st : lex (match next_phase sw st with Some sw' => left_of (sw_phase_of sw') | None => (0, 0)%nat end) (left_of (sw_phase_of sw)).
Proof. unfold next_phase, lex. destruct (sw_phase_of sw) as [[|n todo]|n todo|[|c l] todo]; cbn; lia. Qed.
Lemma next_ne sw st : next_phase sw st <> Some sw.
Proof. intros E. pose proof (next_left sw st) as H. rewrite E in H. unfold lex in H. lia. Qed.

Lemma switch_enabled k y : is_Some (w_switchers (y_world y) !! k) -> enabled acts (GSwitch k) y.
Proof.
  intros [sw Hk]. destruct (switch_can_move _ k sw Hk) as (w' & Hs & Hn & Hh). destruct y as [w ps]. cbn in *.
  exists (mkSystem w' (sync w' ps)). split; [|split; [done|]].
  - apply step_race; [done|]. intros h. apply follows_sync. unfold piping. by rewrite Hh.
  - cbn. rewrite Hn, lookup_partial_alter_eq, Hk. apply next_ne.
Qed.
Lemma switch_left_step k y y' : step y y' -> is_Some (w_switchers (y_world y) !! k) ->
  w_switchers (y_world y') !! k = w_switchers (y_world y) !! k \/ lex (switch_left k y') (switch_left k y).
Proof.
  intros Hs [sw Hk]. destruct Hs as [w w' ps ps' Hs _|]; [|by left]. cbn in *.
  destruct (switch_moves w w' k sw Hs Hk) as [E|[E _]]; [left; congruence|right].
  unfold switch_left. cbn. rewrite Hk, E. apply next_left.
Qed.

(** While [busy], the switch is the one to act. *)
Definition switch_role (k : nat) (busy : switcher -> bool) (y : system) : option goroutine :=
  match w_switchers (y_world y) !! k with Some sw => if busy sw then Some (GSwitch k) else None | None => None end.
Lemma switch_progress k busy (good goal : system -> Prop) :
  (forall y y', good y -> step y y' -> good y') ->
  (forall y, good y -> switch_role k busy y = None -> goal y) ->
  progress step acts good goal (switch_left k) (switch_role k busy).
Proof.
  intros Hg Hgoal. assert (forall y g, switch_role k busy y = Some g -> g = GSwitch k /\ is_Some (w_switchers (y_world y) !! k)) as Hr.
  { intros y g. unfold switch_role. destruct (w_switchers _ !! k) as [sw|]; [|done]. destruct (busy sw); [|done]. by intros [= <-]. }
  split; [done| | |].
  - intros y g _ [-> Hk]%Hr. by apply switch_enabled.
  - intros y y' g _ [-> Hk]%Hr (Hs & _ & Hne). by destruct (switch_left_step k y y' Hs Hk).
  - intros y y' g Hy Hg' Hs. split; [by eapply Hg|]. destruct (Hr _ _ Hg') as [-> Hk].
    destruct (switch_left_step k y y' Hs Hk) as [E|]; [right|by left]. unfold switch_left, switch_role in *. by rewrite E.
Qed.

(** ** A closed connection ends *)

(** [Conn.Close] was called on the connection [c] of handler [h]; the handler is
    still piping it or has returned. *)
Definition cut (h c : nat) (y : system) : Prop :=
  linked y /\ conn_closed c (w_store (y_world y)) /\
  (w_handlers (y_world y) !! h = Some (HPiping c) \/ w_handlers (y_world y) !! h = Some HDone).
Definition copy_left (h : nat) (y : system) : nat * nat :=
  match y_pipes y !! h with Some p => (1, rank p) | None => (0, 0) end%nat.
Definition copy_role (h : nat) (y : system) : option goroutine :=
  match y_pipes y !! h with
  | Some p => Some (if decide (phases p SA = Finished) then if decide (phases p SB = Finished) then GHandler h else GCopy h SB else GCopy h SA)
  | None => None
  end.

Lemma cut_step h c y y' : cut h c y -> step y y' -> cut h c y'.
Proof.
  intros (Hl & Hc & Hh) Hs. split; [by eapply linked_step|]. destruct Hs as [w w' ps ps' Hs _|]; [|done]. cbn in *.
  split; [by eapply conn_closed_step; [apply (k_inv _ Hl)|..]|]. pose proof (handler_moves w w' h Hs) as Hm.
  destruct Hh as [E|E]; rewrite E in Hm; [|by right]. destruct Hm; auto.
Qed.
(** Its pipe has both connections closed. *)
Lemma cut_pipe h c y p : cut h c y -> y_pipes y !! h = Some p -> both_closed p /\ w_handlers (y_world y) !! h = Some (HPiping c).
Proof.
  intros (Hl & (o & Ho & Hc) & Hh) Hp. pose proof (k_pipe _ Hl h) as Hk. rewrite Hp in Hk. destruct Hk as (Hpi & _ & Hb).
  unfold piping in Hpi. destruct Hh as [E|E]; rewrite E in Hpi; [|done]. split; [|done]. apply Hb. unfold conn_done. by rewrite E, Ho.
Qed.
Lemma closed_can_work x p : both_closed p -> phases p x <> Finished -> exists p', work x p p'.
Proof.
  intros Hb Hf. apply ready_work. unfold ready. destruct (phases p x) eqn:E; rewrite ?Hb; done.
Qed.

(** The handler returns from [pipeBidi]: its deferred [conn.Close] runs. *)
Lemma handler_returns h c y p : linked y -> y_pipes y !! h = Some p -> returned p -> w_handlers (y_world y) !! h = Some (HPiping c) ->
  exists y', step y y' /\ w_handlers (y_world y') !! h = Some HDone.
Proof.
  destruct y as [w ps]. cbn. intros Hl Hp Hr Hh.
  set (w' := with_handler h HDone (with_store (Conn_Close c (w_store w)) w)).
  exists (mkSystem w' (delete h (sync w' ps))). split; [|apply lookup_insert_eq].
  apply step_race; [by apply Race.step_pipe_ends|]. intros h'. destruct (decide (h' = h)) as [->|Hn].
  - unfold follows, piping. rewrite Hh. cbn. rewrite lookup_insert_eq, lookup_delete_eq. split; [by exists p|done].
  - rewrite lookup_delete_ne by done. apply follows_sync. unfold piping. cbn. by rewrite lookup_insert_ne.
Qed.

(** How the pipe of [h] moves in a step. *)
Lemma pipe_moves h y y' p : linked y -> step y y' -> y_pipes y !! h = Some p ->
  match y_pipes y' !! h with
  | Some p' => phases p' = phases p \/ exists x, work x p p'
  | None => w_handlers (y_world y') !! h = Some HDone
  end.
Proof.
  intros Hl Hs Hp. destruct Hs as [w w' ps ps' Hs Hf|w ps h0 p0 p' Hp0 Hs]; cbn in *.
  - pose proof (k_pipe _ Hl h) as Hk. cbn in Hk. rewrite Hp in Hk. destruct Hk as (Hpi & _ & _). specialize (Hf h).
    unfold follows in Hf. rewrite Hp, Hpi in Hf. destruct (piping w' h) eqn:Ep.
    + rewrite Hf. cbn. left. by destruct (conn_done w' h).
    + destruct Hf as [_ ->]. pose proof (handler_moves w w' h Hs) as Hm. unfold piping in Hpi, Ep.
      destruct (w_handlers w !! h) as [[| |]|]; [done| |done..]. destruct Hm as [E|E]; [by rewrite E in Ep|done].
  - destruct (decide (h0 = h)) as [->|Hn]; [|rewrite lookup_insert_ne, Hp by done; by left].
    rewrite lookup_insert_eq. rewrite Hp in Hp0. injection Hp0 as <-.
    destruct Hs as [[x Hw]|Hw]; [right; by exists x|left; by destruct Hw].
Qed.

Lemma copy_progress h c : progress step acts (cut h c) (fun y => cut h c y /\ w_handlers (y_world y) !! h = Some HDone) (copy_left h) (copy_role h).
Proof.
  split.
  - intros y Hc. unfold copy_role. destruct (y_pipes y !! h) eqn:Ep; [done|]. intros _. split; [done|].
    destruct Hc as (Hl & _ & [E|E]); [|done]. pose proof (k_pipe _ Hl h) as Hk. rewrite Ep in Hk. unfold piping in Hk. by rewrite E in Hk.
  - intros y g Hc. unfold copy_role. destruct (y_pipes y !! h) as [p|] eqn:Ep; [|done]. intros [= <-].
    destruct (cut_pipe h c y p Hc Ep) as [Hb Hh].
    assert (forall x, phases p x <> Finished -> enabled acts (GCopy h x) y) as Hcopy.
    { intros x Hx. destruct (closed_can_work x p Hb Hx) as [p' Hw]. eexists. by exists p, p'. }
    repeat case_decide; [|by apply Hcopy..]. destruct (handler_returns h c y p) as (y' & Hs & Hd); [apply Hc|done|by intros []|done|].
    exists y'. split; [done|]. split; [|done]. unfold piping. by rewrite Hh.
  - intros y y' g Hc. unfold copy_role, copy_left. destruct (y_pipes y !! h) as [p|] eqn:Ep; [|done]. intros [= <-].
    destruct (cut_pipe h c y p Hc Ep) as [Hb Hh].
    assert (forall x, acts (GCopy h x) y y' -> lex (match y_pipes y' !! h with Some p => (1, rank p) | None => (0, 0) end%nat) (1, rank p)%nat) as Hcopy.
    { intros x (p0 & p' & Hp0 & Hw & ->). rewrite Ep in Hp0. injection Hp0 as <-. cbn. rewrite lookup_insert_eq. right. split; [done|]. by eapply closed_work_rank. }
    repeat case_decide; [|by apply Hcopy..]. intros (Hs & _ & Hd). left.
    assert (linked y') as Hl' by (eapply linked_step; [apply Hc|done]). pose proof (k_pipe _ Hl' h) as Hk.
    destruct (y_pipes y' !! h); [|cbn; lia]. destruct Hk as [Hk _]. unfold piping in Hk. by rewrite Hd in Hk.
  - intros y y' g Hc Hg Hs. split; [by eapply cut_step|]. unfold copy_role, copy_left in *.
    destruct (y_pipes y !! h) as [p|] eqn:Ep; [|done]. destruct (cut_pipe h c y p Hc Ep) as [Hb _].
    pose proof (pipe_moves h y y' p (proj1 Hc) Hs Ep) as Hm. destruct (y_pipes y' !! h) as [p'|]; [|left; left; cbn; lia].
    destruct Hm as [E|[x Hw]]; [right|left; right; split; [done|by eapply closed_work_rank]]. unfold rank. by rewrite E.
Qed.

(** ** Properties *)

(** C10: every execution of the composed system is one of the handlers and
    switches and, for each registered connection, one of the copying alone: there
    is a pipe exactly while its handler is in [pipeBidi], it evolved as the
    copying does from a fresh start, and once [Conn.Close] was called both its
    connections are closed.  What Race.v and Pipe.v show holds of the system; in
    particular the registry is well formed and every registered connection
    belongs to a handler that is piping it and will close it: nothing leaks. *)
Theorem system_refines s y : idle s -> reachable s y ->
  Race.reachable s (y_world y) /\
  (forall h, match y_pipes y !! h with
    | Some p => (exists p0, starting p0 /\ rtc Pipe.step p0 p) /\
        exists c, w_handlers (y_world y) !! h = Some (HPiping c) /\ (conn_closed c (w_store (y_world y)) -> both_closed p)
    | None => forall c, w_handlers (y_world y) !! h <> Some (HPiping c)
    end) /\
  store_wf (w_store (y_world y)) /\
  forall n d c, dbs (w_store (y_world y)) !! n = Some d -> c ∈ conns d ->
    exists h p, w_handlers (y_world y) !! h = Some (HPiping c) /\ y_pipes y !! h = Some p.
Proof.
  intros Hi Hr. pose proof (linked_steps _ _ (linked_start s Hi) Hr) as Hl. split; [exact (steps_race _ _ Hr)|]. split; [|split; [apply (k_inv _ Hl)|]].
  - intros h. pose proof (k_pipe _ Hl h) as Hk. unfold piping, conn_done in Hk.
    destruct (y_pipes y !! h) as [p|]; [|by intros c E; rewrite E in Hk].
    destruct Hk as (Hp & Hc & Hb). split; [done|]. destruct (w_handlers _ !! h) as [[|c|]|]; [done| |done..].
    exists c. split; [done|]. intros (o & Ho & Hd). apply Hb. by rewrite Ho.
  - intros n d c Hd Hc. destruct (i_owner _ (k_inv _ Hl) n d c Hd Hc) as [h Hh]. exists h.
    pose proof (k_pipe _ Hl h) as Hk. unfold piping in Hk. rewrite Hh in Hk. destruct (y_pipes y !! h) as [p|]; [by exists p|done].
Qed.

(** C9: a switch always finishes.  In every execution of the system in which its
    goroutine is scheduled fairly, [SwitchAll] ends, whatever the handlers, the
    copying and other switches do meanwhile: however many connections register
    while it runs, it closes only those it found. *)
Theorem switch_finishes s f i k : idle s -> f 0%nat = start s -> execution step f -> fairly (GSwitch k) f ->
  exists j, (i <= j)%nat /\ w_switchers (y_world (f j)) !! k = None.
Proof.
  intros Hi H0 He Hf.
  apply (fair_reaches step acts f (fun _ => True) (fun y => w_switchers (y_world y) !! k = None) (switch_left k) (switch_role k (fun _ => true)) He); [| |done].
  - intros y g _. unfold switch_role. destruct (w_switchers _ !! k); [|done]. by intros [= <-].
  - apply switch_progress; [done|]. intros y _. unfold switch_role. by destruct (w_switchers _ !! k).
Qed.

(** A switch that stored its target closes what it found. *)
Lemma found_leads_to_closed k c n todo f : execution step f -> fairly (GSwitch k) f ->
  leads_to f (fun y => linked y /\ to_be_closed k c n todo (y_world y)) (fun y => linked y /\ conn_closed c (w_store (y_world y))).
Proof.
  intros He Hf. set (good y := linked y /\ (conn_closed c (w_store (y_world y)) \/ to_be_closed k c n todo (y_world y))).
  eapply leads_to_trans; [apply (leads_to_now f _ good); by intros y [? ?]; split; [|right]|].
  apply (fair_reaches step acts f good _ (switch_left k) (switch_role k (fun sw => match sw_phase_of sw with SwCommit _ => false | _ => true end)) He).
  - intros y g _. unfold switch_role. destruct (w_switchers _ !! k) as [sw|]; [|done]. destruct (sw_phase_of sw); [done|..]; by intros [= <-].
  - apply switch_progress.
    + intros y y' [Hl Hc] Hs. split; [by eapply linked_step|]. apply (to_be_closed_steps k c n todo (y_world y)); [apply Hl| |done].
      apply steps_race. by apply rtc_once.
    + intros y [Hl Hc]. unfold switch_role. split; [done|]. destruct Hc as [|(_ & sw & Hsw & Hp)]; [done|].
      rewrite Hsw in H. destruct Hp as [[E _]|(l & E & _)]; by rewrite E in H.
Qed.

(** C4: a switch really moves the clients.  In every execution of the system with
    fair scheduling, a connection that is registered when a switch stores the new
    target of its database ends: its handler returns, both its sockets are
    closed and it is registered nowhere, whatever the two peers, other handlers
    and other switches do. *)
Theorem old_connection_ends s f i k sw n todo c : idle s -> f 0%nat = start s -> execution step f -> (forall g, fairly g f) ->
  w_switchers (y_world (f i)) !! k = Some sw -> sw_phase_of sw = SwStored n todo -> c ∈ live n (w_store (y_world (f i))) ->
  exists h j o, w_handlers (y_world (f i)) !! h = Some (HPiping c) /\ (i <= j)%nat /\ w_handlers (y_world (f j)) !! h = Some HDone /\
    heap (w_store (y_world (f j))) !! c = Some o /\ (forall e, conn_sock o e -> e ∈ closed_socks (w_store (y_world (f j)))) /\
    forall n' d, dbs (w_store (y_world (f j))) !! n' = Some d -> c ∉ conns d.
Proof.
  intros Hi H0 He Hf Hsw Hph Hlive.
  assert (linked (f i)) as Hl.
  { eapply linked_steps; [by apply linked_start|]. rewrite <- H0. apply execution_steps; [done|lia]. }
  assert (exists d, dbs (w_store (y_world (f i))) !! n = Some d /\ c ∈ conns d) as (d & Hd & Hin).
  { unfold live in Hlive. destruct (dbs _ !! n) as [d|]; [by exists d|set_solver]. }
  destruct (i_owner _ (k_inv _ Hl) n d c Hd Hin) as [h Hh]. exists h.
  destruct (found_leads_to_closed k c n todo f He (Hf _) i) as (j & Hj & Hlj & Hcj).
  { split; [done|]. split; [by apply (k_heap _ Hl h)|]. exists sw. split; [done|]. by left. }
  assert (cut h c (f j)) as Hcut.
  { split; [done|]. split; [done|]. refine (execution_invariant step f (fun y => w_handlers (y_world y) !! h = Some (HPiping c) \/
      w_handlers (y_world y) !! h = Some HDone) i j He _ Hj (or_introl Hh)).
    intros y y' Hy Hs. destruct Hs as [w w' ps ps' Hs _|]; [|done]. cbn in *. pose proof (handler_moves w w' h Hs) as Hm.
    destruct Hy as [E|E]; rewrite E in Hm; auto. }
  destruct (fair_reaches step acts f _ _ _ _ He (fun _ g _ _ => Hf g) (copy_progress h c) j Hcut) as (l & Hl' & (Hll & (o & Ho & Hoc) & _) & Hdone).
  exists l, o. pose proof (i_wf _ (k_inv _ Hll)) as W. split_and!; [done|lia|done|done|..].
  - intros e Hsock. by apply (wf_closed _ W c o).
  - intros n' d' Hd' Hin'. destruct (wf_registered _ W n' d' c Hd' Hin') as (o' & Ho' & Hno & _). rewrite Ho in Ho'. by injection Ho' as <-; rewrite Hno in Hoc.
Qed.

(** ** Witnesses: the client of Race.v, from its login to its end *)

(** Nothing is left to do without switches and registered connections. *)
Lemma at_rest y g : linked y -> w_switchers (y_world y) = ∅ -> (forall h, piping (y_world y) h = false) -> ~ enabled acts g y.
Proof.
  intros Hl Hs Hp (y' & Ha). destruct g as [k|h x|h]; cbn in Ha.
  - destruct Ha as (_ & [sw Hk] & _). by rewrite Hs in Hk.
  - destruct Ha as (p & _ & Hh & _). pose proof (k_pipe _ Hl h) as Hk. rewrite Hh in Hk. destruct Hk as [Hk _]. by rewrite Hp in Hk.
  - destruct Ha as (_ & Hh & _). by rewrite Hp in Hh.
Qed.
(** A step in which nobody enters or leaves [pipeBidi]. *)
Lemma quiet_step w w' ps : Race.step w w' -> (forall h, piping w' h = piping w h) -> step (mkSystem w ps) (mkSystem w' (sync w' ps)).
Proof. intros Hs Hp. apply step_race; [done|]. intros h. by apply follows_sync. Qed.
(** Left to itself a switch runs to its end. *)
Lemma switch_runs k y : is_Some (w_switchers (y_world y) !! k) ->
  exists y', rtc step y y' /\ w_switchers (y_world y') = delete k (w_switchers (y_world y)) /\ w_handlers (y_world y') = w_handlers (y_world y).
Proof.
  remember (switch_left k y) as m eqn:Em. revert y Em. induction (lex_wf m) as [m _ IH]. intros [w ps] -> [sw Hk].
  cbn in Hk. destruct (switch_can_move w k sw Hk) as (w1 & Hs & Hw & Hh). set (y1 := mkSystem w1 (sync w1 ps)).
  assert (step (mkSystem w ps) y1) as Hs1 by (apply quiet_step; [done|]; intros h; unfold piping; by rewrite Hh).
  assert (switchers_at : w_switchers w1 !! k = next_phase sw (w_store w)) by by rewrite Hw, lookup_partial_alter_eq.
  destruct (next_phase sw (w_store w)) as [sw1|] eqn:En.
  - destruct (IH (switch_left k y1)) with (y := y1) as (y' & Hr & Hd & Hh'); [|done|by exists sw1|].
    + unfold switch_left. cbn. rewrite switchers_at, Hk. pose proof (next_left sw (w_store w)) as Hn. by rewrite En in Hn.
    + exists y'. split; [by eapply rtc_l|]. rewrite Hd, Hh'. cbn. split; [|done]. rewrite Hw. apply map_eq. intros k'.
      destruct (decide (k = k')) as [<-|]; [by rewrite !lookup_delete_eq|by rewrite !lookup_delete_ne, lookup_partial_alter_ne].
  - exists y1. split; [by apply rtc_once|]. cbn. by rewrite Hw.
Qed.
(** Left to themselves the copying goroutines of a closed connection finish. *)
Lemma copying_runs w ps h p p' : ps !! h = Some p -> rtc goroutines p p' ->
  rtc step (mkSystem w ps) (mkSystem w (<[h := p']> ps)).
Proof.
  intros Hp Hr. revert ps Hp. induction Hr as [p|p p1 p' Hg _ IH]; intros ps Hp; [by rewrite insert_id|].
  eapply rtc_l; [apply (step_pipe w ps h p p1); [done|by left]|]. specialize (IH (<[h := p1]> ps) (lookup_insert_eq _ _ _)).
  by rewrite insert_insert_eq in IH.
Qed.
Lemma closed_handler_runs h c y : linked y -> w_handlers (y_world y) !! h = Some (HPiping c) -> conn_closed c (w_store (y_world y)) ->
  exists y', rtc step y y' /\ w_handlers (y_world y') = <[h := HDone]> (w_handlers (y_world y)) /\ w_switchers (y_world y') = w_switchers (y_world y).
Proof.
  intros Hl Hh Hc. destruct y as [w ps]. cbn in *. pose proof (k_pipe _ Hl h) as Hk. cbn in Hk. unfold piping in Hk. rewrite Hh in Hk.
  destruct (ps !! h) as [p|] eqn:Ep; [|done]. destruct Hk as (_ & (p0 & Hs0 & Hr0) & Hb).
  assert (both_closed p) as Hbc by (apply Hb; unfold conn_done; rewrite Hh; by destruct Hc as (o & -> & ?)).
  destruct (reaches_stuck p) as (p' & Hg & Hst).
  assert (returned p') as Hret.
  { apply stuck_returned; [|by eapply ending_steps; [left|]|done]. eapply steps_closes, goroutines_steps, Hg.
    by eapply steps_closes, Hr0; apply starting_closes. }
  set (w' := with_handler h HDone (with_store (Conn_Close c (w_store w)) w)). set (ps1 := <[h := p']> ps).
  exists (mkSystem w' (delete h (sync w' ps1))). split; [|done]. eapply rtc_r; [by apply (copying_runs w ps h p p')|].
  apply step_race; [by apply Race.step_pipe_ends|]. intros h'. destruct (decide (h' = h)) as [->|Hn].
  - unfold follows, piping. rewrite Hh. cbn. rewrite lookup_insert_eq, lookup_delete_eq. split; [|done]. exists p'. by rewrite lookup_insert_eq.
  - rewrite lookup_delete_ne by done. apply follows_sync. unfold piping. cbn. by rewrite lookup_insert_ne.
Qed.

(** The client of Race.v logs in, [use staging] stores the target of its database. *)
Lemma stored_system : exists ps, reachable race_server (mkSystem stored_world ps).
Proof.
  set (w0 := Race.start race_server). set (w1 := with_handler 0 (HDialing (str "appdb") race_rt) w0).
  set (w3 := with_switcher 1 clientA client_world).
  assert (Race.step w0 w1) as S1 by (apply step_current; [done|vm_compute; reflexivity]).
  assert (Race.step w1 client_world) as S2 by (apply step_register; [apply lookup_insert_eq|done|vm_compute; done..]).
  assert (Race.step client_world w3) as S3 by (eapply step_use with (o1 := race_order) (declared := 2); [done|vm_compute; apply Permutation_swap|
    vm_compute; apply Permutation_swap|apply plans_for_ok; vm_compute; reflexivity|done]).
  assert (Race.step w3 stored_world) as S4.
  { unfold stored_world. rewrite <- (sw_at_sw_at 1 clientA _ stored_store (SwCommit race_order) client_store client_world).
    apply (step_store (sw_at 1 clientA (SwCommit race_order) client_store client_world) 1 (at_phase (SwCommit race_order) clientA)); [apply lookup_insert_eq|done]. }
  eexists. eapply rtc_l; [apply (quiet_step w0 w1 ∅ S1)|].
  { intros h. unfold piping. cbn. destruct (decide (0%nat = h)) as [<-|]; [by rewrite lookup_insert_eq|by rewrite lookup_insert_ne]. }
  eapply rtc_l; [apply (step_race w1 client_world _ {[0%nat := piped]} S2)|].
  { intros h. unfold follows, piping. cbn. destruct (decide (0%nat = h)) as [<-|].
    - rewrite !lookup_insert_eq. exists piped. split; [exact piped_starting|apply lookup_singleton_eq].
    - rewrite !lookup_insert_ne, lookup_singleton_ne by done. done. }
  eapply rtc_l; [by apply (quiet_step client_world w3 _ S3)|]. by apply rtc_once, (quiet_step w3 stored_world _ S4).
Qed.
Lemma client_execution : exists f i, f 0%nat = start race_server /\ execution step f /\ (forall g, fairly g f) /\ y_world (f i) = stored_world.
Proof.
  destruct stored_system as [ps Hr]. set (y := mkSystem stored_world ps) in Hr. pose proof (linked_steps _ _ (linked_start _ race_server_idle) Hr) as Hl.
  destruct (switch_runs 1 y) as (y1 & Hr1 & Hw1 & Hh1); [eexists; apply lookup_insert_eq|].
  assert (linked y1) as Hl1 by (by eapply linked_steps).
  assert (w_handlers (y_world y1) !! 0%nat = Some (HPiping 1)) as Hp1 by (rewrite Hh1; apply lookup_insert_eq).
  assert (to_be_closed 1 1 (str "appdb") [str "analytics"] (y_world y)) as Htbc.
  { split; [eexists; reflexivity|]. eexists. split; [apply lookup_insert_eq|left; split; [done|]]. vm_compute. reflexivity. }
  destruct (to_be_closed_steps 1 1 _ _ _ _ (k_inv _ Hl) (steps_race _ _ Hr1) (or_intror Htbc)) as [Hc|(_ & sw & Hsw & _)];
    [|rewrite Hw1, lookup_delete_eq in Hsw; discriminate].
  destruct (closed_handler_runs 0 1 y1 Hl1 Hp1 Hc) as (y2 & Hr2 & Hh2 & Hw2). assert (linked y2) as Hl2 by (by eapply linked_steps).
  destruct (path_fair_execution step acts _ y y2 Hr) as (f & i & H0 & He & Hf & Hi); [by etrans| |exists f, i; by rewrite Hi].
  intros g. apply at_rest; [done| |].
  - rewrite Hw2, Hw1. cbn. apply map_eq. intros k. rewrite lookup_delete, lookup_insert. by repeat case_decide.
  - intros h. unfold piping. rewrite Hh2, Hh1. cbn. rewrite !lookup_insert. by repeat case_decide.
Qed.

Lemma system_refines_witness : exists (ps : gmap nat pipe) p p0, Race.reachable race_server stored_world /\
  ps !! 0%nat = Some p /\ starting p0 /\ rtc Pipe.step p0 p.
Proof.
  destruct stored_system as [ps Hr]. exists ps. destruct (system_refines race_server (mkSystem stored_world ps) race_server_idle Hr) as (H1 & H2 & _).
  specialize (H2 0%nat). cbn [y_pipes] in H2. destruct (ps !! 0%nat) as [p|] eqn:Ep; [|destruct (H2 1%nat); apply lookup_insert_eq].
  destruct H2 as ((p0 & Hs & Hp) & _). exists p, p0. split_and!; [exact H1|reflexivity|exact Hs|exact Hp].
Defined.
Lemma switch_finishes_witness : exists f i j, w_switchers (y_world (f i)) !! 1%nat = Some (at_phase (SwStored (str "appdb") [str "analytics"]) clientA) /\
  execution step f /\ (i <= j)%nat /\ w_switchers (y_world (f j)) !! 1%nat = None.
Proof.
  destruct client_execution as (f & i & H0 & He & Hf & Hi).
  destruct (switch_finishes race_server f i 1 race_server_idle H0 He (Hf _)) as (j & Hj & Hn).
  exists f, i, j. split_and!; [|exact He|exact Hj|exact Hn]. rewrite Hi. apply lookup_insert_eq.
Defined.
Lemma old_connection_ends_witness : exists f h j, execution step f /\ w_handlers (y_world (f j)) !! h = Some HDone.
Proof.
  destruct client_execution as (f & i & H0 & He & Hf & Hi).
  destruct (old_connection_ends race_server f i 1 (at_phase (SwStored (str "appdb") [str "analytics"]) clientA) (str "appdb") [str "analytics"] 1
    race_server_idle H0 He Hf) as (h & j & o & _ & _ & Hd & _).
  - rewrite Hi. apply lookup_insert_eq.
  - reflexivity.
  - rewrite Hi. vm_compute. reflexivity.
  - exists f, h, j. split; [exact He|exact Hd].
Defined.

(** A client that logs in, is piped and leaves. *)
Definition toy_world : Race.world := Race.start (toy_server AdapterPostgres).
Lemma handleConn_steps_witness : exists w', rtc Race.step toy_world w' /\ w_handlers w' !! 0%nat = Some (HPiping (ss_obj toy_client)) /\
  (c_Resolved <$> heap (w_store w') !! ss_obj toy_client) = Some toy_rt.
Proof.
  pose proof (@handleConn_steps toy_unicode (toy_dialer toy_upstream) (toy_tls toy_upstream) toy_scram toy_rsa toy_rand toy_arch mg_env
    AdapterPostgres toy_client toy_world 0 eq_refl eq_refl eq_refl ltac:(vm_compute; discriminate) ltac:(vm_compute; discriminate)) as H.
  assert ((@dispatch_for toy_unicode (toy_dialer toy_upstream) (toy_tls toy_upstream) toy_scram toy_rsa toy_rand toy_arch mg_env AdapterPostgres toy_client).1 = Ok true)
    as E by (vm_compute; reflexivity).
  destruct (@dispatch_for _ _ _ _ _ _ _ _ AdapterPostgres toy_client) as [r s1]. cbn [fst] in E. subst r.
  destruct H as (n & rt & d & Hd & _ & Hc & Ho & Hr & _). eexists. split; [exact Hr|]. split; [apply lookup_insert_eq|].
  rewrite Ho. change (({[str "appdb" := mkDb (str "appdb") AdapterPostgres [] ∅ ∅ (Some toy_rt) ∅]} : gmap bytes Database) !! n = Some d) in Hd.
  apply lookup_singleton_Some in Hd as [_ <-]. symmetry. exact Hc.
Defined.
