(* ===== verification/Once.v ===== *)
(** [Conn.Close] of internal/proxy/database.go in its real steps.

    In Race.v and System.v a call of [Close] is one step.  In the code it is the body
    of a [sync.Once]: the first caller closes the client's connection, then the
    upstream's, then deregisters under the database's mutex; a caller that comes
    while it is at that waits, a later one returns at once.  Here these are steps of
    their own, which everything else can come between, and a simulation shows that
    nothing new can happen: an execution of the finer system is one of System.v in
    which [Close] takes effect when it deregisters and the two connections are
    closed, one after the other, from outside the copying before that. *)
From S2P Require Import Prelude Fmt Vars Config Database Server Pipe Race System.

(** What the body of the [Once] has to do next, and which goroutine runs it: a handler
    whose [pipeBidi] returned, a switch, or the shutdown. *)
Inductive stage : Type := OClient | OUpstream | ODeregister.
Inductive closer : Type := CHandler (h : nat) | CSwitch (k : nat) | CShutdown.
(** The system, and the connections whose [Once] is running. *)
Record fine := mkFine { f_sys : system; f_once : gmap nat (closer * stage) }.

(** ** The steps of [Close] *)

Definition on_conn (c : nat) (f : Conn -> store -> store) (st : store) : store :=
  match heap st !! c with Some o => f o st | None => st end.
Definition close_client (c : nat) : store -> store :=
  on_conn c (fun o st => mkStore (dbs st) (heap st) (close_sock (c_Client o) (closed_socks st))).
Definition close_upstream (c : nat) : store -> store :=
  on_conn c (fun o st => mkStore (dbs st) (heap st) (close_sock (c_Upstream o) (closed_socks st))).
Definition finish_close (c : nat) : store -> store :=
  on_conn c (fun o st =>
    let st1 := mkStore (dbs st) (<[c := set_c_once o]> (heap st)) (closed_socks st) in
    match c_database o with Some n => deregister n c st1 | None => st1 end).

(** The goroutine is about to call [c.Close()]. *)
Definition at_close (g : closer) (c : nat) (y : system) : Prop :=
  match g with
  | CHandler h => w_handlers (y_world y) !! h = Some (HPiping c) /\ exists p, y_pipes y !! h = Some p /\ returned p
  | CSwitch k => exists sw l todo, w_switchers (y_world y) !! k = Some sw /\ sw_phase_of sw = SwDrain (c :: l) todo
  | CShutdown => True
  end.
(** The call returns to it, having done [f] last. *)
Inductive close_returns (c : nat) (f : store -> store) (w : Race.world) : closer -> Race.world -> Prop :=
  | handler_goes_on h : w_handlers w !! h = Some (HPiping c) ->
      close_returns c f w (CHandler h) (with_handler h HDone (with_store (f (w_store w)) w))
  | switch_goes_on k sw l todo : w_switchers w !! k = Some sw -> sw_phase_of sw = SwDrain (c :: l) todo ->
      close_returns c f w (CSwitch k) (with_switcher k (at_phase (SwDrain l todo) sw) (with_store (f (w_store w)) w))
  | shutdown_goes_on : close_returns c f w CShutdown (with_store (f (w_store w)) w).

(** One of the two connections of [c] is closed under the handler that copies. *)
Definition shut_side (x : side) (p : pipe) : pipe := set_end x (shut_down (ends p x)) p.
Definition copies (w : Race.world) (c h : nat) : bool :=
  match w_handlers w !! h with Some (HPiping c') => bool_decide (c' = c) | _ => false end.
Definition close_end (x : side) (c : nat) (f : store -> store) (y : system) : system :=
  mkSystem (with_store (f (w_store (y_world y))) (y_world y))
    (map_imap (fun h p => Some (if copies (y_world y) c h then shut_side x p else p)) (y_pipes y)).

(** Every connection object stays as it is; so a call of [Close] returns at once,
    because the connection was closed before. *)
Definition closes_nothing (y y' : system) : Prop :=
  forall c o, heap (w_store (y_world y)) !! c = Some o -> heap (w_store (y_world y')) !! c = Some o.

Inductive step : fine -> fine -> Prop :=
  | step_other y y' m : System.step y y' -> closes_nothing y y' -> step (mkFine y m) (mkFine y' m)
  | step_enter y m g c o : at_close g c y -> heap (w_store (y_world y)) !! c = Some o -> c_once o = false -> m !! c = None ->
      step (mkFine y m) (mkFine y (<[c := (g, OClient)]> m))
  | step_client y m g c : m !! c = Some (g, OClient) ->
      step (mkFine y m) (mkFine (close_end SA c (close_client c) y) (<[c := (g, OUpstream)]> m))
  | step_upstream y m g c : m !! c = Some (g, OUpstream) ->
      step (mkFine y m) (mkFine (close_end SB c (close_upstream c) y) (<[c := (g, ODeregister)]> m))
  | step_finish y m g c w' ps' : m !! c = Some (g, ODeregister) ->
      close_returns c (finish_close c) (y_world y) g w' -> (forall h, follows (y_world y) w' h (y_pipes y !! h) (ps' !! h)) ->
      step (mkFine y m) (mkFine (mkSystem w' ps') (delete c m)).

Definition start (s : Server) : fine := mkFine (System.start s) ∅.
Definition reachable (s : Server) (f : fine) : Prop := rtc step (start s) f.

(** ** Invariant *)

Definition f_store (f : fine) : store := w_store (y_world (f_sys f)).
(** The sockets closed before a stage. *)
Definition closed_at (t : stage) (o : Conn) (i : nat) : Prop :=
  match t with OClient => False | OUpstream => c_Client o = Some i | ODeregister => conn_sock o i end.
Definition once_ok (f : fine) : Prop := forall c g t, f_once f !! c = Some (g, t) ->
  at_close g c (f_sys f) /\
  exists o, heap (f_store f) !! c = Some o /\ c_once o = false /\ forall i, closed_at t o i -> i ∈ closed_socks (f_store f).

(** Put together the steps are the function. *)
Lemma Conn_Close_pieces c o st : heap st !! c = Some o -> c_once o = false ->
  Conn_Close c st = finish_close c (close_upstream c (close_client c st)).
Proof.
  intros Ho Hc. unfold Conn_Close, finish_close, close_upstream, close_client, on_conn. rewrite Ho, Hc. cbn. rewrite Ho. cbn. by rewrite Ho.
Qed.

(** ** Both systems side by side *)

(** The same system with other sockets closed. *)
Definition resock (cs : gset nat) (w : Race.world) : Race.world :=
  with_store (mkStore (dbs (w_store w)) (heap (w_store w)) cs) w.
Definition with_socks (cs : gset nat) (y : system) : system := mkSystem (resock cs (y_world y)) (y_pipes y).

(** A call of [Close] that changes no object changes nothing. *)
Lemma noop_close w c cs : (forall c' o, heap (w_store w) !! c' = Some o -> heap (Conn_Close c (w_store w)) !! c' = Some o) ->
  with_store (Conn_Close c (w_store (resock cs w))) (resock cs w) = resock cs (with_store (Conn_Close c (w_store w)) w) /\
  closed_socks (Conn_Close c (w_store w)) = closed_socks (w_store w).
Proof.
  intros H. assert (heap (w_store w) !! c = None \/ exists o, heap (w_store w) !! c = Some o /\ c_once o = true) as Hc.
  { destruct (heap (w_store w) !! c) as [o|] eqn:Ho; [right|by left]. exists o. split; [done|]. specialize (H c o Ho).
    unfold Conn_Close in H. rewrite Ho in H. destruct (c_once o) eqn:Hc; [done|].
    destruct (c_database o); cbn in H; rewrite lookup_insert_eq in H; injection H as E; by rewrite <- E in Hc. }
  unfold Conn_Close. change (heap (w_store (resock cs w))) with (heap (w_store w)).
  destruct Hc as [->|(o & -> & ->)]; done.
Qed.
Lemma other_race w w' cs : Race.step w w' -> (forall c o, heap (w_store w) !! c = Some o -> heap (w_store w') !! c = Some o) ->
  cs ⊆ closed_socks (w_store w) -> Race.step (resock cs w) (resock cs w') /\ closed_socks (w_store w') = closed_socks (w_store w).
Proof.
  intros Hs Hn Hcs. destruct Hs as [w h n rt Hh Hc|w h n rt Hh|w h n rt c cl up Hh Hc Hcl Hup|w h c Hh
    |w k target vars o1 o2 plans declared Hk E1 E2 Hp Hd|w k sw n todo Hk Hph|w k sw n todo Hk Hph
    |w k sw c l todo Hk Hph|w k sw todo Hk Hph|w k sw Hk Hph|w ls|w|w c]; try (destruct (noop_close w c cs Hn) as [E1 E2]); (split; [|done]).
  - by apply (step_current (resock cs w)).
  - by apply (step_dial_fails (resock cs w) h n rt).
  - apply (step_register (resock cs w) h n rt c cl up); [done|done|set_solver..].
  - refine (eq_ind _ (Race.step (resock cs w)) _ _ (f_equal (with_handler h HDone) E1)). by apply (Race.step_pipe_ends (resock cs w)).
  - by apply (step_use (resock cs w) k target vars o1 o2 plans declared).
  - by apply (step_store (resock cs w) k).
  - by apply (step_snapshot (resock cs w) k).
  - refine (eq_ind _ (Race.step (resock cs w)) _ _ (f_equal (with_switcher k (at_phase (SwDrain l todo) sw)) E1)).
    by apply (step_close (resock cs w) k sw c l todo).
  - by apply (step_next (resock cs w) k).
  - by apply (Race.step_finish (resock cs w) k).
  - by apply (step_bound (resock cs w)).
  - by apply (step_mark (resock cs w)).
  - rewrite <- E1. by apply (step_drop (resock cs w)).
Qed.

Lemma closes_changes w w' c o : heap (w_store w) !! c = Some o -> c_once o = false ->
  (forall c' o', heap (w_store w) !! c' = Some o' -> heap (w_store w') !! c' = Some o') -> w_store w' <> Conn_Close c (w_store w).
Proof.
  intros Ho Hc H E. specialize (H c o Ho). rewrite E in H. unfold Conn_Close in H. rewrite Ho, Hc in H.
  destruct (c_database o); cbn in H; rewrite lookup_insert_eq in H; injection H as E'; by rewrite <- E' in Hc.
Qed.
Lemma returned_step p p' : returned p -> Pipe.step p p' -> returned p'.
Proof.
  intros Hr Hs z. pose proof (Hr SA) as HA. pose proof (Hr SB) as HB. destruct Hs as [[x Hw]|Hw]; [|destruct Hw as [x| x|x|x|x]; by destruct x, z].
  exfalso. pose proof (Hr x) as Hx. destruct Hw; congruence.
Qed.
Lemma returned_shut x p : returned p -> returned (shut_side x p).
Proof. intros Hr. eapply returned_step; [done|]. right. apply world_close. Qed.

(** A goroutine inside [Close] stays there while nobody else closes anything. *)
Lemma at_close_other g c o y y' : System.step y y' -> closes_nothing y y' ->
  heap (w_store (y_world y)) !! c = Some o -> c_once o = false -> at_close g c y -> at_close g c y'.
Proof.
  intros Hs Hn Ho Hc Hg. destruct Hs as [w w' ps ps' Hs Hf|w ps h p p' Hp Hs]; unfold closes_nothing in Hn; cbn in *.
  - destruct g as [h|k|]; [|clear Hf|done]; cbn in *.
    + destruct Hg as (Hh & p & Hp & Hr). specialize (Hf h). assert (w_handlers w' !! h = Some (HPiping c)) as Hh'.
      { pose proof (closes_changes w w' c o Ho Hc Hn) as Hne. destruct Hs as [w h0 n rt Hh0 _|w h0 n rt Hh0|w h0 n rt c0 cl up Hh0 _ _ _|w h0 c0 Hh0| | | | | | | | |]; try done; cbn in *;
          (destruct (decide (h0 = h)) as [->|]; [|by rewrite lookup_insert_ne]); rewrite Hh in Hh0; try done.
        exfalso. injection Hh0 as <-. by apply Hne. }
      split; [done|]. unfold follows, piping in Hf. rewrite Hh, Hh', Hp in Hf. eexists. split; [exact Hf|].
      destruct (conn_done w' h); [|done]. by apply (returned_shut SB (shut_side SA p)), returned_shut.
    + destruct Hg as (sw & l & todo & Hk & Hph). exists sw, l, todo. split; [|done].
      destruct (switch_moves w w' k sw Hs Hk) as [E|[_ E]]; [done|]. exfalso. by eapply closes_changes, E.
  - destruct g as [h'|k|]; [|done..]. destruct Hg as (Hh & p0 & Hp0 & Hr). split; [done|]. cbn in *. rewrite lookup_insert.
    case_decide as Hd; [subst h'|by exists p0]. exists p'. split; [done|]. rewrite Hp in Hp0. injection Hp0 as <-. by eapply returned_step.
Qed.
Lemma at_close_end g c c0 x F y : at_close g c y -> at_close g c (close_end x c0 F y).
Proof.
  destruct g as [h|k|]; [|done..]. intros (Hh & p & Hp & Hr). split; [done|]. cbn. rewrite map_lookup_imap, Hp. eexists. split; [done|].
  destruct (copies _ _ _); [by apply returned_shut|done].
Qed.

Lemma other_socks y y' : System.step y y' -> closes_nothing y y' -> closed_socks (w_store (y_world y')) = closed_socks (w_store (y_world y)).
Proof. intros Hs Hn. destruct Hs as [w w' ps ps' Hs _|]; [|done]. by destruct (other_race w w' ∅ Hs Hn ltac:(set_solver)). Qed.
(** What [finish_close] leaves of the store. *)
Lemma finish_close_heap c o st : heap st !! c = Some o -> heap (finish_close c st) = <[c := set_c_once o]> (heap st).
Proof. intros Ho. unfold finish_close, on_conn. rewrite Ho. by destruct (c_database o). Qed.
Lemma finish_close_socks c st : closed_socks (finish_close c st) = closed_socks st.
Proof. unfold finish_close, on_conn. destruct (heap st !! c) as [o|]; [|done]. by destruct (c_database o). Qed.
Lemma close_returns_store c F w g w' : close_returns c F w g w' -> w_store w' = F (w_store w).
Proof. by destruct 1. Qed.
(** The return of a [Close] moves no other goroutine that is inside one. *)
Lemma at_close_returns c c2 g g2 F y w' ps' : close_returns c F (y_world y) g w' ->
  (forall h, follows (y_world y) w' h (y_pipes y !! h) (ps' !! h)) -> c2 <> c -> at_close g2 c2 y -> at_close g2 c2 (mkSystem w' ps').
Proof.
  intros Hr Hf Hne Hg. destruct g2 as [h2|k2|]; [| |done]; cbn in *.
  - destruct Hg as (Hh2 & p & Hp & Hret). assert (w_handlers w' !! h2 = Some (HPiping c2)) as Hh'.
    { destruct Hr as [h Hh|k sw l todo Hk Hph|]; [|done..]. cbn. rewrite lookup_insert_ne; [done|]. congruence. }
    split; [done|]. specialize (Hf h2). unfold follows, piping in Hf. rewrite Hh2, Hh', Hp in Hf. eexists. split; [exact Hf|].
    destruct (conn_done w' h2); [|done]. by apply (returned_shut SB (shut_side SA p)), returned_shut.
  - destruct Hg as (sw2 & l2 & todo2 & Hk2 & Hph2). exists sw2, l2, todo2. split; [|done].
    destruct Hr as [h Hh|k sw l todo Hk Hph|]; [done| |done]. cbn. rewrite lookup_insert_ne; [done|]. intros ->. rewrite Hk in Hk2.
    injection Hk2 as ->. rewrite Hph in Hph2. congruence.
Qed.

Lemma once_ok_step f f' : once_ok f -> step f f' -> once_ok f'.
Proof.
  intros Hok Hs c2 g2 t2 Hm2.
  destruct Hs as [y y' m Hs Hn|y m g c o Hg Ho Hc Hm|y m g c Hm|y m g c Hm|y m g c w' ps' Hm Hr Hf]; unfold once_ok, f_store in *; cbn in *.
  - destruct (Hok c2 g2 t2 Hm2) as (Hg & o & Ho & Hc & Hi). split; [by eapply at_close_other|]. exists o.
    rewrite (other_socks _ _ Hs Hn). split; [by apply Hn|done].
  - rewrite lookup_insert in Hm2. case_decide; [subst|by eapply Hok]. injection Hm2 as <- <-. split; [done|]. by exists o.
  - destruct (Hok c g _ Hm) as (Hg & o & Ho & Hc & Hi). unfold close_client, on_conn. rewrite Ho. cbn. rewrite lookup_insert in Hm2.
    case_decide; [subst; injection Hm2 as <- <-; rename c2 into c|destruct (Hok c2 g2 t2 Hm2) as (Hg2 & o2 & Ho2 & Hc2 & Hi2)].
    + split; [by apply at_close_end|]. exists o. split; [done|]. split; [done|]. intros i Hi'. apply elem_of_close_sock. by right.
    + split; [by apply at_close_end|]. exists o2. split; [done|]. split; [done|]. intros i Hi'. apply elem_of_close_sock. left. by apply Hi2.
  - destruct (Hok c g _ Hm) as (Hg & o & Ho & Hc & Hi). unfold close_upstream, on_conn. rewrite Ho. cbn. rewrite lookup_insert in Hm2.
    case_decide; [subst; injection Hm2 as <- <-; rename c2 into c|destruct (Hok c2 g2 t2 Hm2) as (Hg2 & o2 & Ho2 & Hc2 & Hi2)].
    + split; [by apply at_close_end|]. exists o. split; [done|]. split; [done|]. intros i [Hi'|Hi']; apply elem_of_close_sock; [left; by apply Hi|by right].
    + split; [by apply at_close_end|]. exists o2. split; [done|]. split; [done|]. intros i Hi'. apply elem_of_close_sock. left. by apply Hi2.
  - apply lookup_delete_Some in Hm2 as [Hne Hm2]. destruct (Hok c g _ Hm) as (Hg & o & Ho & _), (Hok c2 g2 t2 Hm2) as (Hg2 & o2 & Ho2 & Hc2 & Hi2).
    split; [by eapply at_close_returns|]. exists o2. rewrite (close_returns_store _ _ _ _ _ Hr), (finish_close_heap c o), finish_close_socks by done.
    by rewrite lookup_insert_ne.
Qed.
Lemma once_ok_steps f f' : once_ok f -> rtc step f f' -> once_ok f'.
Proof. intros Hok Hr. induction Hr; eauto using once_ok_step. Qed.
Lemma once_ok_start s : once_ok (start s).
Proof. intros c g t. cbn. by rewrite lookup_empty. Qed.

(** ** Simulation *)

(** The socket was closed by a [Close] that is not done yet. *)
Definition halfway (f : fine) (i : nat) : Prop := exists c g t o,
  f_once f !! c = Some (g, t) /\ heap (f_store f) !! c = Some o /\ closed_at t o i.
(** System.v closes sockets at the end of [Close]: otherwise the states are the same. *)
Definition sim (f : fine) (y : system) : Prop := exists cs, y = with_socks cs (f_sys f) /\
  cs ⊆ closed_socks (f_store f) /\ forall i, i ∈ closed_socks (f_store f) -> i ∈ cs \/ halfway f i.

(** What the pipes do one after the other they can do in a row. *)
Lemma pipe_runs w ps h p p' : ps !! h = Some p -> rtc Pipe.step p p' -> rtc System.step (mkSystem w ps) (mkSystem w (<[h := p']> ps)).
Proof.
  intros Hp Hr. revert ps Hp. induction Hr as [p|p p1 p' Hs _ IH]; intros ps Hp; [by rewrite insert_id|].
  eapply rtc_l; [by apply (step_pipe w ps h p p1)|]. specialize (IH (<[h := p1]> ps) (lookup_insert_eq _ _ _)). by rewrite insert_insert_eq in IH.
Qed.
Lemma pipes_run w (F : nat -> pipe -> pipe) ps : (forall h p, rtc Pipe.step p (F h p)) ->
  rtc System.step (mkSystem w ps) (mkSystem w (map_imap (fun h p => Some (F h p)) ps)).
Proof.
  intros HF. set (upto (l : list nat) := map_imap (fun h p => Some (if decide (h ∈ l) then F h p else p)) ps).
  assert (forall l, NoDup l -> rtc System.step (mkSystem w ps) (mkSystem w (upto l))) as H.
  { intros l Hl. induction Hl as [|h l Hh Hl IH].
    - replace (upto []) with ps; [done|]. apply map_eq. intros h. unfold upto. rewrite map_lookup_imap. by destruct (ps !! h).
    - etrans; [exact IH|]. destruct (ps !! h) as [p|] eqn:Hp.
      + replace (upto (h :: l)) with (<[h := F h p]> (upto l)).
        * apply pipe_runs with (p := p); [|done]. unfold upto. rewrite map_lookup_imap, Hp. cbn. by rewrite decide_False.
        * apply map_eq. intros h'. unfold upto. rewrite lookup_insert, !map_lookup_imap. case_decide as Hd; [subst h'|].
          -- rewrite Hp. cbn. by rewrite decide_True by by left.
          -- destruct (ps !! h') as [p'|]; [|done]. cbn. f_equal. repeat case_decide; set_solver.
      + replace (upto (h :: l)) with (upto l); [done|]. apply map_eq. intros h'. unfold upto. rewrite !map_lookup_imap.
        destruct (ps !! h') as [p'|] eqn:Hp'; [|done]. cbn. f_equal. assert (h' <> h) by congruence. repeat case_decide; set_solver. }
  replace (map_imap (fun h p => Some (F h p)) ps) with (upto (elements (dom ps))); [apply H, NoDup_elements|].
  apply map_eq. intros h. unfold upto. rewrite !map_lookup_imap. destruct (ps !! h) as [p|] eqn:Hp; [|done]. cbn.
  rewrite decide_True; [done|]. apply elem_of_elements. by eapply elem_of_dom_2.
Qed.
(** One of the two connections of [c] is closed. *)
Lemma end_closed x c F y cs : dbs (F (w_store (y_world y))) = dbs (w_store (y_world y)) -> heap (F (w_store (y_world y))) = heap (w_store (y_world y)) ->
  rtc System.step (with_socks cs y) (with_socks cs (close_end x c F y)).
Proof.
  intros Ed Eh. assert (resock cs (with_store (F (w_store (y_world y))) (y_world y)) = resock cs (y_world y)) as E.
  { unfold resock. change (w_store (with_store ?st _)) with st. rewrite Ed, Eh. done. }
  unfold with_socks, close_end. cbn [y_world y_pipes]. rewrite E. apply pipes_run. intros h p.
  destruct (copies _ _ _); [|done]. apply rtc_once. right. apply world_close.
Qed.
(** [Close] deregisters: in Race.v it happens as a whole. *)
Lemma close_finishes c o w g w' cs : heap (w_store w) !! c = Some o -> c_once o = false -> close_returns c (finish_close c) w g w' ->
  Race.step (resock cs w) (resock (close_sock (c_Upstream o) (close_sock (c_Client o) cs)) w').
Proof.
  intros Ho Hc Hr. set (cs' := close_sock _ _).
  assert (with_store (Conn_Close c (w_store (resock cs w))) (resock cs w) = resock cs' (with_store (finish_close c (w_store w)) w)) as E.
  { unfold Conn_Close, finish_close, on_conn. change (heap (w_store (resock cs w))) with (heap (w_store w)). rewrite Ho, Hc. by destruct (c_database o). }
  destruct Hr as [h Hh|k sw l todo Hk Hph|].
  - refine (eq_ind _ (Race.step (resock cs w)) _ _ (f_equal (with_handler h HDone) E)). by apply (Race.step_pipe_ends (resock cs w)).
  - refine (eq_ind _ (Race.step (resock cs w)) _ _ (f_equal (with_switcher k (at_phase (SwDrain l todo) sw)) E)). by apply (step_close (resock cs w) k sw c l todo).
  - rewrite <- E. by apply (step_drop (resock cs w)).
Qed.

Lemma sim_other m y y' cs : System.step y y' -> closes_nothing y y' -> cs ⊆ closed_socks (w_store (y_world y)) ->
  (forall i, i ∈ closed_socks (w_store (y_world y)) -> i ∈ cs \/ halfway (mkFine y m) i) ->
  System.step (with_socks cs y) (with_socks cs y') /\ sim (mkFine y' m) (with_socks cs y').
Proof.
  intros Hs Hn Hcs Hi. split.
  - destruct Hs as [w w' ps ps' Hs Hf|w ps h p p' Hp Hs]; [|by apply step_pipe with (p := p)].
    destruct (other_race w w' cs Hs Hn Hcs) as [Hs' _]. by apply step_race.
  - exists cs. unfold f_store. cbn [f_sys]. rewrite (other_socks _ _ Hs Hn). split; [done|]. split; [done|]. intros i Hin.
    destruct (Hi i Hin) as [?|(c & g & t & o & Hm & Ho & Hc)]; [by left|right]. exists c, g, t, o. split; [done|]. split; [by apply Hn|done].
Qed.
(** A stage of [Close] that closes one socket. *)
Lemma sim_end x c g o t t' F y m cs : m !! c = Some (g, t) -> heap (w_store (y_world y)) !! c = Some o ->
  dbs (F (w_store (y_world y))) = dbs (w_store (y_world y)) -> heap (F (w_store (y_world y))) = heap (w_store (y_world y)) ->
  closed_socks (w_store (y_world y)) ⊆ closed_socks (F (w_store (y_world y))) ->
  (forall i, i ∈ closed_socks (F (w_store (y_world y))) -> i ∈ closed_socks (w_store (y_world y)) \/ closed_at t' o i) ->
  (forall i, closed_at t o i -> closed_at t' o i) ->
  cs ⊆ closed_socks (w_store (y_world y)) -> (forall i, i ∈ closed_socks (w_store (y_world y)) -> i ∈ cs \/ halfway (mkFine y m) i) ->
  sim (mkFine (close_end x c F y) (<[c := (g, t')]> m)) (with_socks cs (close_end x c F y)).
Proof.
  intros Hm Ho Ed Eh Hsub Hnew Ht Hcs Hi. exists cs. unfold f_store, halfway in *. cbn in *. split; [done|]. split; [set_solver|].
  intros i Hin. assert (closed_at t' o i -> exists c' g' t'' o', <[c := (g, t')]> m !! c' = Some (g', t'') /\
      heap (F (w_store (y_world y))) !! c' = Some o' /\ closed_at t'' o' i) as Hnow.
  { intros Hc. exists c, g, t', o. by rewrite lookup_insert_eq, Eh. }
  destruct (Hnew i Hin) as [Hold|?]; [|by right; apply Hnow]. destruct (Hi i Hold) as [?|(c2 & g2 & t2 & o2 & Hm2 & Ho2 & Hc2)]; [by left|right].
  destruct (decide (c2 = c)) as [->|Hne].
  - apply Hnow, Ht. assert (Some o2 = Some o) as [= ->] by exact (eq_trans (eq_sym Ho2) Ho). rewrite Hm in Hm2. by injection Hm2 as -> ->.
  - exists c2, g2, t2, o2. by rewrite lookup_insert_ne, Eh.
Qed.
Lemma sim_step f f' y : once_ok f -> sim f y -> step f f' -> exists y', rtc System.step y y' /\ sim f' y'.
Proof.
  intros Hok (cs & -> & Hcs & Hi) Hs. unfold f_store in Hcs, Hi.
  destruct Hs as [y y' m Hs Hn|y m g c o Hg Ho Hc Hm|y m g c Hm|y m g c Hm|y m g c w' ps' Hm Hr Hf]; cbn [f_sys f_once] in *.
  - destruct (sim_other m y y' cs Hs Hn Hcs Hi) as [Hs' Hsim]. exists (with_socks cs y'). split; [by apply rtc_once|done].
  - exists (with_socks cs y). split; [done|]. exists cs. split; [done|]. split; [done|]. intros i Hin.
    destruct (Hi i Hin) as [?|(c2 & g2 & t2 & o2 & Hm2 & Ho2 & Hc2)]; [by left|right]. exists c2, g2, t2, o2. split; [|done].
    cbn in *. rewrite lookup_insert_ne; [done|]. intros ->. congruence.
  - destruct (Hok c g _ Hm) as (_ & o & Ho & _ & _). unfold f_store in Ho. cbn in Ho. eexists. split; [apply (end_closed SA c (close_client c))|];
      [unfold close_client, on_conn; by rewrite Ho..|].
    eapply sim_end with (t' := OUpstream); [done|done|unfold close_client, on_conn; rewrite ?Ho; try done..|by intros i []|done|done].
    + intros i Hin. apply elem_of_close_sock. by left.
    + intros i [?|?]%elem_of_close_sock; [by left|by right].
  - destruct (Hok c g _ Hm) as (_ & o & Ho & _ & _). unfold f_store in Ho. cbn in Ho. eexists. split; [apply (end_closed SB c (close_upstream c))|];
      [unfold close_upstream, on_conn; by rewrite Ho..|].
    eapply sim_end with (t' := ODeregister); [done|done|unfold close_upstream, on_conn; rewrite ?Ho; try done..|intros i ?; by left|done|done].
    + intros i Hin. apply elem_of_close_sock. by left.
    + intros i [?|?]%elem_of_close_sock; [by left|right; by right].
  - destruct (Hok c g _ Hm) as (_ & o & Ho & Hc & Hcl). unfold f_store in Ho, Hcl. cbn in Ho, Hcl.
    set (cs' := close_sock (c_Upstream o) (close_sock (c_Client o) cs)). exists (with_socks cs' (mkSystem w' ps')). split.
    { destruct y as [w ps]. apply rtc_once, step_race; [by eapply close_finishes|exact Hf]. }
    assert (heap (w_store w') = <[c := set_c_once o]> (heap (w_store (y_world y))) /\ closed_socks (w_store w') = closed_socks (w_store (y_world y))) as [Eh Es].
    { rewrite (close_returns_store _ _ _ _ _ Hr). by rewrite finish_close_socks, (finish_close_heap c o). }
    exists cs'. unfold f_store, halfway. cbn [f_sys f_once y_world]. rewrite Es. split; [done|]. split.
    + intros i. unfold cs'. rewrite !elem_of_close_sock. intros [[?|?]|?]; [by apply Hcs|apply Hcl; by left|apply Hcl; by right].
    + intros i Hin. unfold cs'. rewrite !elem_of_close_sock. destruct (Hi i Hin) as [?|(c2 & g2 & t2 & o2 & Hm2 & Ho2 & Hc2)]; [auto|].
      cbn in Hm2. assert (heap (w_store (y_world y)) !! c2 = Some o2) as Ho2' by exact Ho2. destruct (decide (c2 = c)) as [->|Hne].
      * left. rewrite Ho in Ho2'. injection Ho2' as <-. rewrite Hm in Hm2. injection Hm2 as <- <-. destruct Hc2; auto.
      * right. exists c2, g2, t2, o2. split; [by rewrite lookup_delete_ne|]. split; [|done].
        change (heap (w_store w') !! c2 = Some o2). by rewrite Eh, lookup_insert_ne.
Qed.
Lemma sim_steps f f' y : once_ok f -> sim f y -> rtc step f f' -> exists y', rtc System.step y y' /\ sim f' y'.
Proof.
  intros Hok Hsim Hr. revert y Hsim. induction Hr as [f|f f1 f' Hs _ IH]; intros y Hsim; [by exists y|].
  destruct (sim_step f f1 y Hok Hsim Hs) as (y1 & Hy1 & Hsim1). destruct (IH (once_ok_step _ _ Hok Hs) y1 Hsim1) as (y' & Hy' & Hsim').
  exists y'. split; [by etrans|done].
Qed.
Lemma sim_start s : sim (start s) (System.start s).
Proof. exists (closed_socks (s_store s)). split; [by destruct s as [??? []]|]. split; [done|]. by left. Qed.

(** The steps of [Close] show nothing new: every state of the finer system is a state
    of System.v -- the same routing, registry, handlers, switches and copying -- but
    for sockets that a [Close] which is not done yet has already closed. *)
Theorem close_refines s f : reachable s f -> exists y, System.reachable s y /\ y_pipes y = y_pipes (f_sys f) /\
  w_handlers (y_world y) = w_handlers (y_world (f_sys f)) /\ w_switchers (y_world y) = w_switchers (y_world (f_sys f)) /\
  dbs (w_store (y_world y)) = dbs (f_store f) /\ heap (w_store (y_world y)) = heap (f_store f) /\
  closed_socks (w_store (y_world y)) ⊆ closed_socks (f_store f) /\
  forall i, i ∈ closed_socks (f_store f) -> i ∈ closed_socks (w_store (y_world y)) \/ halfway f i.
Proof.
  intros Hr. destruct (sim_steps _ _ _ (once_ok_start s) (sim_start s) Hr) as (y & Hy & cs & -> & Hcs & Hi). by exists (with_socks cs (f_sys f)).
Qed.

(** What a switch closes (compare [Race.switch_closes_registered]) is closed when the
    switch goes on to the next database, also if another goroutine had begun to
    close it: the switch waits for it. *)
Theorem switch_waits s f f' k sw n todo c : idle s -> reachable s f -> w_switchers (y_world (f_sys f)) !! k = Some sw ->
  sw_phase_of sw = SwStored n todo -> c ∈ live n (f_store f) -> rtc step f f' ->
  (w_switchers (y_world (f_sys f')) !! k = None \/
   exists sw', w_switchers (y_world (f_sys f')) !! k = Some sw' /\ sw_phase_of sw' = SwCommit todo) ->
  exists o, heap (f_store f') !! c = Some o /\ c_once o = true /\ forall i, conn_sock o i -> i ∈ closed_socks (f_store f').
Proof.
  intros Hi Hr Hk Hph Hl Hs Hdone.
  destruct (sim_steps _ _ _ (once_ok_start s) (sim_start s) Hr) as (y & Hy & Hsim).
  destruct (sim_steps _ _ _ (once_ok_steps _ _ (once_ok_start s) Hr) Hsim Hs) as (y' & Hy' & cs' & -> & Hcs' & _).
  destruct Hsim as (cs & -> & _). pose proof (linked_steps _ _ (linked_start s Hi) Hy) as Hlk. pose proof (linked_steps _ _ Hlk Hy') as Hlk'.
  pose proof (k_inv _ Hlk) as Hinv.
  assert (is_Some (heap (f_store f) !! c)) as Hheap.
  { unfold live in Hl. destruct (dbs (f_store f) !! n) as [d|] eqn:Ed; [|set_solver].
    destruct (wf_registered _ (i_wf _ Hinv) n d c Ed Hl) as (o & Ho & _). by exists o. }
  destruct (to_be_closed_steps k c n todo _ _ Hinv (steps_race _ _ Hy')) as [(o & Ho & Hc)|(_ & sw' & Hsw' & H)].
  - right. split; [done|]. exists sw. split; [done|]. by left.
  - exists o. split; [done|]. split; [done|]. intros i Hsock. apply Hcs'. by apply (wf_closed _ (i_wf _ (k_inv _ Hlk')) c o).
  - cbn in Hsw'. destruct Hdone as [?|(sw2 & E & E2)]; [congruence|]. rewrite Hsw' in E. injection E as <-. destruct H as [[? _]|(l & ? & _)]; congruence.
Qed.

(** Nobody waits in vain: the goroutine that runs the body of the [Once] can always
    take its next step. *)
Theorem close_proceeds s f c g t : idle s -> reachable s f -> f_once f !! c = Some (g, t) ->
  exists f', step f f' /\ match t with
    | OClient => f_once f' !! c = Some (g, OUpstream)
    | OUpstream => f_once f' !! c = Some (g, ODeregister)
    | ODeregister => f_once f' !! c = None /\ c_once <$> heap (f_store f') !! c = Some true
    end.
Proof.
  intros Hi Hr Hm. destruct (once_ok_steps _ _ (once_ok_start s) Hr c g t Hm) as (Hg & o & Ho & Hc & _). destruct f as [[w ps] m]. cbn in *.
  destruct t; [eexists; split; [by apply (step_client _ m g c)|apply (lookup_insert_eq m c)]|eexists; split; [by apply (step_upstream _ m g c)|apply (lookup_insert_eq m c)]|].
  assert (forall w' (ps' : gmap nat pipe), close_returns c (finish_close c) w g w' -> (forall h, follows w w' h (ps !! h) (ps' !! h)) ->
    exists f', step (mkFine (mkSystem w ps) m) f' /\ f_once f' !! c = None /\ c_once <$> heap (f_store f') !! c = Some true) as Hfin.
  { intros w' ps' Hret Hf. eexists. split; [by apply (step_finish (mkSystem w ps) m g c w' ps')|]. split; [exact (lookup_delete_eq m c)|].
    change ((c_once <$> heap (w_store w') !! c) = Some true). rewrite (close_returns_store _ _ _ _ _ Hret), (finish_close_heap c o) by done. by rewrite lookup_insert_eq. }
  destruct g as [h|k|]; cbn in Hg.
  - destruct Hg as (Hh & p & Hp & Hret). eapply (Hfin _ (delete h (sync (with_handler h HDone (with_store (finish_close c (w_store w)) w)) ps))); [by apply handler_goes_on|].
    intros h'. destruct (decide (h' = h)) as [->|Hn].
    + unfold follows, piping. rewrite Hh. cbn. rewrite lookup_insert_eq, lookup_delete_eq. split; [by exists p|done].
    + rewrite lookup_delete_ne by done. apply follows_sync. unfold piping. cbn. by rewrite lookup_insert_ne.
  - destruct Hg as (sw & l & todo & Hk & Hph). eapply (Hfin _ (sync _ ps)); [by eapply switch_goes_on|]. intros h. by apply follows_sync.
  - eapply (Hfin _ (sync _ ps)); [apply shutdown_goes_on|]. intros h. by apply follows_sync.
Qed.
