(* ===== verification/Life.v ===== *)
(** The life of the daemon process: [Start] and [acceptLoop] of
    internal/proxy/server.go, the accept loop of the control server
    (internal/control/server.go), and the end of [runServe] in main.go, where the
    signal goroutine runs [Shutdown] and cleans up while the main goroutine waits
    for [Start].

    The state is the system of System.v with the program counter of each of these
    goroutines.  What happens to databases and connections is a step of the system;
    here is said who may start goroutines of it, and when.  When the main
    goroutine returns from [runServe] the process ends with all its goroutines:
    a state whose main goroutine has exited has no step. *)
From Stdlib Require Import Strings.Byte.
From S2P Require Import Prelude Fmt IO Net Vars Config Database Server Session PgWire PgAuth PgServer MysqlWire MysqlHandshake MysqlAuth MysqlServer Bson MongoWire MongoHandshake MongoAuth MongoServer Handler Pipe Race Fair System.

(** The main goroutine in [Start]; an accept loop. *)
Inductive main_phase : Type := MBinding | MWaiting | MExit (code : Z).
Inductive loop_phase : Type := LAccepting | LReturned (err : option error).
(** The signal goroutine: waiting for a signal, at the start of [Shutdown], closing
    listeners, in the [DropAll] calls, waiting for the handlers, cleaning up. *)
Inductive signal_phase : Type :=
  | SIdle
  | SSignalled
  | SClosing (ls : list bytes) (todo : list bytes)
  | SDropping (todo : list bytes)
  | SDraining (l : list nat) (todo : list bytes)
  | SAwaiting
  | SUnbinding
  | SRemoving
  | SDone.
(** A goroutine of the control server: reading its request, past the check of
    [IsClosed], or past the start of its switch. *)
Inductive control_phase : Type := CReading | CPassed | CAnswered.

Record daemon := mkDaemon {
  a_sys : system;
  a_main : main_phase;
  a_open : gset bytes; (* the adapters whose listener is open *)
  a_loops : gmap bytes loop_phase;
  a_conns : gmap nat bytes; (* the handler goroutines [s.wg] counts, with their listener *)
  a_signal : signal_phase;
  a_controls : gmap nat control_phase;
  a_bound : bool; (* the control listener is open *)
  a_path : bool; (* the socket file exists *)
}.
Definition a_world (a : daemon) : Race.world := y_world (a_sys a).
Definition a_srv (a : daemon) : Server := w_srv (a_world a).
Definition with_sys (y : system) (a : daemon) : daemon :=
  mkDaemon y (a_main a) (a_open a) (a_loops a) (a_conns a) (a_signal a) (a_controls a) (a_bound a) (a_path a).
Definition with_main (m : main_phase) (a : daemon) : daemon :=
  mkDaemon (a_sys a) m (a_open a) (a_loops a) (a_conns a) (a_signal a) (a_controls a) (a_bound a) (a_path a).
Definition with_open (o : gset bytes) (a : daemon) : daemon :=
  mkDaemon (a_sys a) (a_main a) o (a_loops a) (a_conns a) (a_signal a) (a_controls a) (a_bound a) (a_path a).
Definition with_loops (l : gmap bytes loop_phase) (a : daemon) : daemon :=
  mkDaemon (a_sys a) (a_main a) (a_open a) l (a_conns a) (a_signal a) (a_controls a) (a_bound a) (a_path a).
Definition with_conns (c : gmap nat bytes) (a : daemon) : daemon :=
  mkDaemon (a_sys a) (a_main a) (a_open a) (a_loops a) c (a_signal a) (a_controls a) (a_bound a) (a_path a).
Definition with_signal (p : signal_phase) (a : daemon) : daemon :=
  mkDaemon (a_sys a) (a_main a) (a_open a) (a_loops a) (a_conns a) p (a_controls a) (a_bound a) (a_path a).
Definition with_control (k : nat) (p : control_phase) (a : daemon) : daemon :=
  mkDaemon (a_sys a) (a_main a) (a_open a) (a_loops a) (a_conns a) (a_signal a) (<[k := p]> (a_controls a)) (a_bound a) (a_path a).
Definition with_socket (bound path : bool) (a : daemon) : daemon :=
  mkDaemon (a_sys a) (a_main a) (a_open a) (a_loops a) (a_conns a) (a_signal a) (a_controls a) bound path.

(** ** The goroutines *)

Section life.
Context {U : Unicode} {Di : Dialer} {TLS_ : TLS} {Scram_ : Scram} {RSA_ : RSA} {Rand_ : Rand} {Arch : Target_arch} {Env : ClientEnv}.
(** [net.Listen] and the order in which [Start] visits [listenAddrs]. *)
Context (listen : bytes -> error + bytes) (addrs : list (bytes * bytes)).

(** The error [Start] returns: the first one its loops sent. *)
Definition loop_error (l : loop_phase) : option error := match l with LReturned e => e | LAccepting => None end.
Definition exit_code (loops : gmap bytes loop_phase) : Z :=
  if decide (map_Forall (fun _ l => loop_error l = None) loops) then 0 else 2.

(** [Start], then the return of [runServe] and the end of the process ([main] turns
    an error into exit status 2). *)
Inductive main_step (a : daemon) : daemon -> Prop :=
  | main_bound srv' y' : a_main a = MBinding -> Start_bind listen addrs (a_srv a) = (Ok true, srv') ->
      System.step (a_sys a) y' -> y_world y' = with_srv srv' (a_world a) ->
      main_step a (with_main MWaiting (with_open (dom (listeners srv'))
        (with_loops ((fun _ => LAccepting) <$> listeners srv') (with_sys y' a))))
  | main_closed_early srv' : a_main a = MBinding -> Start_bind listen addrs (a_srv a) = (Ok false, srv') ->
      main_step a (with_main (MExit 0) a)
  | main_bind_fails e srv' : a_main a = MBinding -> Start_bind listen addrs (a_srv a) = (Err e, srv') ->
      main_step a (with_main (MExit 2) a)
  | main_returns : a_main a = MWaiting -> map_Forall (fun _ l => l <> LAccepting) (a_loops a) ->
      main_step a (with_main (MExit (exit_code (a_loops a))) a).

(** [acceptLoop]: an accepted connection gets a handler goroutine. *)
Inductive loop_step (x : bytes) (a : daemon) : daemon -> Prop :=
  | loop_accept h : a_loops a !! x = Some LAccepting -> x ∈ a_open a -> a_conns a !! h = None -> w_handlers (a_world a) !! h = None ->
      loop_step x a (with_conns (<[h := x]> (a_conns a)) a)
  | loop_fails err : a_loops a !! x = Some LAccepting ->
      loop_step x a (with_loops (<[x := LReturned (if s_closed (a_srv a) then None else Some err)]> (a_loops a)) a).

(** [Shutdown]. *)
Inductive shutdown_step (a : daemon) : daemon -> Prop :=
  | shutdown_marks ls o y' : a_signal a = SSignalled -> s_closed (a_srv a) = false ->
      ls ≡ₚ elements (dom (listeners (a_srv a))) -> enumerates o (a_srv a) ->
      System.step (a_sys a) y' -> y_world y' = with_srv (set_closed (a_srv a)) (a_world a) ->
      shutdown_step a (with_signal (SClosing ls o) (with_sys y' a))
  | shutdown_again : a_signal a = SSignalled -> s_closed (a_srv a) = true -> shutdown_step a (with_signal SUnbinding a)
  | shutdown_closes x ls o : a_signal a = SClosing (x :: ls) o ->
      shutdown_step a (with_signal (SClosing ls o) (with_open (a_open a ∖ {[x]}) a))
  | shutdown_closed o : a_signal a = SClosing [] o -> shutdown_step a (with_signal (SDropping o) a)
  | shutdown_snapshots n o : a_signal a = SDropping (n :: o) ->
      shutdown_step a (with_signal (SDraining (snapshot n (w_store (a_world a))) o) a)
  | shutdown_drops c l o y' : a_signal a = SDraining (c :: l) o ->
      System.step (a_sys a) y' -> y_world y' = with_store (Conn_Close c (w_store (a_world a))) (a_world a) ->
      shutdown_step a (with_signal (SDraining l o) (with_sys y' a))
  | shutdown_next o : a_signal a = SDraining [] o -> shutdown_step a (with_signal (SDropping o) a)
  | shutdown_dropped : a_signal a = SDropping [] -> shutdown_step a (with_signal SAwaiting a)
  | shutdown_drained : a_signal a = SAwaiting -> a_conns a = ∅ -> shutdown_step a (with_signal SUnbinding a)
  | shutdown_times_out : a_signal a = SAwaiting -> shutdown_step a (with_signal SUnbinding a).
(** The signal goroutine of [runServe].  [ln.Close] on a Unix listener unlinks its
    path. *)
Inductive signal_step (a : daemon) : daemon -> Prop :=
  | signal_arrives : a_signal a = SIdle -> signal_step a (with_signal SSignalled a)
  | signal_shutdown a' : shutdown_step a a' -> signal_step a a'
  | signal_unbinds : a_signal a = SUnbinding -> signal_step a (with_signal SRemoving (with_socket false false a))
  | signal_removes : a_signal a = SRemoving -> signal_step a (with_signal SDone (with_socket (a_bound a) false a)).

(** The control server: [Serve] accepts while its listener is open, [handle] checks
    [IsClosed] once, then a [use] starts its switch. *)
Inductive control_step (k : nat) (a : daemon) : daemon -> Prop :=
  | control_accepts : a_bound a = true -> a_controls a !! k = None -> control_step k a (with_control k CReading a)
  | control_passes : a_controls a !! k = Some CReading -> s_closed (a_srv a) = false -> control_step k a (with_control k CPassed a)
  | control_switches y' : a_controls a !! k = Some CPassed -> w_switchers (a_world a) !! k = None ->
      System.step (a_sys a) y' -> is_Some (w_switchers (y_world y') !! k) ->
      control_step k a (with_control k CAnswered (with_sys y' a))
  | control_answers p : a_controls a !! k = Some p -> control_step k a (with_control k CAnswered a).

(** A step of the handler, switch and copying goroutines that are running: nobody
    starts but the handlers of accepted connections, whose client is routed to a
    database of the adapter that serves their listener. *)
Definition running (a : daemon) (y' : system) : Prop :=
  System.step (a_sys a) y' /\
  (y_world y' = a_world a \/ w_handlers (y_world y') <> w_handlers (a_world a) \/ w_switchers (y_world y') <> w_switchers (a_world a)) /\
  (forall h hs, w_handlers (a_world a) !! h = None -> w_handlers (y_world y') !! h = Some hs -> exists x n rt,
     a_conns a !! h = Some x /\ lookupDatabase (a_srv a) (served_adapter x) n = Some n /\ hs = HDialing n rt) /\
  (forall k, w_switchers (a_world a) !! k = None -> w_switchers (y_world y') !! k = None).
(** A handler that got no target or is done with its connection returns. *)
Definition may_return (a : daemon) (h : nat) : Prop :=
  match w_handlers (a_world a) !! h with None | Some HDone => True | _ => False end.

(** The session of a connection accepted on listener [x], with which the handler
    panics.  Nothing recovers it, so the runtime ends the process with status 2. *)
Definition crashes (x : bytes) (s : session) : Prop :=
  healthy (client_conn s) /\ ss_up s = None /\ (dispatch_for x s).1 = Panic.

Inductive step (a : daemon) : daemon -> Prop :=
  | step_main a' : main_step a a' -> step a a'
  | step_loop x a' : (forall c, a_main a <> MExit c) -> loop_step x a a' -> step a a'
  | step_signal a' : (forall c, a_main a <> MExit c) -> signal_step a a' -> step a a'
  | step_control k a' : (forall c, a_main a <> MExit c) -> control_step k a a' -> step a a'
  | step_running y' : (forall c, a_main a <> MExit c) -> running a y' -> step a (with_sys y' a)
  | step_returns h : (forall c, a_main a <> MExit c) -> is_Some (a_conns a !! h) -> may_return a h -> step a (with_conns (delete h (a_conns a)) a)
  | step_panics h x s : (forall c, a_main a <> MExit c) -> a_conns a !! h = Some x -> w_handlers (a_world a) !! h = None ->
      s_store (ss_srv s) = w_store (a_world a) -> crashes x s ->
      step a (with_main (MExit 2) a).

Definition start (s : Server) : daemon :=
  mkDaemon (System.start s) MBinding ∅ ∅ ∅ SIdle ∅ true true.
Definition reachable (s : Server) (a : daemon) : Prop := rtc step (start s) a.

(** ** Invariant *)

(** A server as [New] returns it: no connections, not listening, not closed. *)
Definition unstarted (s : Server) : Prop := idle s /\ s_closed s = false /\ listeners s = ∅.
(** [Shutdown] has set [closed]. *)
Definition marked (p : signal_phase) : bool := match p with SIdle | SSignalled => false | _ => true end.
(** How the process ended. *)
Definition exited (c : Z) (a : daemon) : Prop := (c = 0 /\ (addrs <> [] -> s_closed (a_srv a) = true)) \/ c = 2.

Record alive (a : daemon) : Prop := {
  al_linked : linked (a_sys a);
  al_closed : s_closed (a_srv a) = marked (a_signal a);
  al_main : match a_main a with
    | MBinding => listeners (a_srv a) = ∅ /\ a_loops a = ∅
    | MWaiting => dom (a_loops a) = dom (listeners (a_srv a)) /\ (addrs <> [] -> listeners (a_srv a) <> ∅)
    | MExit c => exited c a
    end;
  al_returned : forall x, a_loops a !! x = Some (LReturned None) -> s_closed (a_srv a) = true;
  al_conns : forall h x, a_conns a !! h = Some x -> x ∈ dom (a_loops a);
  al_open : match a_signal a with
    | SIdle | SSignalled => a_open a = dom (listeners (a_srv a))
    | SClosing ls _ => a_open a ⊆ list_to_set ls
    | _ => a_open a = ∅
    end;
}.

Lemma open_listeners_dom l acc ls : open_listeners listen l acc = Ok ls -> dom acc ⊆ dom ls /\ (l <> [] -> ls <> ∅).
Proof.
  revert acc. induction l as [|[x addr] l IH]; intros acc; cbn; [by intros [= <-]|].
  destruct (listen addr) as [e|y]; [done|]. intros H. destruct (IH _ H) as [Hd _]. rewrite dom_insert in Hd.
  split; [set_solver|]. intros _ ->. rewrite dom_empty in Hd. set_solver.
Qed.
Lemma Start_bind_cases s : Start_bind listen addrs s =
  match open_listeners listen addrs ∅ with
  | Ok ls => if s_closed s then (Ok false, s) else (Ok true, set_listeners ls s)
  | Err e => (Err e, s) | Panic => (Panic, s) | NoFuel => (NoFuel, s)
  end.
Proof.
  unfold Start_bind, lift, gets, modify, mbind, M_bind, mret, M_ret. destruct (open_listeners _ _ _); [|done..]. by destruct (s_closed s).
Qed.

(** Handlers and switches leave the server's flags alone. *)
Definition flags (s : Server) : bool * gmap bytes bytes := (s_closed s, listeners s).
Lemma flags_race w w' : Race.step w w' ->
  w' = w \/ w_handlers w' <> w_handlers w \/ w_switchers w' <> w_switchers w -> flags (w_srv w') = flags (w_srv w).
Proof. intros Hs. destruct Hs; try done; (intros [E|[H|H]]; [by rewrite E|by destruct H..]). Qed.
Lemma flags_step y y' : System.step y y' ->
  y_world y' = y_world y \/ w_handlers (y_world y') <> w_handlers (y_world y) \/ w_switchers (y_world y') <> w_switchers (y_world y) ->
  flags (w_srv (y_world y')) = flags (w_srv (y_world y)).
Proof. intros Hs. destruct Hs; [by apply flags_race|done]. Qed.
Lemma switch_starts_flags y y' k : System.step y y' -> w_switchers (y_world y) !! k = None -> is_Some (w_switchers (y_world y') !! k) ->
  flags (w_srv (y_world y')) = flags (w_srv (y_world y)).
Proof. intros Hs Hn [sw Hk]. apply flags_step; [done|]. right; right. intros E. rewrite E in Hk. congruence. Qed.

(** A change of the system alone. *)
Lemma alive_sys a y' : alive a -> System.step (a_sys a) y' -> flags (w_srv (y_world y')) = flags (a_srv a) -> alive (with_sys y' a).
Proof.
  intros [H1 H2 H3 H4 Hco H5] Hs Hf. injection Hf as E1 E2. unfold a_srv, a_world in *. split; unfold a_srv, a_world; cbn; rewrite ?E1, ?E2; try done.
  - by eapply linked_step.
  - destruct (a_main a); [done..|]. unfold exited, a_srv, a_world in *. cbn. by rewrite E1.
Qed.
Lemma alive_exit a c : alive a -> exited c a -> alive (with_main (MExit c) a).
Proof. intros [H1 H2 H3 H4 Hco H5] He. by split. Qed.
Lemma alive_main a a' : alive a -> main_step a a' -> alive a'.
Proof.
  intros Ha Hs. pose proof Ha as [H1 H2 H3 H4 Hco H5]. destruct Hs as [srv' y' Hm Hb Hs Hw|srv' Hm Hb|e srv' Hm Hb|Hm Hall]; rewrite Hm in H3.
  - rewrite Start_bind_cases in Hb. destruct (open_listeners listen addrs ∅) as [ls| | |] eqn:Eo; [|done..].
    destruct (s_closed (a_srv a)) eqn:Ec; [done|]. injection Hb as <-. rewrite ?Ec in *.
    destruct (open_listeners_dom _ _ _ Eo) as [_ Hne].
    split; unfold a_srv, a_world in *; cbn; rewrite ?Hw; cbn; try done.
    + by eapply linked_step.
    + by rewrite Ec.
    + by rewrite dom_fmap_L.
    + intros x. rewrite lookup_fmap. by destruct (ls !! x).
    + intros h x Hx. specialize (Hco h x Hx). destruct H3 as [_ E]. by rewrite E, dom_empty in Hco.
    + destruct (a_signal a); cbn in H2; try done; rewrite Ec in H2; discriminate.
  - rewrite Start_bind_cases in Hb. destruct (open_listeners listen addrs ∅); [|done..].
    destruct (s_closed (a_srv a)) eqn:Ec; [|done]. apply alive_exit; [done|]. by left.
  - rewrite Start_bind_cases in Hb. destruct (open_listeners listen addrs ∅) as [|e'| |] eqn:Eo; [by destruct (s_closed (a_srv a))| |done..].
    apply alive_exit; [done|]. by right.
  - apply alive_exit; [done|]. unfold exit_code. destruct (decide _) as [Hok|Hno]; [left; split; [done|]|by right].
    intros Hne. destruct H3 as [Hd Hls]. specialize (Hls Hne).
    assert (exists x l, a_loops a !! x = Some l) as (x & l & Hx).
    { destruct (map_choose (listeners (a_srv a)) Hls) as (x & v & Hv). apply elem_of_dom_2 in Hv. rewrite <- Hd in Hv.
      apply elem_of_dom in Hv as [l Hl]. eauto. }
    pose proof (Hok x l Hx) as Hl. pose proof (Hall x l Hx) as Hna. apply (H4 x). rewrite Hx. destruct l as [|[e|]]; done.
Qed.
Lemma alive_loop x a a' : alive a -> (forall c, a_main a <> MExit c) -> loop_step x a a' -> alive a'.
Proof.
  intros [H1 H2 H3 H4 Hco H5] Hm Hs. destruct Hs as [h Hx Ho Hh Hn|err Hx].
  { split; try done. intros h' x'. cbn. rewrite lookup_insert. case_decide; [|by apply Hco].
    intros [= <-]. by eapply elem_of_dom_2. }
  split; cbn; try done.
  - destruct (a_main a) as [| |c]; [|split; [|apply H3]|by destruct (Hm c)].
    + destruct H3 as [_ E]. by rewrite E in Hx.
    + apply elem_of_dom_2 in Hx. rewrite dom_insert_L. destruct H3 as [E _]. set_solver.
  - intros x' Hx'. destruct (decide (x = x')) as [<-|Hne].
    + rewrite lookup_insert_eq in Hx'. by destruct (s_closed (a_srv a)) eqn:Ec.
    + rewrite lookup_insert_ne in Hx' by done. by eapply H4.
  - intros h' x' Hx'. rewrite dom_insert_L. specialize (Hco h' x' Hx'). set_solver.
Qed.
Lemma alive_signal a a' : alive a -> (forall c, a_main a <> MExit c) -> signal_step a a' -> alive a'.
Proof.
  intros Ha Hm Hs. pose proof Ha as [H1 H2 H3 H4 Hco H5].
  destruct Hs as [Hp|a' [ls o y' Hp Hc Hls Ho Hs Hw|Hp Hc|x ls o Hp|o Hp|n o Hp|c l o y' Hp Hs Hw|o Hp|Hp|Hp Hn|Hp]|Hp|Hp]; rewrite Hp in H2, H5; cbn in H2, H5.
  2: { split; unfold a_srv, a_world in *; cbn; rewrite ?Hw; cbn; try done; [by eapply linked_step|by destruct (a_main a) as [| |c]; [..|destruct (Hm c)]|].
       rewrite Hls, list_to_set_elements_L. by rewrite H5. }
  2: by rewrite H2 in Hc.
  5: { assert (flags (w_srv (y_world y')) = flags (a_srv a)) as Hf by by rewrite Hw.
       destruct (alive_sys a y' Ha Hs Hf) as [K1 K2 K3 K4 Kc K5]. cbn in K2, K5. rewrite Hp in K2, K5. by split. }
  all: split; cbn; try done; try set_solver.
Qed.
Lemma alive_control k a a' : alive a -> control_step k a a' -> alive a'.
Proof.
  intros Ha Hs. destruct Hs as [Hb Hk|Hk Hc|y' Hk Hn Hs Hi|p Hk]; [by destruct Ha|by destruct Ha| |by destruct Ha].
  assert (alive (with_sys y' a)) as [K1 K2 K3 K4 Kc K5]; [|by split]. apply alive_sys; [done..|]. by eapply switch_starts_flags.
Qed.
Lemma alive_step a a' : alive a -> step a a' -> alive a'.
Proof.
  intros Ha Hs. destruct Hs as [a' Hs|x a' Hm Hs|a' Hm Hs|k a' Hm Hs|y' Hm (Hs & Hf & _)|h Hm Hh Hr|h x s Hm Hh Hn Hst Hc].
  - by eapply alive_main.
  - by eapply alive_loop.
  - by eapply alive_signal.
  - by eapply alive_control.
  - apply alive_sys; [done..|]. by apply flags_step.
  - destruct Ha as [K1 K2 K3 K4 Kc K5]. split; try done. intros h' x'. cbn. rewrite lookup_delete_Some. intros [_ ?]. by eapply Kc.
  - apply alive_exit; [done|]. by right.
Qed.
Lemma alive_start s : unstarted s -> alive (start s).
Proof. intros (Hi & Hc & Hl). split; cbn; try done; [by apply linked_start|]. change (∅ = dom (listeners s)). by rewrite Hl, dom_empty_L. Qed.
Lemma alive_steps a a' : alive a -> rtc step a a' -> alive a'.
Proof. intros Ha Hr. induction Hr; eauto using alive_step. Qed.
Lemma alive_reachable s a : unstarted s -> reachable s a -> alive a.
Proof. intros Hu Hr. by eapply alive_steps; [apply alive_start|]. Qed.

(** Nothing runs after the main goroutine returned or the runtime gave up. *)
Lemma exited_stuck a c a' : a_main a = MExit c -> ~ step a a'.
Proof. intros Hc Hs. destruct Hs as [a' Hs|x a' Hm Hs|a' Hm Hs|k a' Hm Hs|y' Hm Hs|h Hm Hh Hr|h x s Hm Hh Hn Hst Hcr]; try by destruct (Hm c). destruct Hs; congruence. Qed.

(** ** The way to the exit *)

Inductive role : Type := RMain | RLoop (x : bytes) | RSignal.
(** A goroutine acts: the main one, a loop whose [Accept] fails because its
    listener was closed, the signal one once the signal arrived. *)
Definition acts (r : role) (a a' : daemon) : Prop :=
  (forall c, a_main a <> MExit c) /\
  match r with
  | RMain => main_step a a'
  | RLoop x => x ∉ a_open a /\ a_loops a !! x = Some LAccepting /\ a_loops a' !! x <> Some LAccepting /\ loop_step x a a'
  | RSignal => a_signal a <> SIdle /\ signal_step a a'
  end.
Definition is_accepting (xl : bytes * loop_phase) : Prop := match xl.2 with LAccepting => True | LReturned _ => False end.
#[local] Instance is_accepting_dec xl : Decision (is_accepting xl).
Proof. unfold is_accepting. destruct xl.2; apply _. Defined.
Definition accepting (a : daemon) : gmap bytes loop_phase := filter is_accepting (a_loops a).
Definition to_close (p : signal_phase) : list bytes := match p with SClosing ls _ => ls | _ => [] end.
Definition exit_left (a : daemon) : nat * nat :=
  ((match a_main a with MBinding => 4 | MWaiting => 2 | MExit _ => 0 end) + (match a_signal a with SSignalled => 1 | _ => 0 end),
   length (to_close (a_signal a)) + size (accepting a))%nat.
Definition urgent (p : signal_phase) : bool := match p with SSignalled | SClosing (_ :: _) _ => true | _ => false end.
Definition exit_role (a : daemon) : option role :=
  match a_main a with
  | MExit _ => None
  | MBinding => Some RMain
  | MWaiting =>
      if urgent (a_signal a) then Some RSignal
      else match map_to_list (accepting a) with [] => Some RMain | (x, _) :: _ => Some (RLoop x) end
  end.
Definition leaving (a : daemon) : Prop := alive a /\ a_signal a <> SIdle.

Lemma open_listeners_total l acc : (exists ls, open_listeners listen l acc = Ok ls) \/ exists e, open_listeners listen l acc = Err e.
Proof. revert acc. induction l as [|[x addr] l IH]; intros acc; cbn; [eauto|]. destruct (listen addr); eauto. Qed.
(** A change of the server that no connection notices. *)
Lemma server_step a w' : Race.step (a_world a) w' -> w_handlers w' = w_handlers (a_world a) ->
  exists y', System.step (a_sys a) y' /\ y_world y' = w'.
Proof.
  intros Hs Hh. unfold a_world in *. destruct (a_sys a) as [w ps]. exists (mkSystem w' (sync w' ps)). split; [|done].
  apply quiet_step; [done|]. intros h. unfold piping. cbn in *. by rewrite Hh.
Qed.

Lemma main_can_bind a : alive a -> a_main a = MBinding -> exists a', main_step a a'.
Proof.
  intros Ha Hm. pose proof (Start_bind_cases (a_srv a)) as E.
  destruct (open_listeners_total addrs ∅) as [[ls El]|[e El]]; rewrite El in E; [|eexists; by eapply main_bind_fails].
  destruct (s_closed (a_srv a)) eqn:Ec; [eexists; by eapply main_closed_early|].
  destruct (server_step a (with_srv (set_listeners ls (a_srv a)) (a_world a))) as (y' & Hs & Hw); [apply step_bound|done|].
  eexists. by eapply main_bound.
Qed.
Lemma accepting_elem a x l : accepting a !! x = Some l <-> a_loops a !! x = Some LAccepting /\ l = LAccepting.
Proof.
  unfold accepting. rewrite map_lookup_filter_Some. unfold is_accepting. cbn. destruct l; naive_solver.
Qed.
Lemma accepting_first a x l r : map_to_list (accepting a) = (x, l) :: r -> a_loops a !! x = Some LAccepting.
Proof.
  intros E. assert ((x, l) ∈ map_to_list (accepting a)) as Hin by (rewrite E; by left).
  apply elem_of_map_to_list, accepting_elem in Hin. by destruct Hin.
Qed.
Lemma accepting_returns a x e : a_loops a !! x = Some LAccepting ->
  (size (filter is_accepting (<[x := LReturned e]> (a_loops a))) < size (accepting a))%nat.
Proof.
  intros Hx. rewrite map_filter_insert_False by (by intros []). rewrite map_filter_delete. fold (accepting a).
  assert (accepting a !! x = Some LAccepting) as Ha by (by apply accepting_elem).
  rewrite map_size_delete_Some by eauto. destruct (size (accepting a)) eqn:E; [|cbn; lia].
  apply map_size_empty_inv in E. by rewrite E in Ha.
Qed.

(** Nothing but the goroutines on the way to the exit changes what is left. *)
Lemma leaving_step a a' : leaving a -> step a a' -> leaving a' /\
  (lex (exit_left a') (exit_left a) \/ (exit_left a' = exit_left a /\ exit_role a' = exit_role a)).
Proof.
  intros [Ha Hi] Hs. pose proof (alive_step a a' Ha Hs) as Ha'.
  unfold leaving. destruct Hs as [a' Hs|x a' Hm Hs|a' Hm Hs|k a' Hm Hs|y' Hm Hs|h Hm Hh Hr|h x s Hm Hh Hn Hst Hc].
  - split; [split; [done|by destruct Hs]|]. left. left. destruct Hs as [srv' y' Hm _ _ _|srv' Hm _|e srv' Hm _|Hm _]; unfold exit_left; rewrite Hm; cbn; lia.
  - split; [split; [done|by destruct Hs]|]. destruct Hs as [h Hx Ho Hh Hn|err Hx]; [by right|left; right]. split; [done|].
    by apply Nat.add_lt_mono_l, accepting_returns.
  - pose proof (al_closed a Ha) as Hc. unfold exit_left, exit_role. destruct Hs as [Hp|a' [ls o y' Hp _ Hls Ho Hs Hw|Hp Hc'|x ls o Hp|o Hp|n o Hp|c l o y' Hp Hs Hw|o Hp|Hp|Hp Hn|Hp]|Hp|Hp];
      rewrite Hp in Hc |- *; cbn in Hc |- *; (split; [done|]); try (by right).
    + left; left; cbn; lia.
    + by rewrite Hc in Hc'.
    + left; right. split; [done|apply Nat.lt_succ_diag_r].
  - split; [split; [done|by destruct Hs]|]. right. by destruct Hs.
  - by split; [|right].
  - by split; [|right].
  - split; [done|]. left; left. unfold exit_left. cbn. destruct (a_main a) as [| |c]; [lia..|by destruct (Hm c)].
Qed.

Lemma exit_enabled a r : leaving a -> exit_role a = Some r -> enabled acts r a.
Proof.
  intros [Ha Hi] Hr. unfold exit_role in Hr. assert (forall c, a_main a <> MExit c) as Hno by (intros c E; by rewrite E in Hr).
  destruct (a_main a) as [| |c] eqn:Em; [|destruct (urgent (a_signal a)) eqn:Eu|done].
  - injection Hr as <-. destruct (main_can_bind a Ha Em) as [a' Hs]. exists a'. split; [by rewrite Em|done].
  - injection Hr as <-. enough (exists a', signal_step a a') as [a' Hs] by (exists a'; split; [by rewrite Em|by split]).
    destruct (a_signal a) as [| |[|x ls] o| | | | | |] eqn:Es; try done; [|eexists; by eapply signal_shutdown, shutdown_closes].
    pose proof (al_closed a Ha) as Hc. rewrite Es in Hc.
    destruct (server_step a (with_srv (set_closed (a_srv a)) (a_world a))) as (y' & Hs & Hw); [apply step_mark|done|].
    eexists. eapply signal_shutdown, (shutdown_marks a _ _ y'); [done|done|reflexivity|unfold enumerates; reflexivity|done|done].
  - destruct (map_to_list (accepting a)) as [|[x l] r'] eqn:El; injection Hr as <-.
    + exists (with_main (MExit (exit_code (a_loops a))) a). split; [by rewrite Em|]. apply main_returns; [done|]. intros x l Hx ->.
      apply map_to_list_empty_iff in El. assert (accepting a !! x = Some LAccepting) as Hin by (by apply accepting_elem). by rewrite El in Hin.
    + pose proof (accepting_first a x l r' El) as Hx. eexists. split; [by rewrite Em|]. split_and!; [|done| |by apply (loop_fails x a (ESys (str "use of closed network connection")))].
      * pose proof (al_open a Ha) as Ho. destruct (a_signal a) as [| |[|? ?] o| | | | | |]; try done; set_solver.
      * cbn. rewrite lookup_insert_eq. by destruct (s_closed _).
Qed.
Lemma exit_acts a a' r : leaving a -> exit_role a = Some r -> acts r a a' -> lex (exit_left a') (exit_left a).
Proof.
  intros Hl Hr (Hno & Hact). unfold exit_role in Hr. destruct (a_main a) as [| |c] eqn:Em; [|destruct (urgent (a_signal a)) eqn:Eu|done].
  - injection Hr as <-. left. destruct Hact as [srv' y' Hm _ _ _|srv' Hm _|e srv' Hm _|Hm _]; unfold exit_left; rewrite Hm; cbn; lia.
  - injection Hr as <-. destruct Hact as [_ Hs]. pose proof (al_closed a (proj1 Hl)) as Hc. unfold exit_left.
    destruct Hs as [Hp|a' [ls o y' Hp _ Hls Ho Hs Hw|Hp Hc'|x ls o Hp|o Hp|n o Hp|c l o y' Hp Hs Hw|o Hp|Hp|Hp Hn|Hp]|Hp|Hp];
      rewrite Hp in Eu, Hc |- *; cbn in Eu, Hc |- *; try done.
    + left; cbn; lia.
    + by rewrite Hc in Hc'.
    + right. split; [done|apply Nat.lt_succ_diag_r].
  - destruct (map_to_list (accepting a)) as [|[x l] r'] eqn:El; injection Hr as <-.
    + left. destruct Hact as [srv' y' Hm _ _ _|srv' Hm _|e srv' Hm _|Hm _]; unfold exit_left; rewrite Hm; cbn; lia.
    + destruct Hact as (_ & Hx & Hx' & Hs). destruct Hs as [|err _]; [done|]. right. split; [done|]. by apply Nat.add_lt_mono_l, accepting_returns.
Qed.
Lemma exit_progress : progress step acts leaving (fun a => exists c, a_main a = MExit c) exit_left exit_role.
Proof.
  split; [|intros a r; apply exit_enabled|intros a a' r; apply exit_acts|].
  - intros a _ Hr. unfold exit_role in Hr. destruct (a_main a) as [| |c]; [done| |by exists c].
    by destruct (urgent (a_signal a)), (map_to_list (accepting a)) as [|[] ?].
  - intros a a' r Hl Hr Hs. destruct (leaving_step a a' Hl Hs) as [? [?|[E Er]]]; [by auto|]. split; [done|right]. by rewrite Er.
Qed.

(** ** Uninterrupted, the signal goroutine is the function [Shutdown] *)

(** What the signal goroutine does not touch before the end of [Shutdown]. *)
Definition rest (a : daemon) := (a_main a, a_loops a, a_conns a, a_controls a, a_bound a, a_path a).
Definition serving (a : daemon) : Prop := forall c, a_main a <> MExit c.

Lemma rest_main a a' : rest a' = rest a -> a_main a' = a_main a.
Proof. by intros [=]. Qed.
Lemma serving_rest a a' : rest a' = rest a -> serving a -> serving a'.
Proof. intros E H c. rewrite (rest_main _ _ E). apply H. Qed.
Lemma closing_steps ls o a : serving a -> a_signal a = SClosing ls o ->
  exists a', rtc step a a' /\ a_signal a' = SClosing [] o /\ a_open a' = a_open a ∖ list_to_set ls /\ a_sys a' = a_sys a /\ rest a' = rest a.
Proof.
  revert a. induction ls as [|x ls IH]; intros a Hm Hp; [exists a; split_and!; [done|done|set_solver|done|done]|].
  destruct (IH (with_signal (SClosing ls o) (with_open (a_open a ∖ {[x]}) a))) as (a' & Hr & H1 & H2 & H3 & H4); [done|done|].
  exists a'. split; [eapply rtc_l; [apply step_signal; [done|by apply signal_shutdown, shutdown_closes]|done]|]. split; [done|]. rewrite H2. split; [set_solver|]. by rewrite H3, H4.
Qed.
Lemma draining_steps l o a : serving a -> a_signal a = SDraining l o ->
  exists a', rtc step a a' /\ a_signal a' = SDropping o /\ a_world a' = with_store (close_all l (w_store (a_world a))) (a_world a) /\
    a_open a' = a_open a /\ rest a' = rest a.
Proof.
  revert a. induction l as [|c l IH]; intros a Hm Hp.
  - exists (with_signal (SDropping o) a). split; [by apply rtc_once, step_signal, signal_shutdown, shutdown_next|]. split_and!; try done.
    change (a_world (with_signal (SDropping o) a)) with (a_world a). symmetry. apply with_store_id.
  - destruct (server_step a (with_store (Conn_Close c (w_store (a_world a))) (a_world a))) as (y' & Hs & Hw); [apply step_drop|done|].
    destruct (IH (with_signal (SDraining l o) (with_sys y' a))) as (a' & Hr & H1 & H2 & H3 & H4); [done|done|].
    exists a'. split; [eapply rtc_l; [apply step_signal; [done|by eapply signal_shutdown, shutdown_drops]|done]|]. split; [done|].
    rewrite H2, H3, H4. unfold a_world in *. cbn. by rewrite Hw.
Qed.
Lemma dropping_steps o a : serving a -> a_signal a = SDropping o ->
  exists a', rtc step a a' /\ a_signal a' = SAwaiting /\ a_world a' = with_store (drop_each o (w_store (a_world a))) (a_world a) /\
    a_open a' = a_open a /\ rest a' = rest a.
Proof.
  revert a. induction o as [|n o IH]; intros a Hm Hp.
  - exists (with_signal SAwaiting a). split; [by apply rtc_once, step_signal, signal_shutdown, shutdown_dropped|]. split_and!; try done.
    change (a_world (with_signal SAwaiting a)) with (a_world a). symmetry. apply with_store_id.
  - destruct (draining_steps (snapshot n (w_store (a_world a))) o (with_signal (SDraining (snapshot n (w_store (a_world a))) o) a))
      as (a1 & Hr1 & H1 & H2 & H3 & H4); [done|done|].
    destruct (IH a1) as (a2 & Hr2 & K1 & K2 & K3 & K4); [by apply (serving_rest _ _ H4)|done|].
    exists a2. split; [eapply rtc_l; [by apply step_signal, signal_shutdown, shutdown_snapshots|]; by etrans|]. rewrite K2, H2, K3, K4. done.
Qed.

(** C21: run without interference, the atomic steps of the signal goroutine are the
    function [Shutdown]: they close every listener, close and deregister every
    connection of every database, and take the server from the state before to
    the state after it; then they wait for the handlers. *)
Theorem Shutdown_steps a o s' : serving a -> a_signal a = SSignalled -> s_closed (a_srv a) = false ->
  a_open a ⊆ dom (listeners (a_srv a)) -> enumerates o (a_srv a) -> store_wf (w_store (a_world a)) ->
  Shutdown o (a_srv a) = (Ok tt, s') ->
  exists a', rtc step a a' /\ a_signal a' = SAwaiting /\ a_srv a' = s' /\ a_open a' = ∅ /\ rest a' = rest a /\
    forall n d, s_databases s' !! n = Some d -> conns d = ∅.
Proof.
  intros Hm Hp Hc Hop Ho W. unfold Shutdown, gets, modify, mbind, M_bind. rewrite Hc. intros [= <-].
  destruct (drop_each_spec o (w_store (a_world a)) W) as (_ & Hnone & _); [intros n d Hd; apply (enumerates_elem _ _ _ Ho); unfold s_databases; eauto|].
  destruct (server_step a (with_srv (set_closed (a_srv a)) (a_world a))) as (y' & Hs & Hw); [apply step_mark|done|].
  set (ls := elements (dom (listeners (a_srv a)))). set (a1 := with_signal (SClosing ls o) (with_sys y' a)).
  destruct (closing_steps ls o a1) as (a2 & Hr2 & H1 & H2 & H3 & H4); [done|done|].
  destruct (dropping_steps o (with_signal (SDropping o) a2)) as (a3 & Hr3 & K1 & K2 & K3 & K4); [by apply (serving_rest _ _ H4)|done|].
  exists a3. split; [|split; [done|]].
  - eapply rtc_l; [apply step_signal; [done|by apply signal_shutdown, (shutdown_marks a ls o y')]|]. etrans; [exact Hr2|].
    eapply rtc_l; [apply step_signal; [by apply (serving_rest _ _ H4)|by apply signal_shutdown, shutdown_closed]|exact Hr3].
  - unfold a_srv in *. rewrite K2, K3, K4. cbn. change (a_world (with_signal (SDropping o) a2)) with (a_world a2).
    unfold a_world in *. rewrite H3. cbn. rewrite Hw. split; [done|]. split; [|by split]. rewrite H2. cbn.
    apply set_eq. intros x. rewrite elem_of_difference, elem_of_list_to_set. subst ls. rewrite elem_of_elements. set_solver.
Qed.

(** The accept loops of a daemon that is shutting down return one by one. *)
Lemma loops_return a : serving a -> s_closed (a_srv a) = true ->
  exists a', rtc step a a' /\ a_sys a' = a_sys a /\ a_signal a' = a_signal a /\ a_path a' = a_path a /\ a_main a' = a_main a /\
    map_Forall (fun _ l => l <> LAccepting) (a_loops a') /\
    (map_Forall (fun _ l => loop_error l = None) (a_loops a) -> map_Forall (fun _ l => loop_error l = None) (a_loops a')).
Proof.
  remember (size (accepting a)) as m eqn:Em. revert a Em. induction (lt_wf m) as [m _ IH]. intros a -> Hm Hc.
  destruct (map_to_list (accepting a)) as [|[x l] r] eqn:El.
  - exists a. split_and!; try done. intros x l Hx ->. apply map_to_list_empty_iff in El.
    assert (accepting a !! x = Some LAccepting) as Hin by (by apply accepting_elem). by rewrite El in Hin.
  - pose proof (accepting_first a x l r El) as Hx. set (a1 := with_loops (<[x := LReturned None]> (a_loops a)) a).
    assert (step a a1) as Hs by (apply (step_loop a x); [done|]; pose proof (loop_fails x a (ESys []) Hx) as Hf; by rewrite Hc in Hf).
    destruct (IH _ (accepting_returns a x None Hx) a1 eq_refl Hm Hc) as (a' & Hr & H1 & H2 & H3 & H4 & H5 & H6).
    exists a'. split; [by eapply rtc_l|]. split_and!; [done..|]. intros Hn. apply H6. by apply map_Forall_insert_2.
Qed.

(** ** Properties *)

Lemma reachable_system s a : reachable s a -> System.reachable s (a_sys a).
Proof.
  unfold reachable, System.reachable. change (System.start s) with (a_sys (start s)). intros Hr.
  induction Hr as [a|a a1 a2 Hs _ IH]; [done|]. etrans; [|exact IH]. clear IH.
  assert (forall y', System.step (a_sys a) y' -> rtc System.step (a_sys a) y') as Hone by (intros; by apply rtc_once).
  destruct Hs as [a1 Hs|x a1 Hm Hs|a1 Hm Hs|k a1 Hm Hs|y' Hm Hs|h Hm Hh Hr|]; [| | | |apply Hone, Hs|done|done];
    [|by destruct Hs|destruct Hs as [|a1 []| |]|]; try done; try destruct Hs; cbn; auto; done.
Qed.

(** An accept loop failed on its own: when [Accept] returned the error, the
    listener was open and the server not closed. *)
Definition accept_failed (s : Server) (a : daemon) : Prop := exists a1 x e,
  reachable s a1 /\ a_loops a1 !! x = Some LAccepting /\ x ∈ a_open a1 /\ s_closed (a_srv a1) = false /\
  rtc step (with_loops (<[x := LReturned (Some e)]> (a_loops a1)) a1) a.
(** What went wrong in an execution that ended in [a] with status 2. *)
Inductive ends_badly (s : Server) (a : daemon) : Prop :=
  | bad_listen a1 e : reachable s a1 -> a_main a1 = MBinding -> open_listeners listen addrs ∅ = Err e ->
      a = with_main (MExit 2) a1 -> ends_badly s a
  | bad_accept : accept_failed s a -> ends_badly s a
  | bad_handler a1 h sess : reachable s a1 -> serving a1 -> a_conns a1 !! h = Some AdapterMySQL -> w_handlers (a_world a1) !! h = None ->
      s_store (ss_srv sess) = w_store (a_world a1) -> crashes AdapterMySQL sess ->
      a = with_main (MExit 2) a1 -> ends_badly s a.

(** The step that makes a loop return an error is [loop_fails] before the close. *)
Lemma loop_error_step a a' x e : step a a' -> a_loops a' !! x = Some (LReturned (Some e)) ->
  a_loops a !! x = Some (LReturned (Some e)) \/
  serving a /\ a_loops a !! x = Some LAccepting /\ s_closed (a_srv a) = false /\ a' = with_loops (<[x := LReturned (Some e)]> (a_loops a)) a.
Proof.
  intros Hs Hx. destruct Hs as [a' Hs|y a' Hm Hs|a' Hm Hs|k a' Hm Hs|y' Hm _|h Hm _ _|h y sess Hm _ _ _ _]; auto.
  - destruct Hs as [srv' y' _ _ _ _| | |]; auto. cbn in Hx. rewrite lookup_fmap in Hx. by destruct (listeners srv' !! x).
  - destruct Hs as [|err Hy]; [auto|]. cbn in Hx. rewrite lookup_insert in Hx. case_decide; [subst y|auto].
    destruct (s_closed (a_srv a)) eqn:Hc; [done|]. injection Hx as ->. by right.
  - left. by destruct Hs as [|a' []| |].
  - left. by destruct Hs.
Qed.
Lemma loop_failed s a x e : unstarted s -> reachable s a -> a_loops a !! x = Some (LReturned (Some e)) -> accept_failed s a.
Proof.
  intros Hu Hr. unfold reachable in Hr. revert Hr. apply (rtc_ind_r (fun a => a_loops a !! x = Some (LReturned (Some e)) -> accept_failed s a) (start s)); [done|].
  intros a1 a2 Hr Hs IH Hx. destruct (loop_error_step a1 a2 x e Hs Hx) as [E|(Hm & Hl & Hc & ->)].
  - destruct (IH E) as (b & y & e' & H1 & H2 & H3 & H4 & H5). exists b, y, e'. split_and!; [done..|]. by eapply rtc_r.
  - exists a1, x, e. split; [done|]. split; [done|]. split; [|by split].
    pose proof (alive_reachable s a1 Hu Hr) as Ha. pose proof (al_closed _ Ha) as Hk. rewrite Hc in Hk.
    assert (a_open a1 = dom (listeners (a_srv a1))) as -> by (pose proof (al_open _ Ha); by destruct (a_signal a1)).
    pose proof (al_main _ Ha) as Hd. destruct (a_main a1) as [| |c] eqn:Em; [destruct Hd as [_ El]; by rewrite El in Hl| |by destruct (Hm c)].
    destruct Hd as [<- _]. by eapply elem_of_dom_2.
Qed.
Lemma failed_exit s a : network_ok -> unstarted s -> reachable s a -> a_main a = MExit 2 -> ends_badly s a.
Proof.
  intros Hn Hu Hr Hc. apply rtc_inv_r in Hr as Hl. destruct Hl as [<-|(a1 & Hr1 & Hs)]; [done|].
  destruct Hs as [a Hs|x a Hm Hs|a Hm Hs|k a Hm Hs|y' Hm _|h Hm _ _|h x sess Hm Hh Hw Hst Hcr].
  - destruct Hs as [srv' y' Hm Hb Hs Hw|srv' Hm Hb|e srv' Hm Hb|Hm Hall]; [done|done| |].
    + rewrite Start_bind_cases in Hb. destruct (open_listeners listen addrs ∅) as [|e'| |] eqn:Eo; [by destruct (s_closed (a_srv a1))| |done..].
      by eapply bad_listen.
    + cbn in Hc. unfold exit_code in Hc. destruct (decide _) as [|Hno]; [done|].
      apply map_not_Forall in Hno as (x & l & Hx & Hl); [|apply _]. destruct l as [|[e|]]; [done| |done]. apply bad_accept.
      eapply loop_failed; [done|done|exact Hx].
  - destruct Hs; by destruct (Hm 2).
  - destruct Hs as [|a []| |]; by destruct (Hm 2).
  - destruct Hs; by destruct (Hm 2).
  - by destruct (Hm 2).
  - by destruct (Hm 2).
  - assert (x = AdapterMySQL) as -> by (destruct Hcr as (? & ? & ?); by eapply dispatch_for_panics). by eapply bad_handler.
Qed.

(** C12: the daemon serves until it is told to stop.  In every execution of the
    process, what happens to databases and connections is an execution of the
    system of handlers, switches and copying.  The process ends with 0 only after a
    signal made [Shutdown] close the server.  It ends with 2 only when, in this very
    execution, a listener could not be bound, or [Accept] failed on an open listener
    while the server was not closed, or the last step was the panic of the handler
    of a connection of the MySQL listener: a shutdown never makes it end with 2.  And
    no listener is open after [Shutdown] went over them. *)
Theorem daemon_serves s a : network_ok -> unstarted s -> addrs <> [] -> reachable s a ->
  System.reachable s (a_sys a) /\
  (forall c, a_main a = MExit c ->
     (c = 0 /\ s_closed (a_srv a) = true /\ marked (a_signal a) = true) \/ (c = 2 /\ ends_badly s a)) /\
  (marked (a_signal a) = true -> forall x, x ∈ a_open a -> x ∈ to_close (a_signal a)).
Proof.
  intros Hn Hu Hne Hr. pose proof (alive_reachable s a Hu Hr) as Ha. split; [by eapply reachable_system|]. split.
  - intros c Hc. pose proof (al_main a Ha) as Hm. rewrite Hc in Hm. pose proof (al_closed a Ha) as E.
    destruct Hm as [[-> H]| ->]; [left; specialize (H Hne); by rewrite <- E|right]. split; [done|]. by apply failed_exit.
  - intros Hm x Hx. pose proof (al_open a Ha) as Ho. destruct (a_signal a); cbn in *; try done; set_solver.
Qed.

(** C35: one login packet ends the process.  While the daemon listens for MySQL
    clients, anybody who can connect to it -- no account is needed -- and sends a
    packet on which [ParseHandshakeResponse41] panics ends the process with status
    2 at once: every other connection, switch and control request dies with it, no
    connection is closed in order and the shutdown never runs. *)
Theorem one_packet_kills a sess salt payload seq bs rest :
  a_main a = MWaiting -> a_loops a !! AdapterMySQL = Some LAccepting -> AdapterMySQL ∈ a_open a ->
  healthy (client_conn sess) -> ss_up sess = None -> s_store (ss_srv sess) = w_store (a_world a) -> newMySQLSalt = Ok salt ->
  frames payload seq bs -> rx (client_conn sess) = bs ++ rest -> ParseHandshakeResponse41 payload = Panic ->
  exists a', rtc step a a' /\ a_main a' = MExit 2 /\ a_sys a' = a_sys a /\ a_signal a' = a_signal a /\ a_path a' = a_path a /\
    forall a'', ~ step a' a''.
Proof.
  intros Hm Hl Ho Hc Hu Hst Hs Hf Hrx Hp.
  set (h := fresh (dom (a_conns a) ∪ dom (w_handlers (a_world a)))).
  assert (h ∉ dom (a_conns a) ∪ dom (w_handlers (a_world a))) as [H1 H2]%not_elem_of_union by apply is_fresh.
  apply not_elem_of_dom in H1, H2. set (a1 := with_conns (<[h := AdapterMySQL]> (a_conns a)) a).
  assert (crashes AdapterMySQL sess) as Hcr.
  { split_and!; [done..|]. unfold dispatch_for. rewrite decide_True by done. by eapply dispatchMySQL_crashes. }
  exists (with_main (MExit 2) a1). split_and!; try done.
  - eapply rtc_l; [apply (step_loop _ AdapterMySQL); [intros c; by rewrite Hm|by apply loop_accept]|].
    apply rtc_once. apply (step_panics a1 h AdapterMySQL sess); [intros c; change (a_main a <> MExit c); by rewrite Hm|apply lookup_insert_eq|done..].
  - intros a''. by apply exited_stuck with (c := 2).
Qed.

(** A switch that may still change the databases: in progress, or past its check. *)
Definition may_switch (a : daemon) (k : nat) : Prop :=
  is_Some (w_switchers (a_world a) !! k) \/ a_controls a !! k = Some CPassed.
Lemma may_switch_step a a' k : alive a -> s_closed (a_srv a) = true -> step a a' ->
  s_closed (a_srv a') = true /\ (may_switch a' k -> may_switch a k).
Proof.
  intros Ha Hc Hs. assert (s_closed (a_srv a') = true) as Hc'.
  { rewrite (al_closed _ (alive_step _ _ Ha Hs)). rewrite (al_closed _ Ha) in Hc.
    destruct Hs as [a' Hs|x a' Hm Hs|a' Hm Hs|k0 a' Hm Hs|y' Hm Hs|h Hm Hh Hr|]; [by destruct Hs|by destruct Hs| |by destruct Hs|done|done|done].
    by destruct Hs as [Hp|a' []|Hp|Hp]; try (rewrite Hp in Hc). }
  split; [done|]. unfold may_switch. clear Hc'. destruct Hs as [a' Hs|x a' Hm Hs|a' Hm Hs|k0 a' Hm Hs|y' Hm (Hs & _ & _ & Hk)|h Hm Hh Hr|]; [| | | | |done|done].
  - destruct Hs as [srv' y' Hmn Hb Hs Hw| | |]; [|done..]. unfold a_world in *. cbn. by rewrite Hw.
  - by destruct Hs.
  - destruct Hs as [|a' [ls o y' Hp _ Hls Ho Hs Hw| | | | |c l o y' Hp Hs Hw| | | |]| |]; try done; unfold a_world in *; cbn; by rewrite Hw.
  - destruct Hs as [Hb Hk|Hk Hc'|y' Hk Hn Hs Hi|p Hk]; unfold a_world in *; cbn.
    + rewrite lookup_insert. case_decide; [|done]. intros [?|?]; [by left|done].
    + congruence.
    + rewrite lookup_insert. case_decide as Hkk; [subst; auto|]. intros [Hi'|?]; [|by right]. left.
      destruct Hs as [w w' ps ps' Hs _|]; [|done]. cbn in *. destruct (w_switchers w !! k) eqn:E; [done|].
      destruct Hi as [sw Hi], Hi' as [sw' Hi']. destruct Hs; cbn in *; try congruence; try (rewrite ?lookup_insert in *; repeat case_decide; congruence).
      rewrite lookup_delete in *; repeat case_decide; congruence.
    + rewrite lookup_insert. case_decide; [|done]. intros [?|?]; [by left|done].
  - unfold a_world in *. cbn. intros [Hi|?]; [left|by right]. destruct (w_switchers (y_world (a_sys a)) !! k) eqn:E; [done|].
    rewrite (Hk k E) in Hi. by destruct Hi.
Qed.

(** C22: switches and shutdown.  Once [Shutdown] has closed the server, no request
    passes the check of [IsClosed]: the only switches that still run, or begin, are
    those in progress and those of requests that had passed the check before.  Such
    a request is not stopped: nothing checks again, so if its switch is possible it
    can begin after the server was closed. *)
Theorem switches_after_shutdown s a : unstarted s -> reachable s a -> s_closed (a_srv a) = true ->
  (forall a' k, rtc step a a' -> is_Some (w_switchers (a_world a') !! k) ->
     is_Some (w_switchers (a_world a) !! k) \/ a_controls a !! k = Some CPassed) /\
  (forall k target vars, serving a -> a_controls a !! k = Some CPassed -> w_switchers (a_world a) !! k = None ->
     switchable target (default ∅ vars) (a_srv a) ->
     exists a', step a a' /\ s_closed (a_srv a') = true /\ is_Some (w_switchers (a_world a') !! k)).
Proof.
  intros Hu Hr Hc. split.
  - intros a' k Hs Hk. enough (may_switch a' k -> may_switch a k) as H by (by apply H; left). clear Hk.
    pose proof (alive_reachable s a Hu Hr) as Ha. clear Hr. revert Ha Hc.
    induction Hs as [|a a1 a2 Hst _ IH]; intros Ha Hc; [done|].
    destruct (may_switch_step a a1 k Ha Hc Hst) as [Hc1 Hk]. intros H. by apply Hk, IH; [eapply alive_step|..].
  - intros k target vars Hm Hp Hk Hs. destruct (switch_begins (a_world a) k target vars Hk Hs) as (sw & Hst).
    destruct (server_step a _ Hst eq_refl) as (y' & Hy & Hw). exists (with_control k CAnswered (with_sys y' a)).
    assert (w_switchers (y_world y') !! k = Some sw) as Hsw by (rewrite Hw; apply lookup_insert_eq).
    split; [apply (step_control a k); [done|]; apply control_switches; [done|done|done|by eexists]|].
    split; [unfold a_srv, a_world in *; cbn; by rewrite Hw|by exists sw].
Qed.

(** C11: a signal stops the daemon.  In every execution of the process in which the
    main goroutine, the signal goroutine and the accept loops are scheduled fairly,
    the process ends after the signal has arrived, whatever the clients, the
    upstreams, the switches in progress and the control connections do. *)
Theorem signal_exits s f i : unstarted s -> addrs <> [] -> f 0%nat = start s -> execution step f -> (forall r, fair acts r f) ->
  a_signal (f i) <> SIdle ->
  exists j c, (i <= j)%nat /\ a_main (f j) = MExit c /\ (c = 0 \/ c = 2) /\ forall a', ~ step (f j) a'.
Proof.
  intros Hu Hne H0 He Hf Hi.
  assert (forall j, alive (f j)) as Hal.
  { intros j. eapply alive_steps; [by apply alive_start|]. rewrite <- H0. apply execution_steps; [done|lia]. }
  destruct (fair_reaches step acts f _ _ _ _ He (fun _ r _ _ => Hf r) exit_progress i (conj (Hal i) Hi)) as (j & Hj & c & Hc).
  exists j, c. split_and!; [done|done| |].
  - pose proof (al_main _ (Hal j)) as Hm. rewrite Hc in Hm. destruct Hm as [[-> _]| ->]; auto.
  - intros a'. by eapply exited_stuck.
Qed.

(** From there the process can end at once. *)
Lemma exit_early s a : unstarted s -> reachable s a -> a_main a = MWaiting -> a_signal a = SSignalled ->
  map_Forall (fun _ l => loop_error l = None) (a_loops a) ->
  exists a' o, rtc step a a' /\ a_main a' = MExit 0 /\ a_signal a' = SClosing [] o /\
    w_store (a_world a') = w_store (a_world a) /\ w_handlers (a_world a') = w_handlers (a_world a) /\ a_path a' = a_path a.
Proof.
  intros Hu Hr Hm Hp Hok. pose proof (alive_reachable s a Hu Hr) as Ha. pose proof (al_closed a Ha) as Hc. rewrite Hp in Hc.
  assert (serving a) as Hs by (intros c; by rewrite Hm).
  destruct (server_step a (with_srv (set_closed (a_srv a)) (a_world a))) as (y' & Hst & Hw); [apply step_mark|done|].
  set (ls := elements (dom (listeners (a_srv a)))). set (o := elements (dom (s_databases (a_srv a)))). set (a1 := with_signal (SClosing ls o) (with_sys y' a)).
  destruct (closing_steps ls o a1) as (a2 & Hr2 & H1 & H2 & H3 & H4); [done|done|].
  assert (a_srv a2 = set_closed (a_srv a)) as Hsrv by (unfold a_srv, a_world in *; rewrite H3; cbn; by rewrite Hw).
  destruct (loops_return a2) as (a3 & Hr3 & K1 & K2 & K3 & K4 & K5 & K6); [by apply (serving_rest _ _ H4)|by rewrite Hsrv|].
  pose proof H4 as [= Em El _ _ _ Ep]. rewrite El in K6. specialize (K6 Hok).
  exists (with_main (MExit (exit_code (a_loops a3))) a3), o. split; [|split_and!].
  - eapply rtc_l; [apply step_signal; [done|apply signal_shutdown, (shutdown_marks a ls o y'); try done; unfold enumerates; reflexivity]|].
    etrans; [exact Hr2|]. eapply rtc_r; [exact Hr3|].
    apply step_main, main_returns; [by rewrite K4, Em|done].
  - cbn. unfold exit_code. by rewrite decide_True.
  - cbn. by rewrite K2, H1.
  - unfold a_world in *. cbn. rewrite K1, H3. cbn. by rewrite Hw.
  - unfold a_world in *. cbn. rewrite K1, H3. cbn. by rewrite Hw.
  - cbn. by rewrite K3, Ep.
Qed.

(** C40: the process does not wait for its own shutdown.  Whenever the signal has
    arrived at a daemon that is serving, it can end with 0 as soon as [Shutdown] has
    closed the listeners: no connection was closed or deregistered, no handler was
    waited for (the grace period never began) and the socket file was not removed.
    [runServe] returns when [Start] does, and the signal goroutine dies with it. *)
Theorem shutdown_not_awaited s a : unstarted s -> reachable s a -> a_main a = MWaiting -> a_signal a = SSignalled ->
  map_Forall (fun _ l => loop_error l = None) (a_loops a) ->
  exists a' o, rtc step a a' /\ a_main a' = MExit 0 /\ a_signal a' = SClosing [] o /\
    w_store (a_world a') = w_store (a_world a) /\ w_handlers (a_world a') = w_handlers (a_world a) /\ a_path a' = a_path a.
Proof. apply exit_early. Qed.
End life.

(** ** Witnesses: one client and one switch in progress when the signal arrives *)

#[local] Existing Instances my_unicode my_dialer toy_no_tls toy_scram toy_rsa toy_rand toy_arch mg_env.

Definition pg_listen (addr : bytes) : error + bytes := inr addr.
Definition pg_addrs : list (bytes * bytes) := [(AdapterPostgres, str "127.0.0.1:6432")].
Definition pg_listeners : gmap bytes bytes := {[AdapterPostgres := str "127.0.0.1:6432"]}.
Definition bound_world : Race.world := with_srv (set_listeners pg_listeners race_server) (Race.start race_server).
Definition dialing_world : Race.world := with_handler 0 (HDialing (str "appdb") race_rt) bound_world.
Definition piping_world : Race.world := with_handler 0 (HPiping 1) (with_store client_store dialing_world).
Definition switching_world : Race.world := with_switcher 1 clientA piping_world.
Definition switching_pipes : gmap nat pipe := sync switching_world {[0%nat := piped]}.
Definition pg_daemon (y : system) (conns : gmap nat bytes) (p : signal_phase) (controls : gmap nat control_phase) : daemon :=
  mkDaemon y MWaiting {[AdapterPostgres]} {[AdapterPostgres := LAccepting]} conns p controls true true.
Definition busy (p : signal_phase) : daemon := pg_daemon (mkSystem switching_world switching_pipes) {[0%nat := AdapterPostgres]} p {[1%nat := CAnswered]}.

(** The server of [busy]. *)
Definition busy_server : Server := set_store client_store (set_listeners pg_listeners race_server).

Lemma race_unstarted : unstarted race_server.
Proof. split_and!; [exact race_server_idle|done|done]. Qed.
Lemma serving_at y conns p controls : forall c, a_main (pg_daemon y conns p controls) <> MExit c.
Proof. done. Qed.
Lemma pg_bound : step pg_listen pg_addrs (start race_server) (pg_daemon (mkSystem bound_world ∅) ∅ SIdle ∅).
Proof.
  apply step_main.
  assert (System.step (System.start race_server) (mkSystem bound_world ∅)) as Hs by (apply (step_race _ _ ∅ ∅); [apply step_bound|done]).
  refine (main_bound pg_listen pg_addrs (start race_server) (set_listeners pg_listeners race_server) _ eq_refl _ Hs eq_refl).
  rewrite Start_bind_cases. reflexivity.
Qed.
Lemma busy_reachable : reachable pg_listen pg_addrs race_server (busy SIdle).
Proof.
  eapply rtc_l; [exact pg_bound|].
  eapply rtc_l; [apply (step_loop _ _ _ AdapterPostgres); [apply serving_at|by apply (loop_accept _ _ 0)]|].
  assert (System.step (mkSystem bound_world ∅) (mkSystem dialing_world (sync dialing_world ∅))) as S1.
  { apply quiet_step; [apply step_current; [done|vm_compute; reflexivity]|]. intros h. unfold piping. cbn. rewrite lookup_insert. by case_decide. }
  assert (System.step (mkSystem dialing_world (sync dialing_world ∅)) (mkSystem piping_world {[0%nat := piped]})) as S2.
  { apply step_race; [apply (step_register dialing_world 0 (str "appdb") race_rt 1 2 3); [apply lookup_insert_eq|done|vm_compute; done..]|].
    intros h. unfold follows, piping. cbn. rewrite !lookup_insert. destruct (decide (0%nat = h)) as [<-|].
    - exists piped. split; [exact piped_starting|apply lookup_singleton_eq].
    - rewrite lookup_singleton_ne by done. done. }
  assert (System.step (mkSystem piping_world {[0%nat := piped]}) (mkSystem switching_world switching_pipes)) as S3.
  { apply quiet_step; [|done]. apply (step_use piping_world 1 (str "staging") None race_order race_order _ 2);
      [done|vm_compute; apply Permutation_swap|vm_compute; apply Permutation_swap|apply plans_for_ok; vm_compute; reflexivity|done]. }
  eapply rtc_l; [apply step_running; [apply serving_at|split; [exact S1|]]|].
  { split; [right; left; done|]. split; [|done]. intros h hs _. cbn. rewrite lookup_insert. case_decide; [subst|done]. intros [= <-].
    exists AdapterPostgres, (str "appdb"), race_rt. split; [apply lookup_insert_eq|]. split; [vm_compute; reflexivity|done]. }
  eapply rtc_l; [apply step_running; [apply serving_at|split; [exact S2|]]|].
  { split; [right; left; intros E; apply (f_equal (fun m => m !! 0%nat)) in E; cbn in E; by rewrite !lookup_insert_eq in E|]. split; [|done].
    intros h hs. cbn. rewrite !lookup_insert. by case_decide. }
  eapply rtc_l; [apply (step_control _ _ _ 1); [apply serving_at|by apply control_accepts]|].
  eapply rtc_l; [apply (step_control _ _ _ 1); [apply serving_at|by apply control_passes; [apply lookup_insert_eq|]]|].
  apply rtc_once. apply (step_control _ _ _ 1 (busy SIdle)); [apply serving_at|].
  refine (eq_ind _ (fun a => control_step 1 _ a) (control_switches 1 _ (mkSystem switching_world switching_pipes) _ _ _ _) (busy SIdle) _).
  - apply lookup_insert_eq.
  - done.
  - exact S3.
  - by eexists.
  - unfold with_control, busy, pg_daemon. cbn. by f_equal.
Qed.

Lemma signalled_reachable : reachable pg_listen pg_addrs race_server (busy SSignalled).
Proof. eapply rtc_r; [exact busy_reachable|]. apply step_signal; [apply serving_at|by apply (signal_arrives (busy SIdle))]. Qed.
Lemma busy_loops_ok p : map_Forall (fun _ l => loop_error l = None) (a_loops (busy p)).
Proof. intros x l Hl. change (({[AdapterPostgres := LAccepting]} : gmap bytes loop_phase) !! x = Some l) in Hl. by apply lookup_singleton_Some in Hl as [_ <-]. Qed.

Lemma Shutdown_steps_witness : exists a', rtc (step pg_listen pg_addrs) (busy SSignalled) a' /\ a_signal a' = SAwaiting /\
  (c_once <$> heap (w_store (a_world a')) !! 1%nat) = Some true.
Proof.
  destruct (Shutdown_steps pg_listen pg_addrs (busy SSignalled) race_order (Shutdown race_order busy_server).2
    (serving_at _ _ _ _) eq_refl eq_refl) as (a' & Hr & Hp & Hs & _).
  - change (({[AdapterPostgres]} : gset bytes) ⊆ dom pg_listeners). unfold pg_listeners. by rewrite dom_singleton_L.
  - change (enumerates race_order busy_server). vm_compute. apply Permutation_swap.
  - exact (i_wf _ (k_inv _ (linked_steps _ _ (linked_start _ race_server_idle) (reachable_system _ _ _ _ signalled_reachable)))).
  - reflexivity.
  - exists a'. split; [exact Hr|]. split; [exact Hp|]. change (w_store (a_world a')) with (s_store (a_srv a')). rewrite Hs. vm_compute. reflexivity.
Defined.
(** A control request passes its check; then the signal arrives and the server is
    closed; the request's switch has not begun. *)
Definition idle_daemon : signal_phase -> gmap nat control_phase -> daemon := pg_daemon (mkSystem bound_world ∅) ∅.
Lemma passed_marked : exists a, reachable pg_listen pg_addrs race_server a /\ serving a /\ s_closed (a_srv a) = true /\
  a_controls a !! 1%nat = Some CPassed /\ w_switchers (a_world a) !! 1%nat = None /\ switchable (str "staging") ∅ (a_srv a).
Proof.
  set (b := idle_daemon SSignalled {[1%nat := CPassed]}).
  destruct (server_step b (with_srv (set_closed (a_srv b)) (a_world b))) as (y' & Hs & Hw); [apply step_mark|done|].
  exists (with_signal (SClosing (elements (dom pg_listeners)) race_order) (with_sys y' b)). split_and!.
  - eapply rtc_l; [exact pg_bound|].
    eapply rtc_l; [apply (step_control _ _ _ 1); [apply serving_at|by apply control_accepts]|].
    eapply rtc_l; [apply (step_control _ _ _ 1); [apply serving_at|by apply control_passes; [apply lookup_insert_eq|]]|].
    match goal with |- rtc _ ?x _ => replace x with (idle_daemon SIdle {[1%nat := CPassed]}) by (unfold with_control, idle_daemon, pg_daemon; cbn; by rewrite insert_insert_eq) end.
    eapply rtc_l; [apply step_signal; [apply serving_at|by apply signal_arrives]|].
    apply rtc_once, step_signal; [apply serving_at|]. apply signal_shutdown, (shutdown_marks b); try done.
    change (enumerates race_order bound_world.(w_srv)). vm_compute. apply Permutation_swap.
  - intros c. apply serving_at.
  - unfold a_srv, a_world. cbn. by rewrite Hw.
  - cbn. apply lookup_insert_eq.
  - unfold a_world. cbn. by rewrite Hw.
  - unfold a_srv, a_world. cbn. rewrite Hw. change (switchable (str "staging") ∅ race_server).
    destruct race_switch_ok as (rs & s' & E & _).
    destruct (SwitchAll_cases race_order race_order (str "staging") None race_server) as [[H _]|(_ & e & He)];
      [exact (i_wf _ (inv_start _ race_server_idle))|exact race_enumerates|exact race_enumerates|exact H|congruence].
Qed.
Lemma daemon_serves_witness : exists a, reachable pg_listen pg_addrs race_server a /\ a_main a = MExit 0 /\ s_closed (a_srv a) = true.
Proof.
  destruct (exit_early pg_listen pg_addrs race_server (busy SSignalled) race_unstarted signalled_reachable eq_refl eq_refl (busy_loops_ok _))
    as (a & o & Hr & Hm & _).
  assert (reachable pg_listen pg_addrs race_server a) as Ha by exact (transitivity (R := rtc _) signalled_reachable Hr).
  destruct (daemon_serves pg_listen pg_addrs race_server a my_network race_unstarted ltac:(discriminate) Ha) as (_ & H & _).
  exists a. split; [exact Ha|]. split; [exact Hm|]. destruct (H 0 Hm) as [(_ & Hc & _)|(Hc & _)]; [exact Hc|discriminate Hc].
Defined.
Lemma switches_after_shutdown_witness : exists a a1, reachable pg_listen pg_addrs race_server a /\ s_closed (a_srv a) = true /\
  a_controls a !! 1%nat = Some CPassed /\ step pg_listen pg_addrs a a1 /\ is_Some (w_switchers (a_world a1) !! 1%nat).
Proof.
  destruct passed_marked as (a & Hr & Hm & Hc & Hp & Hk & Hs).
  destruct (switches_after_shutdown pg_listen pg_addrs race_server a race_unstarted Hr Hc) as [_ H].
  destruct (H 1%nat (str "staging") None Hm Hp Hk Hs) as (a1 & Hst & _ & Hi).
  exists a, a1. split; [exact Hr|]. split; [exact Hc|]. split; [exact Hp|]. split; [exact Hst|exact Hi].
Defined.
Lemma signal_exits_witness : exists f j c, f 0%nat = start race_server /\ execution (step pg_listen pg_addrs) f /\ a_main (f j) = MExit c.
Proof.
  destruct (exit_early pg_listen pg_addrs race_server (busy SSignalled) race_unstarted signalled_reachable eq_refl eq_refl (busy_loops_ok _))
    as (a & o & Hr & Hm & _).
  destruct (path_fair_execution (step pg_listen pg_addrs) (acts pg_listen pg_addrs) _ _ _ signalled_reachable Hr) as (f & i & H0 & He & Hf & Hi).
  { intros r (a' & Hno & _). by destruct (Hno 0). }
  destruct (signal_exits pg_listen pg_addrs race_server f i race_unstarted ltac:(discriminate) H0 He Hf) as (j & c & _ & Hc & _).
  - rewrite Hi. discriminate.
  - exists f, j, c. split; [exact H0|]. split; [exact He|exact Hc].
Defined.
Lemma shutdown_not_awaited_witness : exists a, reachable pg_listen pg_addrs race_server a /\ a_main a = MExit 0 /\
  1%nat ∈ live (str "appdb") (w_store (a_world a)) /\ (c_once <$> heap (w_store (a_world a)) !! 1%nat) = Some false.
Proof.
  destruct (shutdown_not_awaited pg_listen pg_addrs race_server (busy SSignalled) race_unstarted signalled_reachable eq_refl eq_refl (busy_loops_ok _))
    as (a & o & Hr & Hm & _ & Hst & _).
  exists a. split; [exact (transitivity (R := rtc _) signalled_reachable Hr)|]. split; [exact Hm|]. rewrite Hst.
  change (w_store (a_world (busy SSignalled))) with client_store. split; vm_compute; reflexivity.
Defined.

(** A daemon that waits for MySQL clients. *)
Definition my_addrs : list (bytes * bytes) := [(AdapterMySQL, str "127.0.0.1:3307")].
Definition my_listeners : gmap bytes bytes := {[AdapterMySQL := str "127.0.0.1:3307"]}.
Definition my_world : Race.world := with_srv (set_listeners my_listeners my_server) (Race.start my_server).
Definition my_daemon : daemon :=
  mkDaemon (mkSystem my_world ∅) MWaiting {[AdapterMySQL]} {[AdapterMySQL := LAccepting]} ∅ SIdle ∅ true true.
Lemma my_reachable : reachable pg_listen my_addrs my_server my_daemon.
Proof.
  apply rtc_once, step_main.
  assert (System.step (System.start my_server) (mkSystem my_world ∅)) as Hs by (apply (step_race _ _ ∅ ∅); [apply step_bound|done]).
  refine (main_bound pg_listen my_addrs (start my_server) (set_listeners my_listeners my_server) _ eq_refl _ Hs eq_refl).
  rewrite Start_bind_cases. reflexivity.
Qed.
Lemma one_packet_kills_witness : exists a, reachable pg_listen my_addrs my_server a /\ a_main a = MExit 2 /\ a_signal a = SIdle.
Proof.
  destruct (one_packet_kills pg_listen my_addrs my_daemon (my_session (MysqlWire.frame Byte.x01 crash_packet)) (repeat Byte.x01 20) crash_packet Byte.x01
    (MysqlWire.frame Byte.x01 crash_packet) []) as (a & Hr & Hm & _ & Hs & _);
    [reflexivity|reflexivity|set_solver|split; reflexivity|reflexivity|reflexivity|vm_compute; reflexivity|constructor; vm_compute; reflexivity|
     symmetry; apply app_nil_r|vm_compute; reflexivity|].
  exists a. split; [exact (transitivity (R := rtc _) my_reachable Hr)|]. split; [exact Hm|exact Hs].
Defined.
