(* ===== verification/Isolation.v ===== *)
(** Who may talk to whom: the client of a listener reaches only databases of the
    adapter that serves it, and an upstream that is a target declared for that
    database.

    [lookupDatabase] (internal/proxy/server.go) promises this for one routing; here
    it is an invariant of the whole process (Life.v), through all the switches that
    change the targets under the feet of handlers. *)
From S2P Require Import Prelude Fmt IO Net Vars Config Database Server Session PgWire PgAuth PgServer MysqlWire MysqlHandshake MysqlAuth MysqlServer Bson MongoWire MongoHandshake MongoAuth MongoServer Handler Pipe Race Fair System Life.

(** ** What never changes about a database *)

(** The database as [NewDatabase] made it. *)
Definition made (d : Database) : Database := set_conns (fun _ => ∅) (set_current None d).
(** A resolution of one of its targets, under some variables. *)
Definition declared (d : Database) (rt : ResolvedTarget) : Prop :=
  exists name t vars, byName d !! name = Some t /\ resolves_to d t vars rt.
(** What handler [h] is dialing for, or piping to: the database and the target. *)
Definition seat_of (w : Race.world) (h : nat) : option (bytes * ResolvedTarget) :=
  match w_handlers w !! h with
  | Some (HDialing n rt) => Some (n, rt)
  | Some (HPiping c) => o ← heap (w_store w) !! c; n ← c_database o; Some (n, c_Resolved o)
  | _ => None
  end.

Lemma declared_made d rt : declared (made d) rt <-> declared d rt.
Proof. done. Qed.
Lemma next_target_declared target vars d cur rt : next_target target vars d = Some cur -> cur = Some rt -> declared d rt.
Proof.
  unfold next_target. destruct (HasTarget d target); [|by intros [= <-]].
  destruct (ResolveTarget_cases d target vars) as [[_ (e & ->)]|(t & Ht & [(rt' & -> & Hr)|(m & e & -> & _)])]; [done| |done].
  intros [= <-] [= <-]. by exists target, t, vars.
Qed.

Lemma made_alter (f : Database -> Database) (n : bytes) (m : gmap bytes Database) : (forall d, made (f d) = made d) -> made <$> alter f n m = made <$> m.
Proof.
  intros Hf. apply map_eq. intros n'. rewrite !lookup_fmap, lookup_alter. case_decide; [subst|done].
  destruct (m !! n'); cbn; by rewrite ?Hf.
Qed.
Lemma made_close c st : store_wf st -> made <$> dbs (Conn_Close c st) = made <$> dbs st.
Proof. intros W. rewrite (cl_dbs _ _ _ (Conn_Close_closes c st W)), <- map_fmap_compose. done. Qed.
Lemma made_step w w' : Race.inv w -> Race.step w w' -> made <$> dbs (w_store w') = made <$> dbs (w_store w).
Proof.
  intros [W _] Hs. destruct Hs; try done; try by apply made_close.
  - unfold w_store at 1. cbn [w_srv with_handler with_store s_store set_store]. rewrite register_new_dbs. by apply made_alter.
  - by apply made_alter.
Qed.

(** A connection keeps the database and the target it was made with. *)
Lemma heap_step w w' c o : Race.inv w -> Race.step w w' -> heap (w_store w) !! c = Some o ->
  exists o', heap (w_store w') !! c = Some o' /\ c_database o' = c_database o /\ c_Resolved o' = c_Resolved o.
Proof.
  intros [W _] Hs Ho.
  assert (forall c0, exists o', heap (Conn_Close c0 (w_store w)) !! c = Some o' /\ c_database o' = c_database o /\ c_Resolved o' = c_Resolved o) as Hclose.
  { intros c0. rewrite Conn_Close_heap, Ho by done. eexists. split; [done|]. by case_decide. }
  destruct Hs; try (by exists o); try apply Hclose.
  exists o. unfold w_store at 1. cbn [w_srv with_handler with_store s_store set_store]. rewrite register_new_heap, decide_False; [done|congruence].
Qed.

(** A handler gets its seat from [Current] and keeps it until it is done. *)
Lemma seat_step y y' h : linked y -> Race.step (y_world y) (y_world y') ->
  seat_of (y_world y') h = None \/ seat_of (y_world y') h = seat_of (y_world y) h \/
  (w_handlers (y_world y) !! h = None /\ exists n rt, w_handlers (y_world y') !! h = Some (HDialing n rt) /\ current_of n (w_store (y_world y)) = Some rt).
Proof.
  intros [Hi Hh _] Hs. generalize dependent (y_world y'). intros w'. generalize dependent (y_world y). intros w Hi Hh Hs.
  assert (w_handlers w' !! h = w_handlers w !! h -> seat_of w' h = None \/ seat_of w' h = seat_of w h) as Hsame.
  { intros E. unfold seat_of. rewrite E. destruct (w_handlers w !! h) as [[n rt|c|]|] eqn:Ew; try by auto. destruct (Hh h c Ew) as [o Ho].
    destruct (heap_step w w' c o Hi Hs Ho) as (o' & Ho' & E1 & E2). right. rewrite Ho, Ho'. cbn. by rewrite E1, E2. }
  assert (forall v, w_handlers v = w_handlers w -> w_handlers w' = w_handlers v -> w_handlers w' !! h = w_handlers w !! h) as Hkeep by (by intros v -> ->).
  destruct Hs as [w h0 n rt Hn Hc|w h0 n rt Hd|w h0 n rt c cl up Hd Hc Hcl Hup|w h0 c Hp| | | | | | | | |]; try (by destruct Hsame; auto).
  all: destruct (decide (h0 = h)) as [->|Hne]; [|destruct Hsame; [cbn; by rewrite lookup_insert_ne|auto..]].
  - right; right. split; [done|]. exists n, rt. split; [apply lookup_insert_eq|done].
  - left. unfold seat_of. cbn. by rewrite lookup_insert_eq.
  - right; left. unfold seat_of. rewrite Hd. cbn [w_handlers with_handler with_store]. rewrite lookup_insert_eq.
    change (w_store _) with (register_new n c cl up rt (w_store w)). by rewrite register_new_heap, decide_True.
  - left. unfold seat_of. cbn. by rewrite lookup_insert_eq.
Qed.

(** ** Every target in use is one declared for its database *)

Definition target_of (I : gmap bytes Database) (n : bytes) (rt : ResolvedTarget) : Prop := exists d, I !! n = Some d /\ declared d rt.
Record aimed (I : gmap bytes Database) (w : Race.world) : Prop := {
  am_made : made <$> dbs (w_store w) = I;
  am_current : forall n rt, current_of n (w_store w) = Some rt -> target_of I n rt;
  am_plans : forall k sw n rt, w_switchers w !! k = Some sw -> is_Some (I !! n) -> planned_target (sw_plans sw) n = Some rt -> target_of I n rt;
  am_seat : forall h n rt, seat_of w h = Some (n, rt) -> target_of I n rt;
}.

Lemma current_of_close c n st : store_wf st -> current_of n (Conn_Close c st) = current_of n st.
Proof.
  intros W. unfold current_of. rewrite (cl_dbs _ _ _ (Conn_Close_closes c st W)), lookup_fmap. by destruct (dbs st !! n).
Qed.
(** The current target of a database changes only to what a switch planned for it. *)
Lemma current_step w w' n rt : Race.inv w -> Race.step w w' -> current_of n (w_store w') = Some rt ->
  current_of n (w_store w) = Some rt \/ exists k sw, w_switchers w !! k = Some sw /\ planned_target (sw_plans sw) n = Some rt.
Proof.
  intros [W _] Hs Hc. destruct Hs as [| |w h n0 rt0 c cl up| | |w k sw n0 todo Hk| | | | | | |]; try by left.
  all: try (left; by rewrite <- (current_of_close c)).
  - left. change (w_store _) with (register_new n0 c cl up rt0 (w_store w)) in Hc. unfold current_of in *.
    rewrite register_new_dbs, lookup_alter in Hc. case_decide; [subst|done]. by destruct (dbs (w_store w) !! n).
  - unfold current_of in *. cbn in Hc. rewrite lookup_alter in Hc. case_decide; [subst|by left].
    destruct (dbs (w_store w) !! n) as [d|]; [|done]. eauto.
Qed.
(** A switch plans when it starts, for every database one of its declared targets. *)
Lemma plans_step w w' k sw : Race.step w w' -> w_switchers w' !! k = Some sw ->
  (exists sw0, w_switchers w !! k = Some sw0 /\ sw_plans sw0 = sw_plans sw) \/
  forall n d rt, dbs (w_store w) !! n = Some d -> planned_target (sw_plans sw) n = Some rt -> declared d rt.
Proof.
  intros Hs. destruct Hs as [| | | |w k0 target vars o1 o2 plans j Hk0 E1 E2 Hp Hj|w k0 sw0 n todo Hk Hph|w k0 sw0 n todo Hk Hph
    |w k0 sw0 c l todo Hk Hph|w k0 sw0 todo Hk Hph|w k0 sw0 Hk Hph| | |]; try (intros ?; left; by exists sw).
  all: cbn; rewrite ?lookup_insert, ?lookup_delete; case_decide as Hkk; [subst|intros ?; left; by exists sw]; try done; intros [= <-]; try (left; by eauto).
  right. intros n d rt Hd. destruct (plan_all_ok _ _ _ _ _ _ _ _ Hp) as (_ & Hpl & _).
  destruct (Hpl n d) as (cur & Hc & Hn); [apply (enumerates_elem _ _ _ E1); unfold s_databases; eauto|done|].
  unfold planned_target. cbn. rewrite Hn. destruct cur as [rt'|]; [|done]. cbn. intros [= <-]. by eapply next_target_declared.
Qed.

Lemma aimed_step I y y' : linked y -> aimed I (y_world y) -> System.step y y' -> aimed I (y_world y').
Proof.
  intros Hl [H1 H2 H3 H4] Hs. pose proof (k_inv _ Hl) as Hi.
  assert (y_world y' = y_world y \/ Race.step (y_world y) (y_world y')) as [->|Hr] by (destruct Hs; auto); [done|]. split.
  - by rewrite <- H1; apply made_step.
  - intros n rt Hc. destruct (current_step _ _ n rt Hi Hr Hc) as [?|(k & sw & Hk & Hp)]; [auto|].
    eapply H3; [done| |done]. rewrite <- H1, lookup_fmap, fmap_is_Some. unfold current_of in Hc. apply bind_Some in Hc as (d & Hd & _).
    assert (is_Some ((made <$> dbs (w_store (y_world y'))) !! n)) as E by (rewrite lookup_fmap, Hd; by eexists).
    rewrite (made_step _ _ Hi Hr), lookup_fmap in E. by apply fmap_is_Some in E.
  - intros k sw n rt Hk Hn Hp. destruct (plans_step _ _ k sw Hr Hk) as [(sw0 & Hk0 & E)|Hd]; [eapply H3; [done..|by rewrite E]|].
    destruct Hn as [d Hd']. exists d. split; [done|]. rewrite <- H1, lookup_fmap in Hd'. apply fmap_Some in Hd' as (d0 & Hd0 & ->).
    by eapply declared_made, Hd.
  - intros h n rt Hh. destruct (seat_step y y' h Hl Hr) as [E|[E|(_ & n' & rt' & E & Hc)]]; [congruence|rewrite E in Hh; eauto|].
    unfold seat_of in Hh. rewrite E in Hh. injection Hh as <- <-. auto.
Qed.
Lemma aimed_start s : coherent s -> aimed (made <$> s_databases s) (Race.start s).
Proof.
  intros Hc. split; [done| |done|done]. intros n rt Hn. unfold current_of in Hn. apply bind_Some in Hn as (d & Hd & Hcur).
  exists (made d). split; [by rewrite lookup_fmap, (Hd : s_databases s !! n = Some d)|].
  apply declared_made. by apply (next_target_declared _ _ d _ rt (Hc n d Hd)).
Qed.

(** ** The listener of every seat *)

Section isolation.
Context {U : Unicode} {Di : Dialer} {TLS_ : TLS} {Scram_ : Scram} {RSA_ : RSA} {Rand_ : Rand} {Arch : Target_arch} {Env : ClientEnv}.
Context (listen : bytes -> error + bytes) (addrs : list (bytes * bytes)).

(** The database of every seat speaks the adapter that serves its listener. *)
Definition scoped (I : gmap bytes Database) (a : daemon) : Prop := forall h n rt, seat_of (a_world a) h = Some (n, rt) ->
  exists x d, a_conns a !! h = Some x /\ I !! n = Some d /\ adapter d = served_adapter x.
Definition isolated (I : gmap bytes Database) (a : daemon) : Prop := aimed I (a_world a) /\ scoped I a.

(** A step of the process leaves the system alone, is a step of it that starts no
    handler, or one of the running goroutines. *)
Lemma step_system a a' : Life.step listen addrs a a' ->
  a_sys a' = a_sys a \/
  (System.step (a_sys a) (a_sys a') /\ a_conns a' = a_conns a /\ (w_handlers (a_world a') = w_handlers (a_world a) \/ running a (a_sys a'))).
Proof.
  assert (forall v w : Race.world, v = w -> w_handlers v = w_handlers w) as Hw by (by intros v w ->).
  intros Hs. destruct Hs as [a' Hs|x a' _ Hs|a' _ Hs|k a' _ Hs|y' _ Hs| |]; [| | | |right|by left|by left].
  - destruct Hs as [srv' y' _ _ Hs E| | |]; [right|by left..]. split; [done|]. split; [done|]. left. unfold a_world. cbn. by rewrite E.
  - by destruct Hs; left.
  - destruct Hs as [|a' [ls o y' _ _ _ _ Hs E| | | | |c l o y' _ Hs E| | | |]| |]; try by left.
    all: right; split; [done|]; split; [done|]; left; unfold a_world in *; cbn; by rewrite E.
  - destruct Hs as [| |y' Hk Hn Hs Hi|]; [by left|by left| |by left]. right. split; [done|]. split; [done|]. left.
    unfold a_world in *. cbn. destruct Hs as [w w' ps ps' Hs _|]; [|done]. cbn in *. destruct Hi as [sw Hi].
    destruct Hs; try done; cbn in *; congruence.
  - split; [by destruct Hs|]. split; [done|by right].
Qed.
Lemma conns_step a a' h x : Life.step listen addrs a a' -> a_conns a !! h = Some x ->
  a_conns a' !! h = Some x \/ (a_sys a' = a_sys a /\ seat_of (a_world a) h = None).
Proof.
  intros Hs Hx. destruct Hs as [a' Hs|x' a' _ Hs|a' _ Hs|k a' _ Hs| |h' _ _ Hr|]; try by left.
  - left. by destruct Hs.
  - left. destruct Hs as [h' _ _ Hn _|]; [|done]. cbn. rewrite lookup_insert_ne; [done|congruence].
  - left. by destruct Hs as [|a' []| |].
  - left. by destruct Hs.
  - destruct (decide (h' = h)) as [->|Hne]; [right|left; cbn; by rewrite lookup_delete_ne]. split; [done|].
    unfold may_return in Hr. unfold seat_of. by destruct (w_handlers (a_world a) !! h) as [[| |]|].
Qed.

Lemma isolated_step I a a' : alive addrs a -> isolated I a -> Life.step listen addrs a a' -> isolated I a'.
Proof.
  intros Ha [Hi Hsc] Hs. pose proof (al_linked _ _ Ha) as Hl.
  assert (forall h n rt, seat_of (a_world a') h = Some (n, rt) -> seat_of (a_world a) h = Some (n, rt) -> exists x d,
    a_conns a' !! h = Some x /\ I !! n = Some d /\ adapter d = served_adapter x) as Hkeep.
  { intros h n rt H' H. destruct (Hsc h n rt H) as (x & d & Hx & Hd & E). exists x, d. split; [|done].
    destruct (conns_step a a' h x Hs Hx) as [?|[_ Hno]]; [done|congruence]. }
  destruct (step_system a a' Hs) as [E|(Hst & Ec & Hh)].
  { unfold isolated, scoped, a_world in *. rewrite E in *. split; [done|]. intros h n rt H. by eapply Hkeep. }
  split; [by eapply aimed_step|]. intros h n rt H.
  assert (a_world a' = a_world a \/ Race.step (a_world a) (a_world a')) as [E|Hr] by (unfold a_world; destruct Hst; auto).
  { eapply Hkeep; [done|]. by rewrite <- E. }
  destruct (seat_step (a_sys a) (a_sys a') h Hl Hr) as [E|[E|(Hn & n' & rt' & E & _)]]; [unfold a_world in H; congruence| |].
  { eapply Hkeep; [done|]. unfold a_world in *. by rewrite <- E. }
  destruct Hh as [Hh|(_ & _ & Hh & _)]; [unfold a_world in Hh; rewrite Hh in E; congruence|].
  destruct (Hh h _ Hn E) as (x & n0 & rt0 & Hx & Hlook & [= <- <-]).
  unfold seat_of, a_world in H. rewrite E in H. injection H as <- <-.
  destruct (lookup_adapter _ _ _ _ _ eq_refl Hlook) as (d & Hd & Had).
  exists x, (made d). rewrite Ec. split; [done|]. split; [|done]. rewrite <- (am_made _ _ Hi), lookup_fmap.
  change (s_store (a_srv a)) with (w_store (a_world a)) in Hd. by rewrite Hd.
Qed.

Lemma isolated_reachable s a : unstarted s -> coherent s -> reachable listen addrs s a -> isolated (made <$> s_databases s) a.
Proof.
  intros Hu Hc Hr. assert (isolated (made <$> s_databases s) (start s)) as Hi by (by split; [apply aimed_start|]).
  pose proof (alive_start addrs s Hu) as Ha. unfold reachable in Hr. revert Ha Hi.
  induction Hr as [a|a a1 a2 Hs _ IH]; [done|]. intros Ha Hi. apply IH; [by eapply alive_step|by eapply isolated_step].
Qed.

(** C8: clients stay with their own kind.  In every execution of the process and
    through all switches, a handler dials, authenticates with and pipes to nothing
    but an endpoint declared, with its credentials, as a target of one configured
    database that speaks the adapter of the listener its client came from; and a
    connection registered with a database belongs to such a handler. *)
Theorem listener_isolation s a : unstarted s -> coherent s -> reachable listen addrs s a ->
  (forall h n rt, seat_of (a_world a) h = Some (n, rt) -> exists x d name t,
     a_conns a !! h = Some x /\ s_databases s !! n = Some d /\ adapter d = served_adapter x /\
     byName d !! name = Some t /\ exists vars, resolves_to d t vars rt) /\
  (forall n d' c, s_databases (a_srv a) !! n = Some d' -> c ∈ conns d' -> exists h x d,
     w_handlers (a_world a) !! h = Some (HPiping c) /\ a_conns a !! h = Some x /\
     s_databases s !! n = Some d /\ adapter d = served_adapter x).
Proof.
  intros Hu Hc Hr. destruct (isolated_reachable s a Hu Hc Hr) as [Hi Hs].
  assert (forall h n rt, seat_of (a_world a) h = Some (n, rt) -> exists x d,
    a_conns a !! h = Some x /\ s_databases s !! n = Some d /\ adapter d = served_adapter x /\ declared d rt) as Hseat.
  { intros h n rt Hh. destruct (Hs h n rt Hh) as (x & d & Hx & Hd & E). destruct (am_seat _ _ Hi h n rt Hh) as (d0 & Hd0 & Hdec).
    rewrite Hd in Hd0. injection Hd0 as <-. rewrite lookup_fmap in Hd. apply fmap_Some in Hd as (d0 & Hd0 & ->). by exists x, d0. }
  split.
  - intros h n rt Hh. destruct (Hseat h n rt Hh) as (x & d & Hx & Hd & E & name & t & vars & Ht & Hres). exists x, d, name, t. split_and!; [done..|by exists vars].
  - intros n d' c Hd' Hin. pose proof (k_inv _ (al_linked _ _ (alive_reachable _ _ s a Hu Hr))) as [W Ho].
    destruct (Ho n d' c Hd' Hin) as [h Hh]. destruct (wf_registered _ W n d' c Hd' Hin) as (o & Hob & _ & Hdb).
    destruct (Hseat h n (c_Resolved o)) as (x & d & Hx & Hd & E & _).
    { unfold seat_of, a_world in *. rewrite Hh, Hob. cbn. by rewrite Hdb. }
    by exists h, x, d.
Qed.
End isolation.

(** ** Witness: the client of the PostgreSQL listener while a switch is running *)

#[local] Existing Instances my_unicode my_dialer toy_no_tls toy_scram toy_rsa toy_rand toy_arch mg_env.

Lemma race_coherent : coherent race_server.
Proof.
  assert (map_Forall (fun _ d => next_target (str "local") ∅ d = Some (current d)) (s_databases race_server)) as H
    by (apply (bool_decide_unpack _); vm_compute; exact I).
  exact H.
Qed.
Lemma listener_isolation_witness : exists x d name t, a_conns (busy SIdle) !! 0%nat = Some x /\
  s_databases race_server !! str "appdb" = Some d /\ adapter d = served_adapter x /\ byName d !! name = Some t /\
  t_User t = rt_User race_rt.
Proof.
  destruct (listener_isolation pg_listen pg_addrs race_server (busy SIdle) race_unstarted race_coherent busy_reachable) as [H _].
  destruct (H 0%nat (str "appdb") race_rt) as (x & d & name & t & Hx & Hd & E & Ht & vars & Hr); [vm_compute; reflexivity|].
  exists x, d, name, t. split_and!; try done. symmetry. apply Hr.
Defined.
