(* ===== verification/Cli.v ===== *)
(** cmd/dbpivot/main.go: the command line.

    A command is a computation on the process's output and its effects on the
    control socket; an error it returns is printed by [main], which exits with
    2; [Some code] is a call of [os.Exit].  The flag parser (cobra), the YAML
    decoder and the file system are parameters. *)
From Stdlib Require Import Strings.Byte.
From S2P Require Import Prelude Fmt IO Net Vars Config Database Server Session PgAuth PgServer MysqlAuth MongoHandshake Probe Handler Json Protocol Control.

(** ** The strings package *)

(** [strings.Split] with a one-byte separator. *)
Fixpoint Split (s : bytes) (sep : byte) : list bytes :=
  match s with
  | [] => [[]]
  | c :: s => if decide (c = sep) then [] :: Split s sep
              else match Split s sep with w :: l => (c :: w) :: l | [] => [[c]] end
  end.
(** The runes of [unicode.IsSpace], encoded. *)
Definition spaces : list bytes :=
  map encode_rune ([9; 10; 11; 12; 13; 32; 0x85; 0xA0; 0x1680] ++ seqZ 0x2000 11 ++ [0x2028; 0x2029; 0x202F; 0x205F; 0x3000]).
Fixpoint strip_prefix (p s : bytes) : option bytes :=
  match p, s with
  | [], _ => Some s
  | x :: p, y :: s => if decide (x = y) then strip_prefix p s else None
  | _ :: _, [] => None
  end.
(** Remove the members of [l] from the front of [s]. *)
Definition strip_one (l : list bytes) (s : bytes) : option bytes := head (omap (fun p => strip_prefix p s) l).
Fixpoint strip (fuel : nat) (l : list bytes) (s : bytes) : bytes :=
  match fuel with
  | O => s
  | S fuel => match strip_one l s with Some s' => strip fuel l s' | None => s end
  end.
Definition TrimLeft (s : bytes) : bytes := strip (length s) spaces s.
Definition TrimRight (s : bytes) : bytes := rev (strip (length s) (map (@rev byte) spaces) (rev s)).
Definition TrimSpace (s : bytes) : bytes := TrimRight (TrimLeft s).

(** ** parseVars *)

Section vars.
Fixpoint parse_parts (l : list bytes) (out : gmap bytes bytes) : res (gmap bytes bytes) :=
  match l with
  | [] => Ok out
  | part :: l =>
      let part := TrimSpace part in
      if decide (part = []) then parse_parts l out else
      match IndexByte part "="%byte with
      | Some (S _ as eq) => parse_parts l (<[take eq part := drop (S eq) part]> out)
      | _ => Err (Errorf (str "invalid --var %q: must be KEY=VAL") [FStr part])
      end
  end.
Fixpoint parse_all (l : list bytes) (out : gmap bytes bytes) : res (gmap bytes bytes) :=
  match l with
  | [] => Ok out
  | raw :: l => out ← parse_parts (Split raw ","%byte) out; parse_all l out
  end.
(** A nil map is [None]. *)
Definition parseVars (l : list bytes) : res (option (gmap bytes bytes)) :=
  match l with
  | [] => Ok None
  | _ => out ← parse_all l ∅; Ok (Some out)
  end.
End vars.

(** ** Rendering *)

(** What happens to the socket file, behind it, and on the listeners. *)
Inductive effect : Type :=
  | Removed (path : bytes)
  | Bound (path : bytes)
  | Unbound (path : bytes)
  | Probed (probes : list ProbeResult)
  | Serving (path : bytes)
  | Listening (ls : gmap bytes bytes).
Record proc := mkProc { p_stdout : bytes; p_stderr : bytes; p_effects : list effect }.
Definition print (b : bytes) : M proc unit := modify (fun p => mkProc (p_stdout p ++ b) (p_stderr p) (p_effects p)).
Definition eprint (b : bytes) : M proc unit := modify (fun p => mkProc (p_stdout p) (p_stderr p ++ b) (p_effects p)).
Definition perform (e : effect) : M proc unit := modify (fun p => mkProc (p_stdout p) (p_stderr p) (p_effects p ++ [e])).
Definition eol : bytes := [newline].

Section render.
Context {U : Unicode}.

(** [json.Encoder] with [SetIndent("", "  ")]. *)
Definition indent (d : nat) : bytes := mjoin (repeat (str "  ") d).
Fixpoint pretty (d : nat) (j : json) : bytes :=
  match j with
  | JArr (_ :: _ as l) =>
      str "[" ++ join (str ",") (map (fun x => eol ++ indent (S d) ++ pretty (S d) x) l) ++ eol ++ indent d ++ str "]"
  | JObj (_ :: _ as l) =>
      str "{" ++ join (str ",") (map (fun kv => eol ++ indent (S d) ++ quoted kv.1 ++ str ": " ++ pretty (S d) kv.2) l) ++ eol ++ indent d ++ str "}"
  | j => Marshal j
  end.
Definition emitJSON (resp : Response) : M proc unit := print (pretty 0 (Response_json resp) ++ eol).
Definition exitErrIfNotOK (resp : Response) : M proc (option Z) :=
  if rp_OK resp then mret None else fail (ESys (rp_Error resp)).

Fixpoint each {A} (f : A -> M proc unit) (l : list A) : M proc unit :=
  match l with [] => mret tt | x :: l => f x;; each f l end.

Definition dash (s : bytes) : bytes := if decide (s = []) then str "-" else s.
Definition switched_line (target : bytes) (r : WireSwitch) : bytes :=
  if ws_Skipped r then
    Sprintf (str "  %s: %s (db=%s) -> SKIPPED (no target %q; database is now inactive, closed %d connection(s))")
      [RText (ws_VirtualName r); RText (dash (ws_Previous r)); RText (ws_PreviousDatabase r); RText target; RInt (ws_ClosedConns r)] ++ eol
  else
    Sprintf (str "  %s: %s (db=%s) -> %s (db=%s) (closed %d connection(s))")
      [RText (ws_VirtualName r); RText (dash (ws_Previous r)); RText (ws_PreviousDatabase r);
       RText (ws_Current r); RText (ws_CurrentDatabase r); RInt (ws_ClosedConns r)] ++ eol.
Definition health_line (p : WireProbe) : bytes :=
  if wp_OK p then Sprintf (str "  %s: OK (%s db=%s)") [RText (wp_VirtualName p); RText (wp_Addr p); RText (wp_Database p)] ++ eol
  else Sprintf (str "  %s: FAILED (%s) - %s") [RText (wp_VirtualName p); RText (wp_Addr p); RText (wp_Err p)] ++ eol.

Definition renderUse (flagJSON : bool) (resp : Response) : M proc (option Z) :=
  if flagJSON then emitJSON resp;; exitErrIfNotOK resp else
  if negb (rp_OK resp) then
    eprint (str "error: " ++ rp_Error resp ++ eol);;
    (if decide (rp_Missing resp <> []) then eprint (str "missing variables: " ++ join (str ", ") (rp_Missing resp) ++ eol) else mret tt);;
    mret (Some 1)
  else
    print (Sprintf (str "switched to target %q:") [RText (rp_Target resp)] ++ eol);;
    each (fun r => print (switched_line (rp_Target resp) r)) (rp_Switched resp);;
    (if decide (rp_Probes resp <> []) then
       print (str "health (connect + auth + select 1):" ++ eol);; each (fun p => print (health_line p)) (rp_Probes resp)
     else mret tt);;
    mret None.

Definition port_part (ports : gmap bytes Z) (a : bytes) : bytes :=
  Sprintf (str "%s=127.0.0.1:%d") [RText a; RInt (default 0 (ports !! a))].
Definition status_line (target : bytes) (d : DatabaseStatus) : bytes :=
  if ds_Inactive d then
    Sprintf (str "  %s [%s] -> INACTIVE (no target %q declared; active=%d)")
      [RText (ds_VirtualName d); RText (ds_Adapter d); RText target; RInt (ds_ActiveConns d)] ++ eol
  else
    Sprintf (str "  %s [%s] -> %s (db=%s upstream=%s:%d active=%d)")
      [RText (ds_VirtualName d); RText (ds_Adapter d); RText (ds_Current d); RText (ds_CurrentDatabase d);
       RText (ds_CurrentHost d); RInt (ds_CurrentPort d); RInt (ds_ActiveConns d)] ++ eol.
Definition renderStatus (flagJSON : bool) (resp : Response) : M proc (option Z) :=
  if flagJSON then emitJSON resp;; exitErrIfNotOK resp else
  if negb (rp_OK resp) then eprint (str "error: " ++ rp_Error resp ++ eol);; mret (Some 1) else
  let ports := default ∅ (rp_Ports resp) in
  let adapters := sort_Strings (elements (dom ports)) in
  print (Sprintf (str "listening %s  current target: %s") [RText (join (str " ") (map (port_part ports) adapters)); RText (rp_CurrentTarget resp)] ++ eol);;
  each (fun d => print (status_line (rp_CurrentTarget resp) d)) (rp_Databases resp);;
  mret None.

(** The end of [main]: print the error, or exit. *)
Definition main_exit (m : M proc (option Z)) (p : proc) : res Z * proc :=
  match m p with
  | (Ok None, p') => (Ok 0, p')
  | (Ok (Some code), p') => (Ok code, p')
  | (Err e, p') => (Ok 2, (eprint (str "error: " ++ Error e ++ eol) p').2)
  | (Panic, p') => (Panic, p')
  | (NoFuel, p') => (NoFuel, p')
  end.
End render.

Inductive level : Type := LevelDebug | LevelInfo | LevelWarn | LevelError.
(** The level [newLogger] sets. *)
Definition newLogger (flagLogLevel : bytes) : level :=
  let l := ToLower flagLogLevel in
  if decide (l = str "debug") then LevelDebug
  else if decide (l = str "warn") then LevelWarn
  else if decide (l = str "error") then LevelError
  else LevelInfo.

(** ** The commands *)

Section commands.
Context {U : Unicode} {J : JsonText} {X : UnixSocket}.
Context (unmarshal : bytes -> error + Config) (unmarshal_socket : bytes -> error + bytes).
(** [os.ReadFile(flagConfig)]. *)
Context (flagConfig : bytes) (file : error + bytes) (chunks : list nat).

(** The [RunE] of [use] and [status]. *)
Definition useCmd (flagJSON : bool) (flagVars : list bytes) (target : bytes) : M proc (option Z) :=
  vars ← lift (parseVars flagVars);
  resp ← lift (Call chunks (LoadSocketPath unmarshal_socket file) (mkRequest CmdUse target vars)).1;
  renderUse flagJSON resp.
Definition statusCmd (flagJSON : bool) : M proc (option Z) :=
  resp ← lift (Call chunks (LoadSocketPath unmarshal_socket file) (mkRequest CmdStatus [] None)).1;
  renderStatus flagJSON resp.

(** ** serve *)

Context {Di : Dialer} {T : TLS} {Scram_ : Scram} {RSA_ : RSA} {Rand_ : Rand}.
(** [net.Listen("unix", path)] and [os.Chmod(path, 0600)]. *)
Context (bind_unix chmod : bytes -> option error).
(** [net.Listen("tcp", addr)], the order in which [Start] visits [listenAddrs], and
    what its accept loops return, in the order they do. *)
Context (listen : bytes -> error + bytes) (addrs : list (bytes * bytes)) (returns : list (option error)).
(** The visiting orders of the maps. *)
Context (ports : list (bytes * Z)) (fwds : list (bytes * ForwardTarget)) (ports2 : list (bytes * Z)) (o1 o2 o3 : list bytes).

(** [control.Listen]: whatever is at the path is removed first. *)
Definition control_Listen (path : bytes) : M proc unit :=
  perform (Removed path);;
  match bind_unix path with
  | Some err => fail err
  | None =>
      perform (Bound path);;
      match chmod path with
      | Some err => perform (Unbound path);; fail err
      | None => mret tt
      end
  end.

(** [d.Start()]: bind the listeners, then serve until the last loop returned. *)
Definition Start (d : Server) : M proc unit :=
  match Start_bind listen addrs d with
  | (Ok true, d') =>
      perform (Listening (listeners d'));;
      match Start_wait returns with Some err => fail err | None => mret tt end
  | (Ok false, _) => mret tt
  | (Err err, _) => fail err
  | (Panic, _) => lift Panic
  | (NoFuel, _) => lift NoFuel
  end.

(** [runServe] after the check for a running daemon, and as a whole. *)
Definition start_serving (cfg : Config) (socketPath flagServeTgt : bytes) (flagVars : list bytes) : M proc (option Z) :=
  vars ← lift (parseVars flagVars);
  d ← lift (New o1 o2 cfg flagServeTgt vars);
  probes ← lift (ProbeActive o3 d);
  perform (Probed probes);;
  with_err (fun err => Errorf (str "bind control socket %s: %w") [FStr socketPath; FErr err]) (control_Listen socketPath);;
  perform (Serving socketPath);;
  Start d;;
  mret None.
Definition runServe (flagServeTgt : bytes) (flagVars : list bytes) : M proc (option Z) :=
  cfg ← lift (Load unmarshal ports fwds ports2 flagConfig true file []).1;
  let socketPath := if decide (ControlSocket cfg = []) then DefaultControlSocket else ControlSocket cfg in
  match (TryProbe chunks socketPath).1 with
  | Ok resp =>
      if rp_OK resp then
        eprint (Sprintf (str "another daemon is already running at %s: %s") [RText socketPath; RText (Marshal_Response resp)] ++ eol);;
        mret (Some 1)
      else start_serving cfg socketPath flagServeTgt flagVars
  | Err perr =>
      (if IsRefused (Some perr) then perform (Removed socketPath) else mret tt);;
      start_serving cfg socketPath flagServeTgt flagVars
  | Panic => lift Panic
  | NoFuel => lift NoFuel
  end.

(** The signal goroutine of [runServe]: the shutdown, then the clean-up of the
    control socket ([ln.Close] unlinks the path as well). *)
Definition signal_cleanup (socketPath : bytes) : M proc unit :=
  perform (Unbound socketPath);; perform (Removed socketPath).
Definition on_signal (order : list bytes) (socketPath : bytes) : M (Server * proc) unit :=
  ignore (zoom fst (fun d x => (d, x.2)) (Shutdown order));;
  zoom snd (fun p x => (x.1, p)) (signal_cleanup socketPath).
End commands.

(** ** Variables on the command line *)

(** The words of the flags: comma-separated, trimmed, empty ones ignored. *)
Definition words (l : list bytes) : list bytes :=
  filter (fun w => w <> []) (map TrimSpace (mjoin (map (fun raw => Split raw ","%byte) l))).
(** [KEY=VAL] with a non-empty key, cut at the first [=]. *)
Definition assign (w : bytes) : option (bytes * bytes) :=
  match IndexByte w "="%byte with
  | Some (S _ as eq) => Some (take eq w, drop (S eq) w)
  | _ => None
  end.
Definition set_all (kvs : list (bytes * bytes)) (m : gmap bytes bytes) : gmap bytes bytes :=
  fold_left (fun m kv => <[kv.1 := kv.2]> m) kvs m.
Definition var_error (w : bytes) : error := Errorf (str "invalid --var %q: must be KEY=VAL") [FStr w].
Definition trimmed (l : list bytes) : list bytes := filter (fun w => w <> []) (map TrimSpace l).
(** All words assign, or the first that does not is reported. *)
Definition assigns (ws : list bytes) (m : gmap bytes bytes) (r : res (gmap bytes bytes)) : Prop :=
  match mapM assign ws with
  | Some kvs => r = Ok (set_all kvs m)
  | None => exists pre w post, ws = pre ++ w :: post /\ is_Some (mapM assign pre) /\ assign w = None /\ r = Err (var_error w)
  end.

Lemma assigns_cons w ws m r : assign w <> None -> assigns ws (set_all (option_list (assign w)) m) r -> assigns (w :: ws) m r.
Proof.
  unfold assigns. cbn [mapM]. destruct (assign w) as [kv|] eqn:Ew; [|done]. intros _. cbn. destruct (mapM assign ws) as [kvs|]; [done|].
  intros (pre & w' & post & -> & [kvs Hp] & Hw & ->). exists (w :: pre), w', post. split_and!; [done| |done|done].
  cbn. rewrite Ew. cbn. rewrite Hp. eauto.
Qed.
Lemma parse_parts_assigns l m : assigns (trimmed l) m (parse_parts l m).
Proof.
  revert m. induction l as [|x l IH]; intros m; [done|]. unfold trimmed in *. cbn [parse_parts map]. cbv zeta.
  destruct (decide (TrimSpace x = [])) as [E|E].
  { rewrite filter_cons_False by auto. apply IH. }
  rewrite filter_cons_True by done. destruct (assign (TrimSpace x)) as [kv|] eqn:Ea.
  - pose proof Ea as Ea'. unfold assign in Ea'. destruct (IndexByte (TrimSpace x) _) as [[|i]|]; [done| |done]. injection Ea' as <-.
    apply assigns_cons; [by rewrite Ea|]. rewrite Ea. cbn. apply IH.
  - pose proof Ea as Ea'. unfold assign in Ea'. unfold assigns. cbn [mapM]. rewrite Ea. cbn.
    exists [], (TrimSpace x). eexists. split; [done|]. split; [by eexists|]. split; [done|].
    by destruct (IndexByte (TrimSpace x) _) as [[|i]|].
Qed.
Lemma assigns_app ws1 ws2 m r : assigns ws1 m r -> forall r', (forall m1, r = Ok m1 -> assigns ws2 m1 r') -> (forall e, r = Err e -> r' = Err e) ->
  assigns (ws1 ++ ws2) m r'.
Proof.
  revert m. induction ws1 as [|w ws1 IH]; intros m H1 r' H2 He; [apply H2; unfold assigns in H1; by cbn in *|].
  destruct (assign w) as [kv|] eqn:Ew.
  - cbn [app]. apply assigns_cons; [by rewrite Ew|]. rewrite Ew. apply IH; [|done..]. revert H1. unfold assigns. cbn [mapM]. rewrite Ew. cbn.
    destruct (mapM assign ws1) as [kvs|] eqn:Em; [done|]. intros (pre & w' & post & Heq & [kvs' Hp] & Hw & ->).
    destruct pre as [|w0 pre]; [injection Heq as -> _; congruence|]. injection Heq as -> ->. cbn in Hp. rewrite Ew in Hp. cbn in Hp.
    exists pre, w', post. split_and!; [done| |done|done]. destruct (mapM assign pre); [by eexists|done].
  - revert H1. unfold assigns. cbn [app mapM]. rewrite Ew. cbn. intros (pre & w' & post & Heq & [kvs' Hp] & Hw & ->).
    destruct pre as [|w0 pre]; [|injection Heq as <- _; cbn in Hp; by rewrite Ew in Hp]. injection Heq as -> ->.
    exists [], w', (post ++ ws2). split_and!; [done|by eexists|done|by apply He].
Qed.
Lemma parse_all_assigns l m : assigns (words l) m (parse_all l m).
Proof.
  revert m. induction l as [|raw l IH]; intros m; [done|].
  assert (words (raw :: l) = trimmed (Split raw ","%byte) ++ words l) as ->.
  { unfold words, trimmed. cbn. by rewrite map_app, list_basics.list.filter_app. }
  cbn [parse_all]. eapply assigns_app; [apply parse_parts_assigns| |].
  - intros m1 ->. apply IH.
  - by intros e ->.
Qed.

(** A later assignment of a key wins. *)
Lemma set_all_lookup kvs m (k : bytes) :
  set_all kvs m !! k = match list_basics.list.last (filter (fun kv => kv.1 = k) kvs) with Some kv => Some kv.2 | None => m !! k end.
Proof.
  unfold set_all. rewrite <- fold_left_rev_right. rewrite <- (rev_involutive kvs) at 2. generalize (rev kvs). clear kvs.
  intros l. induction l as [|[k' v] l IH]; [done|]. cbn [foldr rev]. rewrite list_basics.list.filter_app, last_app. cbn [fst snd].
  destruct (decide (k' = k)) as [->|Hne].
  - rewrite filter_cons_True by done. cbn. by rewrite lookup_insert_eq.
  - rewrite filter_cons_False by done. cbn. by rewrite lookup_insert_ne.
Qed.

(** *** Writing variables *)

Definition pair_text (kv : bytes * bytes) : bytes := kv.1 ++ str "=" ++ kv.2.
(** A pair that the flag syntax can express. *)
Record clean (kv : bytes * bytes) : Prop := {
  cl_key : kv.1 <> []; cl_eq : "="%byte ∉ kv.1; cl_comma : ","%byte ∉ pair_text kv; cl_trim : TrimSpace (pair_text kv) = pair_text kv }.

Lemma Split_none s sep : sep ∉ s -> Split s sep = [s].
Proof. induction s as [|c s IH]; cbn; [done|]. intros H. rewrite decide_False, IH by set_solver. done. Qed.
Lemma Split_cons s sep rest : sep ∉ s -> Split (s ++ sep :: rest) sep = s :: Split rest sep.
Proof. induction s as [|c s IH]; cbn; [by rewrite decide_True|]. intros H. rewrite decide_False, IH by set_solver. done. Qed.
Lemma Split_join ws : ws <> [] -> Forall (fun w => ","%byte ∉ w) ws -> Split (join (str ",") ws) ","%byte = ws.
Proof.
  intros Hne H. induction H as [|w ws Hw H IH]; [done|]. destruct ws as [|w2 ws]; [by apply Split_none|].
  rewrite join_cons. change (w ++ str "," ++ join (str ",") (w2 :: ws)) with (w ++ ","%byte :: join (str ",") (w2 :: ws)).
  rewrite Split_cons by done. by rewrite IH.
Qed.
Lemma assign_pair kv : kv.1 <> [] -> "="%byte ∉ kv.1 -> assign (pair_text kv) = Some kv.
Proof.
  destruct kv as [k v]. cbn. intros Hk He. unfold assign, pair_text. cbn [fst snd]. change (k ++ str "=" ++ v) with (k ++ "="%byte :: v).
  rewrite IndexByte_app by done. destruct k as [|c k]; [done|]. cbn [length take app drop]. 
  rewrite take_app_length. f_equal. f_equal. rewrite <- Nat.add_1_r. by rewrite drop_app_add.
Qed.

(** C38: [--var] means what it says.  The flags are the comma-separated, trimmed,
    non-empty words of all occurrences; if each has the form [KEY=VAL] with a
    non-empty key (cut at its first equals sign) the result maps every key to its
    last value, otherwise the first word that has not is reported.  Conversely,
    any list of pairs without commas and surrounding spaces, written out in that
    syntax, is read back as written. *)
Theorem parseVars_correct l kvs : l <> [] -> kvs <> [] -> Forall clean kvs ->
  match mapM assign (words l) with
  | Some kvs => exists m, parseVars l = Ok (Some m) /\
      forall k, m !! k = snd <$> list_basics.list.last (filter (fun kv : bytes * bytes => kv.1 = k) kvs)
  | None => exists pre w post, words l = pre ++ w :: post /\ is_Some (mapM assign pre) /\ assign w = None /\
      parseVars l = Err (Errorf (str "invalid --var %q: must be KEY=VAL") [FStr w])
  end /\
  exists m, parseVars [join (str ",") (map pair_text kvs)] = Ok (Some m) /\
    forall k, m !! k = snd <$> list_basics.list.last (filter (fun kv : bytes * bytes => kv.1 = k) kvs).
Proof.
  intros Hl Hk Hc.
  assert (forall kvs k, set_all kvs ∅ !! k = snd <$> list_basics.list.last (filter (fun kv : bytes * bytes => kv.1 = k) kvs)) as Hlast.
  { intros kvs' k. rewrite set_all_lookup, lookup_empty. by destruct (list_basics.list.last _). }
  assert (forall l, l <> [] -> parseVars l = (out ← parse_all l ∅; Ok (Some out))) as Hp by (intros []; done).
  split.
  - rewrite Hp by done. pose proof (parse_all_assigns l ∅) as Ha. unfold assigns in Ha. destruct (mapM assign (words l)) as [kvs'|].
    + rewrite Ha. cbn. eauto.
    + destruct Ha as (pre & w & post & ? & ? & ? & ->). eauto 10.
  - rewrite Hp by done. set (raw := join _ _). pose proof (parse_all_assigns [raw] ∅) as Ha. unfold assigns in Ha.
    assert (words [raw] = map pair_text kvs) as Hw.
    { unfold words, raw. cbn. rewrite app_nil_r, Split_join.
      - clear -Hc. induction Hc as [|kv kvs Hkv _ IH]; [done|]. cbn [map]. rewrite (cl_trim kv Hkv), filter_cons_True, IH; [done|].
        pose proof (cl_key kv Hkv). unfold pair_text. by destruct kv.1.
      - by destruct kvs.
      - apply Forall_map. eapply Forall_impl; [exact Hc|]. intros kv Hkv. apply (cl_comma kv Hkv). }
    assert (mapM assign (map pair_text kvs) = Some kvs) as Hm.
    { clear -Hc. induction Hc as [|kv kvs Hkv _ IH]; [done|]. cbn. rewrite assign_pair by apply Hkv. cbn. by rewrite IH. }
    rewrite Hw, Hm in Ha. rewrite Ha. cbn. eauto.
Qed.

(** ** Exit codes *)

Section exits.
Context {U : Unicode}.

(** Computations that return [a] and print to stdout at most. *)
Definition quiet {A} (a : A) (m : M proc A) : Prop :=
  forall p, exists p', m p = (Ok a, p') /\ p_stderr p' = p_stderr p /\ p_effects p' = p_effects p.
Lemma quiet_print b : quiet tt (print b).
Proof. intros p. by eexists. Qed.
Lemma quiet_ret {A} (a : A) : quiet a (mret a).
Proof. intros p. by eexists. Qed.
Lemma quiet_seq {A} (a : A) m1 m2 : quiet tt m1 -> quiet a m2 -> quiet a (m1;; m2).
Proof.
  intros H1 H2 p. destruct (H1 p) as (p1 & E1 & S1 & F1). destruct (H2 p1) as (p2 & E2 & S2 & F2).
  exists p2. split; [by mrun E1|]. split; congruence.
Qed.
Lemma quiet_each {A} (f : A -> M proc unit) l : (forall a, quiet tt (f a)) -> quiet tt (each f l).
Proof. intros Hf. induction l; cbn [each]; [apply quiet_ret|by apply quiet_seq]. Qed.

Lemma renderUse_ok json resp : rp_OK resp = true -> quiet None (renderUse json resp).
Proof.
  intros Hok. unfold renderUse, exitErrIfNotOK. rewrite Hok. cbn [negb]. destruct json; [apply quiet_seq; [apply quiet_print|apply quiet_ret]|].
  repeat apply quiet_seq; try case_decide; repeat apply quiet_seq;
    first [apply quiet_print|apply quiet_ret|apply quiet_each; intros; apply quiet_print].
Qed.
Lemma renderUse_exit json resp p : exists code p', main_exit (renderUse json resp) p = (Ok code, p') /\ p_effects p' = p_effects p /\
  (if rp_OK resp then code = 0 /\ p_stderr p' = p_stderr p else code = if json then 2 else 1).
Proof.
  destruct (rp_OK resp) eqn:Hok; unfold main_exit.
  - destruct (renderUse_ok json resp Hok p) as (p' & -> & Hs & Hf). by exists 0, p'.
  - unfold renderUse, exitErrIfNotOK. rewrite Hok. cbn [negb]. destruct json; [by eexists _, _|].
    case_decide; by eexists _, _.
Qed.
End exits.

(** ** dbpivot use, from the flags to the databases *)

Section use.
Context {U : Unicode} {J : JsonText} {Di : Dialer} {T : TLS} {Scram_ : Scram} {RSA_ : RSA} {Rand_ : Rand}.
Context (unmarshal_socket : bytes -> error + bytes) (file : error + bytes) (o1 o2 o3 : list bytes).

End use.

(** ** dbpivot serve *)

Section serve.
Context {U : Unicode} {J : JsonText} {X : UnixSocket} {Di : Dialer} {T : TLS} {Scram_ : Scram} {RSA_ : RSA} {Rand_ : Rand}.
Context (unmarshal : bytes -> error + Config) (flagConfig : bytes) (file : error + bytes) (chunks : list nat).
Context (bind_unix chmod : bytes -> option error).
Context (listen : bytes -> error + bytes) (addrs : list (bytes * bytes)) (returns : list (option error)).
Context (ports : list (bytes * Z)) (fwds : list (bytes * ForwardTarget)) (ports2 : list (bytes * Z)) (o1 o2 o3 : list bytes).

Definition loaded : res Config := (Load unmarshal ports fwds ports2 flagConfig true file []).1.
(** The map orders are those of the loaded configuration. *)
Definition orders_of (cfg : Config) : Prop :=
  ports ≡ₚ map_to_list (ListenPorts cfg) /\ fwds ≡ₚ map_to_list (ForwardTargets cfg) /\
  o1 ≡ₚ elements (dom (new_databases cfg)) /\ o2 ≡ₚ elements (dom (new_databases cfg)) /\ o3 ≡ₚ elements (dom (new_databases cfg)).
Definition orders_ok : Prop := forall data cfg, file = inr data -> unmarshal data = inr cfg -> orders_of cfg.
Definition socket_of (cfg : Config) : bytes := if decide (ControlSocket cfg = []) then DefaultControlSocket else ControlSocket cfg.
(** Another daemon answers the ping with OK. *)
Definition answered (cfg : Config) : Prop := exists resp, (TryProbe chunks (socket_of cfg)).1 = Ok resp /\ rp_OK resp = true.

Lemma loaded_cases : orders_ok ->
  (exists cfg, loaded = Ok cfg /\ config_valid cfg /\ orders_of cfg) \/ (exists e, loaded = Err e).
Proof.
  intros Ho. unfold loaded, Load. destruct file as [e|data] eqn:Ef; [right; unfold fail; eauto|].
  destruct (unmarshal data) as [e|cfg] eqn:Eu; [right; unfold fail; eauto|]. destruct (Ho data cfg Ef Eu) as (Hp & Hf & H1 & H2 & H3).
  set (cfg' := if decide (ControlSocket cfg = []) then _ else _).
  assert (ListenPorts cfg' = ListenPorts cfg /\ ForwardTargets cfg' = ForwardTargets cfg /\ new_databases cfg' = new_databases cfg) as (Q1 & Q2 & Q3)
    by (subst cfg'; by case_decide).
  rewrite <- Q1 in Hp. rewrite <- Q2 in Hf. destruct (checks_Validate cfg' ports ports2 fwds Hp Hf true []) as [[Hc (w & E)]|[_ (e & w & E)]]; mrun E.
  - left. exists cfg'. split_and!; [done|done|]. unfold orders_of. by rewrite Q3.
  - right. cbn. eauto.
Qed.
Lemma TryProbe_safe path : (forall c, net_Dial path = inr c -> healthy c) -> safe (TryProbe chunks path).1.
Proof.
  intros Hd. unfold TryProbe. destruct (net_Dial path) as [e|c]; [done|]. specialize (Hd c eq_refl). unfold try_on.
  mrun (Write_healthy (status_ping ++ [newline]) c Hd). set (c1 := set_tx _ c).
  destruct (read_line_spec chunks c1) as (rest & E); [done|]. destruct (IndexByte (rx c1) newline); mrun E; [|done]. cbn. apply Unmarshal_safe.
Qed.

(** Whether the ping found a socket that nobody listens on, which is removed. *)
Definition refused (cfg : Config) : Prop := exists perr, (TryProbe chunks (socket_of cfg)).1 = Err perr /\ IsRefused (Some perr) = true.
Definition stale_removed (cfg : Config) (pre : list effect) : Prop :=
  (refused cfg /\ pre = [Removed (socket_of cfg)]) \/ (~ refused cfg /\ pre = []).
(** The daemon is made: all databases on the requested target and its variables,
    and one health line for each active one. *)
Definition made (cfg : Config) (target : bytes) (flagVars : list bytes) (d : Server) (ps : list ProbeResult) : Prop :=
  exists vars, parseVars flagVars = Ok vars /\ New o1 o2 cfg target vars = Ok d /\ server_ok d /\ CurrentTarget d = (target, vars) /\
    Forall2 reports (probe_jobs o3 d) ps.
Definition bind_error (cfg : Config) (err : error) : error :=
  Errorf (str "bind control socket %s: %w") [FStr (socket_of cfg); FErr err].
(** What can go wrong before the control server runs: the error, and the effects
    up to it. *)
Inductive setup_fails (cfg : Config) (target : bytes) (flagVars : list bytes) : error -> list effect -> Prop :=
  | bad_variable e : parseVars flagVars = Err e -> setup_fails cfg target flagVars e []
  | no_switch vars e : parseVars flagVars = Ok vars -> New o1 o2 cfg target vars = Err e ->
      ~ switchable target (default ∅ vars) (mkServer ∅ 0 ∅ (mkStore (new_databases cfg) ∅ ∅) cfg [] vars false) ->
      setup_fails cfg target flagVars e []
  | no_socket d ps err : made cfg target flagVars d ps -> bind_unix (socket_of cfg) = Some err ->
      setup_fails cfg target flagVars (bind_error cfg err) [Probed ps; Removed (socket_of cfg)]
  | no_permission d ps err : made cfg target flagVars d ps -> bind_unix (socket_of cfg) = None -> chmod (socket_of cfg) = Some err ->
      setup_fails cfg target flagVars (bind_error cfg err) [Probed ps; Removed (socket_of cfg); Bound (socket_of cfg); Unbound (socket_of cfg)].
(** The effects of the start-up up to the control server. *)
Definition up_effects (cfg : Config) (ps : list ProbeResult) : list effect :=
  [Probed ps; Removed (socket_of cfg); Bound (socket_of cfg); Serving (socket_of cfg)].

(** The ways [dbpivot serve] can end, with the effects it had. *)
Inductive serve_outcome (target : bytes) (flagVars : list bytes) : res (option Z) -> list effect -> Prop :=
  | bad_config e : loaded = Err e -> serve_outcome target flagVars (Err e) []
  | already_running cfg : loaded = Ok cfg -> answered cfg -> serve_outcome target flagVars (Ok (Some 1)) []
  | setup_failed cfg pre e es : loaded = Ok cfg -> config_valid cfg -> ~ answered cfg -> stale_removed cfg pre ->
      setup_fails cfg target flagVars e es -> serve_outcome target flagVars (Err e) (pre ++ es)
  | listen_failed cfg pre d ps e : loaded = Ok cfg -> config_valid cfg -> ~ answered cfg -> stale_removed cfg pre ->
      made cfg target flagVars d ps -> open_listeners listen addrs ∅ = Err e ->
      serve_outcome target flagVars (Err e) (pre ++ up_effects cfg ps)
  | served cfg pre d ps ls : loaded = Ok cfg -> config_valid cfg -> ~ answered cfg -> stale_removed cfg pre ->
      made cfg target flagVars d ps -> open_listeners listen addrs ∅ = Ok ls -> dom ls = list_to_set (UsedAdapters cfg) ->
      serve_outcome target flagVars (match Start_wait returns with Some e => Err e | None => Ok None end)
        (pre ++ up_effects cfg ps ++ [Listening ls]).

Lemma open_listeners_spec l acc :
  (exists ls, open_listeners listen l acc = Ok ls /\ dom ls = dom acc ∪ list_to_set l.*1) \/ exists e, open_listeners listen l acc = Err e.
Proof.
  revert acc. induction l as [|[x addr] l IH]; intros acc; cbn; [left; exists acc; split; [done|set_solver]|].
  destruct (listen addr) as [e|y]; [right; eauto|]. destruct (IH (<[x := y]> acc)) as [(ls & -> & Hd)|He]; [left|by right].
  exists ls. split; [done|]. rewrite Hd, dom_insert_L. set_solver.
Qed.
Lemma Start_cases d p : s_closed d = false ->
  (exists e, open_listeners listen addrs ∅ = Err e /\ Start listen addrs returns d p = (Err e, p)) \/
  exists ls p', open_listeners listen addrs ∅ = Ok ls /\ dom ls = list_to_set addrs.*1 /\ p_effects p' = p_effects p ++ [Listening ls] /\
    Start listen addrs returns d p = (match Start_wait returns with Some e => Err e | None => Ok tt end, p').
Proof.
  intros Hc. unfold Start, Start_bind, gets, modify, lift, mbind, M_bind, mret, M_ret.
  destruct (open_listeners_spec addrs ∅) as [(ls & E & Hd)|(e & E)]; rewrite E; [right|left; eauto]. rewrite Hc.
  exists ls, (mkProc (p_stdout p) (p_stderr p) (p_effects p ++ [Listening ls])). split; [done|].
  rewrite dom_empty_L in Hd. split; [set_solver|]. split; [done|]. by destruct (Start_wait returns).
Qed.

(** The order in which [Start] visits the listeners is one of the daemon's. *)
Definition addrs_ok (target : bytes) : Prop := forall cfg vars d, loaded = Ok cfg -> New o1 o2 cfg target vars = Ok d ->
  addrs ≡ₚ map_to_list (listenAddrs d).

Lemma start_serving_cases cfg target flagVars pre p : network_ok -> config_valid cfg -> orders_of cfg -> addrs_ok target -> loaded = Ok cfg ->
  ~ answered cfg -> stale_removed cfg pre ->
  exists out p' es, start_serving bind_unix chmod listen addrs returns o1 o2 o3 cfg (socket_of cfg) target flagVars p = (out, p') /\
    p_effects p' = p_effects p ++ es /\ serve_outcome target flagVars out (pre ++ es).
Proof.
  intros Hn Hv (_ & _ & H1 & H2 & H3) Ha Hl Hna Hpre. unfold start_serving.
  assert (safe (parseVars flagVars)) as Hpv.
  { destruct flagVars as [|raw l]; [done|]. unfold parseVars. pose proof (parse_all_assigns (raw :: l) ∅) as Has. unfold assigns in Has.
    destruct (mapM _ _); [by rewrite Has|]. by destruct Has as (? & ? & ? & _ & _ & _ & ->). }
  destruct (parseVars flagVars) as [vars|e| |] eqn:Ev; [| |done..].
  2: { exists (Err e), p, []. split; [done|]. split; [by rewrite app_nil_r|]. by eapply setup_failed, bad_variable. }
  rewrite (M_bind_lift_ok _ _ _ vars eq_refl).
  destruct (New_correct o1 o2 cfg target vars Hv H1 H2) as [(d & En & Hd & Ht & Hdom & _ & Hcl)|(e & En & Hno)].
  2: { exists (Err e), p, []. split; [by mlift En|]. split; [by rewrite app_nil_r|]. by eapply setup_failed, no_switch. }
  mlift En. destruct (probe_all_reports (probe_jobs o3 d) Hn) as (ps & Ep & Hps). change (probe_all (probe_jobs o3 d)) with (ProbeActive o3 d) in Ep.
  assert (made cfg target flagVars d ps) as Hm by (by exists vars).
  mlift Ep. unfold control_Listen. erewrite M_bind_ok by reflexivity. destruct (bind_unix (socket_of cfg)) as [e|] eqn:Eb.
  { eexists _, _, [Probed ps; Removed (socket_of cfg)]. split; [reflexivity|]. split; [cbn; by rewrite <- app_assoc|]. by eapply setup_failed, no_socket. }
  destruct (chmod (socket_of cfg)) as [e|] eqn:Ec.
  { eexists _, _, [Probed ps; Removed (socket_of cfg); Bound (socket_of cfg); Unbound (socket_of cfg)]. split; [reflexivity|].
    split; [cbn; by rewrite <- !app_assoc|]. by eapply setup_failed, no_permission. }
  set (p1 := mkProc (p_stdout p) (p_stderr p) (p_effects p ++ up_effects cfg ps)).
  assert (forall out p', (Start listen addrs returns d;; mret (@None Z)) p1 = (out, p') -> exists p2,
    (perform (Probed ps);; with_err (fun err => Errorf (str "bind control socket %s: %w") [FStr (socket_of cfg); FErr err])
      (perform (Removed (socket_of cfg));; perform (Bound (socket_of cfg));; mret tt);; perform (Serving (socket_of cfg));;
      Start listen addrs returns d;; mret (@None Z)) p = (out, p2) /\ p2 = p') as Hrun.
  { intros out p' E. exists p'. split; [|done]. rewrite <- E. unfold perform, modify, with_err, mbind, M_bind, mret, M_ret. cbn.
    match goal with |- (let (_, _) := Start _ _ _ _ ?q in _) = _ => replace q with p1; [done|] end.
    apply (f_equal (mkProc _ _)). by rewrite <- !app_assoc. }
  destruct (Start_cases d p1 Hcl) as [(e & El & Es)|(ls & p' & El & Hls & Hp' & Es)].
  - destruct (Hrun (Err e) p1) as (p2 & E2 & ->); [by mrun Es|]. exists (Err e), p1, (up_effects cfg ps). split; [exact E2|]. split; [done|]. by eapply listen_failed.
  - destruct (Hrun (match Start_wait returns with Some e => Err e | None => Ok None end) p') as (p2 & E2 & ->);
      [destruct (Start_wait returns); by mrun Es|].
    eexists _, p', (up_effects cfg ps ++ [Listening ls]). split; [exact E2|]. split; [rewrite Hp'; unfold p1; cbn [p_effects]; by rewrite <- app_assoc|].
    eapply served; try done. rewrite Hls, <- Hdom, (Ha cfg vars d Hl En). apply set_eq. intros x.
    rewrite elem_of_list_to_set, list_elem_of_fmap, elem_of_dom. split.
    + intros ([y v] & -> & Hy%elem_of_map_to_list). by exists v.
    + intros [v Hx]. exists (x, v). split; [done|]. by apply elem_of_map_to_list.
Qed.

(** C28: starting the daemon.  [dbpivot serve] ends in exactly one of these ways, for
    any configuration, any other daemon and any order of the maps.  The
    configuration cannot be loaded: that error, nothing touched.  Another daemon
    answers on the control socket: it exits with 1 and has touched nothing,
    neither the socket nor an upstream.  The set-up fails -- a malformed variable,
    a target some database cannot follow, the control socket cannot be bound or
    its mode set --: that error, and it holds no socket.  Otherwise the daemon is
    up, from a configuration that passes validation, with all databases on the
    requested target and its variables, after a health check of exactly the active
    targets; the control socket is bound and served before the listeners are
    opened.  If a listener cannot be opened, it returns that error and leaves its
    socket file behind; else it listens for exactly the adapters in use, and
    returns the first error of an accept loop. *)
Theorem runServe_correct target flagVars p : network_ok -> (forall path c, net_Dial path = inr c -> healthy c) -> orders_ok -> addrs_ok target ->
  exists out p' es,
    runServe unmarshal flagConfig file chunks bind_unix chmod listen addrs returns ports fwds ports2 o1 o2 o3 target flagVars p = (out, p') /\
    p_effects p' = p_effects p ++ es /\ serve_outcome target flagVars out es.
Proof.
  intros Hn Hd Ho Ha. unfold runServe. fold loaded.
  destruct (loaded_cases Ho) as [(cfg & El & Hv & Hord)|(e & El)].
  2: { rewrite (M_bind_lift_err _ _ _ e El). eexists _, _, []. split; [reflexivity|]. split; [by rewrite app_nil_r|by apply bad_config]. }
  rewrite (M_bind_lift_ok _ _ _ cfg El). cbv zeta. fold (socket_of cfg).
  pose proof (TryProbe_safe (socket_of cfg) (Hd (socket_of cfg))) as Hs.
  assert (forall pre p0, stale_removed cfg pre -> p_effects p0 = p_effects p ++ pre -> ~ answered cfg ->
    exists out p' es, start_serving bind_unix chmod listen addrs returns o1 o2 o3 cfg (socket_of cfg) target flagVars p0 = (out, p') /\
      p_effects p' = p_effects p ++ es /\ serve_outcome target flagVars out es) as Hgo.
  { intros pre p0 Hpre Hp0 Hna. destruct (start_serving_cases cfg target flagVars pre p0 Hn Hv Hord Ha El Hna Hpre) as (out & p' & es & E & Hes & Hout).
    exists out, p', (pre ++ es). split; [done|]. split; [by rewrite Hes, Hp0, app_assoc|done]. }
  destruct (TryProbe chunks (socket_of cfg)).1 as [resp|perr| |] eqn:Et; [| |done..].
  - destruct (rp_OK resp) eqn:Eo.
    + eexists _, _, []. split; [reflexivity|]. split; [by rewrite app_nil_r|]. apply (already_running _ _ cfg); [done|by exists resp].
    + apply (Hgo []); [|by rewrite app_nil_r|]; [right; split; [|done]; intros (e & E' & _); congruence|].
      intros (resp' & E' & H'). rewrite Et in E'. congruence.
  - assert (~ answered cfg) as Hna by (intros (resp' & E' & _); rewrite Et in E'; congruence).
    destruct (IsRefused (Some perr)) eqn:Er; erewrite M_bind_ok by reflexivity; [apply (Hgo [Removed (socket_of cfg)])|apply (Hgo [])]; try done.
    + left. split; [by exists perr|done].
    + right. split; [|done]. intros (e & E' & Hr). rewrite Et in E'. injection E' as ->. congruence.
    + by rewrite app_nil_r.
Qed.
End serve.

(** ** Witnesses *)

Example trim_unicode : TrimSpace ([Byte.xc2; Byte.xa0; " "%byte] ++ str "K=a b" ++ [Byte.x0a; Byte.xe3; Byte.x80; Byte.x80]) = str "K=a b".
Proof. vm_compute. reflexivity. Qed.

Lemma parseVars_correct_witness : exists m, parseVars [str "A=1, B=2,,A=3"; str "C=x=y"] = Ok (Some m) /\
  m !! str "A" = Some (str "3") /\ m !! str "C" = Some (str "x=y").
Proof.
  assert (clean (str "K", str "v")) as Hc by (split; [discriminate|absent|absent|vm_compute; reflexivity]).
  destruct (parseVars_correct [str "A=1, B=2,,A=3"; str "C=x=y"] [(str "K", str "v")] ltac:(discriminate) ltac:(discriminate)
    (Forall_cons_2 _ _ _ Hc (Forall_nil_2 _))) as [H _].
  assert (mapM assign (words [str "A=1, B=2,,A=3"; str "C=x=y"]) =
    Some [(str "A", str "1"); (str "B", str "2"); (str "A", str "3"); (str "C", str "x=y")]) as E by (vm_compute; reflexivity).
  rewrite E in H. destruct H as (m & Em & Hm). exists m. split; [exact Em|]. split; rewrite Hm; vm_compute; reflexivity.
Defined.


Definition no_daemon : UnixSocket := {| net_Dial _ := inl (ESys (str "connect: connection refused")); is_not_exist _ := false |}.
Lemma sample_orders_ok : orders_ok (fun _ => inr sample_config) (inr []) [(str "postgres", 6432)]
  [(str "ssm", mkForwardTarget (str "127.0.0.1") 15432)] sample_orders sample_orders sample_orders.
Proof. intros data cfg _ [= <-]. split_and!; try exact (reflexivity _); vm_compute; reflexivity. Qed.
Definition sample_listen (addr : bytes) : error + bytes := inr addr.
Definition sample_addrs : list (bytes * bytes) := [(str "postgres", str "127.0.0.1:6432")].
Lemma sample_addrs_ok : addrs_ok (fun _ => inr sample_config) (str "x.yml") (inr []) sample_addrs [(str "postgres", 6432)]
  [(str "ssm", mkForwardTarget (str "127.0.0.1") 15432)] [] sample_orders sample_orders (str "local").
Proof.
  intros cfg vars d Hl Hn%New_addrs.
  assert (loaded (fun _ => inr sample_config) (str "x.yml") (inr []) [(str "postgres", 6432)]
    [(str "ssm", mkForwardTarget (str "127.0.0.1") 15432)] [] = Ok sample_config) as E by (vm_compute; reflexivity).
  rewrite E in Hl. injection Hl as <-.
  assert (bind_addrs sample_config (UsedAdapters sample_config) ∅ = Ok {[str "postgres" := str "127.0.0.1:6432"]}) as Eb by (vm_compute; reflexivity).
  rewrite Eb in Hn. injection Hn as <-. reflexivity.
Qed.
Lemma runServe_correct_witness : exists out p' sock ps ls,
  @runServe toy_unicode toy_text no_daemon (fun _ => inr sample_config) (str "x.yml") (inr []) [] (toy_dialer probed_pg) (toy_tls probed_pg) toy_scram toy_rsa
    (fun _ => None) (fun _ => None) sample_listen sample_addrs [] [(str "postgres", 6432)] [(str "ssm", mkForwardTarget (str "127.0.0.1") 15432)] []
    sample_orders sample_orders sample_orders (str "local") [] (mkProc [] [] []) = (out, p') /\
  p_effects p' = [Removed sock; Probed ps; Removed sock; Bound sock; Serving sock; Listening ls] /\ dom ls = {[str "postgres"]} /\ out = Ok None.
Proof.
  destruct (@runServe_correct toy_unicode toy_text no_daemon (toy_dialer probed_pg) (toy_tls probed_pg) toy_scram toy_rsa (fun _ => inr sample_config) (str "x.yml") (inr []) []
    (fun _ => None) (fun _ => None) sample_listen sample_addrs [] [(str "postgres", 6432)] [(str "ssm", mkForwardTarget (str "127.0.0.1") 15432)] []
    sample_orders sample_orders sample_orders (str "local") [] (mkProc [] [] []) (toy_network probed_pg (conj eq_refl eq_refl))
    ltac:(discriminate) sample_orders_ok sample_addrs_ok) as (out & p' & es & E & Hes & Hout).
  set (shape := fun x : res (option Z) * proc => match x.1, p_effects x.2 with Ok None, [Removed _; Probed _; Removed _; Bound _; Serving _; Listening _] => true | _, _ => false end).
  assert (shape (out, p') = true) as Hshape by (rewrite <- E; vm_compute; reflexivity).
  assert (forall cfg, loaded (fun _ => inr sample_config) (str "x.yml") (inr []) [(str "postgres", 6432)]
    [(str "ssm", mkForwardTarget (str "127.0.0.1") 15432)] [] = Ok cfg -> cfg = sample_config) as Hcfg.
  { intros cfg. assert (loaded (fun _ => inr sample_config) (str "x.yml") (inr []) [(str "postgres", 6432)]
      [(str "ssm", mkForwardTarget (str "127.0.0.1") 15432)] [] = Ok sample_config) as -> by (vm_compute; reflexivity). by intros [= <-]. }
  exists out, p'. unfold shape in Hshape. cbn [fst snd] in Hshape. rewrite Hes in Hshape |- *. cbn [p_effects app] in *.
  destruct Hout as [e|cfg|cfg pre e es|cfg pre d ps e|cfg pre d ps ls Hl _ _ Hpre _ _ Hls]; try discriminate Hshape.
  apply Hcfg in Hl as ->. destruct Hpre as [[_ ->]|[_ ->]]; [|discriminate Hshape].
  exists (socket_of sample_config), ps, ls. split; [exact E|]. split; [reflexivity|]. split; [|reflexivity]. rewrite Hls. vm_compute. reflexivity.
Defined.

(** ** Two daemons hand over *)

(** Whether the socket file exists after the effects. *)
Definition socket_exists (es : list effect) : bool :=
  fold_left (fun b e => match e with Removed _ | Unbound _ => false | Bound _ => true | _ => b end) es false.
Definition answer_of (d : Server) : bytes :=
  tx (ct_conn (@handle toy_unicode toy_text Server
    (@proxy_daemon toy_unicode (toy_dialer probed_pg) (toy_tls probed_pg) toy_scram toy_rsa sample_orders sample_orders sample_orders)
    sample_config sample_orders [] (mkCtl d (fresh (status_ping ++ [newline])))).2).
(** A second daemon, started on the same configuration while [d] holds the socket. *)
Definition second_serve (d : Server) : res (option Z) * proc :=
  @runServe toy_unicode toy_text (toy_socket (fresh (answer_of d))) (fun _ => inr sample_config) (str "x.yml") (inr []) []
    (toy_dialer probed_pg) (toy_tls probed_pg) toy_scram toy_rsa
    (fun _ => None) (fun _ => None) sample_listen sample_addrs [] [(str "postgres", 6432)] [(str "ssm", mkForwardTarget (str "127.0.0.1") 15432)] []
    sample_orders sample_orders sample_orders (str "local") [] (mkProc [] [] []).

(** Between the start of a daemon's [Shutdown] and the end of its process it answers
    the ping of a second one with an error, which the second one takes for "no
    daemon": it removes and binds the socket and serves.  If the signal goroutine
    of the first one still gets to its clean-up (Life.v: the process may end
    before), it removes the socket of the second one.  Against a daemon that is
    not shutting down the second one gives up. *)
Theorem handover_loses_socket :
  (second_serve sample_server).1 = Ok (Some 1) /\
  (second_serve (Shutdown sample_orders sample_server).2).1 = Ok None /\
  socket_exists (p_effects (second_serve (Shutdown sample_orders sample_server).2).2) = true /\
  socket_exists (p_effects (signal_cleanup DefaultControlSocket (second_serve (Shutdown sample_orders sample_server).2).2).2) = false.
Proof. split_and!; vm_compute; reflexivity. Qed.
